(* ===== verification/_CoqProject ===== *)
-Q . S2P
Prelude.v
GoStd.v
Protocol.v
GtbsState.v
Inventory.v
GtbsClient.v
Control.v
LeCall.v
Lc3.v
Handoff.v
Qos.v
Broker.v
Acquire.v
Watch.v
Sessions.v
Advert.v
GoText.v
GoJson.v
GoBase64.v
GoXml.v
GoUrl.v
GoTime.v
GoSha.v
GoAes.v
Obex.v
SmsStore.v
StateJson.v
Message.v
GoMime.v
MmsRead.v
MapSession.v
Mns.v
Ami.v
GoNet.v
SmsConfig.v
Media.v
SmsService.v
SmsHttp.v
HttpAnswers.v
SmsLoop.v
SmsSystem.v
SmsExamples.v
SafeLog.v
Rfcomm.v
SinkNudge.v
Sockets.v
Endpoint.v
MediaGate.v
SmsStartup.v
