(* ===== verification/Prelude.v ===== *)
(** * Call Bridge LE Audio services: a verification development

    The repository turns an Asterisk machine into a Bluetooth LE Audio headset for an
    Android phone.  Two Go programs share it: [le-call-go] (call control over GTBS
    and the media broker) and [sms-bridge] (SMS and MMS over the Message Access
    Profile, with an optional broker of its own); a one-shot command, [le-sink-nudge],
    refreshes the phone's view.  This development models all three.

    ** The program and the files that model it

    Shared ground:

    - [Prelude] (this file), [GoStd], [GoText], [GoNet]: Go's errors and results, byte
      slices, fixed-width integers (a w-bit value is a [Z] with its wrap-around written
      out), record update for struct assignment, and the functions of the standard
      library the code uses on text, numbers, UTF-8 and addresses.
    - [GoJson], [GoBase64], [GoXml], [GoUrl], [GoTime], [GoSha], [GoAes], [GoMime]: what the code
      uses of encoding/json, encoding/base64, encoding/xml, net/url, time, crypto/sha256, crypto/aes,
      and of net/mail, mime, mime/multipart and the content sniffer of net/http, as functions
      on bytes, with round trips between writers and readers.

    Call control and media (src/callbridge-le-call-go, and internal/bluez of
    src/callbridge-sms-go):

    - [Protocol]: the 128-byte call-control packet between [le-call-go] and the
      Asterisk channel driver (internal/protocol/protocol.go).
    - [GtbsState]: the store of live calls, their tokens, identities and claims
      (internal/gtbs/state.go).  Go visits maps in any order: a loop over a map takes
      the order as an argument and theorems quantify over it.
    - [Inventory]: finding the phone's telephone bearer service in BlueZ's object
      tree (internal/gtbs/inventory.go).
    - [GtbsClient]: the session with that service, its notifications, commands and
      retries (internal/gtbs/client.go).  D-Bus replies and signals are inputs, and a
      session is a list of inputs in any order.
    - [Control]: the socket server for the channel driver (internal/control/server.go).
    - [LeCall]: how cmd/le-call-go/main.go wires store, client, server and broker.
    - [Lc3]: length-type-value lists and the LC3 presets (internal/bluez/lc3.go).
    - [Handoff]: the descriptor packet and the server that passes transports to the
      media driver (internal/bluez/handoff.go).
    - [Qos]: the endpoint half of internal/bluez/broker.go: codec and QoS negotiation.
    - [Broker]: the broker's state and every operation under its mutex.  Session
      objects are shared by pointer between goroutines, so they live in a heap and
      are named by address.
    - [Acquire]: [Broker.acquire] cut into its phases at the points where it gives up
      the mutex; [Watch]: one turn of [watchActiveSession].
    - [Sessions]: the interleaving of all of these: a step relation over the broker,
      the running goroutines and the kernel's open descriptors, with a reachable
      published session as a worked run.
    - [Advert]: [runBlueZOnce]'s set-up, its serving loop and the advertisement beside the radio that
      carries it;
      [Endpoint]: the exported methods and properties, the reads and waits at the edge of
      the broker, and the redaction of error texts.
    - [Sockets]: [Run] and [close] of the two socket servers, written once over a class
      whose instances are the turns of [Control] and [Handoff] with what the other goroutines
      do to the server meanwhile.
    - [SinkNudge]: internal/bluez/sink_nudge.go and cmd/le-sink-nudge/main.go.
    - [MediaGate]: the options and construction in runServe, and the call store and the broker
      running together, in every interleaving of their operations.

    SMS (src/callbridge-sms-go):

    - [Obex]: packets, headers and names (internal/obex/obex.go) over any [Transport];
      [Rfcomm]: the sockets that are one (internal/bt/rfcomm.go).
    - [SmsStore]: the persistent state (internal/state/store.go), with every step of a
      save able to fail or to be the last one before the process is killed, over any
      encoding that keeps its laws; [StateJson]: the JSON of the file, which keeps them.
    - [Message]: bMessages, MMS, splitting and numbers (internal/message/message.go,
      internal/model/model.go), over a class of MIME readers; [MmsRead]: picture messages read
      with the readers of [GoMime].
    - [MapSession]: the MAP client (internal/mapclient/session.go) in a monad of state,
      error and panic; [Mns]: the notification server (internal/mns/server.go).
    - [Ami], [Media], [SmsConfig], [SafeLog]: the manager client, the media upload, the
      configuration and the log (internal/ami, media, config, safelog).
    - [SmsService]: the delivery service (internal/bridge/service.go, status.go), written
      against the classes [MapClient], [AmiSender] and [Uploader], whose instances are the
      components above; [SmsHttp]: its HTTP handlers (http.go) down to the bytes of requests and
      answers; [HttpAnswers]: the contract of those answers; [SmsStartup]: [New], [Run]
      and the command (cmd/sms-bridge/main.go); [SmsExamples]: concrete peers.
    - [SmsLoop]: the MAP loop as a machine that other goroutines can come between, tied to the
      loop in [SmsService] by a simulation; [SmsSystem]: loop, request handlers and
      notification server together over the shared store and channels, in every interleaving.

    ** What is shown

    Packets: encoding and decoding are inverse on what the validators accept, for
    calls, identities, transport descriptors, LC3 configurations, OBEX packets, headers and
    names, and outgoing messages.  Calls: the store's invariant over arbitrary
    input bytes, the exact effect of each update, and the gate that lets a call's audio
    reach this side; with store and broker running together, no media session exists for any other call.
    Client and server: readiness, results, snapshots and acknowledgements over every
    interleaving of inputs; packets only for authorised peers; a snapshot sent is the
    snapshot received.  Broker: over every interleaving, descriptors are closed
    exactly once and never leak, a session is released at most once and always has a
    goroutine that will end it, generations are strictly fresh; the release protocol
    makes at most three attempts per path and then closes the owning connection;
    leases are enforced by the watcher; the phone away and no hold, the advertisement is on the
    air or about to be, unless BlueZ itself dropped it.  Sockets: both servers close every
    descriptor they opened, and remove their socket where removing works.
    SMS: the store refines an atomic one under failing saves, kills and restarts, the one flag that is
    not taken back excepted, and its file reads back as what was saved; a message is marked on disk before any recipient sees it and
    is forwarded at most once; an outgoing message is tried at most once, in order, is never left
    behind, and an accepted one reached the phone byte for byte; a request gets the answer to its own command;
    listings and event reports arrive whole from the XML the phone writes, and picture messages
    from their MIME text with every text and image; media go to the
    service's host only, encrypted, and can be read by the recipient; every HTTP answer is JSON
    with the mark that supervision looks for exactly when it is good;
    the notification server filters arbitrary peer bytes into well-formed events and ends;
    what is shown fits the SIP limit and, being UTF-8, is complete; the outbox serves only allowed
    sources; the log is bounded; a loaded configuration is within every bound and is
    accepted by the components.  Some theorems record where the code departs from its
    intent.

    ** Choices

    Recursion is structural, or has fuel that is shown to be enough: the length of the
    bytes left where every round consumes one ([headers_loop], [put_loop], the splitting and
    replacing loops), the bytes the peer will send in [handle] (see [handle_ends]), and the
    nesting bound of the code itself in [walk].  Loops that a peer or the clock keeps alive
    ([mapLoop], [Run] of the servers) take the list of what happens to them; [Pending] is a
    run that is still going when that list ends.  The counters that Go lets wrap
    around ([uint64] sequence and token counters) wrap here; theorems that need them not to
    have wrapped bound the number of operations by 2^54, which is centuries of traffic.
    Time is an argument; timers are steps that may happen at any moment.  Between two
    unlocked sections a goroutine's private work (closing its own descriptors, the
    retried [Release] calls, which only touch counters) is merged with the next section.
    Strings are bytes; [ToUpper], [ToLower] and [EqualFold] are the ASCII cases,
    which is what addresses, names and UUIDs contain.  In [SmsSystem] a step is what one goroutine does
    between two points where it waits or touches shared state.

    What stays a parameter: the answers of the kernel, of BlueZ and of the network; the tables of
    letters beyond ASCII in XML names ([wide]); [IsValid] of a D-Bus path.  The readers of mail and MIME are
    the class [MimeLib], so that bounds and delivery hold whatever they answer; [GoMime.Mime.go_mime] is the instance that
    behaves as the library does, except that base64 with padding inside is always refused, where Go's streaming
    decoder may accept it when a read of its buffer ends there.

    Two things are assumed of the peers where a theorem says so: that BlueZ answers [TryAcquire] with
    the types of its interface ([Sessions.typed_reply]; [Sessions.garbled_reply_leaks] is what happens
    otherwise), and that the phone answers a request before the time-out or not at all
    ([MapSession.Phone]; [MapSession.late_reply_taken] is what happens otherwise).

    ** Not modelled

    The text of log lines, command-line parsing and the printing of the probe's report, the HTTP
    server's own protocol and time limits, process limits, and the D-Bus library behind its
    calls.  The Android helper is not Go. *)

From Stdlib Require Import ZArith Lia Ascii.
From stdpp Require Export base tactics list gmap sorting strings.
From Stdlib Require Export ZArith Lia.
Open Scope Z_scope.

(** ** Errors and results

    Go's [error] values.  [New] is [errors.New]; [Sentinel] is a package
    variable compared by identity with [errors.Is]; [Wrap] is
    [fmt.Errorf("...: %w", err)]. *)
Inductive error :=
  | New (text : string)
  | Sentinel (name text : string)
  | Wrap (prefix : string) (cause : error).

#[export] Instance error_eq_dec : EqDecision error.
Proof. solve_decision. Defined.

(** [err.Error()]. *)
Fixpoint error_text (e : error) : string :=
  match e with
  | New t => t
  | Sentinel _ t => t
  | Wrap p c => (p ++ ": " ++ error_text c)%string
  end.

(** [errors.Is(err, target)]: the chain of wrapped causes holds [target].
    Only sentinels are ever used as targets. *)
Fixpoint errors_is (e target : error) : bool :=
  bool_decide (e = target) ||
  match e with
  | Wrap _ c => errors_is c target
  | _ => false
  end.

Inductive result (A : Type) :=
  | Ok (a : A)
  | Error (e : error).
Arguments Ok {_} _.
Arguments Error {_} _.

Definition result_bind {A B} (r : result A) (k : A -> result B) : result B :=
  match r with Ok a => k a | Error e => Error e end.

Definition is_ok {A} (r : result A) : bool :=
  match r with Ok _ => true | Error _ => false end.

Declare Scope go_scope.
Delimit Scope go_scope with go.
Notation "'let!' x ':=' c 'in' k" := (result_bind c (fun x => k))
  (at level 10, x pattern, c at level 200, k at level 200) : go_scope.
Notation "'fail!' t" := (Error (New t%string)) (at level 10, t at level 9) : go_scope.
Notation "'guard!' b 'else' t ';;' k" := (if b then k else Error (New t%string))
  (at level 10, b at level 200, t at level 9, k at level 200) : go_scope.
Open Scope go_scope.

(** ** Bytes, strings and machine integers

    Bytes and unsigned machine integers are [Z] values; a Go [string] and a
    [[]byte] are both [bytes].  Wrap-around is written out with [u8] ... [u64]. *)
Abbreviation bytes := (list Z).

Definition u8 (x : Z) : Z := x mod 2 ^ 8.
Definition u16 (x : Z) : Z := x mod 2 ^ 16.
Definition u32 (x : Z) : Z := x mod 2 ^ 32.
Definition u64 (x : Z) : Z := x mod 2 ^ 64.

Definition in_width (w x : Z) : Prop := 0 <= x < 2 ^ w.
Abbreviation is_byte := (in_width 8).
Abbreviation all_bytes := (Forall is_byte).

#[export] Instance in_width_dec w x : Decision (in_width w x).
Proof. unfold in_width; apply _. Defined.

(** A string literal as its bytes. *)
Definition str (s : string) : bytes :=
  (fun a => Z.of_N (N_of_ascii a)) <$> String.list_ascii_of_string s.

Definition len {A} (l : list A) : Z := Z.of_nat (length l).

(** [p[i]]; every use is guarded by a length check in the code. *)
Definition at_ (p : bytes) (i : nat) : Z := nth i p 0.
Arguments at_ _ _%_nat_scope.

(** [p[i:j]] for [0 <= i <= j <= len(p)]. *)
Definition slice {A} (p : list A) (i j : nat) : list A := take (j - i) (drop i p).
Arguments slice {A} _ _%_nat_scope _%_nat_scope.

(** Overwrite [p] from [off] with [src]: [copy(p[off:], src)] when it fits. *)
Definition splice {A} (p : list A) (off : nat) (src : list A) : list A :=
  take off p ++ src ++ drop (off + length src) p.
Arguments splice {A} _ _%_nat_scope _.

(** [copy(p[i:j], src)]: copies [min(j-i, len(src))] bytes. *)
Definition copy_into {A} (p : list A) (i j : nat) (src : list A) : list A :=
  splice p i (take (j - i) src).
Arguments copy_into {A} _ _%_nat_scope _%_nat_scope _.

(** [p[i] = v]. *)
Definition put (p : bytes) (i : nat) (v : Z) : bytes := splice p i [v].
Arguments put _ _%_nat_scope _%_Z_scope.

(** Little- and big-endian integers ([encoding/binary]). *)
Fixpoint le_bytes (n : nat) (v : Z) : bytes :=
  match n with
  | O => []
  | S n => (v mod 256) :: le_bytes n (v / 256)
  end.

Fixpoint le_value (p : bytes) : Z :=
  match p with
  | [] => 0
  | b :: p => b + 256 * le_value p
  end.

Definition be_bytes (n : nat) (v : Z) : bytes := rev (le_bytes n v).
Definition be_value (p : bytes) : Z := le_value (rev p).

(** [binary.LittleEndian.PutUintN(p[i:i+n], v)]. *)
Definition put_le (n : nat) (p : bytes) (i : nat) (v : Z) : bytes :=
  splice p i (le_bytes n v).
Arguments put_le _%_nat_scope _ _%_nat_scope _%_Z_scope.

(** Number of one bits of a 32-bit value ([bits.OnesCount32]). *)
Fixpoint ones_count (n : nat) (v : Z) : Z :=
  match n with
  | O => 0
  | S n => (if Z.odd v then 1 else 0) + ones_count n (v / 2)
  end.
Definition OnesCount32 (v : Z) : Z := ones_count 32 v.

(** [x &^ m == 0]: no bit of [x] outside the mask. *)
Definition no_bits_outside (x m : Z) : bool := Z.ldiff x m =? 0.

(** [x & m != 0]. *)
Definition has_bits (x m : Z) : bool := negb (Z.land x m =? 0).

(** ** Record update

    A Go struct assignment [r.f = v] is [r <| f := v |>].  [Fields] lists the fields
    of a record once; the setter of each field is found by abstracting its
    projection in that list. *)
Class Fields (R : Type) := { fields : R -> R }.
Class Setter {R E : Type} (getter : R -> E) := { update : (E -> E) -> R -> R }.
Arguments update {R E} getter {_} / _ _.

Ltac setter_of R getter :=
  let e := eval hnf in (ltac:(typeclasses eauto) : Fields R) in
  lazymatch e with
  | Build_Fields _ ?e =>
      lazymatch eval pattern getter in e with
      | ?body _ =>
          let u := eval cbv beta in (fun w => body (fun r => w (getter r))) in
          exact {| update := u : (_ -> _) -> R -> R |}
      end
  end.
#[export] Hint Extern 1 (@Setter ?R _ ?getter) => setter_of R getter : typeclass_instances.

Notation "r <| f := v |>" := (update f (fun _ => v) r)
  (at level 1, left associativity, f at level 8, v at level 99, format "r  <| f  :=  v |>").

(** ** A codec interface

    What an encoder and its decoder promise to a component that moves packets:
    [decode] recovers every value [encode] accepted, within [codec_ok]. *)
Class Codec (A : Type) := {
  codec_encode : A -> result bytes;
  codec_decode : bytes -> result A;
  codec_ok : A -> Prop;
  codec_roundtrip : forall a p, codec_ok a -> codec_encode a = Ok p -> codec_decode p = Ok a
}.

(** ** Automation *)

(** Case analysis on the [if]s and [match]es of a goal or hypothesis. *)
Ltac split_match :=
  match goal with
  | |- context [match ?x with _ => _ end] =>
      lazymatch x with context [match _ with _ => _ end] => fail | _ => idtac end;
      destruct x eqn:?
  | H : context [match ?x with _ => _ end] |- _ =>
      lazymatch x with context [match _ with _ => _ end] => fail | _ => idtac end;
      destruct x eqn:?
  end.

Ltac split_if_in H :=
  match type of H with
  | context [if ?b then _ else _] =>
      lazymatch b with context [if _ then _ else _] => fail | _ => idtac end;
      destruct b eqn:?
  end.

(** Turn the boolean tests of the code into propositions. *)
Ltac bool_prop :=
  repeat match goal with
  | H : _ && _ = true |- _ => apply andb_true_iff in H; destruct H
  | H : _ || _ = false |- _ => apply orb_false_iff in H; destruct H
  | H : negb _ = true |- _ => apply negb_true_iff in H
  | H : negb _ = false |- _ => apply negb_false_iff in H
  | H : (_ =? _) = true |- _ => apply Z.eqb_eq in H
  | H : (_ =? _) = false |- _ => apply Z.eqb_neq in H
  | H : (_ <? _) = true |- _ => apply Z.ltb_lt in H
  | H : (_ <? _) = false |- _ => apply Z.ltb_ge in H
  | H : (_ <=? _) = true |- _ => apply Z.leb_le in H
  | H : (_ <=? _) = false |- _ => apply Z.leb_gt in H
  | H : bool_decide _ = true |- _ => apply bool_decide_eq_true in H
  | H : bool_decide _ = false |- _ => apply bool_decide_eq_false in H
  end.

(** Peel a chain of guards that ended in success. *)
Ltac ok_inv H :=
  repeat (split_if_in H; try discriminate H; cbn [result_bind] in H);
  try (injection H as H); bool_prop.

Create HintDb go.

(** ** Lists as buffers *)

Lemma length_slice {A} (p : list A) i j :
  (j <= length p)%nat -> length (slice p i j) = (j - i)%nat.
Proof. intros. unfold slice. rewrite length_take, length_drop. lia. Qed.

Lemma length_splice {A} (p : list A) off src :
  (off + length src <= length p)%nat -> length (splice p off src) = length p.
Proof.
  intros. unfold splice. rewrite !length_app, length_take, length_drop. lia.
Qed.

Lemma splice_tail {A} (p : list A) off src :
  splice p off src = take off p ++ src ++ drop (length src) (drop off p).
Proof. unfold splice. by rewrite drop_drop. Qed.

Lemma slice_splice_eq {A} (p : list A) off src j :
  (off + length src <= length p)%nat -> j = (off + length src)%nat ->
  slice (splice p off src) off j = src.
Proof.
  intros Hl ->. unfold slice, splice.
  rewrite drop_app_length' by (rewrite length_take; lia).
  replace (off + length src - off)%nat with (length src) by lia.
  by rewrite take_app_length.
Qed.

Lemma slice_splice_before {A} (p : list A) off src i j :
  (off + length src <= length p)%nat -> (j <= off)%nat ->
  slice (splice p off src) i j = slice p i j.
Proof.
  intros Hl Hj. unfold slice, splice.
  destruct (decide (i <= j)%nat) as [Hi|Hi].
  - rewrite drop_app_le by (rewrite length_take; lia).
    rewrite take_app_le by (rewrite length_drop, length_take; lia).
    rewrite skipn_firstn_comm, take_take. f_equal; lia.
  - replace (j - i)%nat with O by lia. done.
Qed.

Lemma slice_splice_after {A} (p : list A) off src i j :
  (off + length src <= length p)%nat -> (off + length src <= i)%nat ->
  slice (splice p off src) i j = slice p i j.
Proof.
  intros Hl Hi. unfold slice, splice. f_equal.
  rewrite drop_app_ge by (rewrite length_take; lia).
  rewrite drop_app_ge by (rewrite length_take; lia).
  rewrite drop_drop, length_take. f_equal. lia.
Qed.

Lemma slice_split {A} (p : list A) i k j :
  (i <= k <= j)%nat -> slice p i j = slice p i k ++ slice p k j.
Proof.
  intros. unfold slice.
  replace (j - i)%nat with ((k - i) + (j - k))%nat by lia.
  rewrite <- take_take_drop. f_equal.
  rewrite drop_drop. do 2 f_equal. lia.
Qed.

Lemma slice_replicate {A} (x : A) n i j :
  (j <= n)%nat -> slice (replicate n x) i j = replicate (j - i) x.
Proof.
  intros. unfold slice. rewrite drop_replicate, take_replicate. f_equal. lia.
Qed.

Lemma slice_app_full {A} (p q : list A) i j :
  i = length p -> j = (length p + length q)%nat -> slice (p ++ q) i j = q.
Proof.
  intros -> ->. unfold slice. rewrite drop_app_length, firstn_all2; [done|lia].
Qed.

Lemma slice_whole {A} (p : list A) j : j = length p -> slice p 0 j = p.
Proof. intros ->. unfold slice. rewrite drop_0, firstn_all2; [done|lia]. Qed.

Lemma slice_app_l {A} (p q : list A) i j :
  (i <= j)%nat -> (j <= length p)%nat -> slice (p ++ q) i j = slice p i j.
Proof.
  intros. unfold slice. rewrite drop_app_le, take_app_le by (rewrite ?length_drop; lia).
  done.
Qed.

Lemma at_slice p i : (i < length p)%nat -> slice p i (S i) = [at_ p i].
Proof.
  intros H. unfold slice, at_. replace (S i - i)%nat with 1%nat by lia.
  destruct (lookup_lt_is_Some_2 p i H) as [x Hx].
  rewrite (drop_S _ _ _ Hx), (nth_lookup_Some _ _ _ _ Hx).
  cbn [take]. by rewrite take_0.
Qed.

Lemma at_slice4 p i j :
  j = (i + 4)%nat -> (j <= length p)%nat ->
  slice p i j = [at_ p i; at_ p (i + 1); at_ p (i + 2); at_ p (i + 3)].
Proof.
  intros -> H. rewrite (slice_split p i (S i)), (slice_split p (S i) (S (S i))),
    (slice_split p (S (S i)) (S (S (S i)))) by lia.
  replace (i + 4)%nat with (S (S (S (S i)))) by lia. rewrite !at_slice by lia.
  simpl. repeat f_equal; lia.
Qed.

(** Reading one byte of a spliced buffer. *)
Lemma at_splice_eq p off v :
  (off < length p)%nat -> at_ (splice p off [v]) off = v.
Proof.
  intros H. pose proof (at_slice (splice p off [v]) off) as E.
  rewrite slice_splice_eq in E by (simpl; lia).
  rewrite length_splice in E by (simpl; lia). specialize (E H). congruence.
Qed.

Lemma at_splice_ne p off src i :
  (off + length src <= length p)%nat -> (i < off \/ off + length src <= i)%nat ->
  at_ (splice p off src) i = at_ p i.
Proof.
  intros Hl Hi. unfold at_. destruct (decide (i < length p)%nat) as [Hp|Hp].
  2:{ rewrite !nth_overflow; rewrite ?length_splice; [done|lia..]. }
  pose proof (at_slice (splice p off src) i) as E. pose proof (at_slice p i Hp) as E'.
  rewrite length_splice in E by lia. specialize (E Hp).
  destruct Hi.
  - rewrite slice_splice_before in E by lia. unfold at_ in *. congruence.
  - rewrite slice_splice_after in E by lia. unfold at_ in *. congruence.
Qed.

(** Two buffers of one length agree when they agree before and after a cut. *)
Lemma slice_cut_eq {A} (p q : list A) i k j :
  (i <= k <= j)%nat -> slice p i k = slice q i k -> slice p k j = slice q k j ->
  slice p i j = slice q i j.
Proof. intros H1 H2 H3. rewrite (slice_split p i k j), (slice_split q i k j) by lia. congruence. Qed.

Lemma all_bytes_slice p i j : all_bytes p -> all_bytes (slice p i j).
Proof. intros. unfold slice. by apply Forall_take, Forall_drop. Qed.

(** ** Endianness *)

Lemma length_le_bytes n v : length (le_bytes n v) = n.
Proof. revert v. induction n; intros; simpl; auto. Qed.

Lemma length_be_bytes n v : length (be_bytes n v) = n.
Proof. unfold be_bytes. by rewrite length_rev, length_le_bytes. Qed.

Lemma le_bytes_bytes n v : all_bytes (le_bytes n v).
Proof.
  revert v. induction n; intros; simpl; constructor; auto.
  unfold in_width. pose proof (Z.mod_pos_bound v 256). change (2 ^ 8) with 256. lia.
Qed.

Lemma le_value_bytes n v : le_value (le_bytes n v) = v mod 2 ^ (8 * Z.of_nat n).
Proof.
  revert v. induction n as [|n IH]; intros v; cbn [le_bytes le_value].
  { by rewrite Z.mod_1_r. }
  rewrite IH.
  replace (8 * Z.of_nat (S n)) with (8 + 8 * Z.of_nat n) by lia.
  rewrite Z.pow_add_r by lia. change (2 ^ 8) with 256.
  rewrite Z.rem_mul_r by lia. lia.
Qed.

Lemma le_value_bytes_id n v :
  0 <= v < 2 ^ (8 * Z.of_nat n) -> le_value (le_bytes n v) = v.
Proof. intros. rewrite le_value_bytes. by apply Z.mod_small. Qed.

Lemma le_value_bound p : all_bytes p -> 0 <= le_value p < 2 ^ (8 * len p).
Proof.
  unfold len. induction 1 as [|b p Hb _ IH]; simpl le_value; [simpl; lia|].
  change (length (b :: p)) with (S (length p)). unfold in_width in Hb.
  replace (8 * Z.of_nat (S (length p))) with (8 + 8 * Z.of_nat (length p)) by lia.
  rewrite Z.pow_add_r by lia. lia.
Qed.

Lemma le_bytes_value p : all_bytes p -> le_bytes (length p) (le_value p) = p.
Proof.
  induction 1 as [|b p Hb _ IH]; [done|]. simpl. unfold in_width in Hb.
  change (2 ^ 8) with 256 in Hb. f_equal.
  - rewrite Z.mul_comm, Z_mod_plus_full. apply Z.mod_small. lia.
  - rewrite (Z.add_comm b), (Z.mul_comm 256), Z.div_add_l, (Z.div_small b) by lia.
    by rewrite Z.add_0_r.
Qed.

(** Re-encoding what was read from a field writes the field back. *)
Lemma le_bytes_slice p w i j :
  all_bytes p -> (j = i + w)%nat -> (j <= length p)%nat ->
  le_bytes w (le_value (slice p i j)) = slice p i j.
Proof.
  intros Hb Hij Hj. rewrite <- (le_bytes_value (slice p i j)) at 2 by by apply all_bytes_slice.
  rewrite length_slice by lia. f_equal. lia.
Qed.

Lemma be_value_bytes_id n v :
  0 <= v < 2 ^ (8 * Z.of_nat n) -> be_value (be_bytes n v) = v.
Proof.
  intros. unfold be_value, be_bytes. rewrite rev_involutive. by apply le_value_bytes_id.
Qed.

Lemma be_value_bound p : all_bytes p -> 0 <= be_value p < 2 ^ (8 * len p).
Proof.
  intros H. unfold be_value, len. rewrite <- length_rev. apply le_value_bound.
  by apply Forall_rev.
Qed.

(** Bytes 0x00 are what a zero-filled tail holds. *)
Lemma forallb_replicate {A} (f : A -> bool) n x :
  f x = true -> forallb f (replicate n x) = true.
Proof. intros. induction n; simpl; rewrite ?H; auto. Qed.

Lemma len_cons {A} (x : A) l : len (x :: l) = 1 + len l.
Proof. unfold len. simpl length. lia. Qed.
Lemma len_app {A} (p q : list A) : len (p ++ q) = len p + len q.
Proof. unfold len. rewrite length_app. lia. Qed.

Lemma len_nonneg {A} (p : list A) : 0 <= len p.
Proof. unfold len. lia. Qed.

Lemma len_0_nil {A} (p : list A) : len p = 0 -> p = [].
Proof. destruct p; [done|]. unfold len. simpl. lia. Qed.

Lemma put_as_splice p i v : put p i v = splice p i [v].
Proof. done. Qed.

Lemma result_bind_ok {A B} (r : result A) (k : A -> result B) b :
  result_bind r k = Ok b -> exists a, r = Ok a /\ k a = Ok b.
Proof. destruct r; simpl; [eauto|discriminate]. Qed.

Lemma Ok_inj {A} (a b : A) : Ok a = Ok b -> a = b.
Proof. by intros [=]. Qed.

#[export] Hint Resolve le_bytes_bytes all_bytes_slice len_nonneg : go.

(** Writing the next field of a zero-filled buffer. *)
Lemma fill_next (pre src : bytes) n off :
  off = length pre -> (length src <= n)%nat ->
  splice (pre ++ replicate n 0) off src = (pre ++ src) ++ replicate (n - length src) 0.
Proof.
  intros -> H. unfold splice. rewrite take_app_length, drop_app_ge by lia.
  replace (length pre + length src - length pre)%nat with (length src) by lia.
  by rewrite drop_replicate, app_assoc.
Qed.

(** Normalise reads of a buffer built by a chain of writes. *)
Ltac buf_side :=
  rewrite ?length_splice, ?length_le_bytes, ?length_replicate; simpl length; try lia.
Ltac len_splices :=
  repeat (rewrite length_splice by (rewrite ?length_le_bytes; simpl length; lia)).

Lemma filter_ext_elem {A} (P Q : A -> Prop) `{forall x, Decision (P x), forall x, Decision (Q x)} (l : list A) :
  (forall x, x ∈ l -> P x <-> Q x) -> filter P l = filter Q l.
Proof.
  induction l as [|x l IH]; intros HPQ; [done|]. rewrite !filter_cons.
  rewrite IH by (intros y Hy; apply HPQ; by apply list_elem_of_further).
  specialize (HPQ x (list_elem_of_here _ _)). repeat case_decide; tauto.
Qed.
