(* ===== verification/GoStd.v ===== *)
(** * The parts of Go's standard library the services use

    UTF-8 decoding as [unicode/utf8] does it, the [strings] functions,
    [net.ParseMAC] and [HardwareAddr.String], and the ASCII case mappings.
    Strings are byte lists (Prelude).  [ToUpper], [ToLower] and [EqualFold] map
    the ASCII letters only: the services apply them to Bluetooth addresses,
    adapter names and UUIDs, and no non-ASCII character folds to a hexadecimal
    digit, a colon or a dash. *)

From S2P Require Import Prelude.

(** ** Characters *)
Definition in_range (lo c hi : Z) : bool := (lo <=? c) && (c <=? hi).
Definition is_digit (c : Z) : bool := in_range 48 c 57.
Definition is_lower (c : Z) : bool := in_range 97 c 122.
Definition is_upper (c : Z) : bool := in_range 65 c 90.
Definition to_upper (c : Z) : Z := if is_lower c then c - 32 else c.
Definition to_lower (c : Z) : Z := if is_upper c then c + 32 else c.

Definition ToUpper (s : bytes) : bytes := to_upper <$> s.
Definition ToLower (s : bytes) : bytes := to_lower <$> s.
Definition EqualFold (s t : bytes) : bool := bool_decide (ToLower s = ToLower t).

(** ** UTF-8 *)
Definition RuneError : Z := 0xFFFD.
Definition RuneSelf : Z := 0x80.
Definition cont (b : Z) : bool := in_range 0x80 b 0xBF.

(** Accept range of the second byte for a leading byte, and the sequence size. *)
Definition lead_class (b0 : Z) : option (nat * Z * Z) :=
  if in_range 0xC2 b0 0xDF then Some (2%nat, 0x80, 0xBF)
  else if b0 =? 0xE0 then Some (3%nat, 0xA0, 0xBF)
  else if b0 =? 0xED then Some (3%nat, 0x80, 0x9F)
  else if in_range 0xE1 b0 0xEF then Some (3%nat, 0x80, 0xBF)
  else if b0 =? 0xF0 then Some (4%nat, 0x90, 0xBF)
  else if b0 =? 0xF4 then Some (4%nat, 0x80, 0x8F)
  else if in_range 0xF1 b0 0xF3 then Some (4%nat, 0x80, 0xBF)
  else None.

(** [utf8.DecodeRune]: the rune and its width. *)
Definition DecodeRune (p : bytes) : Z * nat :=
  match p with
  | [] => (RuneError, 0%nat)
  | b0 :: rest =>
      if b0 <? RuneSelf then (b0, 1%nat)
      else match lead_class b0 with
           | None => (RuneError, 1%nat)
           | Some (size, lo, hi) =>
               match rest, size with
               | b1 :: _, 2%nat =>
                   if in_range lo b1 hi then ((b0 - 0xC0) * 64 + (b1 - 0x80), 2%nat)
                   else (RuneError, 1%nat)
               | b1 :: b2 :: _, 3%nat =>
                   if in_range lo b1 hi && cont b2
                   then ((b0 - 0xE0) * 4096 + (b1 - 0x80) * 64 + (b2 - 0x80), 3%nat)
                   else (RuneError, 1%nat)
               | b1 :: b2 :: b3 :: _, 4%nat =>
                   if in_range lo b1 hi && cont b2 && cont b3
                   then ((b0 - 0xF0) * 262144 + (b1 - 0x80) * 4096 + (b2 - 0x80) * 64
                         + (b3 - 0x80), 4%nat)
                   else (RuneError, 1%nat)
               | _, _ => (RuneError, 1%nat)
               end
           end
  end.

Definition RuneStart (b : Z) : bool := negb (cont b).

(** Search backwards from [k-1] down to [lim] for a byte that starts a rune;
    [lim-1] (or 0) when there is none. *)
Fixpoint find_start (p : bytes) (k lim : nat) : nat :=
  match k with
  | O => 0%nat
  | S k' => if (k' <? lim)%nat then k'
            else if RuneStart (at_ p k') then k' else find_start p k' lim
  end.

(** [utf8.DecodeLastRune]. *)
Definition DecodeLastRune (p : bytes) : Z * nat :=
  match length p with
  | O => (RuneError, 0%nat)
  | S e =>
      if at_ p e <? RuneSelf then (at_ p e, 1%nat)
      else let start := find_start p e (S e - 4) in
           let '(r, size) := DecodeRune (drop start p) in
           if (start + size =? S e)%nat then (r, size) else (RuneError, 1%nat)
  end.

(** [for _, r := range s]. *)
Fixpoint runes_loop (fuel : nat) (s : bytes) : list Z :=
  match fuel with
  | O => []
  | S fuel =>
      match s with
      | [] => []
      | _ => let '(r, size) := DecodeRune s in r :: runes_loop fuel (drop size s)
      end
  end.
Definition runes (s : bytes) : list Z := runes_loop (length s) s.

(** [unicode.IsSpace]. *)
Definition IsSpace (r : Z) : bool :=
  in_range 9 r 13 || (r =? 32) || (r =? 0x85) || (r =? 0xA0) || (r =? 0x1680) ||
  in_range 0x2000 r 0x200a || (r =? 0x2028) || (r =? 0x2029) || (r =? 0x202f) ||
  (r =? 0x205f) || (r =? 0x3000).

(** ** package strings *)
Fixpoint trim_left_loop (fuel : nat) (s : bytes) : bytes :=
  match fuel, s with
  | S fuel, _ :: _ =>
      let '(r, size) := DecodeRune s in
      if IsSpace r then trim_left_loop fuel (drop size s) else s
  | _, _ => s
  end.

Fixpoint trim_right_loop (fuel : nat) (s : bytes) : bytes :=
  match fuel, s with
  | S fuel, _ :: _ =>
      let '(r, size) := DecodeLastRune s in
      if IsSpace r then trim_right_loop fuel (take (length s - size) s) else s
  | _, _ => s
  end.

Definition TrimSpace (s : bytes) : bytes :=
  let t := trim_left_loop (length s) s in trim_right_loop (length t) t.

(** [strings.IndexByte] and, for an ASCII set, [strings.IndexAny]. *)
Fixpoint index_where (f : Z -> bool) (s : bytes) : option nat :=
  match s with
  | [] => None
  | c :: s => if f c then Some 0%nat else S <$> index_where f s
  end.
Definition IndexByte (s : bytes) (c : Z) : option nat := index_where (Z.eqb c) s.
Definition IndexAny (s : bytes) (set : bytes) : option nat :=
  index_where (fun c => existsb (Z.eqb c) set) s.
Definition ContainsAny (s : bytes) (set : bytes) : bool :=
  match IndexAny s set with Some _ => true | None => false end.

Fixpoint HasPrefix (s prefix : bytes) : bool :=
  match prefix, s with
  | [], _ => true
  | a :: prefix, b :: s => (a =? b) && HasPrefix s prefix
  | _ :: _, [] => false
  end.

Definition TrimPrefix (s prefix : bytes) : bytes :=
  if HasPrefix s prefix then drop (length prefix) s else s.

Fixpoint Contains (s sub : bytes) : bool :=
  HasPrefix s sub || match s with [] => false | _ :: s => Contains s sub end.

(** [strings.ReplaceAll(s, old, new)] for one-byte [old] and [new]. *)
Definition replace_byte (s : bytes) (old new : Z) : bytes :=
  (fun c => if c =? old then new else c) <$> s.

(** Lexicographic order of Go strings ([a < b]). *)
Fixpoint str_ltb (a b : bytes) : bool :=
  match a, b with
  | _, [] => false
  | [], _ :: _ => true
  | x :: a, y :: b => (x <? y) || ((x =? y) && str_ltb a b)
  end.

Definition str_eqb (a b : bytes) : bool := bool_decide (a = b).
Infix "=s?" := str_eqb (at level 70) : go_scope.

(** ** net.ParseMAC *)
Definition hex_digit (c : Z) : option Z :=
  if is_digit c then Some (c - 48)
  else if in_range 97 c 102 then Some (c - 97 + 10)
  else if in_range 65 c 70 then Some (c - 65 + 10)
  else None.

(** [net.xtoi]: value, characters consumed; [None] when it exceeds the bound. *)
Fixpoint xtoi_loop (s : bytes) (n : Z) (i : nat) : option (Z * nat) :=
  match s with
  | [] => Some (n, i)
  | c :: s => match hex_digit c with
              | None => Some (n, i)
              | Some d => if 0xFFFFFF <=? n * 16 + d then None
                          else xtoi_loop s (n * 16 + d) (S i)
              end
  end.

(** [net.xtoi2]: two hexadecimal digits; a third byte, when there is one, is [e]. *)
Definition xtoi2 (s : bytes) (e : Z) : option Z :=
  if (2 <? len s) && negb (at_ s 2 =? e) then None
  else match xtoi_loop (take 2 s) 0 0 with
       | Some (n, 2%nat) => Some (u8 n)
       | _ => None
       end.

Fixpoint mac_colon (s : bytes) (sep : Z) (x n : nat) : option bytes :=
  match n with
  | O => Some []
  | S n => match xtoi2 (drop x s) sep, mac_colon s sep (x + 3) n with
           | Some b, Some r => Some (b :: r)
           | _, _ => None
           end
  end.

Fixpoint mac_dot (s : bytes) (sep : Z) (x n : nat) : option bytes :=
  match n with
  | O => Some []
  | S n => match xtoi2 (slice s x (x + 2)) 0, xtoi2 (drop (x + 2) s) sep,
                 mac_dot s sep (x + 5) n with
           | Some b, Some c, Some r => Some (b :: c :: r)
           | _, _, _ => None
           end
  end.

Definition mac_size (n : Z) : bool := (n =? 6) || (n =? 8) || (n =? 20).

Definition ParseMAC (s : bytes) : option bytes :=
  if len s <? 14 then None
  else if (at_ s 2 =? 58) || (at_ s 2 =? 45) then
    if negb ((len s + 1) mod 3 =? 0) then None
    else let n := (len s + 1) / 3 in
         if negb (mac_size n) then None else mac_colon s (at_ s 2) 0 (Z.to_nat n)
  else if at_ s 4 =? 46 then
    if negb ((len s + 1) mod 5 =? 0) then None
    else let n := 2 * (len s + 1) / 5 in
         if negb (mac_size n) then None else mac_dot s (at_ s 4) 0 (Z.to_nat n / 2)
  else None.

(** [net.HardwareAddr.String]: lower-case pairs joined by colons. *)
Definition hex_lower (d : Z) : Z := if d <? 10 then 48 + d else 97 + (d - 10).
Definition hex_pair (b : Z) : bytes := [hex_lower (b / 16); hex_lower (b mod 16)].
Fixpoint mac_string (hw : bytes) : bytes :=
  match hw with
  | [] => []
  | [b] => hex_pair b
  | b :: hw => hex_pair b ++ 58 :: mac_string hw
  end.

(** ** Facts *)

Lemma in_range_spec lo c hi : in_range lo c hi = true <-> lo <= c <= hi.
Proof. unfold in_range. rewrite andb_true_iff, !Z.leb_le. done. Qed.

Ltac range_prop :=
  bool_prop; repeat match goal with
  | H : in_range _ _ _ = true |- _ => apply in_range_spec in H
  | H : in_range _ _ _ && _ = true |- _ => apply andb_true_iff in H; destruct H
  | H : cont _ = true |- _ => apply in_range_spec in H
  end; bool_prop.

Lemma DecodeRune_ascii b p : 0 <= b < RuneSelf -> DecodeRune (b :: p) = (b, 1%nat).
Proof. intros H. unfold DecodeRune. destruct (Z.ltb_spec b RuneSelf); [done|lia]. Qed.

Lemma lead_class_cases b0 size lo hi :
  lead_class b0 = Some (size, lo, hi) ->
  (size = 2%nat /\ 0xC2 <= b0 /\ 0x80 <= lo) \/
  (size = 3%nat /\ 0xE0 <= b0 /\ 0x80 <= lo /\ (b0 = 0xE0 -> 0xA0 <= lo)) \/
  (size = 4%nat /\ 0xF0 <= b0 /\ 0x80 <= lo /\ (b0 = 0xF0 -> 0x90 <= lo)).
Proof.
  unfold lead_class. intros H.
  repeat (split_if_in H; [injection H as <- <- <-; range_prop; lia|]). discriminate.
Qed.

(** A byte at or above [RuneSelf] never decodes to an ASCII character. *)
Lemma DecodeRune_high b p :
  RuneSelf <= b -> RuneSelf <= (DecodeRune (b :: p)).1 /\ (DecodeRune (b :: p)).2 <> 0%nat.
Proof.
  intros Hb. unfold DecodeRune, RuneSelf, RuneError in *.
  destruct (Z.ltb_spec b 0x80); [lia|].
  destruct (lead_class b) as [[[size lo] hi]|] eqn:E; [|simpl; lia].
  apply lead_class_cases in E.
  destruct p as [|b1 [|b2 [|b3 p]]], size as [|[|[|[|[|size]]]]];
    repeat case_match; range_prop; simpl; lia.
Qed.

Lemma DecodeRune_size p : p <> [] -> all_bytes p -> (DecodeRune p).2 <> 0%nat.
Proof.
  destruct p as [|b p]; [done|]. intros _ Hb. inversion_clear Hb as [|? ? Hw _].
  destruct (Z.lt_ge_cases b RuneSelf) as [H|H].
  - unfold in_width in Hw. rewrite DecodeRune_ascii by lia. done.
  - apply (DecodeRune_high b p H).
Qed.

(** Iterating over runes with a predicate that only ASCII satisfies is the same
    as iterating over bytes. *)
Lemma runes_loop_forallb f fuel s :
  (forall r, RuneSelf <= r -> f r = false) -> all_bytes s -> (length s <= fuel)%nat ->
  forallb f (runes_loop fuel s) = forallb f s.
Proof.
  intros Hf. revert s. induction fuel as [|fuel IH]; intros s Hs Hl.
  { destruct s; [done|simpl in Hl; lia]. }
  destruct s as [|b s]; [done|]. cbn [runes_loop].
  inversion_clear Hs as [|? ? Hw Hs']. unfold in_width in Hw.
  destruct (Z.lt_ge_cases b RuneSelf) as [H|H].
  - rewrite DecodeRune_ascii by lia. simpl in Hl |- *. rewrite drop_0. f_equal. apply IH; auto. lia.
  - destruct (DecodeRune_high b s H) as [Hr _].
    destruct (DecodeRune (b :: s)) as [r size]. simpl in *. by rewrite !Hf.
Qed.

Lemma runes_forallb f s :
  (forall r, RuneSelf <= r -> f r = false) -> all_bytes s ->
  forallb f (runes s) = forallb f s.
Proof. intros. by apply runes_loop_forallb. Qed.

(** Trimming keeps bytes only, and nothing is trimmed between two visible ends. *)
Lemma trim_left_suffix fuel s : exists k, trim_left_loop fuel s = drop k s.
Proof.
  revert s. induction fuel as [|fuel IH]; intros s; [by exists 0%nat; rewrite drop_0|].
  destruct s as [|b s]; [by exists 0%nat|]. cbn [trim_left_loop].
  destruct (DecodeRune (b :: s)) as [r size]. destruct (IsSpace r).
  - destruct (IH (drop size (b :: s))) as [k ->]. exists (size + k)%nat. by rewrite drop_drop.
  - by exists 0%nat.
Qed.

Lemma trim_right_prefix fuel s : exists k, trim_right_loop fuel s = take k s.
Proof.
  revert s. induction fuel as [|fuel IH]; intros s; [by exists (length s); rewrite firstn_all|].
  destruct s as [|b s]; [by exists 0%nat|]. cbn [trim_right_loop].
  destruct (DecodeLastRune (b :: s)) as [r size]. destruct (IsSpace r).
  - destruct (IH (take (length (b :: s) - size) (b :: s))) as [k ->].
    exists (k `min` (length (b :: s) - size))%nat. by rewrite take_take.
  - exists (length (b :: s)). by rewrite firstn_all.
Qed.

Lemma TrimSpace_sub s : exists i k, TrimSpace s = take k (drop i s).
Proof.
  unfold TrimSpace. destruct (trim_left_suffix (length s) s) as [i ->].
  destruct (trim_right_prefix (length (drop i s)) (drop i s)) as [k ->]. eauto.
Qed.

Lemma TrimSpace_Forall (P : Z -> Prop) s : Forall P s -> Forall P (TrimSpace s).
Proof.
  intros H. destruct (TrimSpace_sub s) as (i & k & ->). by apply Forall_take, Forall_drop.
Qed.

(** A string that begins and ends with visible ASCII characters is left alone. *)
Lemma TrimSpace_visible a s b :
  0 <= a < RuneSelf -> IsSpace a = false -> 0 <= b < RuneSelf -> IsSpace b = false ->
  TrimSpace (a :: s ++ [b]) = a :: s ++ [b].
Proof.
  intros Ha Hsa Hb Hsb. unfold TrimSpace.
  assert (trim_left_loop (length (a :: s ++ [b])) (a :: s ++ [b]) = a :: s ++ [b]) as ->.
  { cbn [length trim_left_loop]. rewrite DecodeRune_ascii by lia. by rewrite Hsa. }
  cbn [length trim_right_loop].
  assert (DecodeLastRune (a :: s ++ [b]) = (b, 1%nat)) as ->; [|by rewrite Hsb].
  unfold DecodeLastRune.
  assert (length (a :: s ++ [b]) = S (S (length s))) as ->.
  { simpl. rewrite length_app. simpl. lia. }
  assert (at_ (a :: s ++ [b]) (S (length s)) = b) as ->.
  { unfold at_. simpl. rewrite app_nth2 by lia. by rewrite Nat.sub_diag. }
  destruct (Z.ltb_spec b RuneSelf); [done|lia].
Qed.

(** Visible ASCII text has nothing to trim. *)
Lemma TrimSpace_visible_id s :
  Forall (fun c => 0 <= c < RuneSelf /\ IsSpace c = false) s -> TrimSpace s = s.
Proof.
  intros H. destruct s as [|a s]; [done|]. apply Forall_cons_1 in H as [[Ha Ha'] H].
  destruct s as [|b s _] using rev_ind.
  - unfold TrimSpace. cbn [length trim_left_loop]. rewrite DecodeRune_ascii by done. rewrite Ha'.
    cbn [length trim_right_loop]. unfold DecodeLastRune, at_. cbn [length nth].
    destruct (Z.ltb_spec a RuneSelf); [|lia]. by rewrite Ha'.
  - apply Forall_app in H as [_ H]. apply Forall_cons_1 in H as [[Hb Hb'] _].
    by apply TrimSpace_visible.
Qed.

Lemma index_where_None f s : forallb (fun c => negb (f c)) s = true -> index_where f s = None.
Proof.
  induction s as [|c s IH]; [done|]. simpl. intros H. bool_prop.
  rewrite IH by done. by destruct (f c).
Qed.

(** ** MAC addresses *)

Definition hex_upper_digit (d : Z) : Z := to_upper (hex_lower d).

Lemma hex_digit_upper d : 0 <= d < 16 -> hex_digit (hex_upper_digit d) = Some d.
Proof.
  intros. assert (d = 0 \/ d = 1 \/ d = 2 \/ d = 3 \/ d = 4 \/ d = 5 \/ d = 6 \/ d = 7 \/
    d = 8 \/ d = 9 \/ d = 10 \/ d = 11 \/ d = 12 \/ d = 13 \/ d = 14 \/ d = 15) by lia.
  destruct_or!; subst d; reflexivity.
Qed.

Lemma hex_upper_byte d : 0 <= d < 16 -> 48 <= hex_upper_digit d <= 70 /\ hex_upper_digit d <> 58.
Proof.
  intros. unfold hex_upper_digit, hex_lower, to_upper, is_lower, in_range.
  destruct (Z.ltb_spec d 10).
  - destruct (Z.leb_spec 97 (48 + d)); simpl; lia.
  - destruct (Z.leb_spec 97 (97 + (d - 10))), (Z.leb_spec (97 + (d - 10)) 122); simpl; lia.
Qed.

Definition mac_pair_upper (b : Z) : bytes := [hex_upper_digit (b / 16); hex_upper_digit (b mod 16)].

Lemma xtoi2_pair b rest e :
  is_byte b -> (rest = [] \/ hd 0 rest = e) ->
  xtoi2 (mac_pair_upper b ++ rest) e = Some b.
Proof.
  intros Hb Hr. unfold in_width in Hb. change (2 ^ 8) with 256 in Hb. unfold xtoi2, mac_pair_upper.
  pose proof (Z.div_lt_upper_bound b 16 16). pose proof (Z.div_pos b 16).
  pose proof (Z.mod_pos_bound b 16). pose proof (Z.div_mod b 16).
  assert ((2 <? len ([hex_upper_digit (b / 16); hex_upper_digit (b mod 16)] ++ rest)) &&
    negb (at_ ([hex_upper_digit (b / 16); hex_upper_digit (b mod 16)] ++ rest) 2 =? e) = false) as ->.
  { destruct Hr as [->|Hr]; [done|]. destruct rest as [|c rest]; [done|].
    simpl in Hr. subst. unfold at_. simpl nth. rewrite Z.eqb_refl. apply andb_false_r. }
  cbn [app take xtoi_loop]. rewrite !hex_digit_upper by lia.
  destruct (Z.leb_spec 0xFFFFFF (0 * 16 + b / 16)); [lia|].
  destruct (Z.leb_spec 0xFFFFFF ((0 * 16 + b / 16) * 16 + b mod 16)); [lia|].
  rewrite take_0. cbn [xtoi_loop]. f_equal. unfold u8. change (2 ^ 8) with 256. rewrite Z.mod_small; lia.
Qed.

(** Six octets print to seventeen characters and parse back. *)
Lemma mac_upper_six a b c d e f :
  ToUpper (mac_string [a; b; c; d; e; f]) =
    mac_pair_upper a ++ 58 :: mac_pair_upper b ++ 58 :: mac_pair_upper c ++ 58 ::
    mac_pair_upper d ++ 58 :: mac_pair_upper e ++ 58 :: mac_pair_upper f.
Proof. done. Qed.

Lemma ParseMAC_upper hw :
  all_bytes hw -> length hw = 6%nat -> ParseMAC (ToUpper (mac_string hw)) = Some hw.
Proof.
  intros Hb Hl. destruct hw as [|a [|b [|c [|d [|e [|f [|]]]]]]]; try discriminate.
  rewrite mac_upper_six. repeat (apply Forall_cons_1 in Hb as [? Hb]).
  unfold ParseMAC. change (len _) with 17. cbn [Z.ltb Z.compare Pos.compare Pos.compare_cont].
  change (at_ _ 2) with 58. cbn [Z.eqb Pos.eqb orb].
  change (negb ((17 + 1) mod 3 =? 0)) with false. cbv beta iota zeta.
  change (negb (mac_size ((17 + 1) / 3))) with false. cbv beta iota zeta.
  change (Z.to_nat ((17 + 1) / 3)) with 6%nat. cbn [mac_colon Nat.add].
  cbn [drop app mac_pair_upper].
  pose proof (fun x rest Hx Hr => xtoi2_pair x rest 58 Hx Hr) as X. cbn [mac_pair_upper app] in X.
  do 5 (rewrite X by auto). rewrite (X f []) by auto. done.
Qed.
