(* ===== verification/Protocol.v ===== *)
(** * The LE call-control packet protocol

    Models src/callbridge-le-call-go/internal/protocol/protocol.go: the 128-byte
    packet that carries call snapshots, commands, acknowledgements, results and
    readiness between le-call-go and the Asterisk channel driver, the caller
    identity inside a state payload, and the validation both directions share. *)

From S2P Require Import Prelude GoStd.

(** ** Constants *)
Definition Version : Z := 2.
Definition PacketSize : nat := 128.
Definition PayloadSize : Z := 78.
Definition IdentityURIMax : Z := 32.
Definition IdentityNameMax : Z := 44.

Definition TypeState : Z := 1.
Definition TypeCommand : Z := 2.
Definition TypeAck : Z := 3.
Definition TypeResult : Z := 4.
Definition TypeReady : Z := 5.

Definition FlagSnapshot : Z := 1.
Definition FlagLast : Z := 2.
Definition NoCallState : Z := 0xff.

Definition OpcodeAccept : Z := 0.
Definition OpcodeTerminate : Z := 1.
Definition OpcodeLocalHold : Z := 2.
Definition OpcodeLocalRetrieve : Z := 3.
Definition OpcodeOriginate : Z := 4.
Definition OpcodeJoin : Z := 5.

Definition AckAccepted : Z := 0.
Definition AckStale : Z := 1.
Definition AckUnavailable : Z := 2.
Definition AckInvalid : Z := 3.
Definition AckWriteFailed : Z := 4.

Definition magic : bytes := str "GGCC".

(** ** Data *)
Record Message := mkMessage {
  mType : Z;
  mFlags : Z;
  mSequence : Z;
  mToken : Z;
  mDevice : bytes;
  mIndex : Z;
  mCode : Z;
  mValue : Z;
  mPayload : bytes
}.

Record Identity := mkIdentity { URI : bytes; Name : bytes }.

#[export] Instance Identity_eq_dec : EqDecision Identity.
Proof. solve_decision. Defined.

Definition no_identity : Identity := mkIdentity [] [].
Definition identity_empty (i : Identity) : bool := (URI i =s? []) && (Name i =s? []).

(** ** Caller identity *)
Definition EncodeIdentity (i : Identity) : result bytes :=
  if identity_empty i then Ok []
  else if (IdentityURIMax <? len (URI i)) || (IdentityNameMax <? len (Name i))
       then fail! "caller identity exceeds its bound"
       else Ok (u8 (len (URI i)) :: URI i ++ u8 (len (Name i)) :: Name i).

Definition DecodeIdentity (payload : bytes) : result Identity :=
  if len payload =? 0 then Ok no_identity
  else
    let uriLength := at_ payload 0 in
    if (IdentityURIMax <? uriLength) || (len payload <=? 1 + uriLength)
    then fail! "caller identity uri is out of bounds"
    else
      let nameOffset := Z.to_nat (1 + uriLength) in
      let nameLength := at_ payload nameOffset in
      if (IdentityNameMax <? nameLength) ||
         negb (1 + uriLength + 1 + nameLength =? len payload)
      then fail! "caller identity name is out of bounds"
      else Ok {| URI := slice payload 1 nameOffset;
                 Name := slice payload (nameOffset + 1)
                               (nameOffset + 1 + Z.to_nat nameLength) |}.

(** ** Validation *)
Definition validCallReference (opcode index token : Z) : bool :=
  if opcode =? OpcodeOriginate
  then ((index =? 0) && (token =? 0)) || (negb (index =? 0) && negb (token =? 0))
  else negb (index =? 0) && negb (token =? 0).

Definition ValidResult (r : Z) : bool := (r <=? 0x04) || (r =? 0x06).

Definition normalizedDevice (address : bytes) : bytes :=
  match ParseMAC (TrimSpace address) with
  | Some hardware =>
      if negb (len hardware =? 6) then [] else ToUpper (mac_string hardware)
  | None => []
  end.
Definition NormalizeDevice := normalizedDevice.

Definition uri_char (c : Z) : bool := is_digit c || (c =? 43) || (c =? 42) || (c =? 35).

Definition ValidURI (uri : bytes) : bool :=
  if (len uri <? 5) || (PayloadSize <? len uri) || negb (HasPrefix uri (str "tel:"))
  then false
  else forallb uri_char (runes (drop 4 uri)).

Definition validate (m : Message) : result unit :=
  if (mType m <? TypeState) || (TypeReady <? mType m) ||
     negb (no_bits_outside (mFlags m) (Z.lor FlagSnapshot FlagLast)) ||
     (mSequence m =? 0) || (PayloadSize <? len (mPayload m))
  then fail! "invalid LE call-control message"
  else if normalizedDevice (mDevice m) =s? []
  then fail! "invalid LE call-control device address"
  else if mType m =? TypeState then
    if negb (has_bits (mFlags m) FlagSnapshot) then fail! "call state is not a full snapshot"
    else if mCode m =? NoCallState then
      if negb (mIndex m =? 0) || negb (mToken m =? 0) || negb (mValue m =? 0) ||
         negb (len (mPayload m) =? 0)
      then fail! "invalid empty call snapshot" else Ok tt
    else if (mIndex m =? 0) || (mToken m =? 0) || (6 <? mCode m) ||
            negb (no_bits_outside (mValue m) 7)
    then fail! "invalid call state message"
    else let! _ := DecodeIdentity (mPayload m) in Ok tt
  else if mType m =? TypeCommand then
    if negb (mFlags m =? 0) then fail! "command carries flags"
    else if OpcodeJoin <? mCode m then fail! "invalid call-control opcode"
    else if mCode m =? OpcodeOriginate then
      if negb (mIndex m =? 0) || negb (mToken m =? 0) || negb (ValidURI (mPayload m))
      then fail! "invalid originate command" else Ok tt
    else if (mIndex m =? 0) || (mToken m =? 0) || negb (len (mPayload m) =? 0)
    then fail! "invalid indexed call command" else Ok tt
  else if mType m =? TypeAck then
    if negb (mFlags m =? 0) || (OpcodeJoin <? mCode m) || (AckWriteFailed <? mValue m) ||
       negb (len (mPayload m) =? 0) ||
       negb (validCallReference (mCode m) (mIndex m) (mToken m))
    then fail! "invalid call-control acknowledgement" else Ok tt
  else if mType m =? TypeResult then
    if negb (mFlags m =? 0) || (OpcodeJoin <? mCode m) ||
       negb (validCallReference (mCode m) (mIndex m) (mToken m)) ||
       negb (ValidResult (mValue m)) || negb (len (mPayload m) =? 0)
    then fail! "invalid call-control result" else Ok tt
  else if mType m =? TypeReady then
    if negb (mFlags m =? 0) || negb (mIndex m =? 0) || negb (mToken m =? 0) ||
       (1 <? mCode m) || negb (mValue m =? 0) || negb (len (mPayload m) =? 0)
    then fail! "invalid readiness message" else Ok tt
  else Ok tt.

(** ** The packet *)
Definition packet_of (m : Message) : bytes :=
  let packet := replicate PacketSize 0 in
  let packet := copy_into packet 0 4 magic in
  let packet := put packet 4 Version in
  let packet := put packet 5 (mType m) in
  let packet := put packet 6 (mFlags m) in
  let packet := put_le 8 packet 8 (mSequence m) in
  let packet := put_le 8 packet 16 (mToken m) in
  let packet := put packet 24 (mIndex m) in
  let packet := put packet 25 (mCode m) in
  let packet := put packet 26 (mValue m) in
  let packet := put_le 2 packet 28 (u16 (len (mPayload m))) in
  let packet := copy_into packet 32 49 (mDevice m) in
  copy_into packet 50 128 (mPayload m).

Definition Encode (m : Message) : result bytes :=
  let! _ := validate m in
  Ok (packet_of m).

(** [for deviceEnd < 49 && packet[deviceEnd] != 0 { deviceEnd++ }]: the bytes before
    the first zero. *)
Fixpoint until_zero (p : bytes) : bytes :=
  match p with
  | [] => []
  | b :: p => if b =? 0 then [] else b :: until_zero p
  end.

Definition Decode (packet : bytes) : result Message :=
  if negb (len packet =? Z.of_nat PacketSize) || negb (slice packet 0 4 =s? magic) ||
     negb (at_ packet 4 =? Version) || negb (at_ packet 7 =? 0) || negb (at_ packet 27 =? 0) ||
     negb (le_value (slice packet 30 32) =? 0) || negb (at_ packet 49 =? 0)
  then fail! "invalid LE call-control packet header"
  else
    let payloadLength := le_value (slice packet 28 30) in
    if PayloadSize <? payloadLength then fail! "LE call-control payload exceeds bound"
    else
      let payloadEnd := Z.to_nat (50 + payloadLength) in
      if negb (forallb (Z.eqb 0) (drop payloadEnd packet))
      then fail! "nonzero LE call-control packet padding"
      else
        let message :=
          {| mType := at_ packet 5; mFlags := at_ packet 6;
             mSequence := le_value (slice packet 8 16);
             mToken := le_value (slice packet 16 24);
             mDevice := until_zero (slice packet 32 49);
             mIndex := at_ packet 24; mCode := at_ packet 25; mValue := at_ packet 26;
             mPayload := slice packet 50 payloadEnd |} in
        let! _ := validate message in
        Ok message.

(** The Go types of the fields: bytes, 64-bit words and byte strings. *)
Record message_typed (m : Message) : Prop := {
  mt_Type : is_byte (mType m);
  mt_Flags : is_byte (mFlags m);
  mt_Sequence : in_width 64 (mSequence m);
  mt_Token : in_width 64 (mToken m);
  mt_Device : all_bytes (mDevice m);
  mt_Index : is_byte (mIndex m);
  mt_Code : is_byte (mCode m);
  mt_Value : is_byte (mValue m);
  mt_Payload : all_bytes (mPayload m)
}.

(** ** Device addresses *)

Lemma xtoi2_byte s e b : xtoi2 s e = Some b -> is_byte b.
Proof.
  unfold xtoi2. intros H. repeat case_match; simplify_eq.
  unfold u8, in_width. apply Z.mod_pos_bound. lia.
Qed.

Lemma mac_colon_bytes s sep x n hw : mac_colon s sep x n = Some hw -> all_bytes hw /\ length hw = n.
Proof.
  revert x hw. induction n as [|n IH]; intros x hw H; simpl in H; [by simplify_eq|].
  repeat case_match; simplify_eq. edestruct IH; [done|]. split; [|simpl; lia].
  constructor; [by eapply xtoi2_byte|done].
Qed.

Lemma mac_dot_bytes s sep x n hw : mac_dot s sep x n = Some hw -> all_bytes hw /\ length hw = (2 * n)%nat.
Proof.
  revert x hw. induction n as [|n IH]; intros x hw H; simpl in H; [by simplify_eq|].
  repeat case_match; simplify_eq. edestruct IH; [done|]. split; [|simpl; lia].
  repeat constructor; first [by eapply xtoi2_byte|done].
Qed.

Lemma ParseMAC_bytes s hw : ParseMAC s = Some hw -> all_bytes hw.
Proof.
  unfold ParseMAC. intros H. repeat case_match; simplify_eq.
  - by eapply mac_colon_bytes.
  - by eapply mac_dot_bytes.
Qed.

Definition device_char (c : Z) : Prop := 48 <= c <= 70.

Lemma mac_upper_chars hw :
  all_bytes hw -> length hw = 6%nat ->
  length (ToUpper (mac_string hw)) = 17%nat /\ Forall device_char (ToUpper (mac_string hw)).
Proof.
  intros Hb Hl. destruct hw as [|a [|b [|c [|d [|e [|f [|]]]]]]]; try discriminate.
  rewrite mac_upper_six. split; [done|].
  assert (forall x, is_byte x -> device_char (hex_upper_digit (x / 16)) /\
                              device_char (hex_upper_digit (x mod 16))) as X.
  { intros x Hx. unfold in_width in Hx. change (2 ^ 8) with 256 in Hx.
    pose proof (Z.div_lt_upper_bound x 16 16). pose proof (Z.div_pos x 16).
    pose proof (Z.mod_pos_bound x 16).
    split; apply hex_upper_byte; lia. }
  repeat (apply Forall_cons_1 in Hb as [? Hb]).
  cbn [mac_pair_upper app].
  repeat (apply Forall_cons; split; [first [apply X; assumption | unfold device_char; lia]|]).
  done.
Qed.

Lemma TrimSpace_device s : (2 <= length s)%nat -> Forall device_char s -> TrimSpace s = s.
Proof.
  intros Hl Hs. destruct s as [|a s]; [simpl in Hl; lia|].
  destruct s as [|b s _] using rev_ind; [simpl in Hl; lia|].
  inversion_clear Hs as [|? ? Ha Hs']. apply Forall_app in Hs' as [_ Hb].
  inversion_clear Hb as [|? ? Hb' _]. unfold device_char in *.
  assert (forall c, 48 <= c <= 70 -> IsSpace c = false) as X.
  { intros c Hc. unfold IsSpace, in_range. repeat (rewrite orb_false_iff; split); lia. }
  apply TrimSpace_visible; auto; unfold RuneSelf; lia.
Qed.

Lemma normalizedDevice_spec d :
  normalizedDevice d = [] \/
  exists hw, all_bytes hw /\ length hw = 6%nat /\ normalizedDevice d = ToUpper (mac_string hw).
Proof.
  unfold normalizedDevice. destruct (ParseMAC (TrimSpace d)) as [hw|] eqn:E; [|auto].
  destruct (Z.eqb_spec (len hw) 6) as [Hl|]; simpl; [|auto].
  right. exists hw. split_and!; [by eapply ParseMAC_bytes|unfold len in Hl; lia|done].
Qed.

Lemma normalizedDevice_mac hw :
  all_bytes hw -> length hw = 6%nat ->
  normalizedDevice (ToUpper (mac_string hw)) = ToUpper (mac_string hw).
Proof.
  intros Hb Hl. destruct (mac_upper_chars hw Hb Hl) as [H17 Hc].
  unfold normalizedDevice. rewrite TrimSpace_device by (auto; lia).
  rewrite ParseMAC_upper by done. unfold len. by rewrite Hl.
Qed.

Lemma normalizedDevice_idemp d : normalizedDevice (normalizedDevice d) = normalizedDevice d.
Proof.
  destruct (normalizedDevice_spec d) as [->|(hw & Hb & Hl & ->)]; [done|].
  by apply normalizedDevice_mac.
Qed.

(** What a device string accepted in its canonical form looks like. *)
Lemma normalized_shape d :
  normalizedDevice d = d -> d <> [] -> length d = 17%nat /\ Forall device_char d.
Proof.
  intros E Hd. destruct (normalizedDevice_spec d) as [E'|(hw & Hb & Hl & E')].
  - congruence.
  - rewrite E in E'. subst d. by apply mac_upper_chars.
Qed.

(** [NormalizeDevice] is a canonical form: applying it twice changes
    nothing, and a non-empty result is seventeen characters, each an upper-case
    hexadecimal digit or a colon, so it fits the packet's device field exactly. *)
Theorem NormalizeDevice_canonical d :
  NormalizeDevice (NormalizeDevice d) = NormalizeDevice d /\
  (NormalizeDevice d = [] \/
   (length (NormalizeDevice d) = 17%nat /\ Forall device_char (NormalizeDevice d))).
Proof.
  unfold NormalizeDevice. split; [apply normalizedDevice_idemp|].
  destruct (normalizedDevice_spec d) as [->|(hw & Hb & Hl & ->)]; [by left|].
  right. by apply mac_upper_chars.
Qed.

(** ** Layout of the packet *)

(** The packet as a concatenation of its fields, for a 17-character device. *)
Definition layout (m : Message) : bytes :=
  magic ++ [Version; mType m; mFlags m; 0] ++ le_bytes 8 (mSequence m) ++
  le_bytes 8 (mToken m) ++ [mIndex m; mCode m; mValue m; 0] ++
  le_bytes 2 (u16 (len (mPayload m))) ++ [0; 0] ++ mDevice m ++ [0] ++
  mPayload m ++ replicate (78 - length (mPayload m)) 0.

Ltac list17 d :=
  let H := fresh in
  do 17 (destruct d as [|? d]; [exfalso; simpl in *; lia|]);
  destruct d as [|? d]; [|exfalso; simpl in *; lia].

Lemma packet_layout m :
  length (mDevice m) = 17%nat -> len (mPayload m) <= PayloadSize -> packet_of m = layout m.
Proof.
  intros Hd Hp. unfold len, PayloadSize in Hp. unfold packet_of, layout.
  destruct m as [ty fl sq tk d ix cd vl pl]; simpl in *. list17 d.
  unfold copy_into at 1. rewrite (firstn_all2 pl) by lia.
  rewrite (splice_tail _ 50). rewrite <- (drop_replicate (length pl) 78).
  set (tail := drop (length pl)). cbn -[Z.modulo Z.div u16 tail]. subst tail. done.
Qed.

Lemma validate_bounds m :
  validate m = Ok tt -> normalizedDevice (mDevice m) <> [] /\ len (mPayload m) <= PayloadSize /\
                        mSequence m <> 0.
Proof.
  unfold validate. intros H.
  destruct ((mType m <? TypeState) || _ || _ || _ || _) eqn:E; [discriminate|].
  destruct (normalizedDevice (mDevice m) =s? []) eqn:E2; [discriminate|].
  bool_prop. unfold str_eqb in E2. bool_prop. split_and!; auto; lia.
Qed.

Lemma until_zero_nonzero d : Forall device_char d -> until_zero d = d.
Proof.
  induction 1 as [|c d Hc _ IH]; [done|]. simpl. unfold device_char in Hc.
  destruct (Z.eqb_spec c 0); [lia|]. by rewrite IH.
Qed.

Lemma until_zero_app_zero p q : Forall device_char p -> until_zero (p ++ 0 :: q) = p.
Proof.
  induction 1 as [|c p Hc _ IH]; [done|]. simpl. unfold device_char in Hc.
  destruct (Z.eqb_spec c 0); [lia|]. by rewrite IH.
Qed.

Lemma le_value_u16 v : le_value (le_bytes 2 (u16 v)) = u16 v.
Proof. apply le_value_bytes_id. unfold u16. apply Z.mod_pos_bound. lia. Qed.

Lemma eta_message m :
  {| mType := mType m; mFlags := mFlags m; mSequence := mSequence m; mToken := mToken m;
     mDevice := mDevice m; mIndex := mIndex m; mCode := mCode m; mValue := mValue m;
     mPayload := mPayload m |} = m.
Proof. by destruct m. Qed.

(** Decoding the layout of a message yields its validation. *)
Lemma Decode_layout m :
  message_typed m -> length (mDevice m) = 17%nat -> Forall device_char (mDevice m) ->
  len (mPayload m) <= PayloadSize ->
  Decode (layout m) = let! _ := validate m in Ok m.
Proof.
  intros Ht Hd Hc Hp. unfold len, PayloadSize in Hp. unfold Decode.
  assert (len (layout m) = Z.of_nat PacketSize) as ->.
  { unfold layout, len, PacketSize.
    rewrite !length_app, !length_le_bytes, length_replicate, Hd. simpl. lia. }
  assert (slice (layout m) 0 4 = magic) as -> by done.
  assert (at_ (layout m) 4 = Version) as -> by done.
  assert (at_ (layout m) 7 = 0) as -> by done.
  assert (at_ (layout m) 27 = 0) as -> by done.
  assert (slice (layout m) 30 32 = [0; 0]) as -> by done.
  assert (slice (layout m) 28 30 = le_bytes 2 (u16 (len (mPayload m)))) as -> by done.
  assert (slice (layout m) 8 16 = le_bytes 8 (mSequence m)) as -> by done.
  assert (slice (layout m) 16 24 = le_bytes 8 (mToken m)) as -> by done.
  rewrite le_value_u16.
  assert (u16 (len (mPayload m)) = len (mPayload m)) as ->.
  { unfold u16, len. apply Z.mod_small. lia. }
  rewrite !le_value_bytes_id by (apply Ht).
  assert (layout m = take 50 (layout m) ++ mPayload m ++ replicate (78 - length (mPayload m)) 0) as El.
  { unfold layout. destruct m as [ty fl sq tk d ix cd vl pl]; simpl in *. list17 d. done. }
  assert (slice (layout m) 32 49 = mDevice m) as ->.
  { unfold layout. destruct m as [ty fl sq tk d ix cd vl pl]; simpl in *. list17 d. done. }
  assert (at_ (layout m) 49 = 0) as ->.
  { unfold layout. destruct m as [ty fl sq tk d ix cd vl pl]; simpl in *. list17 d. done. }
  assert (length (take 50 (layout m)) = 50%nat) as L50.
  { rewrite length_take. unfold layout. rewrite !length_app, !length_le_bytes, Hd. simpl. lia. }
  replace (Z.to_nat (50 + len (mPayload m))) with (50 + length (mPayload m))%nat by (unfold len; lia).
  assert (slice (layout m) 50 (50 + length (mPayload m)) = mPayload m) as ->.
  { rewrite El. unfold slice. rewrite drop_app_length' by done.
    rewrite take_app_length' by lia. done. }
  assert (drop (50 + length (mPayload m)) (layout m) = replicate (78 - length (mPayload m)) 0) as ->.
  { rewrite El, app_assoc. apply drop_app_length'. rewrite length_app, L50. done. }
  rewrite until_zero_nonzero, forallb_replicate by done.
  unfold len, PayloadSize. destruct (Z.ltb_spec 78 (Z.of_nat (length (mPayload m)))); [lia|].
  cbn. by destruct m.
Qed.

(** The values the control server and its peer exchange: fields within their Go
    types and the device in its canonical spelling. *)
Definition message_canonical (m : Message) : Prop :=
  message_typed m /\ normalizedDevice (mDevice m) = mDevice m.

Lemma Encode_Decode m p : message_canonical m -> Encode m = Ok p -> Decode p = Ok m.
Proof.
  intros [Ht Hn] H. unfold Encode in H.
  destruct (validate m) as [[]|] eqn:V; simpl in H; [|discriminate]. injection H as <-.
  destruct (validate_bounds m V) as (Hd & Hp & _). rewrite Hn in Hd.
  destruct (normalized_shape _ Hn Hd) as [H17 Hc].
  rewrite packet_layout, Decode_layout, V by done. done.
Qed.

#[export] Instance Message_codec : Codec Message := {|
  codec_encode := Encode;
  codec_decode := Decode;
  codec_ok := message_canonical;
  codec_roundtrip := Encode_Decode
|}.

(** C11.  Round trip of the call-control packet: whatever [Encode] accepts for a
    message in canonical form, [Decode] gives back unchanged, every field and the
    payload included. *)
Theorem message_roundtrip m p :
  message_canonical m -> Encode m = Ok p -> Decode p = Ok m /\ length p = PacketSize.
Proof.
  intros Hc H. split; [by apply Encode_Decode|].
  unfold Encode in H. destruct (validate m) as [[]|] eqn:V; simpl in H; [|discriminate].
  injection H as <-. destruct Hc as [_ Hn]. destruct (validate_bounds m V) as (Hd & Hp & _).
  rewrite Hn in Hd. destruct (normalized_shape _ Hn Hd) as [H17 _].
  rewrite packet_layout by done. unfold layout. unfold len, PayloadSize in Hp.
  rewrite !length_app, !length_le_bytes, length_replicate, H17. simpl. unfold PacketSize. lia.
Qed.

(** A ringing call as the control server sends it. *)
Definition sample_state : Message :=
  {| mType := TypeState; mFlags := 3; mSequence := 9; mToken := 44;
     mDevice := str "00:11:22:33:44:55"; mIndex := 3; mCode := 0; mValue := 0;
     mPayload := [4; 43; 56; 50; 49; 0] |}.

Lemma typed_dec m :
  Forall (in_width 8) ([mType m; mFlags m; mIndex m; mCode m; mValue m] ++ mDevice m ++ mPayload m) ->
  Forall (in_width 64) [mSequence m; mToken m] -> message_typed m.
Proof.
  intros H8 H64. repeat (apply Forall_app in H8 as [? H8]).
  repeat match goal with H : Forall _ (_ :: _) |- _ => apply Forall_cons_1 in H as [? ?] end.
  constructor; auto.
Qed.

Lemma sample_state_canonical : message_canonical sample_state.
Proof.
  split; [|by vm_compute].
  apply typed_dec; apply (bool_decide_unpack _); by vm_compute.
Qed.

Lemma message_roundtrip_witness :
  exists p, Encode sample_state = Ok p /\ Decode p = Ok sample_state /\ length p = PacketSize.
Proof.
  exists (packet_of sample_state). split; [vm_compute; reflexivity|].
  apply (message_roundtrip sample_state); [exact sample_state_canonical|vm_compute; reflexivity].
Defined.

(** ** Canonicity of the decoder *)

Lemma le_value_zero p : all_bytes p -> le_value p = 0 -> p = replicate (length p) 0.
Proof.
  induction 1 as [|b p Hb Hp IH]; intros E; [done|]. simpl in E |- *.
  unfold in_width in Hb. pose proof (le_value_bound p Hp).
  assert (b = 0 /\ le_value p = 0) as [-> E'] by lia. f_equal. auto.
Qed.

Lemma all_zero p : forallb (Z.eqb 0) p = true -> p = replicate (length p) 0.
Proof.
  induction p as [|b p IH]; [done|]. cbn [forallb]. intros H. bool_prop. subst. simpl. f_equal. auto.
Qed.

Lemma until_zero_length p : (length (until_zero p) <= length p)%nat.
Proof. induction p as [|b p IH]; simpl; [done|]. case_match; simpl; lia. Qed.

Lemma until_zero_full p : length (until_zero p) = length p -> until_zero p = p.
Proof.
  induction p as [|b p IH]; [done|]. simpl. case_match; [done|]. simpl. intros. f_equal. auto.
Qed.

(** A packet is its sections one after the other; [k] is where the payload ends. *)
Lemma packet_sections (p : bytes) (k : nat) :
  length p = 128%nat -> (50 <= k <= 128)%nat ->
  p = slice p 0 4 ++ slice p 4 8 ++ slice p 8 16 ++ slice p 16 24 ++ slice p 24 28 ++ slice p 28 30 ++ slice p 30 32 ++
      slice p 32 49 ++ slice p 49 50 ++ slice p 50 k ++ drop k p.
Proof.
  intros L Hk. rewrite <- (slice_whole p 128) at 1 by lia.
  rewrite (slice_split p 0 4 128), (slice_split p 4 8 128), (slice_split p 8 16 128),
    (slice_split p 16 24 128), (slice_split p 24 28 128), (slice_split p 28 30 128),
    (slice_split p 30 32 128), (slice_split p 32 49 128), (slice_split p 49 50 128),
    (slice_split p 50 k 128) by lia.
  repeat f_equal. unfold slice. rewrite firstn_all2; [done|]. rewrite length_drop. lia.
Qed.
Lemma Decode_is_layout p m :
  all_bytes p -> Decode p = Ok m -> length (mDevice m) = 17%nat ->
  p = layout m /\ validate m = Ok tt /\ len (mPayload m) <= PayloadSize.
Proof.
  intros Hb H Hd. unfold Decode in H.
  destruct (negb (len p =? _) || _ || _ || _ || _ || _ || _) eqn:Hh; [discriminate|].
  destruct (PayloadSize <? _) eqn:Hpl; [discriminate|].
  destruct (negb (forallb _ _)) eqn:Hz; [discriminate|].
  match type of H with context [validate ?x] => destruct (validate x) as [[]|] eqn:V end;
    simpl in H; [|discriminate].
  injection H as <-. simpl in Hd. bool_prop.
  repeat match goal with H : (_ =s? _) = true |- _ => unfold str_eqb in H end. bool_prop.
  set (n := le_value (slice p 28 30)) in *.
  assert (length p = 128%nat) as L by (unfold len, PacketSize in *; lia).
  assert (0 <= n <= 78) as Hn.
  { unfold PayloadSize in *. pose proof (le_value_bound (slice p 28 30) ltac:(auto with go)).
    subst n. lia. }
  assert (until_zero (slice p 32 49) = slice p 32 49) as Ed.
  { apply until_zero_full. rewrite Hd, length_slice; lia. }
  split_and!; [|done|].
  2:{ simpl. unfold len. rewrite length_slice by lia. unfold PayloadSize. lia. }
  unfold layout. cbn [mType mFlags mSequence mToken mDevice mIndex mCode mValue mPayload].
  rewrite Ed.
  assert (len (slice p 50 (Z.to_nat (50 + n))) = n) as Ln.
  { unfold len. rewrite length_slice by lia. lia. }
  rewrite Ln. unfold u16. rewrite (Z.mod_small n) by lia.
  subst n. rewrite !le_bytes_slice by (auto; lia).
  assert (slice p 30 32 = [0; 0]) as E30.
  { match goal with E : le_value (slice p 30 32) = 0 |- _ =>
      apply le_value_zero in E; [|auto with go]; rewrite length_slice in E by lia; exact E end. }
  match goal with E : forallb _ _ = true |- _ => apply all_zero in E; rewrite length_drop, L in E end.
  set (k := Z.to_nat (50 + le_value (slice p 28 30))) in *.
  assert (50 <= k <= 128)%nat as Hk by (subst k; lia).
  rewrite length_slice by lia. replace (78 - (k - 50))%nat with (128 - k)%nat by lia.
  match goal with E : drop k p = _ |- _ => rewrite <- E end.
  rewrite <- E30.
  replace [Version; at_ p 5; at_ p 6; 0] with (slice p 4 8)
    by (rewrite (at_slice4 p 4) by lia; simpl; congruence).
  replace [at_ p 24; at_ p 25; at_ p 26; 0] with (slice p 24 28)
    by (rewrite (at_slice4 p 24) by lia; simpl; congruence).
  replace [0] with (slice p 49 50) by (rewrite (at_slice p 49) by lia; congruence).
  match goal with E : slice p 0 4 = magic |- _ => rewrite <- E end.
  rewrite (packet_sections p k L Hk) at 1. rewrite <- ?app_assoc. done.
Qed.

Lemma at_byte p i : all_bytes p -> is_byte (at_ p i).
Proof.
  intros H. unfold at_. destruct (nth_in_or_default i p 0) as [Hin| ->]; [|by vm_compute].
  rewrite Forall_forall in H. apply H. by apply list_elem_of_In.
Qed.

Lemma until_zero_Forall (P : Z -> Prop) p : Forall P p -> Forall P (until_zero p).
Proof. induction 1; simpl; [constructor|]. case_match; [constructor|by constructor]. Qed.

(** A decoded message has well-typed fields and passed the shared validation. *)
Lemma Decode_typed p m : all_bytes p -> Decode p = Ok m -> message_typed m /\ validate m = Ok tt.
Proof.
  intros Hb H. unfold Decode in H.
  destruct (negb (len p =? _) || _ || _ || _ || _ || _ || _) eqn:Hh; [discriminate|].
  destruct (PayloadSize <? _); [discriminate|]. destruct (negb (forallb _ _)); [discriminate|].
  match type of H with context [validate ?x] => destruct (validate x) as [[]|] eqn:V end;
    simpl in H; [|discriminate].
  injection H as <-. split; [|done]. bool_prop.
  assert (length p = 128%nat) as L by (unfold len, PacketSize in *; lia).
  assert (forall i j, (j <= 128)%nat -> (j = i + 8)%nat -> in_width 64 (le_value (slice p i j))) as H64.
  { intros i j Hj ->. pose proof (le_value_bound (slice p i (i + 8)) ltac:(auto with go)) as B.
    unfold len in B. rewrite length_slice in B by lia.
    replace (i + 8 - i)%nat with 8%nat in B by lia. exact B. }
  split; simpl; auto using at_byte, all_bytes_slice.
  - apply H64; lia.
  - apply H64; lia.
  - apply until_zero_Forall. auto with go.
Qed.

(** The decoder is canonical on full-length device addresses: an accepted
    packet is byte for byte the encoding of the message it decodes to, so reserved
    bytes and padding carry nothing and no two packets mean the same message. *)
Theorem decode_canonical p m :
  all_bytes p -> Decode p = Ok m -> length (mDevice m) = 17%nat -> Encode m = Ok p.
Proof.
  intros Hb H Hd. destruct (Decode_is_layout p m Hb H Hd) as (-> & V & Hp).
  unfold Encode. rewrite V. simpl. by rewrite packet_layout.
Qed.

Lemma decode_canonical_witness :
  exists p, length (mDevice sample_state) = 17%nat /\ Encode sample_state = Ok p.
Proof.
  exists (packet_of sample_state). split; [reflexivity|].
  apply (decode_canonical (packet_of sample_state)).
  - apply (bool_decide_unpack _). by vm_compute.
  - vm_compute. reflexivity.
  - reflexivity.
Defined.

(** ** Caller identity *)

Lemma identity_empty_true i : identity_empty i = true -> i = no_identity.
Proof.
  destruct i. unfold identity_empty, str_eqb. simpl. intros. bool_prop. by subst.
Qed.

Lemma EncodeIdentity_ok i :
  len (URI i) <= IdentityURIMax -> len (Name i) <= IdentityNameMax ->
  exists p, EncodeIdentity i = Ok p /\ len p <= PayloadSize.
Proof.
  intros Hu Hn. unfold EncodeIdentity. unfold PayloadSize, IdentityURIMax, IdentityNameMax in *.
  case_match; [eexists; split; [done|by unfold len; simpl]|].
  destruct (Z.ltb_spec 32 (len (URI i))), (Z.ltb_spec 44 (len (Name i))); simpl; try lia.
  eexists. split; [done|]. unfold len in *. simpl. rewrite length_app. simpl. lia.
Qed.

Lemma EncodeIdentity_Decode i p : EncodeIdentity i = Ok p -> DecodeIdentity p = Ok i.
Proof.
  unfold EncodeIdentity, IdentityURIMax, IdentityNameMax. intros H.
  destruct (identity_empty i) eqn:E.
  { injection H as <-. by rewrite (identity_empty_true i E). }
  clear E. destruct i as [u n]; simpl in *. ok_inv H. subst p.
  assert (u8 (len u) = len u) as Eu by (apply Z.mod_small; pose proof (len_nonneg u); lia).
  assert (u8 (len n) = len n) as En by (apply Z.mod_small; pose proof (len_nonneg n); lia).
  rewrite Eu, En. unfold DecodeIdentity, IdentityURIMax, IdentityNameMax.
  assert (len (len u :: u ++ len n :: n) = 2 + len u + len n) as Hlen.
  { unfold len. simpl. rewrite length_app. simpl. lia. }
  rewrite Hlen. pose proof (len_nonneg u). pose proof (len_nonneg n).
  destruct (Z.eqb_spec (2 + len u + len n) 0); [lia|].
  change (at_ (len u :: u ++ len n :: n) 0) with (len u).
  assert (Z.to_nat (1 + len u) = S (length u)) as -> by (unfold len; lia).
  assert (at_ (len u :: u ++ len n :: n) (S (length u)) = len n) as ->.
  { unfold at_. simpl. rewrite app_nth2, Nat.sub_diag by lia. done. }
  destruct (Z.ltb_spec 32 (len u)), (Z.leb_spec (2 + len u + len n) (1 + len u)),
    (Z.ltb_spec 44 (len n)); simpl; try lia.
  destruct (Z.eqb_spec (1 + len u + 1 + len n) (2 + len u + len n)); simpl; [|lia].
  do 2 f_equal.
  - unfold slice. replace (S (length u) - 1)%nat with (length u) by lia.
    cbn [drop]. by rewrite drop_0, take_app_length.
  - change (len u :: u ++ len n :: n) with ((len u :: u) ++ ([len n] ++ n)).
    rewrite app_assoc. apply slice_app_full; rewrite length_app; simpl; unfold len; lia.
Qed.

(** Round trip of the caller identity: an identity within the 32- and
    44-byte bounds always encodes, into a payload no larger than a packet's, and
    decodes to itself; a longer one is refused. *)
Theorem identity_roundtrip i :
  (len (URI i) <= IdentityURIMax /\ len (Name i) <= IdentityNameMax ->
     exists p, EncodeIdentity i = Ok p /\ len p <= PayloadSize /\ DecodeIdentity p = Ok i) /\
  (IdentityURIMax < len (URI i) \/ IdentityNameMax < len (Name i) ->
     is_ok (EncodeIdentity i) = false).
Proof.
  split.
  - intros [Hu Hn]. destruct (EncodeIdentity_ok i Hu Hn) as (p & E & Hp).
    exists p. split_and!; [done..|by apply EncodeIdentity_Decode].
  - unfold EncodeIdentity, IdentityURIMax, IdentityNameMax. intros H.
    destruct (identity_empty i) eqn:E.
    { apply identity_empty_true in E. subst. unfold len in H. simpl in H. lia. }
    destruct (Z.ltb_spec 32 (len (URI i))), (Z.ltb_spec 44 (len (Name i))); simpl; auto; lia.
Qed.

(** The hypothesis-free instance for one withheld and one full-length caller. *)
Lemma identity_roundtrip_witness :
  (exists p, EncodeIdentity (mkIdentity (replicate 32 57) (replicate 44 65)) = Ok p /\
             len p <= PayloadSize /\
             DecodeIdentity p = Ok (mkIdentity (replicate 32 57) (replicate 44 65))) /\
  is_ok (EncodeIdentity (mkIdentity (replicate 33 57) [])) = false.
Proof.
  split.
  - apply (identity_roundtrip (mkIdentity (replicate 32 57) (replicate 44 65))).
    vm_compute. split; discriminate.
  - apply (identity_roundtrip (mkIdentity (replicate 33 57) [])). left. vm_compute. reflexivity.
Defined.

(** A device string with one leading space: accepted by [validate], because the
    address is trimmed before it is parsed, but one byte longer than the field. *)
Definition spaced_device_message : Message :=
  {| mType := TypeReady; mFlags := 0; mSequence := 1; mToken := 0;
     mDevice := str " 00:11:22:33:44:55"; mIndex := 0; mCode := 1; mValue := 0; mPayload := [] |}.

(** [Encode] accepts a device with surrounding white space, truncates it to
    the seventeen bytes of its field, and the packet it returns is one [Decode]
    refuses: validation trims the address and the packet does not. *)
Theorem spaced_device_not_decodable :
  exists p, Encode spaced_device_message = Ok p /\ is_ok (Decode p) = false.
Proof. exists (packet_of spaced_device_message). split; vm_compute; reflexivity. Qed.
