(* ===== verification/GtbsState.v ===== *)
(** * The GTBS call store

    Models src/callbridge-le-call-go/internal/gtbs/state.go: the store that turns
    the phone's Call State and Incoming Call characteristics into snapshots, issues
    the lifecycle token of each call, records which calls this side accepted, and
    answers which call the media path may carry.  Every method holds the store's
    mutex, so each is one atomic transition here.  Go iterates maps in an
    unspecified order; where that order is observable the enumeration is a
    parameter. *)

From S2P Require Import Prelude GoStd Protocol.

(** ** Constants and data *)
Definition StateIncoming : Z := 0x00.
Definition StateDialing : Z := 0x01.
Definition StateAlerting : Z := 0x02.
Definition StateActive : Z := 0x03.
Definition StateLocallyHeld : Z := 0x04.
Definition StateRemotelyHeld : Z := 0x05.
Definition StateLocallyRemotelyHeld : Z := 0x06.
Definition CallFlagOutgoing : Z := 0x01.
Definition CallFlagWithheldByServer : Z := 0x02.
Definition CallFlagWithheldByNetwork : Z := 0x04.
Definition callFlagsKnown : Z :=
  Z.lor (Z.lor CallFlagOutgoing CallFlagWithheldByServer) CallFlagWithheldByNetwork.

Record Call := mkCall {
  cIndex : Z;
  cState : Z;
  cFlags : Z;
  cToken : Z;
  cIdentity : Identity
}.

Record Snapshot := mkSnapshot { sSequence : Z; sCalls : list Call }.

Record Store := mkStore {
  calls : gmap Z Call;
  claimed : gmap Z Z;
  identities : gmap Z Identity;
  sequence : Z;
  seed : Z;
  tokens : Z
}.

Definition errNoCallIdentity : error := Sentinel "errNoCallIdentity" "no GTBS call identity".
Definition errIdentityUnchanged : error :=
  Sentinel "errIdentityUnchanged" "GTBS call identity unchanged".

(** ** Parsing *)
Definition ParseCallIdentifier (value : bytes) : result (Z * bytes) :=
  if (len value =? 0) || (at_ value 0 =? 0) then Error errNoCallIdentity
  else Ok (at_ value 0, drop 1 value).

Definition dialable (c : Z) : bool :=
  is_digit c || (c =? 43) || (c =? 42) || (c =? 35) || (c =? 45).

Definition StripURIScheme (uri : bytes) : bytes :=
  let trimmed := TrimSpace uri in
  let trimmed := match IndexByte trimmed 58 with
                 | Some index => drop (index + 1) trimmed
                 | None => trimmed
                 end in
  let trimmed := match IndexAny trimmed (str ";?") with
                 | Some index => take index trimmed
                 | None => trimmed
                 end in
  let trimmed := TrimSpace trimmed in
  if (trimmed =s? []) || (IdentityURIMax <? len trimmed) then []
  else if forallb dialable trimmed then trimmed else [].

(** One pass over the three-byte entries; [seen] holds the indices so far. *)
Fixpoint parse_entries (value : bytes) (seen : list Z) : option (list Call) :=
  match value with
  | i :: st :: fl :: rest =>
      if (i =? 0) || (StateLocallyRemotelyHeld <? st) ||
         negb (no_bits_outside fl callFlagsKnown) || bool_decide (i ∈ seen)
      then None
      else match parse_entries rest (i :: seen) with
           | Some l => Some (mkCall i st fl 0 no_identity :: l)
           | None => None
           end
  | _ => Some []
  end.

Definition call_le (a b : Call) : Prop := cIndex a <= cIndex b.
#[export] Instance call_le_dec : RelDecision call_le.
Proof. unfold call_le. intros ??. apply _. Defined.

(** [sort.Slice] by [Index]. *)
Definition sort_calls (l : list Call) : list Call := merge_sort call_le l.

Definition ParseCallState (value : bytes) : result (list Call) :=
  if negb (len value mod 3 =? 0) || (3 * 255 <? len value)
  then fail! "invalid GTBS Call State length"
  else match parse_entries value [] with
       | None => fail! "invalid GTBS Call State entry"
       | Some l => Ok (sort_calls l)
       end.

(** ** The store *)
Definition NewStore (unixNano : Z) : Store :=
  let seed := u64 unixNano in
  let seed := if seed =? 0 then 1 else seed in
  {| calls := ∅; claimed := ∅; identities := ∅; sequence := seed; seed := seed; tokens := seed |}.

(** [for { token := s.tokens.Add(1); if token != 0 && token != s.seed { return token } }].
    Three rounds suffice ([nextToken_fresh]): only two values are skipped. *)
Fixpoint next_token_loop (rounds : nat) (sd t : Z) : Z :=
  let token := u64 (t + 1) in
  match rounds with
  | O => token
  | S rounds => if negb (token =? 0) && negb (token =? sd) then token
                else next_token_loop rounds sd token
  end.
Definition nextToken (sd t : Z) : Z := next_token_loop 2 sd t.

Definition with_token (c : Call) (t : Z) : Call :=
  {| cIndex := cIndex c; cState := cState c; cFlags := cFlags c; cToken := t;
     cIdentity := cIdentity c |}.
Definition with_identity (c : Call) (i : Identity) : Call :=
  {| cIndex := cIndex c; cState := cState c; cFlags := cFlags c; cToken := cToken c;
     cIdentity := i |}.

(** The loop of [Apply]: keep the token of a call that was present, issue one for
    a call that was not. *)
Definition assign_one (prior : gmap Z Call) (sd : Z) (acc : gmap Z Call * Z) (c : Call)
  : gmap Z Call * Z :=
  let '(next, t) := acc in
  match prior !! cIndex c with
  | Some p => (<[cIndex c := with_token c (cToken p)]> next, t)
  | None => let token := nextToken sd t in
            (<[cIndex c := with_token c token]> next, token)
  end.
Definition assign_tokens prior sd (parsed : list Call) (t : Z) : gmap Z Call * Z :=
  foldl (assign_one prior sd) (∅, t) parsed.

(** [s.sequence++; if s.sequence == 0 { s.sequence = 1 }]. *)
Definition bump (q : Z) : Z := let q := u64 (q + 1) in if q =? 0 then 1 else q.

Definition identity_at (ids : gmap Z Identity) (i : Z) : Identity := default no_identity (ids !! i).

Definition snapshotLocked (q : Z) (cs : gmap Z Call) (ids : gmap Z Identity) : Snapshot :=
  mkSnapshot q
    (sort_calls ((fun c => with_identity c (identity_at ids (cIndex c))) <$> (map_to_list cs).*2)).

Definition claim_live (next : gmap Z Call) (kv : Z * Z) : Prop :=
  match next !! kv.1 with Some c => cToken c = kv.2 | None => False end.
#[export] Instance claim_live_dec next kv : Decision (claim_live next kv).
Proof. unfold claim_live. case_match; apply _. Defined.

Definition Apply (s : Store) (value : bytes) : result (Snapshot * Store) :=
  let! parsed := ParseCallState value in
  let '(next, t) := assign_tokens (calls s) (seed s) parsed (tokens s) in
  let s' := {| calls := next;
               claimed := filter (claim_live next) (claimed s);
               identities := filter (fun kv => is_Some (next !! kv.1)) (identities s);
               sequence := bump (sequence s);
               seed := seed s;
               tokens := t |} in
  Ok (snapshotLocked (sequence s') (calls s') (identities s'), s').

Definition set_identities (s : Store) (ids : gmap Z Identity) : Store :=
  {| calls := calls s; claimed := claimed s; identities := ids;
     sequence := bump (sequence s); seed := seed s; tokens := tokens s |}.

(** Whether anything changed, and the store after it. *)
Definition setIdentityLocked (s : Store) (index : Z) (identity : Identity) : bool * Store :=
  let previous := identities s !! index in
  if identity_empty identity then
    match previous with
    | None => (false, s)
    | Some _ => (true, set_identities s (delete index (identities s)))
    end
  else if bool_decide (previous = Some identity) then (false, s)
  else (true, set_identities s (<[index := identity]> (identities s))).

Definition ApplyIncomingCall (s : Store) (value : bytes) : result unit * Store :=
  match ParseCallIdentifier value with
  | Error e => (Error e, s)
  | Ok (index, raw) =>
      let uri := StripURIScheme raw in
      let identity := {| URI := uri; Name := Name (identity_at (identities s) index) |} in
      let '(changed, s') := setIdentityLocked s index identity in
      if changed then (Ok tt, s') else (Error errIdentityUnchanged, s')
  end.

Definition IdentityOf (s : Store) (index : Z) : Identity := identity_at (identities s) index.

Definition claimed_at (s : Store) (i : Z) : Z := default 0 (claimed s !! i).

(** The handset answered this call: it left Incoming and this side sent no Accept. *)
Definition answered_elsewhere (s : Store) (c : Call) : bool :=
  negb ((cToken c =? 0) || has_bits (cFlags c) CallFlagOutgoing || (cState c =? StateIncoming)) &&
  negb (claimed_at s (cIndex c) =? cToken c).

(** [order] is the enumeration of [s.calls] the runtime chose. *)
Fixpoint handset_scan (s : Store) (order : list Call) : Z :=
  match order with
  | [] => 0
  | c :: order => if answered_elsewhere s c then cToken c else handset_scan s order
  end.
Definition HandsetAnswered (s : Store) (order : list Call) : Z := handset_scan s order.

Definition ClaimCall (s : Store) (index token : Z) : Store :=
  if token =? 0 then s
  else match calls s !! index with
       | Some c =>
           if cToken c =? token then
             {| calls := calls s; claimed := <[index := token]> (claimed s);
                identities := identities s; sequence := sequence s; seed := seed s;
                tokens := tokens s |}
           else s
       | None => s
       end.

Definition SnapshotOf (s : Store) : Snapshot :=
  snapshotLocked (sequence s) (calls s) (identities s).

(** The token and whether there is one. *)
Definition CurrentCallToken (s : Store) : Z * bool :=
  match (map_to_list (calls s)).*2 with
  | [c] =>
      if cToken c =? 0 then (0, false)
      else if negb (has_bits (cFlags c) CallFlagOutgoing) && negb (cState c =? StateIncoming) &&
              negb (claimed_at s (cIndex c) =? cToken c)
      then (0, false)
      else (cToken c, true)
  | _ => (0, false)
  end.

Definition ValidateIndexedCommand (s : Store) (index token opcode : Z) : bool :=
  match calls s !! index with
  | None => false
  | Some c =>
      if (token =? 0) || negb (cToken c =? token) then false
      else if opcode =? OpcodeAccept then cState c =? StateIncoming
      else if opcode =? OpcodeTerminate then true
      else if opcode =? OpcodeLocalHold then
        (cState c =? StateIncoming) || (cState c =? StateActive) || (cState c =? StateRemotelyHeld)
      else if opcode =? OpcodeLocalRetrieve then
        (cState c =? StateLocallyHeld) || (cState c =? StateLocallyRemotelyHeld)
      else false
  end.

Definition TokenForIndex (s : Store) (index : Z) : Z * bool :=
  match calls s !! index with
  | Some c => (cToken c, negb (cToken c =? 0))
  | None => (0, false)
  end.

(** ** Parsing: what is accepted *)

(** The wire form of a call entry. *)
Definition entry_bytes (c : Call) : bytes := [cIndex c; cState c; cFlags c].

Definition entry_ok (c : Call) : Prop :=
  1 <= cIndex c <= 255 /\ 0 <= cState c <= 6 /\ 0 <= cFlags c <= 7 /\ cToken c = 0 /\
  cIdentity c = no_identity.

Lemma flags_known fl : 0 <= fl -> no_bits_outside fl callFlagsKnown = true <-> fl <= 7.
Proof.
  intros H. unfold no_bits_outside. rewrite Z.eqb_eq.
  change callFlagsKnown with (Z.ones 3). rewrite Z.ldiff_ones_r by lia.
  rewrite Z.shiftl_mul_pow2, Z.shiftr_div_pow2 by lia. change (2 ^ 3) with 8.
  pose proof (Z.div_mod fl 8). pose proof (Z.mod_pos_bound fl 8). lia.
Qed.

(** The entries a value consists of, in wire order. *)
Definition entries_of (value : bytes) (seen : list Z) (l : list Call) : Prop :=
  value = concat (entry_bytes <$> l) /\ Forall entry_ok l /\
  NoDup (cIndex <$> l) /\ (forall i, i ∈ seen -> i ∉ cIndex <$> l).

Lemma entries_of_cons i st fl rest seen l :
  is_byte i -> is_byte st -> is_byte fl ->
  i <> 0 -> st <= 6 -> no_bits_outside fl callFlagsKnown = true -> i ∉ seen ->
  entries_of rest (i :: seen) l ->
  entries_of (i :: st :: fl :: rest) seen (mkCall i st fl 0 no_identity :: l).
Proof.
  unfold in_width. intros Hi Hs Hf Hz Hst Hfl Hn (E & Hok & Hd & Hseen).
  apply flags_known in Hfl; [|lia]. split_and!.
  - simpl. by rewrite E.
  - constructor; [|done]. unfold entry_ok. simpl. change (2 ^ 8) with 256 in *. split_and!; auto; lia.
  - simpl. constructor; [|done]. apply Hseen. set_solver.
  - simpl. intros k Hk. rewrite not_elem_of_cons. split; [set_solver|]. apply Hseen. set_solver.
Qed.

Lemma parse_entries_spec n value seen l :
  length value = (3 * n)%nat -> all_bytes value ->
  parse_entries value seen = Some l <-> entries_of value seen l.
Proof.
  revert value seen l. induction n as [|n IH]; intros value seen l Hl Hb.
  { destruct value; [|simpl in Hl; lia]. simpl. split.
    - intros [= <-]. split_and!; simpl; [done|constructor|constructor|set_solver].
    - intros (E & _). destruct l; [done|discriminate]. }
  destruct value as [|i [|st [|fl rest]]]; try (simpl in Hl; lia).
  simpl in Hl. cbn [parse_entries]. repeat (apply Forall_cons_1 in Hb as [? Hb]).
  split.
  - intros P. split_if_in P; [discriminate|]. bool_prop.
    destruct (parse_entries rest (i :: seen)) as [l'|] eqn:E; [|discriminate]. injection P as <-.
    apply IH in E; [|lia|done]. unfold StateLocallyRemotelyHeld in *.
    apply entries_of_cons; auto.
  - intros (E & Hok & Hd & Hseen). destruct l as [|c l]; [discriminate|].
    simpl in E. injection E as -> -> -> E. inversion_clear Hok as [|? ? Hc Hok'].
    destruct Hc as (Hi & Hs & Hf & Ht & Hid). simpl in Hd, Hseen.
    apply NoDup_cons in Hd as [Hni Hd].
    destruct (Z.eqb_spec (cIndex c) 0); [lia|].
    destruct (Z.ltb_spec StateLocallyRemotelyHeld (cState c)) as [?|_]; [unfold StateLocallyRemotelyHeld in *; lia|].
    rewrite (proj2 (flags_known (cFlags c) ltac:(lia))) by lia.
    rewrite bool_decide_eq_false_2 by set_solver. simpl.
    assert (parse_entries rest (cIndex c :: seen) = Some l) as ->.
    { apply IH; [lia|done|]. split_and!; auto. set_solver. }
    destruct c; simpl in *. congruence.
Qed.

Lemma sort_calls_perm l : sort_calls l ≡ₚ l.
Proof. apply merge_sort_Permutation. Qed.

Definition strictly_by_index (l : list Call) : Prop :=
  StronglySorted (fun a b => cIndex a < cIndex b) l.

(** Sorting calls with distinct indices gives a strictly increasing list. *)
Lemma sort_calls_strict l : NoDup (cIndex <$> l) -> strictly_by_index (sort_calls l).
Proof.
  intros Hd. rewrite <- (sort_calls_perm l) in Hd.
  assert (StronglySorted call_le (sort_calls l)) as Hs.
  { apply StronglySorted_merge_sort.
    - intros a b c. unfold call_le. lia.
    - intros a b. unfold call_le. lia. }
  revert Hd Hs. generalize (sort_calls l) as k. induction k as [|c k IH]; intros Hd Hs; [constructor|].
  simpl in Hd. apply NoDup_cons in Hd as [Hn Hd]. apply StronglySorted_inv in Hs as [Hs Hall].
  constructor; [by apply IH|]. rewrite Forall_forall in Hall |- *. intros x Hx.
  specialize (Hall x Hx). unfold call_le in Hall.
  assert (cIndex c <> cIndex x); [|lia]. intros E. apply Hn. rewrite E. by apply list_elem_of_fmap_2.
Qed.

(** [ParseCallState] accepts exactly the concatenations of at most 255 valid
    three-byte entries with distinct, non-zero indices, and returns those entries
    sorted by strictly increasing index. *)
Theorem ParseCallState_spec value l :
  all_bytes value ->
  ParseCallState value = Ok l <->
  exists es : list Call, value = concat (entry_bytes <$> es) /\ (length es <= 255)%nat /\
             Forall entry_ok es /\ NoDup (cIndex <$> es) /\
             l = sort_calls es /\ l ≡ₚ es /\ strictly_by_index l.
Proof.
  intros Hb. unfold ParseCallState.
  assert (forall es : list Call, length (concat (entry_bytes <$> es)) = (3 * length es)%nat) as Hlen.
  { induction es as [|e es IH]; [done|]. csimpl. rewrite IH. lia. }
  split.
  - intros H. split_if_in H; [discriminate|]. bool_prop. unfold len in *.
    destruct (parse_entries value []) as [es|] eqn:E; [|discriminate]. injection H as <-.
    assert (length value = 3 * Z.to_nat (Z.of_nat (length value) / 3))%nat as L3.
    { pose proof (Z.div_mod (Z.of_nat (length value)) 3).
      pose proof (Z.div_pos (Z.of_nat (length value)) 3). lia. }
    apply (parse_entries_spec _ _ _ _ L3) in E; [|done].
    clear L3. destruct E as (-> & Hok & Hd & _). rewrite Hlen in *. exists es. split_and!; auto.
    + lia.
    + apply sort_calls_perm.
    + by apply sort_calls_strict.
  - intros (es & -> & Hl & Hok & Hd & -> & _). unfold len. rewrite Hlen.
    assert (Z.of_nat (3 * length es) mod 3 = 0) as ->.
    { rewrite Nat2Z.inj_mul, Z.mul_comm. apply Z_mod_mult. }
    destruct (Z.ltb_spec (3 * 255) (Z.of_nat (3 * length es))); simpl; [lia|].
    rewrite (proj2 (parse_entries_spec (length es) _ [] es (Hlen es) Hb)); [done|].
    split_and!; auto. set_solver.
Qed.

Lemma ParseCallState_witness :
  ParseCallState [7; 0; 0; 3; 3; 1] = Ok [mkCall 3 3 1 0 no_identity; mkCall 7 0 0 0 no_identity].
Proof.
  apply ParseCallState_spec.
  - apply (bool_decide_unpack _). by vm_compute.
  - exists [mkCall 7 0 0 0 no_identity; mkCall 3 3 1 0 no_identity].
    split_and!; [reflexivity|simpl; lia| | |vm_compute; reflexivity|apply Permutation_swap|].
    + repeat constructor; simpl; lia.
    + apply (bool_decide_unpack _). by vm_compute.
    + repeat constructor; simpl; lia.
Defined.

(** ** Lifecycle tokens *)

(** How many values past the seed a token lies; issued tokens have growing ages
    until the 64-bit counter comes round to the seed again. *)
Definition age (sd t : Z) : Z := (t - sd) mod 2 ^ 64.

Lemma age_bound sd t : 0 <= age sd t < 2 ^ 64.
Proof. unfold age. apply Z.mod_pos_bound. lia. Qed.

Lemma age_inj sd t t' : in_width 64 t -> in_width 64 t' -> age sd t = age sd t' -> t = t'.
Proof.
  unfold in_width, age. intros H H' E.
  assert ((t - t') mod 2 ^ 64 = 0) as E0.
  { replace (t - t') with ((t - sd) - (t' - sd)) by lia.
    rewrite Zminus_mod, E, Z.sub_diag. done. }
  apply Z.mod_divide in E0; [|lia]. destruct E0 as [k Hk].
  assert (k = 0) by nia. lia.
Qed.

Lemma age_succ sd t : age sd t + 1 < 2 ^ 64 -> age sd (u64 (t + 1)) = age sd t + 1.
Proof.
  unfold age, u64. intros H. rewrite Zminus_mod_idemp_l.
  replace (t + 1 - sd) with ((t - sd) + 1) by lia.
  rewrite <- Zplus_mod_idemp_l. apply Z.mod_small.
  pose proof (Z.mod_pos_bound (t - sd) (2 ^ 64)). lia.
Qed.

Lemma u64_width x : in_width 64 (u64 x).
Proof. unfold in_width, u64. apply Z.mod_pos_bound. lia. Qed.

(** Three rounds of the loop always end on a usable token: non-zero, not the
    seed, and younger than every token issued before it. *)
Lemma nextToken_fresh sd t :
  age sd t + 2 < 2 ^ 64 -> in_width 64 sd ->
  in_width 64 (nextToken sd t) /\ nextToken sd t <> 0 /\ nextToken sd t <> sd /\
  age sd t < age sd (nextToken sd t) <= age sd t + 2.
Proof.
  intros H Hsd. pose proof (age_bound sd t) as Hb.
  assert (age sd sd = 0) as A0 by (unfold age; by rewrite Z.sub_diag).
  pose proof (age_succ sd t ltac:(lia)) as A1.
  pose proof (age_succ sd (u64 (t + 1)) ltac:(lia)) as A2. rewrite A1 in A2.
  assert (u64 (t + 1) <> sd) as N1 by (intros E; rewrite E in A1; lia).
  assert (u64 (u64 (t + 1) + 1) <> sd) as N2 by (intros E; rewrite E in A2; lia).
  unfold nextToken, next_token_loop.
  destruct (Z.eqb_spec (u64 (t + 1)) 0) as [E0|E0].
  - rewrite E0 in A1, A2, N2 |- *. change (u64 (0 + 1)) with 1 in A2, N2 |- *.
    rewrite (proj2 (Z.eqb_neq 1 sd) N2). cbn [negb andb Z.eqb].
    split_and!; [unfold in_width; lia|lia|done|lia|lia].
  - destruct (Z.eqb_spec (u64 (t + 1)) sd); [congruence|]. simpl.
    split_and!; [apply u64_width|done|done|lia|lia].
Qed.

(** Tokens of live calls: usable, issued already, and pairwise distinct. *)
Record calls_ok (sd t : Z) (cs : gmap Z Call) : Prop := {
  co_call : forall i c, cs !! i = Some c ->
    cIndex c = i /\ 1 <= i <= 255 /\ 0 <= cState c <= 6 /\ 0 <= cFlags c <= 7 /\
    cIdentity c = no_identity /\
    in_width 64 (cToken c) /\ cToken c <> 0 /\ age sd (cToken c) <= age sd t;
  co_inj : forall i j c d, cs !! i = Some c -> cs !! j = Some d -> cToken c = cToken d -> i = j
}.

(** Where the token of an entry of the new map comes from. *)
Definition token_origin (prior : gmap Z Call) (sd t0 i tok : Z) : Prop :=
  match prior !! i with
  | Some p => tok = cToken p
  | None => age sd t0 < age sd tok
  end.

(** The loop of [Apply] after some of the entries. *)
Record assigned (prior : gmap Z Call) (sd t0 : Z) (es : list Call) (acc : gmap Z Call * Z) : Prop := {
  as_ok : calls_ok sd acc.2 acc.1;
  as_age : age sd t0 <= age sd acc.2 <= age sd t0 + 2 * len es;
  as_width : in_width 64 acc.2;
  as_dom : forall i, is_Some (acc.1 !! i) <-> i ∈ cIndex <$> es;
  as_entry : forall e, e ∈ es -> exists tok, acc.1 !! cIndex e = Some (with_token e tok);
  as_origin : forall i c, acc.1 !! i = Some c -> token_origin prior sd t0 i (cToken c)
}.

Section Assign.
Context (prior : gmap Z Call) (sd t0 : Z).
Context (Hsd : in_width 64 sd).
Context (Hprior : calls_ok sd t0 prior).

Lemma calls_ok_weaken t t' cs : age sd t <= age sd t' -> calls_ok sd t cs -> calls_ok sd t' cs.
Proof.
  intros H [Hc Hi]. split; [|done]. intros i c E. destruct (Hc i c E) as (?&?&?&?&?&?&?&?).
  split_and!; auto; lia.
Qed.

(** Inserting one call whose token no other live call has. *)
Lemma calls_ok_insert t cs e tok :
  calls_ok sd t cs -> entry_ok e -> in_width 64 tok -> tok <> 0 -> age sd tok <= age sd t ->
  (forall j d, j <> cIndex e -> cs !! j = Some d -> cToken d <> tok) ->
  calls_ok sd t (<[cIndex e := with_token e tok]> cs).
Proof.
  intros [Hc Hi] (He1 & He2 & He3 & _ & He5) Hw Hz Ha Hn. split.
  - intros i c. rewrite lookup_insert. case_decide as E; [|auto].
    intros [= <-]. simpl. split_and!; auto; lia.
  - intros i j c d. rewrite !lookup_insert.
    case_decide as E1; case_decide as E2; subst; auto.
    + intros [= <-] Hd E. simpl in E. by destruct (Hn j d).
    + intros Hd [= <-] E. simpl in E. by destruct (Hn i c).
    + intros; eauto.
Qed.

Lemma assigned_snoc es acc e :
  assigned prior sd t0 es acc -> entry_ok e -> cIndex e ∉ cIndex <$> es ->
  age sd t0 + 2 * len es + 2 < 2 ^ 64 ->
  assigned prior sd t0 (es ++ [e]) (assign_one prior sd acc e).
Proof.
  intros [Hok Hage Hw Hdom Hent Horig] He Hnew Hroom. destruct acc as [next t]; cbn [fst snd] in *.
  assert (exists tok t', assign_one prior sd (next, t) e = (<[cIndex e := with_token e tok]> next, t') /\
    age sd t <= age sd t' <= age sd t + 2 /\ in_width 64 t' /\
    token_origin prior sd t0 (cIndex e) tok /\
    calls_ok sd t' (<[cIndex e := with_token e tok]> next)) as (tok & t' & -> & Ht' & Hw' & Ho & Hok').
  { unfold assign_one, token_origin. destruct (prior !! cIndex e) as [p|] eqn:Ep.
    - exists (cToken p), t. destruct (co_call _ _ _ Hprior _ _ Ep) as (?&?&?&?&?&?&?&?).
      split_and!; auto; try lia. apply calls_ok_insert; auto; [lia|].
      intros j d Hj Hd E. specialize (Horig j d Hd). unfold token_origin in Horig.
      destruct (prior !! j) as [q|] eqn:Eq; [|rewrite E in Horig; lia].
      apply Hj. apply (co_inj _ _ _ Hprior j (cIndex e) q p); congruence.
    - destruct (nextToken_fresh sd t ltac:(lia) Hsd) as (? & ? & ? & ?).
      exists (nextToken sd t), (nextToken sd t). split_and!; auto; try lia.
      apply calls_ok_insert; auto; [eapply calls_ok_weaken; [|done]; lia|lia|].
      intros j d Hj Hd E. destruct (co_call _ _ _ Hok j d Hd) as (?&?&?&?&?&?&?&?). rewrite E in *. lia. }
  assert (next !! cIndex e = None) as Hnone.
  { apply eq_None_not_Some. by rewrite Hdom. }
  split; simpl; auto.
  - rewrite len_app. unfold len at 2. simpl. lia.
  - intros i. rewrite fmap_app, elem_of_app, <- Hdom, lookup_insert. simpl.
    rewrite list_elem_of_singleton. case_decide; subst; [|naive_solver]. split; [auto|eauto].
  - intros x Hx. apply elem_of_app in Hx as [Hx|Hx].
    + destruct (Hent x Hx) as [k Hk]. exists k. rewrite lookup_insert_ne; [done|].
      intros E. rewrite E, Hk in Hnone. done.
    + apply list_elem_of_singleton in Hx as ->. exists tok. by rewrite lookup_insert_eq.
  - intros i c. rewrite lookup_insert. case_decide; subst; [|auto]. intros [= <-]. done.
Qed.

Lemma assign_tokens_spec es :
  Forall entry_ok es -> NoDup (cIndex <$> es) -> in_width 64 t0 ->
  age sd t0 + 2 * len es < 2 ^ 64 ->
  assigned prior sd t0 es (assign_tokens prior sd es t0).
Proof.
  unfold assign_tokens. intros Hok Hd Hw Hroom. induction es as [|e es IH] using rev_ind.
  - split; simpl; [|unfold len; simpl; lia|done| |set_solver|].
    + split; intros *; rewrite ?lookup_empty; done.
    + intros i. rewrite lookup_empty, is_Some_alt. set_solver.
    + intros i c. by rewrite lookup_empty.
  - rewrite foldl_app. simpl. apply Forall_app in Hok as [Hok He]. rewrite fmap_app in Hd.
    apply NoDup_app in Hd as (Hd & Hdis & _). rewrite len_app in Hroom.
    unfold len at 2 in Hroom. simpl in Hroom.
    apply assigned_snoc; [apply IH; auto; lia|by inversion He| |lia].
    intros Hin. apply (Hdis _ Hin). simpl. set_solver.
Qed.

End Assign.

(** ** The store's invariant *)
Definition identity_ok (id : Identity) : Prop :=
  Name id = [] /\ URI id <> [] /\ len (URI id) <= IdentityURIMax /\ forallb dialable (URI id) = true.

Record store_wf (s : Store) : Prop := {
  wf_seed : in_width 64 (seed s) /\ seed s <> 0;
  wf_tokens : in_width 64 (tokens s);
  wf_sequence : in_width 64 (sequence s) /\ sequence s <> 0;
  wf_calls : calls_ok (seed s) (tokens s) (calls s);
  wf_claimed : forall i t, claimed s !! i = Some t ->
    exists c, calls s !! i = Some c /\ cToken c = t;
  wf_identities : forall i id, identities s !! i = Some id -> 1 <= i <= 255 /\ identity_ok id
}.

(** The 64-bit counter has not come close to its seed again: one [Apply] issues
    at most 255 tokens and skips at most one value for each. *)
Definition headroom (s : Store) : Prop := age (seed s) (tokens s) + 2 * 255 < 2 ^ 64.

Lemma bump_ok q : in_width 64 (bump q) /\ bump q <> 0.
Proof.
  unfold bump. destruct (Z.eqb_spec (u64 (q + 1)) 0); [split; [unfold in_width; lia|lia]|].
  split; [apply u64_width|done].
Qed.

Lemma bump_changes q : in_width 64 q -> q <> 0 -> bump q <> q.
Proof.
  unfold bump, in_width, u64. intros H Hz.
  destruct (Z.eqb_spec ((q + 1) mod 2 ^ 64) 0) as [E|E].
  - intros <-. by vm_compute in E.
  - destruct (decide (q + 1 = 2 ^ 64)) as [E'|E']; [rewrite E', Z_mod_same_full in E; lia|].
    rewrite Z.mod_small by lia. lia.
Qed.

Lemma StripURIScheme_dialable uri :
  StripURIScheme uri <> [] ->
  len (StripURIScheme uri) <= IdentityURIMax /\ forallb dialable (StripURIScheme uri) = true.
Proof.
  unfold StripURIScheme. cbv zeta. intros H.
  repeat (split_if_in H; try done). bool_prop. split; [lia|done].
Qed.

Lemma NewStore_wf nano : store_wf (NewStore nano).
Proof.
  assert (in_width 64 (seed (NewStore nano)) /\ seed (NewStore nano) <> 0) as H.
  { unfold NewStore. simpl. destruct (Z.eqb_spec (u64 nano) 0).
    - split; [unfold in_width; lia|lia].
    - split; [apply u64_width|done]. }
  split; try done; apply H.
Qed.

(** Reading [ParseCallState] as the loop of [Apply] needs it. *)
Lemma ParseCallState_ok value l :
  all_bytes value -> ParseCallState value = Ok l ->
  Forall entry_ok l /\ NoDup (cIndex <$> l) /\ len l <= 255.
Proof.
  intros Hb H. unfold ParseCallState in H. split_if_in H; [discriminate|]. bool_prop.
  destruct (parse_entries value []) as [es|] eqn:E; [|discriminate]. injection H as <-.
  unfold len in *.
  assert (length value = 3 * Z.to_nat (Z.of_nat (length value) / 3))%nat as L3.
  { pose proof (Z.div_mod (Z.of_nat (length value)) 3).
    pose proof (Z.div_pos (Z.of_nat (length value)) 3). lia. }
  apply (parse_entries_spec _ _ _ _ L3) in E; [|done]. destruct E as (E & Hok & Hd & _).
  assert (forall k : list Call, length (concat (entry_bytes <$> k)) = (3 * length k)%nat) as Hlen.
  { induction k as [|e k IH]; [done|]. csimpl. rewrite IH. lia. }
  apply (f_equal length) in E. rewrite Hlen in E.
  pose proof (sort_calls_perm es) as P. split_and!.
  - eapply Permutation_Forall; [by symmetry in P|done].
  - eapply NoDup_Permutation_proper; [apply fmap_Permutation, P|done].
  - apply Permutation_length in P. lia.
Qed.

(** Everything [Apply] promises about the store it leaves. *)
Record applied (s : Store) (value : bytes) (snap : Snapshot) (s' : Store) (parsed : list Call) : Prop := {
  ap_parsed : ParseCallState value = Ok parsed;
  ap_assigned : assigned (calls s) (seed s) (tokens s) parsed (calls s', tokens s');
  ap_claimed : forall i t, claimed s' !! i = Some t <->
    claimed s !! i = Some t /\ exists c, calls s' !! i = Some c /\ cToken c = t;
  ap_identities : forall i id, identities s' !! i = Some id <->
    identities s !! i = Some id /\ is_Some (calls s' !! i);
  ap_sequence : sequence s' = bump (sequence s);
  ap_seed : seed s' = seed s;
  ap_snapshot : snap = SnapshotOf s'
}.

Lemma Apply_applied s value snap s' :
  store_wf s -> headroom s -> all_bytes value -> Apply s value = Ok (snap, s') ->
  exists parsed, applied s value snap s' parsed.
Proof.
  intros Hwf Hroom Hb H. unfold Apply in H. apply result_bind_ok in H as (parsed & P & H).
  destruct (ParseCallState_ok _ _ Hb P) as (Hok & Hd & Hl).
  pose proof (assign_tokens_spec (calls s) (seed s) (tokens s) (proj1 (wf_seed _ Hwf))
    (wf_calls _ Hwf) parsed Hok Hd (wf_tokens _ Hwf)) as A.
  destruct (assign_tokens (calls s) (seed s) parsed (tokens s)) as [next t].
  injection H as <- <-. exists parsed. unfold headroom in Hroom.
  split; simpl; auto.
  - apply A. lia.
  - intros i tok. rewrite map_lookup_filter_Some. unfold claim_live. simpl.
    destruct (next !! i) as [c|]; [|naive_solver]. naive_solver.
  - intros i id. rewrite map_lookup_filter_Some. done.
Qed.

Lemma Apply_preserves s value snap s' :
  store_wf s -> headroom s -> all_bytes value -> Apply s value = Ok (snap, s') ->
  store_wf s' /\ seed s' = seed s /\
  age (seed s) (tokens s) <= age (seed s) (tokens s') <= age (seed s) (tokens s) + 510.
Proof.
  intros Hwf Hroom Hb H. destruct (Apply_applied _ _ _ _ Hwf Hroom Hb H) as [parsed A].
  destruct A as [P [Hok Hage Hw _ _ _] Hc Hid Hs Hsd _]. simpl in *.
  destruct (ParseCallState_ok _ _ Hb P) as (_ & _ & Hl).
  split_and!; auto; [|lia|lia]. split; rewrite ?Hs, ?Hsd; auto.
  - apply (wf_seed _ Hwf).
  - apply bump_ok.
  - intros i t E. by apply Hc.
  - intros i id E. apply Hid in E as [E _]. by apply (wf_identities _ Hwf).
Qed.

Lemma set_identities_wf s ids :
  store_wf s -> (forall i id, ids !! i = Some id -> 1 <= i <= 255 /\ identity_ok id) ->
  store_wf (set_identities s ids).
Proof. intros [] ?. split; simpl; auto using bump_ok. Qed.

(** The name stays empty, so an identity is stored only for a dialable number. *)
Lemma stored_name_empty s i : store_wf s -> Name (identity_at (identities s) i) = [].
Proof.
  intros Hwf. unfold identity_at. destruct (identities s !! i) eqn:E; simpl; [|done].
  by apply (wf_identities _ Hwf) in E as (_ & ? & _).
Qed.

Lemma ApplyIncomingCall_preserves s value :
  store_wf s -> all_bytes value -> store_wf (ApplyIncomingCall s value).2.
Proof.
  intros Hwf Hb. unfold ApplyIncomingCall, ParseCallIdentifier.
  destruct ((len value =? 0) || (at_ value 0 =? 0)) eqn:E; [done|]. bool_prop.
  destruct value as [|i raw]; [done|]. unfold at_ in *. cbn [nth] in *.
  change (drop 1 (i :: raw)) with (drop 0 raw).
  apply Forall_cons_1 in Hb as [Hi _]. unfold in_width in Hi.
  unfold setIdentityLocked. rewrite stored_name_empty by done.
  destruct (identity_empty _) eqn:Em.
  - destruct (identities s !! i) eqn:Eo; simpl; [|done].
    apply set_identities_wf; [done|]. intros j id Hj. apply lookup_delete_Some in Hj as [_ Hj].
    by apply (wf_identities _ Hwf).
  - case_bool_decide; simpl; [done|]. apply set_identities_wf; [done|].
    intros j id Hj. apply lookup_insert_Some in Hj as [[<- <-]|[_ Hj]].
    2:{ by apply (wf_identities _ Hwf). }
    unfold identity_empty in Em. cbn [URI Name] in Em. unfold str_eqb in Em.
    assert (StripURIScheme (drop 0 raw) <> []) as Hne by (intros E1; rewrite E1 in Em; discriminate).
    destruct (StripURIScheme_dialable _ Hne). split; [lia|]. split_and!; auto.
Qed.

Lemma ClaimCall_preserves s i t : store_wf s -> store_wf (ClaimCall s i t).
Proof.
  intros Hwf. unfold ClaimCall. repeat split_match; try done. bool_prop.
  destruct Hwf as [? ? ? ? Hcl ?]. split; simpl; auto. intros j u Hj.
  apply lookup_insert_Some in Hj as [[<- <-]|[_ Hj]]; eauto.
Qed.

(** ** Executions

    The state-changing calls of the store's users (gtbs/client.go and
    cmd/le-call-go/main.go); a failed call leaves the store as it was. *)
Inductive store_op :=
  | DoApply (value : bytes)
  | DoIncoming (value : bytes)
  | DoClaim (index token : Z).

Definition op_bytes (o : store_op) : Prop :=
  match o with DoApply v | DoIncoming v => all_bytes v | DoClaim _ _ => True end.

Definition exec (s : Store) (o : store_op) : Store :=
  match o with
  | DoApply v => match Apply s v with Ok (_, s') => s' | Error _ => s end
  | DoIncoming v => (ApplyIncomingCall s v).2
  | DoClaim i t => ClaimCall s i t
  end.

(** [reachable nano ops s]: [s] is the store created at time [nano] after [ops],
    the latest operation first. *)
Inductive reachable (nano : Z) : list store_op -> Store -> Prop :=
  | reach_new : reachable nano [] (NewStore nano)
  | reach_step ops s o : reachable nano ops s -> op_bytes o ->
      reachable nano (o :: ops) (exec s o).

Lemma ApplyIncomingCall_frame s v :
  let s' := (ApplyIncomingCall s v).2 in
  calls s' = calls s /\ claimed s' = claimed s /\ seed s' = seed s /\ tokens s' = tokens s.
Proof.
  unfold ApplyIncomingCall, setIdentityLocked. repeat split_match; simplify_eq; done.
Qed.

Lemma ClaimCall_frame s i t :
  calls (ClaimCall s i t) = calls s /\ seed (ClaimCall s i t) = seed s /\
  tokens (ClaimCall s i t) = tokens s /\ identities (ClaimCall s i t) = identities s /\
  sequence (ClaimCall s i t) = sequence s.
Proof. unfold ClaimCall. repeat split_match; done. Qed.

(** 510 counter values per operation at most. *)
Lemma reachable_age nano ops s :
  reachable nano ops s -> len ops <= 2 ^ 54 ->
  store_wf s /\ age (seed s) (tokens s) <= 510 * len ops.
Proof.
  induction 1 as [|ops s o Hr IH Hb]; intros Hl.
  { split; [apply NewStore_wf|]. unfold age. simpl. rewrite Z.sub_diag. by vm_compute. }
  assert (len (o :: ops) = 1 + len ops) as El by (unfold len; simpl; lia).
  pose proof (len_nonneg ops). destruct IH as [Hwf Hage]; [lia|].
  assert (headroom s) as Hroom by (unfold headroom; change (2 ^ 54) with 18014398509481984 in Hl; lia).
  destruct o as [v|v|i t]; simpl in Hb |- *.
  - destruct (Apply s v) as [[snap s']|] eqn:E; [|split; [done|lia]].
    destruct (Apply_preserves _ _ _ _ Hwf Hroom Hb E) as (? & -> & ?). split; [done|lia].
  - split; [by apply ApplyIncomingCall_preserves|].
    destruct (ApplyIncomingCall_frame s v) as (_ & _ & -> & ->). lia.
  - split; [by apply ClaimCall_preserves|].
    destruct (ClaimCall_frame s i t) as (_ & -> & -> & _). lia.
Qed.

(** C14.  In every store reached from [NewStore] by at most 2^54 operations on
    arbitrary bytes: every live call is filed under its own index, its fields are
    in range, its token is a non-zero 64-bit value no other live call has; every
    claim names a live call by its current token; every stored identity, filed under
    an index from 1 to 255 that need not be that of a live call, is a
    non-empty dialable number of at most 32 bytes with an empty name; the sequence
    number is a non-zero 64-bit value. *)
Theorem store_invariant nano ops s :
  reachable nano ops s -> len ops <= 2 ^ 54 -> store_wf s.
Proof. intros Hr Hl. by apply (reachable_age nano ops s). Qed.

(** Running a list of operations is an execution. *)
Definition run_ops (nano : Z) (ops : list store_op) : Store :=
  foldr (fun o s => exec s o) (NewStore nano) ops.

Lemma run_ops_reachable nano ops : Forall op_bytes ops -> reachable nano ops (run_ops nano ops).
Proof. induction 1; simpl; by constructor. Qed.

#[export] Instance op_bytes_dec o : Decision (op_bytes o).
Proof. destruct o; simpl; apply _. Defined.

(** A call comes in as index 2 with a number, and this side accepts it. *)
Definition demo_ops : list store_op :=
  [DoApply [2; 3; 0]; DoClaim 2 6; DoIncoming (2 :: str "tel:+4912"); DoApply [2; 0; 0]].

Lemma demo_ops_bytes : Forall op_bytes demo_ops.
Proof. apply (bool_decide_unpack _). by vm_compute. Qed.

Lemma store_invariant_witness : store_wf (run_ops 5 demo_ops).
Proof.
  apply (store_invariant 5 demo_ops).
  - apply run_ops_reachable, demo_ops_bytes.
  - by vm_compute.
Defined.

(** ** What [Apply] does to calls, claims and identities *)

(** C26.  A successful [Apply] makes the live calls exactly those of the value: a
    call already present keeps its token, every other gets a token younger than
    all issued before; claims and identities survive exactly where they still
    describe a live call, so a reused index inherits neither; the sequence number
    advances and the returned snapshot is the new store's. *)
Theorem Apply_spec s value snap s' :
  store_wf s -> headroom s -> all_bytes value -> Apply s value = Ok (snap, s') ->
  exists parsed, ParseCallState value = Ok parsed /\
    (forall i, is_Some (calls s' !! i) <-> i ∈ cIndex <$> parsed) /\
    (forall e, e ∈ parsed -> exists tok, calls s' !! cIndex e = Some (with_token e tok) /\
       match calls s !! cIndex e with
       | Some p => tok = cToken p
       | None => tok <> 0 /\ age (seed s) (tokens s) < age (seed s) tok
       end) /\
    (forall i, calls s !! i = None -> claimed s' !! i = None) /\
    (forall i t, claimed s' !! i = Some t <-> claimed s !! i = Some t /\ is_Some (calls s' !! i)) /\
    (forall i id, identities s' !! i = Some id <->
       identities s !! i = Some id /\ is_Some (calls s' !! i)) /\
    sequence s' = bump (sequence s) /\ sequence s' <> sequence s /\ snap = SnapshotOf s'.
Proof.
  intros Hwf Hroom Hb H. destruct (Apply_applied _ _ _ _ Hwf Hroom Hb H) as [parsed A].
  destruct A as [P [Hok _ _ Hdom Hent Ho] Hc Hid Hs Hsd Hsnap]. simpl in *.
  exists parsed. split_and!; auto.
  - intros e He. destruct (Hent e He) as [tok Htok]. exists tok. split; [done|].
    pose proof (Ho _ _ Htok) as O. unfold token_origin in O. simpl in O.
    destruct (calls s !! cIndex e); [done|]. split; [|done].
    by destruct (co_call _ _ _ Hok _ _ Htok) as (_&_&_&_&_&_&?&_).
  - intros i Hi. apply eq_None_not_Some. intros [t Ht]. apply Hc in Ht as [Ht _].
    destruct (wf_claimed _ Hwf i t Ht) as (c & ? & _). congruence.
  - intros i t. rewrite Hc. split; [naive_solver|]. intros [Hcl [c Hi]]. split; [done|].
    exists c. split; [done|]. destruct (wf_claimed _ Hwf i t Hcl) as (d & Hd & Et).
    pose proof (Ho _ _ Hi) as O. unfold token_origin in O. rewrite Hd in O. congruence.
  - rewrite Hs. apply bump_changes; apply (wf_sequence _ Hwf).
Qed.

Lemma Apply_spec_witness :
  let s := run_ops 5 demo_ops in
  exists parsed, ParseCallState [2; 3; 0; 4; 1; 1] = Ok parsed /\
    TokenForIndex s 2 = (6, true).
Proof.
  destruct (Apply_spec (run_ops 5 demo_ops) [2; 3; 0; 4; 1; 1]
    (match Apply (run_ops 5 demo_ops) [2; 3; 0; 4; 1; 1] with Ok x => x.1 | Error _ => mkSnapshot 0 [] end)
    (match Apply (run_ops 5 demo_ops) [2; 3; 0; 4; 1; 1] with Ok x => x.2 | Error _ => NewStore 0 end))
    as (parsed & P & _).
  - destruct (reachable_age 5 demo_ops (run_ops 5 demo_ops)) as [W _];
      [apply run_ops_reachable, demo_ops_bytes|by vm_compute|exact W].
  - by vm_compute.
  - apply (bool_decide_unpack _). by vm_compute.
  - vm_compute. reflexivity.
  - exists parsed. split; [exact P|]. by vm_compute.
Defined.

(** ** The media gate *)

Lemma values_singleton (cs : gmap Z Call) c :
  (forall i d, cs !! i = Some d -> cIndex d = i) ->
  (map_to_list cs).*2 = [c] <-> cs = {[cIndex c := c]}.
Proof.
  intros Hi. split.
  - intros E. destruct (map_to_list cs) as [|[i d] [|]] eqn:El; try discriminate.
    injection E as <-. assert (cs !! i = Some d) as Hl.
    { apply elem_of_map_to_list. rewrite El. set_solver. }
    rewrite (Hi _ _ Hl). apply map_to_list_inj. by rewrite El, map_to_list_singleton.
  - intros ->. by rewrite map_to_list_singleton.
Qed.

Lemma wf_index s i c : store_wf s -> calls s !! i = Some c -> cIndex c = i.
Proof. intros Hwf E. by destruct (co_call _ _ _ (wf_calls _ Hwf) _ _ E) as (? & _). Qed.

Lemma wf_token s i c : store_wf s -> calls s !! i = Some c -> cToken c <> 0.
Proof. intros Hwf E. by destruct (co_call _ _ _ (wf_calls _ Hwf) _ _ E) as (_&_&_&_&_&_&?&_). Qed.

Lemma claimed_at_iff s i t : t <> 0 -> claimed_at s i = t <-> claimed s !! i = Some t.
Proof. intros Hz. unfold claimed_at. destruct (claimed s !! i); simpl; split; congruence. Qed.

(** Whether the media path may carry this call: it is ringing, this side
    originated it, or this side accepted it under its current token. *)
Definition carriable (s : Store) (c : Call) : Prop :=
  has_bits (cFlags c) CallFlagOutgoing = true \/ cState c = StateIncoming \/
  claimed s !! cIndex c = Some (cToken c).

#[export] Instance carriable_dec s c : Decision (carriable s c).
Proof. unfold carriable. apply _. Defined.

Lemma answered_elsewhere_iff s i c :
  store_wf s -> calls s !! i = Some c -> answered_elsewhere s c = true <-> ~ carriable s c.
Proof.
  intros Hwf E. pose proof (wf_token _ _ _ Hwf E) as Hz. unfold answered_elsewhere, carriable.
  rewrite andb_true_iff, !negb_true_iff, !orb_false_iff, !Z.eqb_neq,
    <- (claimed_at_iff s (cIndex c) (cToken c) Hz).
  destruct (has_bits (cFlags c) CallFlagOutgoing); naive_solver.
Qed.

Lemma CurrentCallToken_iff s t :
  store_wf s ->
  CurrentCallToken s = (t, true) <->
  exists c, calls s = {[cIndex c := c]} /\ cToken c = t /\ carriable s c.
Proof.
  intros Hwf. unfold CurrentCallToken. split.
  - intros H. destruct ((map_to_list (calls s)).*2) as [|c [|]] eqn:E; try discriminate.
    apply values_singleton in E; [|eauto using wf_index]. exists c. split; [done|].
    do 2 (split_if_in H; try discriminate). injection H as <-. split; [done|]. bool_prop.
    unfold carriable. rewrite <- claimed_at_iff by done.
    rewrite !andb_false_iff, !negb_false_iff, !Z.eqb_eq in *. naive_solver.
  - intros (c & E & <- & Hc). rewrite (proj2 (values_singleton _ c (fun i d => wf_index s i d Hwf)) E).
    assert (cToken c <> 0) as Hz by (apply (wf_token s (cIndex c) c Hwf); rewrite E; apply lookup_singleton_eq).
    destruct (Z.eqb_spec (cToken c) 0); [done|]. unfold carriable in Hc.
    rewrite <- claimed_at_iff in Hc by done.
    destruct (has_bits (cFlags c) CallFlagOutgoing), (Z.eqb_spec (cState c) StateIncoming),
      (Z.eqb_spec (claimed_at s (cIndex c)) (cToken c)); simpl; naive_solver.
Qed.

Lemma claim_history nano ops s i t :
  reachable nano ops s -> len ops <= 2 ^ 54 -> claimed s !! i = Some t -> DoClaim i t ∈ ops.
Proof.
  intros Hr. induction Hr as [|ops s o Hr IH Hb]; intros Hl Hc; [by simpl in Hc; rewrite lookup_empty in Hc|].
  assert (len (o :: ops) = 1 + len ops) as El by (unfold len; simpl; lia).
  destruct (reachable_age _ _ _ Hr ltac:(lia)) as [Hwf Hage]. pose proof (len_nonneg ops).
  destruct o as [v|v|j u]; simpl in Hc.
  - apply list_elem_of_further, IH; [lia|]. destruct (Apply s v) as [[snap s']|] eqn:E; [|done].
    assert (headroom s) as Hroom by (unfold headroom; change (2 ^ 54) with 18014398509481984 in Hl; lia).
    destruct (Apply_applied _ _ _ _ Hwf Hroom Hb E) as [parsed A]. by apply (ap_claimed _ _ _ _ _ A) in Hc as [? _].
  - apply list_elem_of_further, IH; [lia|]. by destruct (ApplyIncomingCall_frame s v) as (_ & <- & _).
  - unfold ClaimCall in Hc. repeat split_match; try (apply list_elem_of_further, IH; [lia|done]).
    simpl in Hc. apply lookup_insert_Some in Hc as [[-> ->]|[_ Hc]]; [apply list_elem_of_here|].
    apply list_elem_of_further, IH; [lia|done].
Qed.

(** The media path is offered a call only when it is the only one and is
    ringing, was originated here, or was claimed by this side under exactly the
    token it has now: a call the handset answered is never offered. *)
Theorem media_gate nano ops s t :
  reachable nano ops s -> len ops <= 2 ^ 54 -> CurrentCallToken s = (t, true) ->
  exists c, calls s = {[cIndex c := c]} /\ cToken c = t /\
    (has_bits (cFlags c) CallFlagOutgoing = true \/ cState c = StateIncoming \/
     DoClaim (cIndex c) t ∈ ops).
Proof.
  intros Hr Hl H. destruct (reachable_age _ _ _ Hr Hl) as [Hwf _].
  apply (CurrentCallToken_iff s t Hwf) in H as (c & Hs & Ht & Hc). exists c. split_and!; auto.
  unfold carriable in Hc. rewrite Ht in Hc. naive_solver eauto using claim_history.
Qed.

Lemma media_gate_witness :
  exists c, calls (run_ops 5 demo_ops) = {[cIndex c := c]} /\ cToken c = 6 /\
    (has_bits (cFlags c) CallFlagOutgoing = true \/ cState c = StateIncoming \/
     DoClaim (cIndex c) 6 ∈ demo_ops).
Proof.
  apply (media_gate 5 demo_ops (run_ops 5 demo_ops) 6).
  - apply run_ops_reachable, demo_ops_bytes.
  - by vm_compute.
  - vm_compute. reflexivity.
Defined.

(** ** Calls answered on the handset *)

Lemma handset_scan_spec s order :
  (handset_scan s order = 0 /\ forall c, c ∈ order -> cToken c <> 0 -> answered_elsewhere s c = false) \/
  (exists c, c ∈ order /\ answered_elsewhere s c = true /\ handset_scan s order = cToken c).
Proof.
  induction order as [|c order IH]; simpl; [left; set_solver|].
  destruct (answered_elsewhere s c) eqn:E; [right; exists c; set_solver|].
  destruct IH as [[-> IH]|(d & ? & ? & ?)]; [left|right; exists d; set_solver].
  split; [done|]. intros d Hd. apply elem_of_cons in Hd as [->|Hd]; auto.
Qed.

(** Whatever order the runtime enumerates the calls in, [HandsetAnswered] is
    0 exactly when every live call may be carried by the media path, otherwise it
    is the token of a call that may not; and while it is not 0 no call is offered
    to the media path. *)
Theorem HandsetAnswered_spec s order :
  store_wf s -> order ≡ₚ (map_to_list (calls s)).*2 ->
  (HandsetAnswered s order = 0 <-> forall i c, calls s !! i = Some c -> carriable s c) /\
  (HandsetAnswered s order <> 0 ->
   (exists i c, calls s !! i = Some c /\ cToken c = HandsetAnswered s order /\ ~ carriable s c) /\
   (CurrentCallToken s).2 = false).
Proof.
  intros Hwf Ho. assert (forall c, c ∈ order <-> exists i, calls s !! i = Some c) as Hin.
  { intros c. rewrite Ho, list_elem_of_fmap. split.
    - intros ([i d] & -> & Hd). apply elem_of_map_to_list in Hd. eauto.
    - intros [i Hi]. exists (i, c). split; [done|]. by apply elem_of_map_to_list. }
  unfold HandsetAnswered. destruct (handset_scan_spec s order) as [[-> H]|(c & Hc & Ha & ->)].
  - split; [|done]. split; [|done]. intros _ i c Hi. specialize (H c ltac:(apply Hin; eauto)).
    pose proof (answered_elsewhere_iff s i c Hwf Hi) as A.
    rewrite H in A by eauto using wf_token. destruct (decide (carriable s c)); naive_solver.
  - apply Hin in Hc as [i Hi]. pose proof (proj1 (answered_elsewhere_iff s i c Hwf Hi) Ha) as Hn.
    pose proof (wf_token _ _ _ Hwf Hi) as Hz. split; [split; [done|]|].
    + intros Hall. by destruct (Hn (Hall i c Hi)).
    + intros _. split; [eauto|]. destruct (CurrentCallToken s) as [t [|]] eqn:E; [|done].
      apply (CurrentCallToken_iff s t Hwf) in E as (d & Es & _ & Hd).
      rewrite Es in Hi. apply lookup_singleton_Some in Hi as [_ ->]. done.
Qed.

(** Two calls the handset answered: neither has been claimed. *)
Definition two_answered : Store := run_ops 5 [DoApply [2; 3; 0; 9; 4; 0]].

Lemma two_answered_wf : store_wf two_answered.
Proof.
  apply (reachable_age 5 [DoApply [2; 3; 0; 9; 4; 0]]); [apply run_ops_reachable|by vm_compute].
  apply (bool_decide_unpack _). by vm_compute.
Qed.

Lemma HandsetAnswered_witness :
  HandsetAnswered two_answered ((map_to_list (calls two_answered)).*2) <> 0 /\
  (CurrentCallToken two_answered).2 = false.
Proof.
  assert (HandsetAnswered two_answered ((map_to_list (calls two_answered)).*2) <> 0) as H
    by (by vm_compute).
  split; [exact H|].
  apply (HandsetAnswered_spec two_answered ((map_to_list (calls two_answered)).*2) two_answered_wf);
    [reflexivity|exact H].
Defined.

(** With two such calls the answer depends on the runtime's enumeration:
    one reachable store yields two different tokens. *)
Theorem HandsetAnswered_order_dependent :
  exists ops o1 o2, Forall op_bytes ops /\
    o1 ≡ₚ (map_to_list (calls (run_ops 5 ops))).*2 /\ o2 ≡ₚ o1 /\
    HandsetAnswered (run_ops 5 ops) o1 <> 0 /\ HandsetAnswered (run_ops 5 ops) o2 <> 0 /\
    HandsetAnswered (run_ops 5 ops) o1 <> HandsetAnswered (run_ops 5 ops) o2.
Proof.
  set (vs := (map_to_list (calls two_answered)).*2).
  exists [DoApply [2; 3; 0; 9; 4; 0]], vs, (rev vs). split_and!.
  - apply (bool_decide_unpack _). by vm_compute.
  - reflexivity.
  - symmetry. apply Permutation_rev.
  - by vm_compute.
  - by vm_compute.
  - by vm_compute.
Qed.

(** ** Snapshots *)

Lemma values_indices (s : Store) :
  store_wf s -> cIndex <$> (map_to_list (calls s)).*2 = (map_to_list (calls s)).*1.
Proof.
  intros Hwf. assert (Forall (fun kv => cIndex kv.2 = kv.1) (map_to_list (calls s))) as H.
  { apply Forall_forall. intros [i c] Hin. apply elem_of_map_to_list in Hin. simpl. eauto using wf_index. }
  induction H as [|kv l Hkv _ IH]; [done|]. csimpl. by rewrite IH, Hkv.
Qed.

(** The calls of a snapshot: each live call once, with the stored identity. *)
Lemma snapshot_perm s :
  sCalls (SnapshotOf s) ≡ₚ
  (fun c => with_identity c (identity_at (identities s) (cIndex c))) <$> (map_to_list (calls s)).*2.
Proof. apply sort_calls_perm. Qed.

Lemma snapshot_sorted s : store_wf s -> strictly_by_index (sCalls (SnapshotOf s)).
Proof.
  intros Hwf. apply sort_calls_strict. rewrite <- list_fmap_compose.
  change (cIndex ∘ _) with cIndex. rewrite values_indices by done. apply NoDup_fst_map_to_list.
Qed.

Lemma snapshot_elem s c :
  store_wf s ->
  c ∈ sCalls (SnapshotOf s) <->
  exists d, calls s !! cIndex c = Some d /\ c = with_identity d (identity_at (identities s) (cIndex d)).
Proof.
  intros Hwf. rewrite (elem_of_Permutation_proper c _ _ (snapshot_perm s)), list_elem_of_fmap.
  split.
  - intros (d & -> & Hd). apply list_elem_of_fmap in Hd as ([i e] & -> & Hd).
    apply elem_of_map_to_list in Hd. simpl. exists e. split; [|done].
    by rewrite (wf_index _ _ _ Hwf Hd).
  - intros (d & Hd & ->). exists d. split; [done|]. apply list_elem_of_fmap. exists (cIndex d, d).
    split; [done|]. apply elem_of_map_to_list. simpl in Hd. done.
Qed.

(** A snapshot lists every live call exactly once, in strictly increasing
    index order, each with the identity stored for its index, under the store's
    sequence number; [TokenForIndex] reads back the token the snapshot shows. *)
Theorem snapshot_spec s :
  store_wf s ->
  sSequence (SnapshotOf s) = sequence s /\
  strictly_by_index (sCalls (SnapshotOf s)) /\
  length (sCalls (SnapshotOf s)) = size (calls s) /\
  (forall c, c ∈ sCalls (SnapshotOf s) <->
     exists d, calls s !! cIndex c = Some d /\
       c = with_identity d (IdentityOf s (cIndex d))) /\
  (forall c, c ∈ sCalls (SnapshotOf s) -> TokenForIndex s (cIndex c) = (cToken c, true)).
Proof.
  intros Hwf. split_and!.
  - done.
  - by apply snapshot_sorted.
  - pose proof (Permutation_length (snapshot_perm s)) as ->. by rewrite !length_fmap, length_map_to_list.
  - intros c. by apply snapshot_elem.
  - intros c Hc. apply snapshot_elem in Hc as (d & Hd & Ec); [|done]. unfold TokenForIndex. rewrite Hd.
    rewrite Ec. simpl. apply wf_token in Hd; [|done]. by destruct (Z.eqb_spec (cToken d) 0).
Qed.

Lemma snapshot_spec_witness :
  length (sCalls (SnapshotOf two_answered)) = 2%nat.
Proof.
  destruct (snapshot_spec two_answered two_answered_wf) as (_ & _ & E & _).
  rewrite E. by vm_compute.
Defined.

(** ** Caller identities *)

Lemma dialable_visible c : dialable c = true -> (0 <= c < RuneSelf /\ IsSpace c = false) /\
  (58 =? c) = false /\ existsb (Z.eqb c) (str ";?") = false.
Proof.
  unfold dialable, is_digit. intros H.
  assert (48 <= c <= 57 \/ c = 43 \/ c = 42 \/ c = 35 \/ c = 45) as Hc.
  { rewrite !orb_true_iff, !Z.eqb_eq, in_range_spec in H. lia. }
  assert (c ∈ [48; 49; 50; 51; 52; 53; 54; 55; 56; 57; 43; 42; 35; 45]) as Hin.
  { rewrite !elem_of_cons. lia. }
  clear H Hc. repeat (apply elem_of_cons in Hin as [->|Hin]; [by split_and!; vm_compute|]).
  by apply elem_of_nil in Hin.
Qed.

Lemma forallb_impl {A} (f g : A -> bool) l :
  (forall x, f x = true -> g x = true) -> forallb f l = true -> forallb g l = true.
Proof. intros H. rewrite !forallb_forall. auto. Qed.

(** A dialable number of at most 32 bytes is its own caller identity. *)
Lemma StripURIScheme_fix n :
  n <> [] -> len n <= IdentityURIMax -> forallb dialable n = true -> StripURIScheme n = n.
Proof.
  intros Hne Hl Hd. assert (TrimSpace n = n) as Ht.
  { apply TrimSpace_visible_id, Forall_forall. intros c Hc. apply dialable_visible.
    rewrite forallb_forall in Hd. apply Hd. by apply list_elem_of_In. }
  assert (IndexByte n 58 = None) as H1.
  { apply index_where_None. eapply forallb_impl; [|exact Hd]. intros c Hc.
    by apply dialable_visible in Hc as (_ & -> & _). }
  assert (IndexAny n (str ";?") = None) as H2.
  { apply index_where_None. eapply forallb_impl; [|exact Hd]. intros c Hc. cbv beta.
    by apply dialable_visible in Hc as (_ & _ & ->). }
  unfold StripURIScheme. cbv zeta. rewrite Ht, H1, H2, Ht. unfold str_eqb.
  rewrite bool_decide_eq_false_2 by done.
  destruct (Z.ltb_spec IdentityURIMax (len n)); [lia|]. simpl. by rewrite Hd.
Qed.

(** What [StripURIScheme] keeps of a caller URI is empty or a dialable
    string of at most 32 bytes (digits, +, *, #, -), and stripping it again
    changes nothing: no other text of the phone's value can reach a SIP header. *)
Theorem StripURIScheme_spec uri :
  (StripURIScheme uri = [] \/
   1 <= len (StripURIScheme uri) <= IdentityURIMax /\ forallb dialable (StripURIScheme uri) = true) /\
  StripURIScheme (StripURIScheme uri) = StripURIScheme uri.
Proof.
  destruct (decide (StripURIScheme uri = [])) as [E|E]; [rewrite E; split; [by left|done]|].
  destruct (StripURIScheme_dialable uri E) as [Hl Hd]. split; [right; split; [|done]|].
  - pose proof (len_nonneg (StripURIScheme uri)).
    assert (len (StripURIScheme uri) <> 0) by (intros E0; by apply len_0_nil in E0). lia.
  - by apply StripURIScheme_fix.
Qed.

(** [ApplyIncomingCall] on any value: either it reports success, the number
    of the named call is replaced by the dialable part of the URI, every other
    identity, all calls, claims and tokens stay, and the sequence number advances
    so the next snapshot is a new one; or it reports one of the two routine
    conditions (nothing to attribute, identity unchanged) and the store,
    sequence number included, is untouched. *)
Theorem ApplyIncomingCall_spec s value :
  store_wf s ->
  match ApplyIncomingCall s value with
  | (Ok _, s') =>
      exists i raw, value = i :: raw /\ i <> 0 /\
        IdentityOf s' i = {| URI := StripURIScheme raw; Name := [] |} /\
        IdentityOf s' i <> IdentityOf s i /\
        (forall j, j <> i -> IdentityOf s' j = IdentityOf s j) /\
        calls s' = calls s /\ claimed s' = claimed s /\ tokens s' = tokens s /\
        sequence s' = bump (sequence s) /\ sequence s' <> sequence s
  | (Error e, s') =>
      s' = s /\
      (e = errNoCallIdentity /\ (value = [] \/ exists raw, value = 0 :: raw) \/
       e = errIdentityUnchanged /\ exists i raw, value = i :: raw /\ i <> 0 /\
         IdentityOf s i = {| URI := StripURIScheme raw; Name := [] |})
  end.
Proof.
  intros Hwf. pose proof (bump_changes (sequence s) (proj1 (wf_sequence _ Hwf)) (proj2 (wf_sequence _ Hwf))).
  unfold ApplyIncomingCall, ParseCallIdentifier.
  destruct value as [|i raw]; [simpl; auto|]. unfold at_. cbn [nth].
  replace (len (i :: raw) =? 0) with false by (unfold len; simpl; by destruct (Z.eqb_spec (Z.pos (Pos.of_succ_nat (length raw))) 0)).
  cbn [orb]. destruct (Z.eqb_spec i 0) as [->|Hi]; [split; [done|]; left; eauto|].
  change (drop 1 (i :: raw)) with (drop 0 raw). rewrite drop_0, stored_name_empty by done.
  unfold setIdentityLocked, IdentityOf, identity_at.
  destruct (identity_empty _) eqn:Em.
  - assert (StripURIScheme raw = []) as Er.
    { unfold identity_empty, str_eqb in Em. cbn [URI Name] in Em. by bool_prop. }
    destruct (identities s !! i) as [id|] eqn:Eo.
    + exists i, raw. cbn. rewrite Eo, lookup_delete_eq, Er. simpl. split_and!; auto.
      * intros <-. apply (wf_identities _ Hwf) in Eo as (_ & _ & Hn & _). done.
      * intros j Hj. by rewrite lookup_delete_ne.
    + split; [done|]. right. split; [done|]. exists i, raw. rewrite Eo, Er. done.
  - case_bool_decide as Eb.
    + split; [done|]. right. split; [done|]. exists i, raw. by rewrite Eb.
    + exists i, raw. cbn. rewrite lookup_insert_eq. simpl. split_and!; auto.
      * intros E. destruct (identities s !! i) as [id|]; simpl in E; [congruence|].
        rewrite E in Em. done.
      * intros j Hj. by rewrite lookup_insert_ne.
Qed.

Lemma ApplyIncomingCall_witness :
  IdentityOf (ApplyIncomingCall two_answered (9 :: str "sip:*31#;x")).2 9 =
  {| URI := str "*31#"; Name := [] |}.
Proof.
  pose proof (ApplyIncomingCall_spec two_answered (9 :: str "sip:*31#;x") two_answered_wf) as H.
  destruct (ApplyIncomingCall two_answered (9 :: str "sip:*31#;x")) as [[[]|e] s'] eqn:E.
  - destruct H as (i & raw & Ev & _ & Hid & _). injection Ev as <- <-. simpl. rewrite Hid. by vm_compute.
  - exfalso. apply (f_equal (fun p => is_ok p.1)) in E. by vm_compute in E.
Defined.

(** ** Sequence numbers *)

(** How far the snapshot sequence has advanced from the seed. *)
Definition seq_age (s : Store) : Z := age (seed s) (sequence s).

Lemma bump_age sd q :
  in_width 64 q -> age sd q + 2 < 2 ^ 64 -> age sd q < age sd (bump q) <= age sd q + 2.
Proof.
  intros Hq H. pose proof (age_bound sd q).
  pose proof (age_succ sd q ltac:(lia)) as A1. unfold bump.
  destruct (Z.eqb_spec (u64 (q + 1)) 0) as [E|E]; [|lia].
  rewrite E in A1. pose proof (age_succ sd 0 ltac:(lia)) as A2.
  change (u64 (0 + 1)) with 1 in A2. lia.
Qed.

(** One operation advances the sequence number by at most two values; where it
    changes at all, forwards. *)
Lemma exec_seq s o :
  store_wf s -> headroom s -> seq_age s + 2 < 2 ^ 64 -> op_bytes o ->
  seed (exec s o) = seed s /\ seq_age s <= seq_age (exec s o) <= seq_age s + 2 /\
  (sequence (exec s o) <> sequence s -> seq_age s < seq_age (exec s o)).
Proof.
  intros Hwf Hroom Hs Hb. unfold seq_age in *.
  pose proof (bump_age (seed s) (sequence s) (proj1 (wf_sequence _ Hwf)) Hs) as B.
  destruct o as [v|v|i t]; simpl in *.
  - destruct (Apply s v) as [[sn s']|] eqn:E; [|split_and!; auto; lia].
    destruct (Apply_applied _ _ _ _ Hwf Hroom Hb E) as [parsed [_ _ _ _ -> -> _]]. split_and!; auto; lia.
  - unfold ApplyIncomingCall, setIdentityLocked. repeat split_match; simplify_eq; simpl; split_and!; auto; lia.
  - destruct (ClaimCall_frame s i t) as (_ & -> & _ & _ & ->). split_and!; auto; lia.
Qed.

Lemma reachable_seq nano ops s :
  reachable nano ops s -> len ops <= 2 ^ 54 ->
  seed s = seed (NewStore nano) /\ seq_age s <= 2 * len ops.
Proof.
  induction 1 as [|ops s o Hr IH Hb]; intros Hl.
  { split; [done|]. unfold seq_age, age. simpl. rewrite Z.sub_diag. by vm_compute. }
  assert (len (o :: ops) = 1 + len ops) as El by (unfold len; simpl; lia).
  pose proof (len_nonneg ops). destruct IH as [Hsd Hage]; [lia|].
  destruct (reachable_age _ _ _ Hr ltac:(lia)) as [Hwf Hta].
  change (2 ^ 54) with 18014398509481984 in Hl.
  destruct (exec_seq s o Hwf) as (-> & ? & _); auto; [unfold headroom; lia|lia|].
  split; [done|]. unfold seq_age in *. lia.
Qed.
