(* ===== verification/Inventory.v ===== *)
(** * Discovering the phone's telephone bearer service

    Models src/callbridge-le-call-go/internal/gtbs/inventory.go: selecting the
    BlueZ device object and collecting the characteristics of its Generic
    Telephone Bearer Service out of the object tree BlueZ reports.  The tree is a
    Go map: the enumeration the runtime chooses for each [range] is a parameter,
    and the theorems hold for every one.  [dbus.ObjectPath.IsValid] belongs to the
    D-Bus library and is a parameter. *)

From Stdlib Require Import Ascii.
From stdpp Require Import pretty.
From S2P Require Import Prelude GoStd.

(** ** D-Bus data *)

(** What a [dbus.Variant] can hold, as far as the services look. *)
Inductive variant :=
  | VString (s : bytes)
  | VPath (p : bytes)
  | VStrings (l : list bytes)
  | VBool (b : bool)
  | VBytes (b : bytes)
  | VOther.

Abbreviation properties := (gmap bytes variant).
Abbreviation interfaces := (gmap bytes properties).
Abbreviation ManagedObjects := (gmap bytes interfaces).

Definition BlueZBusName : bytes := str "org.bluez".
Definition PropertiesIface : bytes := str "org.freedesktop.DBus.Properties".
Definition GattServiceIface : bytes := str "org.bluez.GattService1".
Definition GattCharacteristicIF : bytes := str "org.bluez.GattCharacteristic1".
Definition DeviceIface : bytes := str "org.bluez.Device1".
Definition UUIDGTBS : bytes := str "0000184c-0000-1000-8000-00805f9b34fb".
Definition UUIDCallState : bytes := str "00002bbd-0000-1000-8000-00805f9b34fb".
Definition UUIDControlPoint : bytes := str "00002bbe-0000-1000-8000-00805f9b34fb".
Definition UUIDOptionalOpcodes : bytes := str "00002bbf-0000-1000-8000-00805f9b34fb".
Definition UUIDIncomingCall : bytes := str "00002bc1-0000-1000-8000-00805f9b34fb".

Record Characteristic := mkCharacteristic {
  chPath : bytes;
  chUUID : bytes;
  chFlags : list bytes
}.

Record Inventory := mkInventory {
  invDevicePath : bytes;
  invServicePath : bytes;
  invCharacteristics : gmap bytes Characteristic
}.

(** [Inventory{}]. *)
Definition no_inventory : Inventory := mkInventory [] [] ∅.
(** Reading an absent key of [Characteristics] gives the zero value. *)
Definition no_characteristic : Characteristic := mkCharacteristic [] [] [].
Definition char_at (inv : Inventory) (uuid : bytes) : Characteristic :=
  default no_characteristic (invCharacteristics inv !! uuid).

(** A property that is absent is the zero [Variant], which holds no value. *)
Definition prop (p : properties) (name : string) : variant := default VOther (p !! str name).

Definition variantString (v : variant) : option bytes :=
  match v with VString s => Some s | _ => None end.
Definition variantPath (v : variant) : option bytes :=
  match v with VPath p => Some p | _ => None end.
Definition variantStrings (v : variant) : option (list bytes) :=
  match v with VStrings l => Some l | _ => None end.

Definition contains (values : list bytes) (wanted : bytes) : bool :=
  existsb (fun v => v =s? wanted) values.

(** [sort.Strings]. *)
Definition str_le (a b : bytes) : Prop := str_ltb b a = false.
#[export] Instance str_le_dec : RelDecision str_le.
Proof. unfold str_le. intros ??. apply _. Defined.
Definition sort_strings (l : list bytes) : list bytes := merge_sort str_le l.

(** Text of a byte string in an error message. *)
Definition text (b : bytes) : string :=
  foldr (fun c s => String (ascii_of_N (Z.to_N c)) s) EmptyString b.

Section PathValid.
Context (path_IsValid : bytes -> bool).

Definition DevicePath (adapter address : bytes) : result bytes :=
  if negb (HasPrefix adapter (str "hci")) || (address =s? [])
  then fail! "invalid BlueZ device selector"
  else
    let path := str "/org/bluez/" ++ adapter ++ str "/dev_" ++ replace_byte (ToUpper address) 58 95 in
    if negb (path_IsValid path) then fail! "invalid BlueZ device path" else Ok path.

Definition device_matches (adapterPath address : bytes) (o : bytes * interfaces) : bool :=
  match o.2 !! DeviceIface with
  | None => false
  | Some ps =>
      match variantString (prop ps "Address"), variantPath (prop ps "Adapter") with
      | Some actualAddress, Some actualAdapter =>
          EqualFold actualAddress address && (actualAdapter =s? adapterPath)
      | _, _ => false
      end
  end.

(** [order]: the enumeration of [objects] the [range] loop sees. *)
Definition ResolveDevicePath (order : list (bytes * interfaces)) (adapter address : bytes)
  : result bytes :=
  let! _ := DevicePath adapter address in
  let adapterPath := str "/org/bluez/" ++ adapter in
  let matches := sort_strings (filter (fun o => Is_true (device_matches adapterPath address o)) order).*1 in
  match matches with
  | [path] => Ok path
  | _ => Error (New ("expected one BlueZ device for selector, found " ++ pretty (length matches)))
  end.

End PathValid.

Definition service_matches (devicePath : bytes) (o : bytes * interfaces) : bool :=
  match o.2 !! GattServiceIface with
  | None => false
  | Some ps =>
      match variantString (prop ps "UUID"), variantPath (prop ps "Device") with
      | Some uuid, Some device => EqualFold uuid UUIDGTBS && (device =s? devicePath)
      | _, _ => false
      end
  end.

(** The characteristic an object contributes, if it does. *)
Definition characteristic_of (servicePath : bytes) (o : bytes * interfaces) : option (bytes * Characteristic) :=
  match o.2 !! GattCharacteristicIF with
  | None => None
  | Some ps =>
      match variantPath (prop ps "Service"), variantString (prop ps "UUID"),
            variantStrings (prop ps "Flags") with
      | Some service, Some uuid, Some flags =>
          if service =s? servicePath then
            let uuid := ToLower uuid in Some (uuid, mkCharacteristic o.1 uuid (sort_strings flags))
          else None
      | _, _, _ => None
      end
  end.

Fixpoint collect (servicePath : bytes) (order : list (bytes * interfaces))
    (acc : gmap bytes Characteristic) : result (gmap bytes Characteristic) :=
  match order with
  | [] => Ok acc
  | o :: order =>
      match characteristic_of servicePath o with
      | None => collect servicePath order acc
      | Some (uuid, ch) =>
          match acc !! uuid with
          | Some _ => Error (New ("duplicate GTBS characteristic " ++ text uuid))
          | None => collect servicePath order (<[uuid := ch]> acc)
          end
      end
  end.

(** The required characteristics and their flags. *)
Definition required : list (bytes * list bytes) :=
  [(UUIDCallState, [str "read"; str "notify"]); (UUIDControlPoint, [str "notify"])].

Fixpoint check_flags (uuid : bytes) (have wanted : list bytes) : result unit :=
  match wanted with
  | [] => Ok tt
  | f :: wanted =>
      if contains have f then check_flags uuid have wanted
      else Error (New ("GTBS characteristic " ++ text uuid ++ " lacks " ++ text f))
  end.

Fixpoint check_required (inv : Inventory) (reqs : list (bytes * list bytes)) : result unit :=
  match reqs with
  | [] => Ok tt
  | (uuid, flags) :: reqs =>
      match invCharacteristics inv !! uuid with
      | None => Error (New ("required GTBS characteristic " ++ text uuid ++ " is absent"))
      | Some ch => let! _ := check_flags uuid (chFlags ch) flags in check_required inv reqs
      end
  end.

Definition validateInventory (inv : Inventory) : result unit :=
  let! _ := check_required inv required in
  let control := char_at inv UUIDControlPoint in
  if negb (contains (chFlags control) (str "write")) &&
     negb (contains (chFlags control) (str "write-without-response"))
  then fail! "GTBS Call Control Point is not writable" else Ok tt.

(** [order1] and [order2] are the enumerations of the two [range] loops. *)
Definition Discover (objects : ManagedObjects) (order1 order2 : list (bytes * interfaces))
    (devicePath : bytes) : result Inventory :=
  match objects !! devicePath with
  | None => fail! "expected BlueZ device object is absent"
  | Some deviceInterfaces =>
      match deviceInterfaces !! DeviceIface with
      | None => fail! "expected BlueZ device interface is absent"
      | Some _ =>
          let servicePaths := (filter (fun o => Is_true (service_matches devicePath o)) order1).*1 in
          match servicePaths with
          | [servicePath] =>
              let! chars := collect servicePath order2 ∅ in
              let inv := mkInventory devicePath servicePath chars in
              let! _ := validateInventory inv in
              Ok inv
          | _ => Error (New ("expected one GTBS service on the bonded device, found " ++
                             pretty (length servicePaths)))
          end
      end
  end.

(** ** Order independence *)

Lemma filter_is_true_perm {A} (f : A -> bool) (l k : list A) :
  l ≡ₚ k -> filter (fun o => Is_true (f o)) l ≡ₚ filter (fun o => Is_true (f o)) k.
Proof. intros H. by rewrite H. Qed.

(** What the collecting loop computes: the contributions, provided no UUID is new
    twice. *)
Lemma collect_spec servicePath order acc m :
  collect servicePath order acc = Ok m <->
  NoDup (omap (characteristic_of servicePath) order).*1 /\
  (forall u, u ∈ (omap (characteristic_of servicePath) order).*1 -> acc !! u = None) /\
  m = list_to_map (omap (characteristic_of servicePath) order) ∪ acc.
Proof.
  revert acc. induction order as [|o order IH]; intros acc; simpl.
  { rewrite (left_id_L ∅ (∪)). split; [intros [= ->]; split_and!; [constructor|set_solver|done]|].
    by intros (_ & _ & ->). }
  destruct (characteristic_of servicePath o) as [[uuid ch]|] eqn:E; [|by apply IH].
  simpl. rewrite NoDup_cons. destruct (acc !! uuid) eqn:Ea.
  { split; [done|]. intros (_ & H & _). specialize (H uuid ltac:(set_solver)). congruence. }
  rewrite IH. set (cs := omap (characteristic_of servicePath) order).
  assert (forall x : gmap bytes Characteristic, x !! uuid = None ->
    x ∪ <[uuid := ch]> acc = <[uuid := ch]> x ∪ acc) as Hun.
  { intros x Hx. apply map_eq. intros k. rewrite !lookup_union, !lookup_insert.
    case_decide; subst; [rewrite Hx; by destruct (acc !! k)|done]. }
  split.
  - intros (Hd & Hn & ->). assert (uuid ∉ cs.*1) as Hu.
    { intros Hin. specialize (Hn _ Hin). by rewrite lookup_insert_eq in Hn. }
    split_and!; auto.
    + intros u Hu'. apply elem_of_cons in Hu' as [->|Hu']; [done|].
      specialize (Hn u Hu'). by apply lookup_insert_None in Hn as [? _].
    + apply Hun. by apply not_elem_of_list_to_map.
  - intros ((Hu & Hd) & Hn & ->). split_and!; auto.
    + intros u Hu'. apply lookup_insert_None. split; [apply Hn; set_solver|]. intros ->. done.
    + symmetry. apply Hun. by apply not_elem_of_list_to_map.
Qed.

Lemma collect_perm servicePath o o' m :
  o ≡ₚ o' -> collect servicePath o ∅ = Ok m -> collect servicePath o' ∅ = Ok m.
Proof.
  intros Hp H. apply collect_spec in H as (Hd & _ & ->). apply collect_spec.
  assert (omap (characteristic_of servicePath) o ≡ₚ omap (characteristic_of servicePath) o') as P
    by (by rewrite Hp).
  split_and!.
  - by rewrite <- P.
  - intros u _. apply lookup_empty.
  - f_equal. by apply list_to_map_proper.
Qed.

Lemma perm_singleton_eq {A} (l k : list A) x : l ≡ₚ k -> l = [x] -> k = [x].
Proof. intros H ->. symmetry in H. by apply Permutation_singleton_r in H. Qed.

(** What a successful discovery found. *)
Record discovered (objects : ManagedObjects) (devicePath : bytes) (inv : Inventory) : Prop := {
  di_device : invDevicePath inv = devicePath;
  di_call_state : exists ch, invCharacteristics inv !! UUIDCallState = Some ch /\
    contains (chFlags ch) (str "read") = true /\ contains (chFlags ch) (str "notify") = true;
  di_control : exists ch, invCharacteristics inv !! UUIDControlPoint = Some ch /\
    contains (chFlags ch) (str "notify") = true /\
    contains (chFlags ch) (str "write") || contains (chFlags ch) (str "write-without-response") = true;
  di_chars : forall uuid ch, invCharacteristics inv !! uuid = Some ch <->
    exists p ifs, objects !! p = Some ifs /\
      characteristic_of (invServicePath inv) (p, ifs) = Some (uuid, ch);
  di_service : forall p ifs, objects !! p = Some ifs ->
    service_matches devicePath (p, ifs) = true <-> p = invServicePath inv
}.

Lemma check_flags_ok uuid have wanted :
  check_flags uuid have wanted = Ok tt <-> forallb (contains have) wanted = true.
Proof.
  induction wanted as [|f wanted IH]; simpl; [done|].
  destruct (contains have f); simpl; [apply IH|done].
Qed.

Lemma result_bind_unit_ok {B} (r : result unit) (k : result B) b :
  (let! _ := r in k) = Ok b <-> r = Ok tt /\ k = Ok b.
Proof. destruct r as [[]|]; simpl; naive_solver. Qed.

Lemma validateInventory_ok inv :
  validateInventory inv = Ok tt ->
  (exists ch, invCharacteristics inv !! UUIDCallState = Some ch /\
    contains (chFlags ch) (str "read") = true /\ contains (chFlags ch) (str "notify") = true) /\
  (exists ch, invCharacteristics inv !! UUIDControlPoint = Some ch /\
    contains (chFlags ch) (str "notify") = true /\
    contains (chFlags ch) (str "write") || contains (chFlags ch) (str "write-without-response") = true).
Proof.
  unfold validateInventory, required, check_required. rewrite result_bind_unit_ok. intros [H Hw].
  destruct (invCharacteristics inv !! UUIDCallState) as [cs|] eqn:Ecs; [|done].
  rewrite result_bind_unit_ok, check_flags_ok in H. destruct H as [Hf H]. simpl in Hf.
  destruct (invCharacteristics inv !! UUIDControlPoint) as [cp|] eqn:Ecp; [|done].
  rewrite result_bind_unit_ok, check_flags_ok in H. destruct H as [Hg _]. simpl in Hg.
  unfold char_at in Hw. rewrite Ecp in Hw. simpl in Hw. bool_prop.
  split; [exists cs|exists cp]; split_and!; auto.
  destruct (contains (chFlags cp) (str "write")), (contains (chFlags cp) (str "write-without-response"));
    simpl in *; congruence.
Qed.

Section Orders.
Context (objects : ManagedObjects) (o1 o2 : list (bytes * interfaces)).
Context (H1 : o1 ≡ₚ map_to_list objects) (H2 : o2 ≡ₚ map_to_list objects).

Lemma order_elem p ifs : (p, ifs) ∈ o2 <-> objects !! p = Some ifs.
Proof. rewrite <- elem_of_map_to_list. by rewrite H2. Qed.

Lemma service_unique devicePath sp :
  (filter (fun o => Is_true (service_matches devicePath o)) o1).*1 = [sp] ->
  forall p ifs, objects !! p = Some ifs -> service_matches devicePath (p, ifs) = true <-> p = sp.
Proof.
  intros E p ifs Hp. apply elem_of_map_to_list in Hp. rewrite <- H1 in Hp.
  destruct (filter _ o1) as [|[q jfs] [|]] eqn:Ef; try discriminate. injection E as ->.
  assert (forall x, x ∈ o1 -> service_matches devicePath x = true <-> x = (sp, jfs)) as Hf.
  { intros x Hx. rewrite <- (list_elem_of_singleton x (sp, jfs)), <- Ef, list_elem_of_filter.
    rewrite Is_true_true. naive_solver. }
  rewrite (Hf _ Hp). split; [by intros [= -> ->]|]. intros ->.
  assert ((sp, jfs) ∈ o1) as Hs.
  { assert ((sp, jfs) ∈ filter (fun o => Is_true (service_matches devicePath o)) o1) as Hs
      by (rewrite Ef; set_solver). by apply list_elem_of_filter in Hs as [_ ?]. }
  rewrite H1 in Hs, Hp. apply elem_of_map_to_list in Hs, Hp. congruence.
Qed.

Lemma Discover_discovered devicePath inv :
  Discover objects o1 o2 devicePath = Ok inv -> discovered objects devicePath inv.
Proof.
  unfold Discover. destruct (objects !! devicePath) as [dev|]; [|done].
  destruct (dev !! DeviceIface); [|done].
  destruct (filter _ o1).*1 as [|sp [|]] eqn:Es; try done. intros H.
  apply result_bind_ok in H as (chars & Hc & H). apply result_bind_unit_ok in H as [Hv [= <-]].
  apply validateInventory_ok in Hv as [Hcs Hcp]. apply collect_spec in Hc as (Hd & _ & Em).
  split; simpl in *; auto.
  - intros uuid ch. rewrite Em, (right_id_L ∅ (∪)), <- elem_of_list_to_map by done.
    rewrite list_elem_of_omap. split.
    + intros ([p ifs] & Hin & E). apply order_elem in Hin. eauto.
    + intros (p & ifs & Hp & E). exists (p, ifs). split; [|done]. by apply order_elem.
  - by apply service_unique.
Qed.

End Orders.

(** C38.  Discovery does not depend on how the runtime enumerates the object tree:
    whatever two enumerations one run used, every other run succeeds with the same
    inventory, and that inventory holds exactly the characteristics of the one
    GTBS service of the device, among them a readable and notifying Call State and
    a notifying, writable Call Control Point. *)
Theorem Discover_deterministic (objects : ManagedObjects) o1 o2 o1' o2' devicePath inv :
  o1 ≡ₚ map_to_list objects -> o2 ≡ₚ map_to_list objects ->
  o1' ≡ₚ map_to_list objects -> o2' ≡ₚ map_to_list objects ->
  Discover objects o1 o2 devicePath = Ok inv ->
  Discover objects o1' o2' devicePath = Ok inv /\ discovered objects devicePath inv.
Proof.
  intros H1 H2 H1' H2' H.
  split; [|by apply (Discover_discovered objects o1 o2 H1 H2)].
  revert H. unfold Discover. destruct (objects !! devicePath) as [dev|]; [|done].
  destruct (dev !! DeviceIface); [|done].
  assert ((filter (fun o => Is_true (service_matches devicePath o)) o1).*1 ≡ₚ
          (filter (fun o => Is_true (service_matches devicePath o)) o1').*1) as P.
  { apply fmap_Permutation, filter_is_true_perm. by rewrite H1, H1'. }
  destruct (filter _ o1).*1 as [|sp [|]] eqn:Es; try done.
  rewrite (perm_singleton_eq _ _ sp P eq_refl). intros H.
  apply result_bind_ok in H as (chars & Hc & H).
  rewrite (collect_perm sp o2 o2' chars); [done|by rewrite H2, H2'|done].
Qed.

(** A tree with one device, its service and the two required characteristics. *)
Definition demo_device : bytes := str "/d".
Definition demo_objects : ManagedObjects :=
  {[ demo_device := {[ DeviceIface := ∅ ]};
     str "/d/s" := {[ GattServiceIface :=
        {[ str "UUID" := VString (ToUpper UUIDGTBS); str "Device" := VPath demo_device ]} ]};
     str "/d/s/a" := {[ GattCharacteristicIF :=
        {[ str "UUID" := VString UUIDCallState; str "Service" := VPath (str "/d/s");
           str "Flags" := VStrings [str "read"; str "notify"] ]} ]};
     str "/d/s/b" := {[ GattCharacteristicIF :=
        {[ str "UUID" := VString UUIDControlPoint; str "Service" := VPath (str "/d/s");
           str "Flags" := VStrings [str "write"; str "notify"] ]} ]} ]}.
Definition demo_inventory : Inventory :=
  mkInventory demo_device (str "/d/s")
    {[ UUIDCallState := mkCharacteristic (str "/d/s/a") UUIDCallState [str "notify"; str "read"];
       UUIDControlPoint := mkCharacteristic (str "/d/s/b") UUIDControlPoint [str "notify"; str "write"] ]}.

Lemma Discover_deterministic_witness :
  Discover demo_objects (rev (map_to_list demo_objects)) (map_to_list demo_objects) demo_device
    = Ok demo_inventory /\ discovered demo_objects demo_device demo_inventory.
Proof.
  apply (Discover_deterministic demo_objects (map_to_list demo_objects) (map_to_list demo_objects)
    (rev (map_to_list demo_objects)) (map_to_list demo_objects) demo_device demo_inventory).
  - reflexivity.
  - reflexivity.
  - symmetry. apply Permutation_rev.
  - reflexivity.
  - vm_compute. reflexivity.
Defined.

(** [ResolveDevicePath] succeeds exactly when one object of the tree is a
    device with the selected address (whatever its letter case) on the selected
    adapter, and returns that object's path, in whatever order the tree is
    enumerated; the selector itself must be well formed. *)
Theorem ResolveDevicePath_spec (valid : bytes -> bool) (objects : ManagedObjects)
    (order : list (bytes * interfaces)) (adapter address path : bytes) :
  order ≡ₚ map_to_list objects ->
  ResolveDevicePath valid order adapter address = Ok path <->
  is_ok (DevicePath valid adapter address) = true /\
  exists ifs, objects !! path = Some ifs /\
    forall p jfs, objects !! p = Some jfs ->
      device_matches (str "/org/bluez/" ++ adapter) address (p, jfs) = true <-> p = path.
Proof.
  intros Ho. unfold ResolveDevicePath.
  destruct (DevicePath valid adapter address) as [dp|]; cbn [result_bind is_ok]; [|naive_solver].
  set (f := device_matches (str "/org/bluez/" ++ adapter) address).
  assert (forall p jfs, (p, jfs) ∈ filter (fun o => Is_true (f o)) order <->
    objects !! p = Some jfs /\ f (p, jfs) = true) as Hin.
  { intros p jfs. rewrite list_elem_of_filter, Is_true_true, Ho, elem_of_map_to_list. naive_solver. }
  set (ms := filter (fun o => Is_true (f o)) order) in *.
  assert (NoDup ms.*1) as Hnd.
  { assert (ms ≡ₚ filter (fun o => Is_true (f o)) (map_to_list objects)) as P
      by (apply filter_is_true_perm, Ho).
    rewrite P. eapply sublist_NoDup; [apply (NoDup_fst_map_to_list objects)|].
    apply fmap_sublist, sublist_filter. }
  pose proof (merge_sort_Permutation str_le ms.*1) as Pm. fold (sort_strings ms.*1) in Pm.
  split.
  - intros H. split; [done|]. destruct (sort_strings ms.*1) as [|q [|]] eqn:Em; try discriminate.
    injection H as <-. assert (ms.*1 = [q]) as E1 by (by eapply perm_singleton_eq).
    destruct ms as [|[p jfs] [|]] eqn:Ems; try discriminate. injection E1 as ->.
    destruct (proj1 (Hin q jfs) ltac:(set_solver)) as [Hq Hf]. exists jfs. split; [done|].
    intros p kfs Hp. split; [|intros ->; congruence].
    intros Hpf. assert ((p, kfs) ∈ [(q, jfs)]) as Hx by (by apply Hin). set_solver.
  - intros [_ (ifs & Hp & Hu)]. assert (ms.*1 ≡ₚ [path]) as P1.
    { apply NoDup_Permutation; [done|apply NoDup_singleton|]. intros q. rewrite list_elem_of_fmap, list_elem_of_singleton.
      split.
      - intros ([p jfs] & -> & Hq). apply Hin in Hq as [Hq Hqf]. by apply (Hu _ _ Hq).
      - intros ->. exists (path, ifs). split; [done|]. apply Hin. split; [done|]. by apply Hu. }
    rewrite (perm_singleton_eq [path] (sort_strings ms.*1) path); [done| |done].
    by rewrite Pm, P1.
Qed.

(** One device whose object path does not spell its address. *)
Definition demo_phone : ManagedObjects :=
  {[ str "/x" := {[ DeviceIface :=
    {[ str "Address" := VString (str "aa:bb"); str "Adapter" := VPath (str "/org/bluez/hci0") ]} ]} ]}.

Lemma ResolveDevicePath_witness :
  exists ifs, demo_phone !! str "/x" = Some ifs /\
    forall p jfs, demo_phone !! p = Some jfs ->
      device_matches (str "/org/bluez/" ++ str "hci0") (str "AA:BB") (p, jfs) = true <-> p = str "/x".
Proof.
  apply (ResolveDevicePath_spec (fun _ => true) demo_phone (map_to_list demo_phone)
    (str "hci0") (str "AA:BB") (str "/x")); [reflexivity|]. vm_compute. reflexivity.
Defined.
