(* ===== verification/GtbsClient.v ===== *)
(** * The GTBS client session

    Models src/callbridge-le-call-go/internal/gtbs/client.go: one session with the
    phone's telephone bearer service ([runOnce]), its notification handler, the
    commands written to the Call Control Point and their correlation with results,
    and the reconnecting loop ([Run]).

    What D-Bus answers is an input ([Bus]); what the client does to the outside is
    an output trace ([event]).  [Command] runs on other goroutines than the
    session, so it is split where it blocks: [command_begin] up to the write,
    [command_end] from the write's completion; the inputs of a session's loop
    ([loop_input]) interleave both with notifications in any order. *)

From S2P Require Import Prelude GoStd Protocol GtbsState Inventory.

Definition ErrUnavailable : error := Sentinel "ErrUnavailable" "GTBS control unavailable".
Definition ErrStale : error := Sentinel "ErrStale" "stale GTBS call command".
Definition ErrInvalid : error := Sentinel "ErrInvalid" "invalid GTBS call command".
Definition errLEDisconnected : error := Sentinel "errLEDisconnected" "LE bearer disconnected".
Definition leBearerIface : bytes := str "org.bluez.Bearer.LE1".

(** ** State, inputs and outputs *)

(** Which of the callbacks are set. *)
Record Callbacks := mkCallbacks { onSnapshot : bool; onReady : bool; onResult : bool }.

Record Client := mkClient {
  adapter : bytes;
  device : bytes;
  path : bytes;
  store : Store;
  cbs : Callbacks;
  conn : option Z;
  inventory : Inventory;
  ready : bool;
  pending : gmap (Z * Z) Z;
  pendingOriginate : bool
}.

Inductive event :=
  | EvSnapshot (s : Snapshot)
  | EvReady (b : bool)
  | EvResult (opcode index result token : Z)
  | EvStartNotify (p : bytes)
  | EvStopNotify (p : bytes)
  | EvWrite (p value : bytes).

Definition with_store (c : Client) (s : Store) : Client :=
  {| adapter := adapter c; device := device c; path := path c; store := s; cbs := cbs c;
     conn := conn c; inventory := inventory c; ready := ready c; pending := pending c;
     pendingOriginate := pendingOriginate c |}.
Definition with_path (c : Client) (p : bytes) : Client :=
  {| adapter := adapter c; device := device c; path := p; store := store c; cbs := cbs c;
     conn := conn c; inventory := inventory c; ready := ready c; pending := pending c;
     pendingOriginate := pendingOriginate c |}.
Definition with_pending (c : Client) (p : gmap (Z * Z) Z) (o : bool) : Client :=
  {| adapter := adapter c; device := device c; path := path c; store := store c; cbs := cbs c;
     conn := conn c; inventory := inventory c; ready := ready c; pending := p;
     pendingOriginate := o |}.
Definition with_session (c : Client) (cn : option Z) (inv : Inventory) : Client :=
  {| adapter := adapter c; device := device c; path := path c; store := store c; cbs := cbs c;
     conn := cn; inventory := inv; ready := ready c; pending := ∅; pendingOriginate := false |}.
Definition with_ready (c : Client) (r : bool) : Client :=
  {| adapter := adapter c; device := device c; path := path c; store := store c; cbs := cbs c;
     conn := conn c; inventory := inventory c; ready := r; pending := pending c;
     pendingOriginate := pendingOriginate c |}.

(** A D-Bus method call: it fails, its reply does not decode, or it replies. *)
Inductive reply (A : Type) := CallErr (e : error) | StoreErr (e : error) | Reply (a : A).
Arguments CallErr {_} _.
Arguments StoreErr {_} _.
Arguments Reply {_} _.

Inductive body := BString (s : bytes) | BProps (p : properties) | BOther.
Record Signal := mkSignal { sigPath : bytes; sigName : bytes; sigBody : list body }.

(** What the system bus and BlueZ answer during one session; [enum n] is the
    enumeration the runtime picks for the [n]-th [range] over an object tree. *)
Record Bus := mkBus {
  bus_connect : option error;
  bus_objects1 : reply ManagedObjects;
  bus_objects2 : reply ManagedObjects;
  bus_enum : nat -> ManagedObjects -> list (bytes * interfaces);
  bus_add_match : option error;
  bus_bearer : bytes -> reply variant;
  bus_start_notify : bytes -> option error;
  bus_read_value : bytes -> reply bytes
}.

Inductive loop_input :=
  | CtxDone
  | BusGone
  | SignalClosed
  | Notify (s : Signal)
  | CommandBegin (m : Message)
  | CommandEnd (m : Message) (err : option error)
  | Claim (index token : Z).

(** ** Reading from BlueZ *)
Definition ReadManagedObjects (r : reply ManagedObjects) : result ManagedObjects :=
  match r with
  | CallErr e => Error (Wrap "read BlueZ managed objects" e)
  | StoreErr e => Error (Wrap "decode BlueZ managed objects" e)
  | Reply o => Ok o
  end.

Definition readValue (r : reply bytes) : result bytes :=
  match r with CallErr e => Error e | StoreErr e => Error e | Reply v => Ok v end.

Definition readLEBearerConnected (r : reply variant) : result bool :=
  match r with
  | CallErr e => Error e
  | StoreErr e => Error e
  | Reply (VBool b) => Ok b
  | Reply _ => fail! "LE bearer Connected property is not boolean"
  end.

Definition notificationPaths (inv : Inventory) : list bytes :=
  omap (fun uuid => match invCharacteristics inv !! uuid with
                    | Some ch => if contains (chFlags ch) (str "notify") then Some (chPath ch) else None
                    | None => None
                    end)
       [UUIDCallState; UUIDControlPoint; UUIDIncomingCall].

(** ** Callbacks *)
Definition setReady (c : Client) (r : bool) : Client * list event :=
  (with_ready c r, if negb (Bool.eqb (ready c) r) && onReady (cbs c) then [EvReady r] else []).

Definition emitSnapshot (c : Client) (s : Snapshot) : list event :=
  if onSnapshot (cbs c) then [EvSnapshot s] else [].

Definition emitResult (c : Client) (opcode index res token : Z) : list event :=
  if onResult (cbs c) then [EvResult opcode index res token] else [].

(** ** Notifications *)
Definition outcome : Type := option error * Client * list event.

Definition handleControlResult (c : Client) (value : bytes) : outcome :=
  let v0 := at_ value 0 in let v1 := at_ value 1 in let v2 := at_ value 2 in
  if negb (len value =? 3) || (OpcodeJoin <? v0) ||
     (negb (v0 =? OpcodeOriginate) && (v1 =? 0)) || negb (ValidResult v2)
  then (Some (New "invalid GTBS Call Control Point result"), c, [])
  else if v0 =? OpcodeOriginate then
    let wasPending := pendingOriginate c in
    let c := with_pending c (pending c) false in
    if negb wasPending then (Some (New "unexpected GTBS originate result"), c, [])
    else let '(token, _) := TokenForIndex (store c) v1 in
         (None, c, emitResult c v0 v1 v2 token)
  else
    let token := default 0 (pending c !! (v0, v1)) in
    let c := with_pending c (delete (v0, v1) (pending c)) (pendingOriginate c) in
    if token =? 0 then (Some (New "unexpected GTBS indexed result"), c, [])
    else (None, c, emitResult c v0 v1 v2 token).

Definition handleBearer (c : Client) (b : option body) : outcome :=
  match b with
  | Some (BProps changed) =>
      match changed !! str "Connected" with
      | None => (None, c, [])
      | Some (VBool true) => (None, c, [])
      | Some (VBool false) => (Some errLEDisconnected, c, [])
      | Some _ => (Some (New "invalid LE bearer Connected property"), c, [])
      end
  | _ => (Some (New "invalid LE bearer PropertiesChanged body"), c, [])
  end.

Definition handleValue (c : Client) (inv : Inventory) (sp value : bytes) : outcome :=
  if sp =s? chPath (char_at inv UUIDCallState) then
    match Apply (store c) value with
    | Error e => (Some e, c, [])
    | Ok (snapshot, s') => let c := with_store c s' in (None, c, emitSnapshot c snapshot)
    end
  else if sp =s? chPath (char_at inv UUIDControlPoint) then handleControlResult c value
  else if sp =s? chPath (char_at inv UUIDIncomingCall) then
    let '(r, s') := ApplyIncomingCall (store c) value in
    let c := with_store c s' in
    match r with
    | Error _ => (None, c, [])
    | Ok _ => (None, c, emitSnapshot c (SnapshotOf (store c)))
    end
  else (None, c, []).

Definition handleSignal (c : Client) (sg : Signal) (inv : Inventory) : outcome :=
  if negb (sigName sg =s? PropertiesIface ++ str ".PropertiesChanged") || (len (sigBody sg) <? 2)
  then (None, c, [])
  else match sigBody sg !! 0%nat with
       | Some (BString iface) =>
           if (iface =s? leBearerIface) && (sigPath sg =s? invDevicePath inv)
           then handleBearer c (sigBody sg !! 1%nat)
           else if negb (iface =s? GattCharacteristicIF) then (None, c, [])
           else match sigBody sg !! 1%nat with
                | Some (BProps changed) =>
                    match changed !! str "Value" with
                    | None => (None, c, [])
                    | Some (VBytes value) => handleValue c inv (sigPath sg) value
                    | Some _ => (Some (New "invalid GTBS characteristic value"), c, [])
                    end
                | _ => (Some (New "invalid GTBS PropertiesChanged body"), c, [])
                end
       | _ => (Some (New "invalid BlueZ PropertiesChanged interface"), c, [])
       end.

(** ** Commands *)

(** Before the write: refused, or the characteristic and the bytes to write. *)
Inductive started := Refused (e : error) | Writing (p value : bytes).

Definition command_begin (c : Client) (m : Message) : started * Client :=
  if negb (mType m =? TypeCommand) || negb (NormalizeDevice (mDevice m) =s? device c)
  then (Refused ErrInvalid, c)
  else if (mCode m =? OpcodeOriginate) && negb (ValidURI (mPayload m)) then (Refused ErrInvalid, c)
  else if negb (mCode m =? OpcodeOriginate) &&
          negb (ValidateIndexedCommand (store c) (mIndex m) (mToken m) (mCode m))
  then (Refused ErrStale, c)
  else match conn c, ready c, invCharacteristics (inventory c) !! UUIDControlPoint with
       | Some _, true, Some control =>
           if mCode m =? OpcodeOriginate then
             if pendingOriginate c then (Refused ErrStale, c)
             else (Writing (chPath control) (mCode m :: mPayload m), with_pending c (pending c) true)
           else (Writing (chPath control) [mCode m; mIndex m],
                 with_pending c (<[(mCode m, mIndex m) := mToken m]> (pending c)) (pendingOriginate c))
       | _, _, _ => (Refused ErrUnavailable, c)
       end.

Definition command_end (c : Client) (m : Message) (err : option error) : result unit * Client :=
  match err with
  | None => (Ok tt, c)
  | Some e =>
      let c :=
        if mCode m =? OpcodeOriginate then with_pending c (pending c) false
        else if default 0 (pending c !! (mCode m, mIndex m)) =? mToken m
        then with_pending c (delete (mCode m, mIndex m) (pending c)) (pendingOriginate c)
        else c in
      (Error (Wrap "write GTBS Call Control Point" e), c)
  end.

Definition classifyCommandError (r : result unit) : Z :=
  match r with
  | Ok _ => AckAccepted
  | Error e =>
      if errors_is e ErrStale then AckStale
      else if errors_is e ErrUnavailable then AckUnavailable
      else if errors_is e ErrInvalid then AckInvalid
      else AckWriteFailed
  end.
Definition ClassifyCommandError := classifyCommandError.

Definition RedactedError (err : option error) : bytes :=
  match err with
  | None => []
  | Some e => let t := str (error_text e) in
              if Contains t (str "tel:") then str "GTBS command failed with redacted URI" else t
  end.

(** ** One session *)

(** One turn of the [select] loop: the session goes on, or it ends. *)
Inductive turn := Continue (c : Client) | Return (err : option error) (c : Client).

Definition loop_turn (c : Client) (inv : Inventory) (i : loop_input) : turn * list event :=
  match i with
  | CtxDone => (Return None c, [])
  | BusGone => (Return (Some (New "BlueZ system bus disconnected")) c, [])
  | SignalClosed => (Return (Some (New "BlueZ GTBS signal channel closed")) c, [])
  | Notify sg =>
      let '(err, c, ev) := handleSignal c sg inv in
      match err with
      | Some e => if errors_is e errLEDisconnected then (Return err c, ev) else (Continue c, ev)
      | None => (Continue c, ev)
      end
  | CommandBegin m =>
      let '(st, c) := command_begin c m in
      (Continue c, match st with Writing p v => [EvWrite p v] | Refused _ => [] end)
  | CommandEnd m err => (Continue (command_end c m err).2, [])
  | Claim index token => (Continue (with_store c (ClaimCall (store c) index token)), [])
  end.

(** The loop over the inputs of a session: [None] while it has not ended. *)
Fixpoint session_loop (c : Client) (inv : Inventory) (inputs : list loop_input)
  : option (option error) * Client * list event :=
  match inputs with
  | [] => (None, c, [])
  | i :: inputs =>
      match loop_turn c inv i with
      | (Return err c, ev) => (Some err, c, ev)
      | (Continue c, ev) =>
          let '(r, c, ev') := session_loop c inv inputs in (r, c, ev ++ ev')
      end
  end.

(** [StartNotify] on each path in turn: the paths started, and the error. *)
Fixpoint start_notify (b : Bus) (paths : list bytes) : list bytes * option error :=
  match paths with
  | [] => ([], None)
  | p :: paths =>
      match bus_start_notify b p with
      | Some e => ([], Some (Wrap "start GTBS notification" e))
      | None => let '(l, e) := start_notify b paths in (p :: l, e)
      end
  end.

(** The one-off read of the Incoming Call characteristic. *)
Definition read_identity (b : Bus) (inv : Inventory) (s : Store) : Store :=
  match invCharacteristics inv !! UUIDIncomingCall with
  | Some ch =>
      if contains (chFlags ch) (str "read") then
        match readValue (bus_read_value b (chPath ch)) with
        | Ok value => if len value =? 0 then s else (ApplyIncomingCall s value).2
        | Error _ => s
        end
      else s
  | None => s
  end.

(** The deferred clean-up of an established session. *)
Definition session_cleanup (c : Client) (cn : Z) (started : list bytes) : Client * list event :=
  (if bool_decide (conn c = Some cn) then with_session c None no_inventory else c,
   EvStopNotify <$> started).

(** How a session ended. *)
Inductive session_end :=
  | Ended (established : bool) (err : option error)
  | Running.

Section Session.
Context (path_IsValid : bytes -> bool).

Definition discover_session (b : Bus) (c : Client) : result Inventory * Client :=
  match bus_connect b with
  | Some e => (Error (Wrap "connect system bus" e), c)
  | None =>
      match ReadManagedObjects (bus_objects1 b) with
      | Error e => (Error e, c)
      | Ok objects =>
          match ResolveDevicePath path_IsValid (bus_enum b 0 objects) (adapter c) (device c) with
          | Error e => (Error e, c)
          | Ok p =>
              let c := with_path c p in
              match bus_add_match b with
              | Some e => (Error (Wrap "subscribe GTBS properties" e), c)
              | None =>
                  match readLEBearerConnected (bus_bearer b p) with
                  | Error e => (Error (Wrap "read LE bearer state" e), c)
                  | Ok false => (Error errLEDisconnected, c)
                  | Ok true =>
                      match ReadManagedObjects (bus_objects2 b) with
                      | Error e => (Error e, c)
                      | Ok objects =>
                          match Discover objects (bus_enum b 1 objects) (bus_enum b 2 objects) p with
                          | Error e => (Error e, c)
                          | Ok inv => (Ok inv, c)
                          end
                      end
                  end
              end
          end
      end
  end.

(** [runOnce] on connection number [cn]. *)
Definition runOnce (cn : Z) (b : Bus) (inputs : list loop_input) (c : Client)
  : session_end * Client * list event :=
  match discover_session b c with
  | (Error e, c) => (Ended false (Some e), c, [])
  | (Ok inv, c) =>
      let '(started, err) := start_notify b (notificationPaths inv) in
      let ev0 := EvStartNotify <$> started in
      match err with
      | Some e => (Ended false (Some e), c, ev0)
      | None =>
          let stop := EvStopNotify <$> started in
          match readValue (bus_read_value b (chPath (char_at inv UUIDCallState))) with
          | Error e => (Ended false (Some (Wrap "read GTBS Call State" e)), c, ev0 ++ stop)
          | Ok value =>
              match Apply (store c) value with
              | Error e => (Ended false (Some e), c, ev0 ++ stop)
              | Ok (_, s') =>
                  let c := with_store c (read_identity b inv s') in
                  let snapshot := SnapshotOf (store c) in
                  let c := with_session c (Some cn) inv in
                  let ev1 := emitSnapshot c snapshot in
                  let '(c, ev2) := setReady c true in
                  let '(r, c, ev3) := session_loop c inv inputs in
                  match r with
                  | None => (Running, c, ev0 ++ ev1 ++ ev2 ++ ev3)
                  | Some err =>
                      let '(c, ev4) := session_cleanup c cn started in
                      (Ended true err, c, ev0 ++ ev1 ++ ev2 ++ ev3 ++ ev4)
                  end
              end
          end
      end
  end.

(** ** The reconnecting loop *)

(** One attempt: the connection, the answers, the inputs, and whether the context
    was cancelled when it ended or while waiting to retry. *)
Record attempt := mkAttempt {
  at_conn : Z; at_bus : Bus; at_inputs : list loop_input; at_cancel_end : bool; at_cancel_wait : bool
}.

Definition second : Z := 1000000000.

(** [Run] over the attempts it gets to make: the client, the backoff it would wait
    next, and the trace. *)
Fixpoint Run_loop (attempts : list attempt) (c : Client) (backoff : Z) : Client * Z * list event :=
  match attempts with
  | [] => (c, backoff, [])
  | a :: attempts =>
      let '(r, c, ev) := runOnce (at_conn a) (at_bus a) (at_inputs a) c in
      match r with
      | Running => (c, backoff, ev)
      | Ended established _ =>
          let '(c, ev') := setReady c false in
          if at_cancel_end a then (c, backoff, ev ++ ev')
          else
            let backoff := if established then second else backoff in
            if at_cancel_wait a then (c, backoff, ev ++ ev')
            else
              let next := if backoff <? 30 * second then backoff * 2 else backoff in
              let '(c, k, ev'') := Run_loop attempts c next in (c, k, ev ++ ev' ++ ev'')
      end
  end.
Definition Run (attempts : list attempt) (c : Client) : Client * Z * list event :=
  Run_loop attempts c second.

Definition NewClient (adapter device : bytes) (s : Store) (callbacks : Callbacks) : result Client :=
  match DevicePath path_IsValid adapter device with
  | Error _ => fail! "invalid GTBS client configuration"
  | Ok p =>
      if NormalizeDevice device =s? [] then fail! "invalid GTBS client configuration"
      else Ok {| adapter := adapter; device := NormalizeDevice device; path := p; store := s;
                 cbs := callbacks; conn := None; inventory := no_inventory; ready := false;
                 pending := ∅; pendingOriginate := false |}
  end.

(** ** The one-shot probe *)
Record ProbeReport := mkProbeReport {
  prDevicePath : bytes;
  prServicePath : bytes;
  prCharacteristics : list Characteristic;
  prCalls : list (Z * Z * Z);
  prOptionalOpcodes : bytes
}.

Definition char_le (a b : Characteristic) : Prop := str_le (chUUID a) (chUUID b).
#[export] Instance char_le_dec : RelDecision char_le.
Proof. unfold char_le. intros ??. apply _. Defined.

Definition Probe (b : Bus) (adapter device : bytes) : result ProbeReport :=
  match bus_connect b with
  | Some e => Error (Wrap "connect system bus" e)
  | None =>
      let! objects := ReadManagedObjects (bus_objects1 b) in
      let! p := ResolveDevicePath path_IsValid (bus_enum b 0 objects) adapter device in
      let! inv := Discover objects (bus_enum b 1 objects) (bus_enum b 2 objects) p in
      match readValue (bus_read_value b (chPath (char_at inv UUIDCallState))) with
      | Error e => Error (Wrap "read GTBS Call State" e)
      | Ok callValue =>
          let! calls := ParseCallState callValue in
          Ok {| prDevicePath := p;
                prServicePath := invServicePath inv;
                prCharacteristics := merge_sort char_le (map_to_list (invCharacteristics inv)).*2;
                prCalls := (fun c => (cIndex c, cState c, cFlags c)) <$> calls;
                prOptionalOpcodes :=
                  match invCharacteristics inv !! UUIDOptionalOpcodes with
                  | Some ch => match readValue (bus_read_value b (chPath ch)) with
                               | Ok v => v
                               | Error _ => []
                               end
                  | None => []
                  end |}
      end
  end.

End Session.

(** ** What a session leaves alone *)

(** The parts of the client only [runOnce] itself and [setReady] change. *)
Record same_session (c c' : Client) : Prop := {
  ss_adapter : adapter c' = adapter c;
  ss_device : device c' = device c;
  ss_cbs : cbs c' = cbs c;
  ss_conn : conn c' = conn c;
  ss_inventory : inventory c' = inventory c;
  ss_ready : ready c' = ready c
}.

#[export] Instance same_session_refl : Reflexive same_session.
Proof. by split. Qed.
#[export] Instance same_session_trans : Transitive same_session.
Proof. intros a b c [] []. split; congruence. Qed.

Lemma with_store_same c s : same_session c (with_store c s).
Proof. by split. Qed.
Lemma with_pending_same c p o : same_session c (with_pending c p o).
Proof. by split. Qed.
#[export] Hint Resolve with_store_same with_pending_same : go.
#[export] Hint Extern 0 (same_session ?c ?c) => reflexivity : go.

Lemma handleControlResult_same c v : same_session c (handleControlResult c v).1.2.
Proof. unfold handleControlResult. cbv zeta. repeat split_match; simpl; auto with go. Qed.

Lemma handleSignal_same c sg inv : same_session c (handleSignal c sg inv).1.2.
Proof.
  unfold handleSignal, handleBearer, handleValue. pose proof (handleControlResult_same c) as Hc.
  repeat split_match; simpl; auto with go.
Qed.

Lemma command_begin_same c m : same_session c (command_begin c m).2.
Proof. unfold command_begin. repeat split_match; simpl; auto with go. Qed.

Lemma command_end_same c m e : same_session c (command_end c m e).2.
Proof. unfold command_end. repeat split_match; simpl; auto with go. Qed.

Definition turn_client (t : turn) : Client :=
  match t with Continue c => c | Return _ c => c end.

Lemma loop_turn_same c inv i : same_session c (turn_client (loop_turn c inv i).1).
Proof.
  pose proof (handleSignal_same c) as Hs. pose proof (command_begin_same c) as Hb.
  pose proof (command_end_same c) as He.
  destruct i as [| | |sg|m|m err|i t]; simpl; auto with go.
  - specialize (Hs sg inv). destruct (handleSignal c sg inv) as [[[e|] c'] ev]; simpl in *; [|done].
    destruct (errors_is e errLEDisconnected); done.
  - specialize (Hb m). destruct (command_begin c m) as [st c']. done.
Qed.

Lemma session_loop_same c inv inputs : same_session c (session_loop c inv inputs).1.2.
Proof.
  revert c. induction inputs as [|i inputs IH]; intros c; simpl; [done|].
  pose proof (loop_turn_same c inv i) as Ht.
  destruct (loop_turn c inv i) as [[c'|e c'] ev]; simpl in *; [|done].
  specialize (IH c'). destruct (session_loop c' inv inputs) as [[r c''] ev']; simpl in *.
  by transitivity c'.
Qed.

(** ** Readiness and clean-up *)

Definition ready_of (e : event) : option bool := match e with EvReady b => Some b | _ => None end.
Definition ready_events (ev : list event) : list bool := omap ready_of ev.

Lemma ready_events_app a b : ready_events (a ++ b) = ready_events a ++ ready_events b.
Proof. apply omap_app. Qed.

(** Events that say nothing about readiness. *)
Definition not_ready_event (e : event) : Prop := ready_of e = None.
Lemma no_ready_events ev : Forall not_ready_event ev -> ready_events ev = [].
Proof. induction 1 as [|e ev He _ IH]; [done|]. unfold ready_events. csimpl. by rewrite He. Qed.

Lemma emitSnapshot_quiet c s : Forall not_ready_event (emitSnapshot c s).
Proof. unfold emitSnapshot. destruct (onSnapshot _); repeat constructor. Qed.
Lemma emitResult_quiet c a b r t : Forall not_ready_event (emitResult c a b r t).
Proof. unfold emitResult. destruct (onResult _); repeat constructor. Qed.
#[export] Hint Resolve emitSnapshot_quiet emitResult_quiet : go.
#[export] Hint Constructors Forall : go.

Lemma handleControlResult_quiet c v : Forall not_ready_event (handleControlResult c v).2.
Proof. unfold handleControlResult. cbv zeta. repeat split_match; simpl; auto with go. Qed.

Lemma handleSignal_quiet c sg inv : Forall not_ready_event (handleSignal c sg inv).2.
Proof.
  unfold handleSignal, handleBearer, handleValue. pose proof (handleControlResult_quiet c).
  repeat split_match; simpl; auto with go.
Qed.

Lemma loop_turn_quiet c inv i : Forall not_ready_event (loop_turn c inv i).2.
Proof.
  destruct i as [| | |sg|m|m err|i t]; simpl; auto with go.
  - pose proof (handleSignal_quiet c sg inv) as H.
    destruct (handleSignal c sg inv) as [[[e|] c'] ev]; simpl in *; [|done].
    destruct (errors_is e errLEDisconnected); done.
  - destruct (command_begin c m) as [[e|p v] c']; simpl; repeat constructor.
Qed.

Lemma session_loop_quiet c inv inputs : Forall not_ready_event (session_loop c inv inputs).2.
Proof.
  revert c. induction inputs as [|i inputs IH]; intros c; simpl; [constructor|].
  pose proof (loop_turn_quiet c inv i) as Ht.
  destruct (loop_turn c inv i) as [[c'|e c'] ev]; simpl in *; [|done].
  specialize (IH c'). destruct (session_loop c' inv inputs) as [[r c''] ev']; simpl in *.
  by apply Forall_app.
Qed.

(** Nothing of a session is left. *)
Record closed (c : Client) : Prop := {
  cl_conn : conn c = None;
  cl_ready : ready c = false;
  cl_inventory : inventory c = no_inventory;
  cl_pending : pending c = ∅;
  cl_originate : pendingOriginate c = false
}.

Section Life.
Context (path_IsValid : bytes -> bool).

Lemma discover_session_path b c :
  exists p, (discover_session path_IsValid b c).2 = with_path c p.
Proof.
  unfold discover_session. repeat split_match; simpl; try (by eexists);
    exists (path c); by destruct c.
Qed.

(** One attempt, as [Run] makes it: the readiness it announces, and what it leaves. *)
Definition attempt_ok (cn : Z) (c : Client) (r : session_end) (c' : Client) (ev : list event) : Prop :=
  cbs c' = cbs c /\
  match r with
  | Ended established _ =>
      closed (setReady c' false).1 /\
      ready_events (ev ++ (setReady c' false).2) =
        (if established && onReady (cbs c) then [true; false] else [])
  | Running => ready c' = true /\ conn c' = Some cn /\
      ready_events ev = (if onReady (cbs c) then [true] else [])
  end.
Lemma starts_quiet l : ready_events (EvStartNotify <$> l) = [].
Proof. apply no_ready_events, Forall_fmap, Forall_true. done. Qed.
Lemma stops_quiet l : ready_events (EvStopNotify <$> l) = [].
Proof. apply no_ready_events, Forall_fmap, Forall_true. done. Qed.
Lemma attempt_failed cn c p err ev : closed c -> ready_events ev = [] -> attempt_ok cn c (Ended false err) (with_path c p) ev.
Proof.
  intros Hc E0. assert (closed (with_path c p)) as [] by (destruct Hc; by split). unfold attempt_ok, setReady. simpl. simpl in cl_ready0. rewrite cl_ready0.
  split_and!; [done|by split|by rewrite app_nil_r].
Qed.
(** The part of an attempt that has a session. *)
Lemma attempt_served cn c c1 inv inputs started sn r c' ev :
  cbs c1 = cbs c -> ready c1 = false -> conn c1 = Some cn ->
  (let '(c2, ev2) := setReady c1 true in
   let '(r, c3, ev3) := session_loop c2 inv inputs in
   match r with
   | None => (Running, c3, (EvStartNotify <$> started) ++ emitSnapshot c1 sn ++ ev2 ++ ev3)
   | Some err => let '(c4, ev4) := session_cleanup c3 cn started in
       (Ended true err, c4, (EvStartNotify <$> started) ++ emitSnapshot c1 sn ++ ev2 ++ ev3 ++ ev4)
   end) = (r, c', ev) ->
  attempt_ok cn c r c' ev.
Proof.
  intros Hb1 Hr1 Hn1 H.
  assert (setReady c1 true = (with_ready c1 true, if onReady (cbs c) then [EvReady true] else [])) as E2
    by (unfold setReady; by rewrite Hr1, Hb1).
  rewrite E2 in H.
  pose proof (session_loop_same (with_ready c1 true) inv inputs) as Hs.
  pose proof (session_loop_quiet (with_ready c1 true) inv inputs) as Hq.
  destruct (session_loop (with_ready c1 true) inv inputs) as [[rl c3] ev3]. simpl in Hs, Hq.
  apply no_ready_events in Hq. destruct Hs as [_ _ Hs3 Hs4 _ Hs6]. simpl in Hs3, Hs4, Hs6. unfold attempt_ok.
  destruct rl as [err|].
  - unfold session_cleanup in H. rewrite bool_decide_eq_true_2 in H by congruence. injection H as <- <- <-.
    simpl. rewrite Hs3, Hb1. split_and!; auto; [by split|].
    rewrite Hs6. rewrite <- !app_assoc, !ready_events_app, starts_quiet, stops_quiet, Hq.
    rewrite (no_ready_events (emitSnapshot _ _)) by auto with go. simpl.
    by destruct (onReady (cbs c)).
  - injection H as <- <- <-. rewrite Hs3, Hb1. split_and!; auto; [congruence|].
    rewrite !ready_events_app, starts_quiet, Hq.
    rewrite (no_ready_events (emitSnapshot _ _)) by auto with go. simpl.
    by destruct (onReady (cbs c)).
Qed.
Lemma runOnce_spec cn b inputs c r c' ev :
  closed c -> runOnce path_IsValid cn b inputs c = (r, c', ev) -> attempt_ok cn c r c' ev.
Proof.
  intros Hc H. unfold runOnce in H. destruct (discover_session_path b c) as [p Hp].
  destruct (discover_session path_IsValid b c) as [d c1]. simpl in Hp. subst c1.
  destruct d as [inv|e]; [|injection H as <- <- <-; by apply attempt_failed].
  destruct (start_notify b (notificationPaths inv)) as [started [e|]]; [injection H as <- <- <-; by apply attempt_failed, starts_quiet|].
  assert (ready_events ((EvStartNotify <$> started) ++ (EvStopNotify <$> started)) = []) as Hss
    by (by rewrite ready_events_app, starts_quiet, stops_quiet).
  destruct (readValue _) as [value|e]; [|injection H as <- <- <-; by apply attempt_failed].
  destruct (Apply (store (with_path c p)) value) as [[sn s']|e]; [|injection H as <- <- <-; by apply attempt_failed].
  cbv zeta in H. eapply attempt_served; [| | |exact H]; [done|by destruct Hc|done].
Qed.

Definition backoff_ok (k : Z) : Prop :=
  k ∈ [second; 2 * second; 4 * second; 8 * second; 16 * second; 32 * second].

Lemma backoff_next k :
  backoff_ok k -> backoff_ok (if k <? 30 * second then k * 2 else k).
Proof.
  unfold backoff_ok, second. rewrite !elem_of_cons, elem_of_nil. intros H.
  destruct (Z.ltb_spec k (30 * 1000000000)); lia.
Qed.

(** Over any number of sessions, whatever the bus answers and however
    notifications and commands interleave: readiness is reported strictly
    alternating, true then false; between sessions the client holds no connection,
    no inventory and no pending command, so a later command is refused; and the
    retry delay stays among 1, 2, 4, 8, 16 and 32 seconds. *)
Theorem Run_lifecycle attempts c c' k ev :
  closed c -> onReady (cbs c) = true -> Run path_IsValid attempts c = (c', k, ev) ->
  backoff_ok k /\
  exists n, (closed c' /\ ready_events ev = concat (replicate n [true; false])) \/
            (ready c' = true /\ is_Some (conn c') /\
             ready_events ev = concat (replicate n [true; false]) ++ [true]).
Proof.
  unfold Run. intros Hc Hon. assert (backoff_ok second) as Hk by (apply list_elem_of_here).
  revert Hk. generalize second at 1 2. intros k0. revert k0 c ev Hc Hon.
  induction attempts as [|a attempts IH]; intros k0 c ev Hc Hon Hk H; cbn [Run_loop] in H.
  { injection H as <- <- <-. split; [done|]. exists 0%nat. by left. }
  destruct (runOnce _ _ _ _ c) as [[r c1] ev1] eqn:E.
  destruct (runOnce_spec _ _ _ _ _ _ _ Hc E) as [Hcb Hr]. rewrite Hon in Hr.
  destruct r as [est err|].
  2:{ injection H as <- <- <-. destruct Hr as (? & Hcn & Hev). split; [done|]. exists 0%nat.
      right. rewrite Hcn. eauto. }
  destruct Hr as [Hc2 Hev]. rewrite andb_true_r in Hev.
  assert (cbs (setReady c1 false).1 = cbs c) as Hcb2 by done.
  destruct (setReady c1 false) as [c2 ev2]. simpl in Hc2, Hev, Hcb2.
  assert (exists m, ready_events (ev1 ++ ev2) = concat (replicate m [true; false])) as [m Hm].
  { rewrite Hev. destruct est; [by exists 1%nat|by exists 0%nat]. }
  assert (backoff_ok (if est then second else k0)) as Hk'.
  { destruct est; [apply list_elem_of_here|done]. }
  destruct (at_cancel_end a); [injection H as <- <- <-; split; [done|]; exists m; left; auto|].
  destruct (at_cancel_wait a); [injection H as <- <- <-; split; [done|]; exists m; left; auto|].
  destruct (Run_loop _ _ _ _) as [[c3 k3] ev3] eqn:E3. injection H as <- <- <-.
  destruct (IH _ c2 ev3 Hc2 ltac:(congruence) (backoff_next _ Hk') E3) as [Hk3 [n Hn]].
  split; [done|]. exists (m + n)%nat. rewrite replicate_add, concat_app.
  rewrite app_assoc, ready_events_app, Hm.
  destruct Hn as [(? & ->)|(? & ? & ->)]; [by left|right]. by rewrite app_assoc.
Qed.

End Life.

(** A phone with one GTBS service, for the witnesses. *)
Definition demo_address : bytes := str "AA:BB:CC:DD:EE:FF".
Definition demo_tree : ManagedObjects :=
  <[demo_device := {[ DeviceIface := {[ str "Address" := VString demo_address;
      str "Adapter" := VPath (str "/org/bluez/hci0") ]} ]}]> demo_objects.
Definition demo_bus : Bus := {|
  bus_connect := None; bus_objects1 := Reply demo_tree; bus_objects2 := Reply demo_tree;
  bus_enum := fun _ o => map_to_list o; bus_add_match := None;
  bus_bearer := fun _ => Reply (VBool true); bus_start_notify := fun _ => None;
  bus_read_value := fun _ => Reply [2; 0; 0] |}.
Definition demo_client : Client := {|
  adapter := str "hci0"; device := demo_address; path := demo_device; store := NewStore 5;
  cbs := mkCallbacks true true true; conn := None; inventory := no_inventory; ready := false;
  pending := ∅; pendingOriginate := false |}.
Definition demo_accept : Message := mkMessage TypeCommand 0 9 6 demo_address 2 OpcodeAccept 0 [].
Definition demo_result : Signal :=
  mkSignal (str "/d/s/b") (PropertiesIface ++ str ".PropertiesChanged")
    [BString GattCharacteristicIF; BProps {[ str "Value" := VBytes [OpcodeAccept; 2; 0] ]}].
Definition demo_inputs : list loop_input :=
  [CommandBegin demo_accept; Notify demo_result; CommandEnd demo_accept None; Notify demo_result].
Definition demo_attempts : list attempt :=
  [mkAttempt 1 demo_bus (demo_inputs ++ [BusGone]) false false; mkAttempt 2 demo_bus demo_inputs false false].

Lemma Run_lifecycle_witness :
  let r := Run (fun _ => true) demo_attempts demo_client in
  backoff_ok r.1.2 /\ ready r.1.1 = true /\ ready_events r.2 = [true; false; true].
Proof.
  set (r := Run (fun _ => true) demo_attempts demo_client).
  destruct (Run_lifecycle (fun _ => true) demo_attempts demo_client r.1.1 r.1.2 r.2) as [Hk _].
  - split; reflexivity.
  - reflexivity.
  - subst r. by destruct (Run _ _ _) as [[? ?] ?].
  - split; [exact Hk|]. split; vm_compute; reflexivity.
Defined.

(** ** Results answer commands *)

(** Writes of one indexed command to the Control Point, and results reported for it. *)
Definition writes_of (op idx : Z) (e : event) : bool :=
  match e with EvWrite _ v => bool_decide (v = [op; idx]) | _ => false end.
Definition results_of (op idx : Z) (e : event) : bool :=
  match e with EvResult o i _ _ => (o =? op) && (i =? idx) | _ => false end.
Definition originate_write (e : event) : bool :=
  match e with EvWrite _ (o :: u) => (o =? OpcodeOriginate) && ValidURI u | _ => false end.
Definition originate_result (e : event) : bool :=
  match e with EvResult o _ _ _ => o =? OpcodeOriginate | _ => false end.

Definition count (f : event -> bool) (ev : list event) : Z := len (List.filter f ev).

Lemma count_app f a b : count f (a ++ b) = count f a + count f b.
Proof. unfold count. by rewrite List.filter_app, len_app. Qed.

Lemma count_emitSnapshot f c s : (forall x, f (EvSnapshot x) = false) -> count f (emitSnapshot c s) = 0.
Proof. intros H. unfold emitSnapshot, count. destruct (onSnapshot _); simpl; by rewrite ?H. Qed.

Definition owed (b : bool) : Z := if b then 1 else 0.

Lemma count_nil f : count f [] = 0.
Proof. done. Qed.
Lemma count_one f e : count f [e] = owed (f e).
Proof. unfold count. simpl. by destruct (f e). Qed.

(** What one turn of the loop may report: a result uses up a pending command, and
    only a write makes a command pending. *)
Definition balanced (op idx : Z) (c c' : Client) (ev : list event) : Prop :=
  count (results_of op idx) ev + owed (bool_decide (is_Some (pending c' !! (op, idx)))) <=
    count (writes_of op idx) ev + owed (bool_decide (is_Some (pending c !! (op, idx)))) /\
  count originate_result ev + owed (pendingOriginate c') <=
    count originate_write ev + owed (pendingOriginate c).

Lemma balanced_same op idx c c' :
  pending c' = pending c -> pendingOriginate c' = pendingOriginate c -> balanced op idx c c' [].
Proof. unfold balanced. intros -> ->. unfold count. simpl. lia. Qed.

Lemma balanced_trans op idx c c1 c2 ev ev' :
  balanced op idx c c1 ev -> balanced op idx c1 c2 ev' -> balanced op idx c c2 (ev ++ ev').
Proof. unfold balanced. rewrite !count_app. lia. Qed.

Lemma owed_bound b : 0 <= owed b <= 1.
Proof. destruct b; simpl; lia. Qed.

Lemma owed_delete (op idx : Z) (k : Z * Z) (p : gmap (Z * Z) Z) :
  owed (bool_decide (is_Some (delete k p !! (op, idx)))) <= owed (bool_decide (is_Some (p !! (op, idx)))).
Proof.
  rewrite lookup_delete. case_decide; [|done]. rewrite bool_decide_eq_false_2.
  - apply owed_bound.
  - by intros [? ?].
Qed.

Lemma balanced_result op idx c v :
  op <> OpcodeOriginate ->
  balanced op idx c (handleControlResult c v).1.2 (handleControlResult c v).2.
Proof.
  intros Hop. unfold handleControlResult. cbv zeta. split_match; [by apply balanced_same|].
  set (v0 := at_ v 0). set (v1 := at_ v 1). set (v2 := at_ v 2). clearbody v0 v1 v2. unfold balanced.
  destruct (Z.eqb_spec v0 OpcodeOriginate) as [E0|E0].
  - destruct (pendingOriginate c) eqn:Ep; cbn [negb fst snd with_pending pending pendingOriginate];
      [|rewrite !count_nil; simpl; lia].
    destruct (TokenForIndex (store _) v1) as [tok ?].
    cbn [fst snd pending with_pending pendingOriginate]. unfold emitResult. cbn [cbs with_pending].
    destruct (onResult (cbs c)); rewrite ?count_nil, ?count_one; [|simpl; lia].
    cbn [results_of writes_of originate_result originate_write].
    rewrite E0, (proj2 (Z.eqb_neq OpcodeOriginate op)) by congruence. simpl. lia.
  - pose proof (owed_delete op idx (v0, v1) (pending c)) as Hd.
    destruct (Z.eqb_spec (default 0 (pending c !! (v0, v1))) 0) as [E|E];
      cbn [fst snd pending with_pending pendingOriginate]; [rewrite !count_nil; lia|].
    unfold emitResult. cbn [cbs with_pending].
    destruct (onResult (cbs c)); rewrite ?count_nil, ?count_one; [|lia].
    cbn [results_of writes_of originate_result originate_write].
    rewrite (proj2 (Z.eqb_neq v0 OpcodeOriginate)) by done. split; [|simpl; lia].
    destruct (Z.eqb_spec v0 op) as [->|]; cbn [andb owed]; [|lia].
    destruct (Z.eqb_spec v1 idx) as [->|]; cbn [owed]; [|lia].
    rewrite lookup_delete_eq. destruct (pending c !! (op, idx)) as [t|] eqn:Et; [|done].
    rewrite (bool_decide_eq_false_2 (is_Some None)) by (by intros [? ?]).
    rewrite (bool_decide_eq_true_2 (is_Some (Some t))) by eauto. simpl. lia.
Qed.

Lemma balanced_snapshot op idx c c' c0 sn :
  pending c' = pending c -> pendingOriginate c' = pendingOriginate c ->
  balanced op idx c c' (emitSnapshot c0 sn).
Proof.
  unfold balanced. intros -> ->. rewrite !count_emitSnapshot by done. lia.
Qed.
#[export] Hint Resolve balanced_same balanced_snapshot : go.

Lemma balanced_signal op idx c sg inv :
  op <> OpcodeOriginate ->
  balanced op idx c (handleSignal c sg inv).1.2 (handleSignal c sg inv).2.
Proof.
  intros Hop. unfold handleSignal, handleBearer, handleValue.
  pose proof (fun v => balanced_result op idx c v Hop) as Hr.
  repeat split_match; simpl; auto with go.
Qed.

Lemma balanced_begin op idx c m :
  op <> OpcodeOriginate ->
  balanced op idx c (command_begin c m).2
    (match (command_begin c m).1 with Writing p v => [EvWrite p v] | Refused _ => [] end).
Proof.
  intros Hop. unfold command_begin.
  do 3 (match goal with |- context [if ?b then _ else _] => destruct b eqn:? end;
        [by apply balanced_same|]).
  destruct (conn c), (ready c), (invCharacteristics (inventory c) !! UUIDControlPoint);
    try by apply balanced_same.
  destruct (Z.eqb_spec (mCode m) OpcodeOriginate) as [E|E].
  - destruct (pendingOriginate c) eqn:Ep; [by apply balanced_same|]. unfold balanced. rewrite Ep.
    cbn [fst snd pending with_pending pendingOriginate].
    rewrite !count_one. cbn [results_of writes_of originate_result originate_write].
    rewrite (bool_decide_eq_false_2 (mCode m :: mPayload m = [op; idx]))
      by (intros Hx; injection Hx as Hx _; congruence).
    bool_prop. rewrite E, Z.eqb_refl. simpl in *. bool_prop.
    destruct (ValidURI (mPayload m)); [simpl; lia|done].
  - unfold balanced. cbn [fst snd pending with_pending pendingOriginate]. rewrite !count_one.
    cbn [results_of writes_of originate_result originate_write].
    rewrite (proj2 (Z.eqb_neq _ _) E). split; [|simpl; lia]. rewrite lookup_insert.
    case_decide as Ek; cbn [owed].
    + injection Ek as -> ->. rewrite (bool_decide_eq_true_2 ([op; idx] = [op; idx])) by done.
      pose proof (owed_bound (bool_decide (is_Some (Some (mToken m))))).
      pose proof (owed_bound (bool_decide (is_Some (pending c !! (op, idx))))). simpl owed at 2. lia.
    + pose proof (owed_bound (bool_decide ([mCode m; mIndex m] = [op; idx]))). lia.
Qed.

Lemma balanced_end op idx c m e : balanced op idx c (command_end c m e).2 [].
Proof.
  unfold command_end. destruct e; [|by apply balanced_same]. simpl.
  unfold balanced. rewrite !count_nil. repeat split_match; simpl.
  - pose proof (owed_bound (pendingOriginate c)). lia.
  - pose proof (owed_delete op idx (mCode m, mIndex m) (pending c)). lia.
  - lia.
Qed.

Lemma balanced_turn op idx c inv i :
  op <> OpcodeOriginate ->
  balanced op idx c (turn_client (loop_turn c inv i).1) (loop_turn c inv i).2.
Proof.
  intros Hop. destruct i as [| | |sg|m|m err|i t]; simpl; auto with go.
  - pose proof (balanced_signal op idx c sg inv Hop) as H.
    destruct (handleSignal c sg inv) as [[[e|] c'] ev]; simpl in *; [|done].
    destruct (errors_is e errLEDisconnected); done.
  - pose proof (balanced_begin op idx c m Hop) as H. by destruct (command_begin c m).
  - apply balanced_end.
Qed.

Lemma balanced_loop op idx c inv inputs :
  op <> OpcodeOriginate ->
  balanced op idx c (session_loop c inv inputs).1.2 (session_loop c inv inputs).2.
Proof.
  intros Hop. revert c. induction inputs as [|i inputs IH]; intros c; simpl; [by apply balanced_same|].
  pose proof (balanced_turn op idx c inv i Hop) as Ht.
  destruct (loop_turn c inv i) as [[c'|e c'] ev]; simpl in *; [|done].
  specialize (IH c'). destruct (session_loop c' inv inputs) as [[r c''] ev']; simpl in *.
  by apply (balanced_trans _ _ _ c').
Qed.

(** In a session that started with nothing pending, however notifications,
    commands and write completions interleave: for each indexed command, results
    reported never outnumber the writes of exactly that command to the Control
    Point, and originate results never outnumber originate writes with a valid
    URI.  A duplicate, unsolicited or foreign result is never reported. *)
Theorem results_answer_writes c inv inputs op idx :
  pending c = ∅ -> pendingOriginate c = false -> op <> OpcodeOriginate ->
  let ev := (session_loop c inv inputs).2 in
  count (results_of op idx) ev <= count (writes_of op idx) ev /\
  count originate_result ev <= count originate_write ev.
Proof.
  intros Hp Ho Hop. destruct (balanced_loop op idx c inv inputs Hop) as [H1 H2].
  rewrite Hp, lookup_empty in H1. rewrite Ho in H2.
  rewrite (bool_decide_eq_false_2 (is_Some None)) in H1 by (by intros [? ?]).
  pose proof (owed_bound (pendingOriginate (session_loop c inv inputs).1.2)).
  pose proof (owed_bound (bool_decide (is_Some (pending (session_loop c inv inputs).1.2 !! (op, idx))))).
  simpl in *. lia.
Qed.

(** The session of [demo_attempts], established. *)
Definition demo_session : Client :=
  with_ready (with_session (with_store demo_client (run_ops 5 [DoApply [2; 0; 0]])) (Some 1) demo_inventory) true.

Lemma results_answer_writes_witness :
  let ev := (session_loop demo_session demo_inventory demo_inputs).2 in
  count (results_of OpcodeAccept 2) ev = 1 /\ count (writes_of OpcodeAccept 2) ev = 1.
Proof.
  destruct (results_answer_writes demo_session demo_inventory demo_inputs OpcodeAccept 2) as [H _].
  - reflexivity.
  - reflexivity.
  - by vm_compute.
  - split; [|vm_compute; reflexivity]. apply Z.le_antisymm; [etransitivity; [exact H|]|]; by vm_compute.
Defined.

(** ** What a command does *)

(** [Command] writes to the Control Point exactly when the message is a
    command for this device, the session is up, and it is either an originate with
    a valid URI while none is pending or an indexed command whose token is that of
    the live call and whose opcode fits the call's state; the bytes written are
    the opcode followed by the URI or by the index.  Otherwise nothing is written
    and nothing changes, and a failed write leaves the command not pending. *)
Theorem Command_spec c m p v :
  ((command_begin c m).1 = Writing p v <->
   mType m = TypeCommand /\ NormalizeDevice (mDevice m) = device c /\
   is_Some (conn c) /\ ready c = true /\
   (exists control, invCharacteristics (inventory c) !! UUIDControlPoint = Some control /\ p = chPath control) /\
   if mCode m =? OpcodeOriginate
   then ValidURI (mPayload m) = true /\ pendingOriginate c = false /\ v = mCode m :: mPayload m
   else ValidateIndexedCommand (store c) (mIndex m) (mToken m) (mCode m) = true /\
        v = [mCode m; mIndex m]) /\
  (forall e, (command_begin c m).1 = Refused e ->
     (command_begin c m).2 = c /\ (e = ErrInvalid \/ e = ErrStale \/ e = ErrUnavailable)) /\
  (forall c' e, (command_begin c m).1 = Writing p v ->
     let c'' := (command_end c' m (Some e)).2 in
     if mCode m =? OpcodeOriginate then pendingOriginate c'' = false
     else pending c'' !! (mCode m, mIndex m) <> Some (mToken m)).
Proof.
  split_and!.
  - unfold command_begin. unfold str_eqb.
    destruct (Z.eqb_spec (mType m) TypeCommand); [|simpl; naive_solver].
    case_bool_decide; [|simpl; naive_solver]. cbn [negb orb].
    destruct (mCode m =? OpcodeOriginate), (ValidURI (mPayload m)),
      (ValidateIndexedCommand (store c) (mIndex m) (mToken m) (mCode m)), (conn c), (ready c),
      (invCharacteristics (inventory c) !! UUIDControlPoint), (pendingOriginate c); simpl;
      try naive_solver.
  - intros e. unfold command_begin. repeat split_match; simpl; naive_solver.
  - intros c' e H. unfold command_end. destruct (mCode m =? OpcodeOriginate) eqn:Eo; [done|].
    destruct (Z.eqb_spec (default 0 (pending c' !! (mCode m, mIndex m))) (mToken m)) as [E|E]; simpl.
    + by rewrite lookup_delete_eq.
    + intros E'. rewrite E' in E. done.
Qed.

(** ** Losing the bearer *)

Lemma handleControlResult_no_disconnect c v : (handleControlResult c v).1.1 <> Some errLEDisconnected.
Proof. unfold handleControlResult. cbv zeta. repeat split_match; done. Qed.

Lemma Apply_no_disconnect s v e : Apply s v = Error e -> errors_is e errLEDisconnected = false.
Proof.
  unfold Apply. destruct (ParseCallState v) as [l|e'] eqn:E; cbn [result_bind].
  - by destruct (assign_tokens _ _ _ _).
  - intros [= <-]. unfold ParseCallState in E. split_if_in E; [by injection E as <-|].
    destruct (parse_entries v []); [done|]. by injection E as <-.
Qed.

Lemma handleValue_stays c inv sp v e :
  (handleValue c inv sp v).1.1 = Some e -> errors_is e errLEDisconnected = false.
Proof.
  unfold handleValue, handleControlResult. cbv zeta.
  destruct (sp =s? _).
  { destruct (Apply (store c) v) as [[sn s']|e'] eqn:E; simpl; [done|]. intros [= <-].
    eauto using Apply_no_disconnect. }
  repeat split_match; simpl; intros [= <-]; done.
Qed.

Definition bearer_lost (sg : Signal) (inv : Inventory) : Prop :=
  sigName sg = PropertiesIface ++ str ".PropertiesChanged" /\ sigPath sg = invDevicePath inv /\
  exists changed rest, sigBody sg = BString leBearerIface :: BProps changed :: rest /\
    changed !! str "Connected" = Some (VBool false).

(** A notification ends the session exactly when it is the phone's own LE
    bearer reporting Connected=false on the session's device; malformed, foreign
    and rejected notifications never do. *)
Theorem session_ends_on_bearer_loss c inv sg :
  (exists err c', (loop_turn c inv (Notify sg)).1 = Return err c') <-> bearer_lost sg inv.
Proof.
  assert (forall sp v, exists c', (let '(err, c1, ev) := handleValue c inv sp v in
    match err with
    | Some e => if errors_is e errLEDisconnected then (Return err c1, ev) else (Continue c1, ev)
    | None => (Continue c1, ev) end).1 = Continue c') as Hv.
  { intros sp v. pose proof (handleValue_stays c inv sp v) as H.
    destruct (handleValue c inv sp v) as [[[e|] c1] ev]; [rewrite (H e eq_refl)|]; by exists c1. }
  assert (PropertiesIface ++ str ".PropertiesChanged" <> [] /\ leBearerIface <> GattCharacteristicIF) as [_ Hne]
    by (split; by vm_compute).
  unfold bearer_lost, loop_turn, handleSignal. split.
  - intros (err & c' & H). destruct (sigName sg =s? _) eqn:En; [|by simpl in H].
    unfold str_eqb in *. bool_prop. split; [done|].
    destruct (sigBody sg) as [|b0 [|b1 rest]]; [done|by destruct b0|].
    replace (len (b0 :: b1 :: rest) <? 2) with false in H
      by (symmetry; apply Z.ltb_ge; unfold len; simpl length; lia).
    cbn [negb orb] in H. change ((b0 :: b1 :: rest) !! 0%nat) with (Some b0) in H.
    change ((b0 :: b1 :: rest) !! 1%nat) with (Some b1) in H.
    destruct b0 as [iface| |]; [|by simpl in H|by simpl in H].
    case_bool_decide as Ei; [case_bool_decide as Ep|]; cbn [andb] in H.
    + subst iface. split; [done|]. unfold handleBearer in H.
      destruct b1 as [|changed|]; [by simpl in H| |by simpl in H].
      destruct (changed !! str "Connected") as [[| | |[]| |]|] eqn:Ec; simpl in H; try done.
      by exists changed, rest.
    + subst iface. rewrite bool_decide_eq_false_2 in H by done. by simpl in H.
    + case_bool_decide; [|by simpl in H]. cbn [negb] in H.
      destruct b1 as [|changed|]; [by simpl in H| |by simpl in H].
      destruct (changed !! str "Value") as [[| | | |v|]|]; try by simpl in H.
      destruct (Hv (sigPath sg) v) as [c1 E]. rewrite E in H. done.
  - intros (-> & -> & changed & rest & -> & Hc). unfold str_eqb.
    rewrite !bool_decide_eq_true_2 by done.
    replace (len (BString leBearerIface :: BProps changed :: rest) <? 2) with false
      by (symmetry; apply Z.ltb_ge; unfold len; simpl length; lia).
    cbn [negb orb andb]. change ((BString leBearerIface :: BProps changed :: rest) !! 0%nat) with (Some (BString leBearerIface)).
    change ((BString leBearerIface :: BProps changed :: rest) !! 1%nat) with (Some (BProps changed)).
    cbn [handleBearer]. rewrite bool_decide_eq_true_2 by done. rewrite Hc. simpl. eauto.
Qed.

(** ** Snapshot sequence numbers *)

Definition seq_of (e : event) : option Z :=
  match e with EvSnapshot s => Some (sSequence s) | _ => None end.
Definition sequences (ev : list event) : list Z := omap seq_of ev.

(** The emitted sequence numbers grow strictly, all within ([lo], [hi]]. *)
Definition fresh (sd lo hi : Z) (ev : list event) : Prop :=
  lo <= hi /\ StronglySorted (fun a b => age sd a < age sd b) (sequences ev) /\
  Forall (fun q => lo < age sd q <= hi) (sequences ev).

Lemma fresh_app sd lo mid hi a b : fresh sd lo mid a -> fresh sd mid hi b -> fresh sd lo hi (a ++ b).
Proof.
  intros (? & Sa & Fa) (? & Sb & Fb). unfold fresh, sequences in *. rewrite omap_app.
  rewrite Forall_forall in Fa, Fb. split_and!; [lia| |].
  - induction Sa as [|x l Hs IH Hx]; [done|]. simpl. constructor.
    + apply IH. intros y Hy. apply Fa. set_solver.
    + rewrite Forall_forall in Hx |- *. intros y Hy. apply elem_of_app in Hy as [Hy|Hy]; [auto|].
      specialize (Fa x ltac:(set_solver)). specialize (Fb y Hy). simpl in *. lia.
  - apply Forall_forall. intros y Hy. apply elem_of_app in Hy as [Hy|Hy].
    + specialize (Fa y Hy). simpl in *. lia.
    + specialize (Fb y Hy). simpl in *. lia.
Qed.

Lemma fresh_quiet sd lo hi ev : lo <= hi -> sequences ev = [] -> fresh sd lo hi ev.
Proof. intros ? E. unfold fresh. rewrite E. split_and!; auto; constructor. Qed.

Lemma fresh_one sd lo hi c sn :
  lo < age sd (sSequence sn) <= hi -> fresh sd lo hi (emitSnapshot c sn).
Proof.
  intros H. unfold fresh, emitSnapshot. destruct (onSnapshot (cbs c)); simpl.
  - split_and!; [lia|repeat constructor|repeat constructor; lia].
  - split_and!; [lia|constructor|constructor].
Qed.

(** A piece of a run that performs at most [k] store operations and emits only
    snapshots of stores it newly reached. *)
Definition advances (nano : Z) (k : Z) (s : Store) (ev : list event) (s' : Store) : Prop :=
  forall ops, reachable nano ops s -> len ops + k <= 2 ^ 54 ->
  exists ops', reachable nano (ops' ++ ops) s' /\ len ops' <= k /\
    fresh (seed (NewStore nano)) (seq_age s) (seq_age s') ev.

Lemma advances_trans nano k1 k2 s s1 s2 ev1 ev2 :
  0 <= k2 -> advances nano k1 s ev1 s1 -> advances nano k2 s1 ev2 s2 ->
  advances nano (k1 + k2) s (ev1 ++ ev2) s2.
Proof.
  intros Hk A1 A2 ops Hr Hl. destruct (A1 ops Hr ltac:(lia)) as (o1 & R1 & L1 & F1).
  destruct (A2 (o1 ++ ops) R1) as (o2 & R2 & L2 & F2); [rewrite len_app; lia|].
  exists (o2 ++ o1). rewrite <- app_assoc, len_app. split_and!; auto; [lia|].
  eauto using fresh_app.
Qed.

Lemma advances_quiet nano s ev : sequences ev = [] -> advances nano 0 s ev s.
Proof.
  intros E ops Hr Hl. exists []. split_and!; auto; [unfold len; simpl; lia|].
  by apply fresh_quiet.
Qed.

(** One operation, with or without the snapshot of the store it leaves. *)
Lemma advances_op nano s o ev :
  op_bytes o ->
  (sequences ev = [] \/
   sequence (exec s o) = bump (sequence s) /\ exists c, ev = emitSnapshot c (SnapshotOf (exec s o))) ->
  advances nano 1 s ev (exec s o).
Proof.
  intros Hb He ops Hr Hl. pose proof (len_nonneg ops). change (2 ^ 54) with 18014398509481984 in Hl.
  destruct (reachable_age _ _ _ Hr) as [Hwf Ha]; [lia|].
  destruct (reachable_seq _ _ _ Hr) as [Hsd Hs]; [lia|].
  destruct (exec_seq s o Hwf) as (Hse & Hle & Hlt); auto; [unfold headroom; lia|lia|].
  exists [o]. split_and!; [by constructor|unfold len; simpl; lia|]. rewrite <- Hsd.
  destruct He as [E|[Hq [c ->]]]; [apply fresh_quiet; [lia|done]|].
  assert (sequence (exec s o) <> sequence s) as Hne.
  { rewrite Hq. apply bump_changes; apply (wf_sequence _ Hwf). }
  apply fresh_one. specialize (Hlt Hne). unfold seq_age in *. simpl. rewrite Hse in *. lia.
Qed.

Lemma advances_weaken nano k k' s ev s' : k <= k' -> advances nano k s ev s' -> advances nano k' s ev s'.
Proof.
  intros Hk A ops Hr Hl. destruct (A ops Hr ltac:(lia)) as (o & R & L & F). exists o. split_and!; auto. lia.
Qed.

Lemma Apply_exec s v sn s' :
  Apply s v = Ok (sn, s') ->
  exec s (DoApply v) = s' /\ sn = SnapshotOf s' /\ sequence s' = bump (sequence s).
Proof.
  intros H. simpl. rewrite H. split; [done|]. unfold Apply in H.
  apply result_bind_ok in H as (parsed & _ & H).
  destruct (assign_tokens (calls s) (seed s) parsed (tokens s)) as [next t]. by injection H as <- <-.
Qed.

Lemma ApplyIncomingCall_bumps s v x s' :
  ApplyIncomingCall s v = (Ok x, s') -> sequence s' = bump (sequence s).
Proof.
  unfold ApplyIncomingCall, setIdentityLocked. intros H.
  repeat (split_match; try discriminate); simplify_eq; done.
Qed.

(** Byte values that came over D-Bus are bytes. *)
Definition body_bytes (b : body) : Prop :=
  match b with
  | BProps m => forall k v, m !! k = Some (VBytes v) -> all_bytes v
  | _ => True
  end.
Definition input_bytes (i : loop_input) : Prop :=
  match i with Notify sg => Forall body_bytes (sigBody sg) | _ => True end.
Definition bus_bytes (b : Bus) : Prop := forall p v, bus_read_value b p = Reply v -> all_bytes v.

Lemma advances_control nano c v :
  advances nano 1 (store c) (handleControlResult c v).2 (store (handleControlResult c v).1.2).
Proof.
  assert (store (handleControlResult c v).1.2 = store c /\ sequences (handleControlResult c v).2 = []) as [-> E].
  { unfold handleControlResult, emitResult. cbv zeta. repeat split_match; done. }
  apply (advances_weaken _ 0); [lia|]. by apply advances_quiet.
Qed.

Lemma advances_value nano c inv sp v :
  all_bytes v -> advances nano 1 (store c) (handleValue c inv sp v).2 (store (handleValue c inv sp v).1.2).
Proof.
  intros Hb. unfold handleValue. destruct (sp =s? _).
  { destruct (Apply (store c) v) as [[sn s']|e] eqn:E; simpl.
    - destruct (Apply_exec _ _ _ _ E) as (<- & -> & Hq). apply advances_op; [done|]. eauto.
    - apply (advances_weaken _ 0); [lia|]. by apply advances_quiet. }
  destruct (sp =s? _); [apply advances_control|].
  destruct (sp =s? _); [|apply (advances_weaken _ 0); [lia|]; by apply advances_quiet].
  destruct (ApplyIncomingCall (store c) v) as [r s'] eqn:E.
  assert (exec (store c) (DoIncoming v) = s') as <- by (simpl; by rewrite E).
  destruct r as [x|e]; cbn [fst snd store with_store].
  - apply (advances_op nano (store c) (DoIncoming v)); [done|]. right. split; [|by eexists].
    eauto using ApplyIncomingCall_bumps.
  - by apply (advances_op nano (store c) (DoIncoming v)); [|left].
Qed.

Lemma advances_signal nano c sg inv :
  Forall body_bytes (sigBody sg) ->
  advances nano 1 (store c) (handleSignal c sg inv).2 (store (handleSignal c sg inv).1.2).
Proof.
  intros Hb. assert (advances nano 1 (store c) [] (store c)) as Hq
    by (apply (advances_weaken _ 0); [lia|]; by apply advances_quiet).
  unfold handleSignal, handleBearer.
  destruct (sigBody sg !! 1%nat) as [[|changed|]|] eqn:E1.
  2:{ rewrite Forall_forall in Hb. specialize (Hb _ (list_elem_of_lookup_2 _ _ _ E1)). simpl in Hb.
      repeat split_match; simpl; try done. apply advances_value. eauto. }
  all: repeat split_match; done.
Qed.

Lemma advances_turn nano c inv i :
  input_bytes i ->
  advances nano 1 (store c) (loop_turn c inv i).2 (store (turn_client (loop_turn c inv i).1)).
Proof.
  intros Hb. assert (forall ev, sequences ev = [] -> advances nano 1 (store c) ev (store c)) as Hq
    by (intros; apply (advances_weaken _ 0); [lia|]; by apply advances_quiet).
  destruct i as [| | |sg|m|m err|i t]; simpl; auto.
  - pose proof (advances_signal nano c sg inv Hb) as H.
    destruct (handleSignal c sg inv) as [[[e|] c'] ev]; simpl in *; [|done].
    by destruct (errors_is e errLEDisconnected).
  - assert (store (command_begin c m).2 = store c) as E
      by (unfold command_begin; repeat split_match; done).
    destruct (command_begin c m) as [[e|p v] c']; simpl in *; rewrite E; by apply Hq.
  - assert (store (command_end c m err).2 = store c) as ->
      by (unfold command_end; repeat split_match; done). by apply Hq.
  - apply (advances_op nano (store c) (DoClaim i t)); [done|by left].
Qed.

Lemma advances_loop nano c inv inputs :
  Forall input_bytes inputs ->
  advances nano (len inputs) (store c) (session_loop c inv inputs).2
    (store (session_loop c inv inputs).1.2).
Proof.
  intros Hb. revert c. induction Hb as [|i inputs Hi Hb IH]; intros c; simpl.
  { by apply advances_quiet. }
  replace (len (i :: inputs)) with (1 + len inputs) by (unfold len; simpl; lia).
  pose proof (advances_turn nano c inv i Hi) as Ht. pose proof (len_nonneg inputs).
  destruct (loop_turn c inv i) as [[c'|e c'] ev]; simpl in *;
    [|apply (advances_weaken _ 1); [lia|done]].
  specialize (IH c'). destruct (session_loop c' inv inputs) as [[r c''] ev']; simpl in *.
  eauto using advances_trans.
Qed.

(** The first snapshot of a session, taken after the initial reads. *)
Lemma advances_first nano k s v sn s1 s2 c :
  all_bytes v -> Apply s v = Ok (sn, s1) -> 0 <= k -> advances nano k s1 [] s2 ->
  advances nano (1 + k) s (emitSnapshot c (SnapshotOf s2)) s2.
Proof.
  intros Hb E Hk A2 ops Hr Hl. destruct (Apply_exec _ _ _ _ E) as (Ex & -> & Hq).
  assert (advances nano 1 s (emitSnapshot demo_client (SnapshotOf s1)) s1) as A1.
  { rewrite <- Ex. apply advances_op; [done|]. right. rewrite Ex. eauto. }
  destruct (A1 ops Hr ltac:(lia)) as (o1 & R1 & L1 & _ & _ & F1).
  destruct (A2 (o1 ++ ops) R1) as (o2 & R2 & L2 & G2 & _); [rewrite len_app; lia|].
  exists (o2 ++ o1). rewrite <- app_assoc, len_app. split_and!; auto; [lia|].
  apply Forall_cons_1 in F1 as [F1 _].
  destruct (reachable_seq _ _ _ R1) as [Hs1 _]; [rewrite len_app; lia|].
  destruct (reachable_seq _ _ _ R2) as [Hs2 _]; [rewrite !len_app; lia|].
  apply fresh_one. unfold seq_age in *. rewrite Hs1, Hs2 in G2. rewrite Hs2.
  change (sSequence (SnapshotOf s2)) with (sequence s2).
  change (sSequence (SnapshotOf s1)) with (sequence s1) in F1. lia.
Qed.

Lemma advances_read_identity nano b inv s :
  bus_bytes b -> advances nano 1 s [] (read_identity b inv s).
Proof.
  intros Hb. assert (advances nano 1 s [] s) as Hq
    by (apply (advances_weaken _ 0); [lia|]; by apply advances_quiet).
  unfold read_identity, readValue. destruct (invCharacteristics inv !! UUIDIncomingCall) as [ch|]; [|done].
  destruct (contains _ _); [|done].
  destruct (bus_read_value b (chPath ch)) as [e|e|v] eqn:E; [done|done|].
  destruct (len v =? 0); [done|]. apply (advances_op nano s (DoIncoming v)); [|by left]. simpl. eauto.
Qed.

Lemma sequences_app a b : sequences (a ++ b) = sequences a ++ sequences b.
Proof. apply omap_app. Qed.

Section FreshRun.
Context (path_IsValid : bytes -> bool) (nano : Z).

Lemma advances_pre k s ev0 ev s' :
  sequences ev0 = [] -> 0 <= k -> advances nano k s ev s' -> advances nano k s (ev0 ++ ev) s'.
Proof. intros E Hk A. apply (advances_trans _ 0 k _ s); auto using advances_quiet. Qed.

Lemma advances_post k s ev ev1 s' :
  sequences ev1 = [] -> advances nano k s ev s' -> advances nano k s (ev ++ ev1) s'.
Proof.
  intros E A. replace k with (k + 0) by lia. eapply advances_trans; [lia|done|by apply advances_quiet].
Qed.

Lemma advances_runOnce cn b inputs c :
  bus_bytes b -> Forall input_bytes inputs ->
  let '(r, c', ev) := runOnce path_IsValid cn b inputs c in
  advances nano (len inputs + 2) (store c) ev (store c').
Proof.
  intros Hb Hi. pose proof (len_nonneg inputs) as Hl. unfold runOnce.
  destruct (discover_session_path path_IsValid b c) as [p Hp].
  destruct (discover_session path_IsValid b c) as [d c1]. simpl in Hp. subst c1.
  assert (forall ev, sequences ev = [] ->
    advances nano (len inputs + 2) (store c) ev (store (with_path c p))) as Hq
    by (intros; apply (advances_weaken _ 0); [lia|]; by apply advances_quiet).
  assert (forall l, sequences (EvStartNotify <$> l) = []) as Hst
    by (intros l; induction l; [done|by csimpl]).
  assert (forall l, sequences (EvStopNotify <$> l) = []) as Hsp
    by (intros l; induction l; [done|by csimpl]).
  destruct d as [inv|e]; [|by apply Hq].
  destruct (start_notify b (notificationPaths inv)) as [started [e|]]; [by apply Hq|].
  destruct (readValue _) as [value|e] eqn:Er; [|apply Hq; by rewrite sequences_app, Hst, Hsp].
  destruct (Apply (store (with_path c p)) value) as [[sn s']|e] eqn:Ea;
    [|apply Hq; by rewrite sequences_app, Hst, Hsp]. clear Hq.
  assert (all_bytes value) as Hv.
  { unfold readValue in Er. destruct (bus_read_value b _) eqn:Eb; try discriminate.
    injection Er as <-. by apply Hb in Eb. }
  cbv zeta. set (s2 := read_identity b inv s'). unfold setReady. simpl store at 1.
  set (c2 := with_ready _ true).
  pose proof (advances_loop nano c2 inv inputs Hi) as Hloop.
  pose proof (advances_first nano 1 (store c) value sn s' s2
    (with_session (with_store (with_path c p) s2) (Some cn) inv) Hv Ea ltac:(lia)
    (advances_read_identity nano b inv s' Hb)) as Hfirst.
  assert (store c2 = s2) as E2 by done. rewrite E2 in Hloop.
  destruct (session_loop c2 inv inputs) as [[[err|] c3] ev3]; cbn [fst snd] in Hloop;
    replace (len inputs + 2) with (1 + 1 + len inputs) by lia.
  - unfold session_cleanup. cbn [fst snd].
    assert (store (if bool_decide (conn c3 = Some cn) then with_session c3 None no_inventory else c3) = store c3) as ->
      by (by case_bool_decide).
    apply advances_pre; [done|lia|]. eapply advances_trans; [lia|exact Hfirst|].
    apply advances_pre; [by destruct (negb _ && _)|lia|]. by apply advances_post.
  - apply advances_pre; [done|lia|]. eapply advances_trans; [lia|exact Hfirst|].
    apply advances_pre; [by destruct (negb _ && _)|lia|]. done.
Qed.

(** Store operations the attempts can perform. *)
Definition budget (attempts : list attempt) : Z :=
  foldr (fun a n => len (at_inputs a) + 2 + n) 0 attempts.
Definition attempt_bytes (a : attempt) : Prop :=
  bus_bytes (at_bus a) /\ Forall input_bytes (at_inputs a).

Lemma advances_Run attempts c k0 :
  Forall attempt_bytes attempts ->
  0 <= budget attempts /\
  let '(c', k, ev) := Run_loop path_IsValid attempts c k0 in
  advances nano (budget attempts) (store c) ev (store c').
Proof.
  intros Hb. revert c k0. induction Hb as [|a attempts [Ha Hi] Hb IH]; intros c k0.
  { split; [done|]. by apply advances_quiet. }
  cbn [budget foldr Run_loop]. pose proof (len_nonneg (at_inputs a)).
  destruct (IH c k0) as [Hn _]. fold (budget attempts). split; [lia|].
  pose proof (advances_runOnce (at_conn a) (at_bus a) (at_inputs a) c Ha Hi) as H1.
  destruct (runOnce _ _ _ _ c) as [[[est err|] c1] ev]; [|apply (advances_weaken _ (len (at_inputs a) + 2)); [lia|done]].
  destruct (setReady c1 false) as [c2 ev2] eqn:E2.
  assert (store c2 = store c1 /\ sequences ev2 = []) as [Es Eq].
  { unfold setReady in E2. injection E2 as <- <-. split; [done|]. by destruct (negb _ && _). }
  apply (advances_post _ _ ev ev2) in H1; [|done]. rewrite <- Es in H1.
  destruct (at_cancel_end a); [apply (advances_weaken _ (len (at_inputs a) + 2)); [lia|done]|].
  destruct (at_cancel_wait a); [apply (advances_weaken _ (len (at_inputs a) + 2)); [lia|done]|].
  set (nx := if _ <? _ then _ else _). destruct (IH c2 nx) as [_ H2].
  destruct (Run_loop _ attempts c2 nx) as [[c3 k3] ev3]. rewrite app_assoc.
  by eapply advances_trans.
Qed.

(** Over the whole life of a client (at most 2^54 inputs), whatever the bus
    answers and however inputs interleave, every snapshot handed to the callback
    carries a sequence number later than every earlier one: none is ever repeated,
    so a peer that discards repeated sequences loses no state. *)
Theorem snapshots_never_repeat attempts c c' k ev :
  store c = NewStore nano -> Forall attempt_bytes attempts -> budget attempts <= 2 ^ 54 ->
  Run path_IsValid attempts c = (c', k, ev) ->
  StronglySorted (fun a b => age (seed (store c)) a < age (seed (store c)) b) (sequences ev) /\
  NoDup (sequences ev).
Proof.
  intros Hs Hb Hl H. unfold Run in H. destruct (advances_Run attempts c second Hb) as [_ A].
  rewrite H, Hs in A. destruct (A []) as (ops & _ & _ & _ & S & _);
    [constructor|unfold len; simpl; lia|].
  rewrite Hs. split; [done|]. clear -S. induction S as [|x l _ IH Hx]; constructor; [|done].
  intros Hin. rewrite Forall_forall in Hx. specialize (Hx x Hin). simpl in Hx. lia.
Qed.

End FreshRun.

Lemma demo_attempts_bytes : Forall attempt_bytes demo_attempts.
Proof.
  assert (bus_bytes demo_bus) as Hb.
  { intros p v [= <-]. apply (bool_decide_unpack _). by vm_compute. }
  assert (input_bytes (Notify demo_result)) as Hr.
  { apply Forall_cons_2; [exact I|]. apply Forall_cons_2; [|constructor].
    intros k v Hk. apply lookup_singleton_Some in Hk as [_ [= <-]].
    apply (bool_decide_unpack _). by vm_compute. }
  unfold demo_attempts, demo_inputs.
  apply Forall_cons_2; [|apply Forall_cons_2; [|apply Forall_nil_2]];
    (split; [exact Hb|]); cbn [at_inputs app];
    repeat first [exact Hr|exact I|apply Forall_nil_2|apply Forall_cons_2].
Qed.

Lemma snapshots_never_repeat_witness :
  let r := Run (fun _ => true) demo_attempts demo_client in
  sequences r.2 = [6; 7] /\ NoDup (sequences r.2).
Proof.
  set (r := Run (fun _ => true) demo_attempts demo_client).
  split; [vm_compute; reflexivity|].
  apply (snapshots_never_repeat (fun _ => true) 5 demo_attempts demo_client r.1.1 r.1.2 r.2).
  - reflexivity.
  - exact demo_attempts_bytes.
  - by vm_compute.
  - subst r. by destruct (Run _ _ _) as [[? ?] ?].
Defined.
