(* ===== verification/Control.v ===== *)
(** * The call-control socket server

    Models src/callbridge-le-call-go/internal/control/server.go: the one-client
    packet server that hands snapshots, readiness and results to the Asterisk
    channel driver and takes its commands.  Descriptors are numbers; what a system
    call answers is an input; packets sent and descriptors closed are the output
    trace.  Every method body runs under the server's mutex, and [Run]'s poll loop
    is the only caller of [accept] and [receive]. *)

From S2P Require Import Prelude GoStd Protocol GtbsState Inventory GtbsClient.

Definition maximumSocketPath : Z := 100.

(** ** State *)
Record Server := mkServer {
  sv_path : bytes;
  sv_peerUID : Z;
  sv_device : bytes;
  listenerFD : Z;
  clientFD : Z;
  sv_ready : bool;
  sv_sequence : Z
}.

Inductive output := Sent (fd : Z) (packet : bytes) | Closed (fd : Z).

(** The server, what the next [sendmsg] calls answer (complete or not), and what
    has happened so far. *)
Record World := mkWorld { srv : Server; sends : list bool; trace : list output }.

Definition with_client (s : Server) (fd : Z) : Server :=
  {| sv_path := sv_path s; sv_peerUID := sv_peerUID s; sv_device := sv_device s;
     listenerFD := listenerFD s; clientFD := fd; sv_ready := sv_ready s; sv_sequence := sv_sequence s |}.
Definition with_listener (s : Server) (fd : Z) : Server :=
  {| sv_path := sv_path s; sv_peerUID := sv_peerUID s; sv_device := sv_device s;
     listenerFD := fd; clientFD := clientFD s; sv_ready := sv_ready s; sv_sequence := sv_sequence s |}.
Definition with_readiness (s : Server) (r : bool) : Server :=
  {| sv_path := sv_path s; sv_peerUID := sv_peerUID s; sv_device := sv_device s;
     listenerFD := listenerFD s; clientFD := clientFD s; sv_ready := r; sv_sequence := sv_sequence s |}.
Definition with_sequence (s : Server) (q : Z) : Server :=
  {| sv_path := sv_path s; sv_peerUID := sv_peerUID s; sv_device := sv_device s;
     listenerFD := listenerFD s; clientFD := clientFD s; sv_ready := sv_ready s; sv_sequence := q |}.
Definition on_srv (w : World) (f : Server -> Server) : World :=
  {| srv := f (srv w); sends := sends w; trace := trace w |}.
Definition emit (w : World) (o : output) : World :=
  {| srv := srv w; sends := sends w; trace := trace w ++ [o] |}.

(** [filepath.IsAbs] on Linux. *)
Definition IsAbs (p : bytes) : bool := HasPrefix p (str "/").

Definition NewServer (path : bytes) (peerUID : Z) (device : bytes) (unixNano : Z) : result Server :=
  let device := NormalizeDevice device in
  if negb (IsAbs path) || (maximumSocketPath <? len path) || (peerUID <? 0) || (device =s? [])
  then fail! "invalid LE call-control server configuration"
  else Ok {| sv_path := path; sv_peerUID := u32 peerUID; sv_device := device;
             listenerFD := -1; clientFD := -1; sv_ready := false; sv_sequence := u64 unixNano |}.

(** [for { sequence := s.sequence.Add(1); if sequence != 0 { return sequence } }]:
    at most two rounds. *)
Definition next_sequence (q : Z) : Z :=
  let q1 := u64 (q + 1) in if q1 =? 0 then u64 (q1 + 1) else q1.
Definition nextSequence (w : World) : Z * World :=
  let q := next_sequence (sv_sequence (srv w)) in (q, on_srv w (fun s => with_sequence s q)).

(** ** Sending *)
Definition closeClientLocked (w : World) : World :=
  if clientFD (srv w) =? -1 then w
  else on_srv (emit w (Closed (clientFD (srv w)))) (fun s => with_client s (-1)).

(** The outcome of the next [sendmsg]; complete when no failure is scheduled. *)
Definition take_send (w : World) : bool * World :=
  match sends w with
  | [] => (true, w)
  | b :: rest => (b, {| srv := srv w; sends := rest; trace := trace w |})
  end.

Definition sendMessageLocked (w : World) (m : Message) : World :=
  if clientFD (srv w) =? -1 then w
  else match Encode m with
       | Error _ => w
       | Ok packet =>
           let '(complete, w) := take_send w in
           if complete then emit w (Sent (clientFD (srv w)) packet) else closeClientLocked w
       end.

Fixpoint sendMessagesLocked (w : World) (ms : list Message) : World :=
  match ms with
  | [] => w
  | m :: ms =>
      let w := sendMessageLocked w m in
      if clientFD (srv w) =? -1 then w else sendMessagesLocked w ms
  end.
Definition sendMessages := sendMessagesLocked.
Definition send (w : World) (m : Message) : World := sendMessages w [m].

(** ** Messages *)
Definition state_message (device : bytes) (seq : Z) (last : bool) (c : Call) : Message :=
  {| mType := TypeState;
     mFlags := if last then Z.lor FlagSnapshot FlagLast else FlagSnapshot;
     mSequence := seq; mToken := cToken c; mDevice := device; mIndex := cIndex c;
     mCode := cState c; mValue := cFlags c;
     mPayload := match EncodeIdentity (cIdentity c) with Ok p => p | Error _ => [] end |}.

Fixpoint state_messages (device : bytes) (seq : Z) (cs : list Call) : list Message :=
  match cs with
  | [] => []
  | [c] => [state_message device seq true c]
  | c :: cs => state_message device seq false c :: state_messages device seq cs
  end.

Definition snapshotMessages (device : bytes) (sn : Snapshot) : list Message :=
  match sCalls sn with
  | [] => [{| mType := TypeState; mFlags := Z.lor FlagSnapshot FlagLast; mSequence := sSequence sn;
              mToken := 0; mDevice := device; mIndex := 0; mCode := NoCallState; mValue := 0;
              mPayload := [] |}]
  | cs => state_messages device (sSequence sn) cs
  end.

Definition ready_message (device : bytes) (seq : Z) (r : bool) : Message :=
  {| mType := TypeReady; mFlags := 0; mSequence := seq; mToken := 0; mDevice := device;
     mIndex := 0; mCode := if r then 1 else 0; mValue := 0; mPayload := [] |}.

Definition BroadcastSnapshot (w : World) (sn : Snapshot) : World :=
  sendMessages w (snapshotMessages (sv_device (srv w)) sn).

Definition BroadcastResult (w : World) (opcode index result token : Z) : World :=
  let '(q, w) := nextSequence w in
  send w {| mType := TypeResult; mFlags := 0; mSequence := q; mToken := token;
            mDevice := sv_device (srv w); mIndex := index; mCode := opcode; mValue := result;
            mPayload := [] |}.

Definition BroadcastReady (w : World) (r : bool) : World :=
  let '(q, w) := nextSequence w in send w (ready_message (sv_device (srv w)) q r).

Definition SetReady (w : World) (r : bool) : World :=
  let changed := negb (Bool.eqb (sv_ready (srv w)) r) in
  let w := on_srv w (fun s => with_readiness s r) in
  if changed then
    let '(q, w) := nextSequence w in sendMessageLocked w (ready_message (sv_device (srv w)) q r)
  else w.

(** ** Receiving *)
Definition dropClient (w : World) (client : Z) : World :=
  if clientFD (srv w) =? client then closeClientLocked w else w.

(** [accept4] failed, or gave a descriptor with the peer's user id (if known). *)
Definition accept (w : World) (accepted : option (Z * option Z)) (snapshot : Snapshot) : World :=
  match accepted with
  | None => w
  | Some (client, credential) =>
      if negb (bool_decide (credential = Some (sv_peerUID (srv w)))) then emit w (Closed client)
      else if negb (clientFD (srv w) =? -1) then emit w (Closed client)
      else
        let w := on_srv w (fun s => with_client s client) in
        let messages := snapshotMessages (sv_device (srv w)) snapshot in
        let '(q, w) := nextSequence w in
        sendMessagesLocked w (messages ++ [ready_message (sv_device (srv w)) q (sv_ready (srv w))])
  end.

(** What [recvmsg] gave: nothing yet, an error, or bytes and the truncation flag. *)
Inductive received := WouldBlock | RecvError | Packet (truncated : bool) (p : bytes).

Definition ack_for (device : bytes) (m : Message) (r : result unit) : Message :=
  {| mType := TypeAck; mFlags := 0; mSequence := mSequence m; mToken := mToken m;
     mDevice := device; mIndex := mIndex m; mCode := mCode m; mValue := ClassifyCommandError r;
     mPayload := [] |}.

(** The handler changes the state [St] of the components behind it. *)
Definition receive {St} (handler : Message -> St -> result unit * St)
    (w : World) (client : Z) (r : received) (st : St) : World * St :=
  match r with
  | WouldBlock => (w, st)
  | RecvError => (dropClient w client, st)
  | Packet truncated p =>
      if truncated || negb (len p =? Z.of_nat PacketSize) then (dropClient w client, st)
      else match Decode p with
           | Error _ => (dropClient w client, st)
           | Ok m =>
               if negb (mType m =? TypeCommand) || negb (mDevice m =s? sv_device (srv w))
               then (dropClient w client, st)
               else let '(res, st) := handler m st in
                    (send w (ack_for (sv_device (srv w)) m res), st)
           end
  end.

(** What [poll] reported: a pending connection, data from the client, its hang-up. *)
Record polled := mkPolled { p_listener : bool; p_client : bool; p_hangup : bool }.

(** One turn of [Run]'s loop. *)
Definition poll_turn {St} (handler : Message -> St -> result unit * St) (snapshot : St -> Snapshot)
    (w : World) (st : St) (p : polled) (accepted : option (Z * option Z)) (r : received) : World * St :=
  let client := clientFD (srv w) in
  let w := if p_listener p then accept w accepted (snapshot st) else w in
  if client =? -1 then (w, st)
  else
    let '(w, st) := if p_client p then receive handler w client r st else (w, st) in
    (if p_hangup p then dropClient w client else w, st).

Definition close (w : World) : World :=
  let w := closeClientLocked w in
  if listenerFD (srv w) =? -1 then w
  else on_srv (emit w (Closed (listenerFD (srv w)))) (fun s => with_listener s (-1)).

(** ** What the messages decode to *)

(** The peer's side: the calls of one snapshot, collected up to its last message. *)
Definition call_of (m : Message) : option Call :=
  match DecodeIdentity (mPayload m) with
  | Ok id => Some (mkCall (mIndex m) (mCode m) (mValue m) (mToken m) id)
  | Error _ => None
  end.

Fixpoint reassemble (ms : list Message) : option Snapshot :=
  match ms with
  | [] => None
  | m :: ms =>
      if negb (mType m =? TypeState) then None
      else if mCode m =? NoCallState then Some (mkSnapshot (mSequence m) [])
      else match call_of m with
           | None => None
           | Some c =>
               if has_bits (mFlags m) FlagLast then Some (mkSnapshot (mSequence m) [c])
               else match reassemble ms with
                    | Some sn => if mSequence m =? sSequence sn
                                 then Some (mkSnapshot (sSequence sn) (c :: sCalls sn)) else None
                    | None => None
                    end
           end
  end.

Fixpoint decode_all (packets : list bytes) : option (list Message) :=
  match packets with
  | [] => Some []
  | p :: packets =>
      match codec_decode p, decode_all packets with
      | Ok m, Some ms => Some (m :: ms)
      | _, _ => None
      end
  end.

(** A call whose fields fit a state message. *)
Record call_sendable (c : Call) : Prop := {
  sd_index : 1 <= cIndex c <= 255;
  sd_state : 0 <= cState c <= 6;
  sd_flags : 0 <= cFlags c <= 7;
  sd_token : in_width 64 (cToken c) /\ cToken c <> 0;
  sd_identity : len (URI (cIdentity c)) <= IdentityURIMax /\ len (Name (cIdentity c)) <= IdentityNameMax;
  sd_bytes : all_bytes (URI (cIdentity c)) /\ all_bytes (Name (cIdentity c))
}.

Definition device_ok (d : bytes) : Prop := normalizedDevice d = d /\ d <> [].

Lemma device_ok_bytes d : device_ok d -> all_bytes d.
Proof.
  intros [H1 H2]. destruct (normalized_shape d H1 H2) as [_ Hc]. eapply Forall_impl; [exact Hc|].
  intros c. unfold device_char, in_width. lia.
Qed.

Lemma dialable_byte c : dialable c = true -> is_byte c.
Proof. intros H. apply dialable_visible in H as [[H _] _]. unfold in_width, RuneSelf in *. lia. Qed.

(** Every call of a well-formed store's snapshot can be sent. *)
Lemma snapshot_sendable s : store_wf s -> Forall call_sendable (sCalls (SnapshotOf s)).
Proof.
  intros Hwf. apply Forall_forall. intros c Hc. apply snapshot_elem in Hc as (d & Hd & ->); [|done].
  destruct (co_call _ _ _ (wf_calls _ Hwf) _ _ Hd) as (Hi & ? & ? & ? & ? & ? & ? & _). simpl in *.
  assert (len (URI (identity_at (identities s) (cIndex d))) <= IdentityURIMax /\
          Name (identity_at (identities s) (cIndex d)) = [] /\
          all_bytes (URI (identity_at (identities s) (cIndex d)))) as (Hu & Hn & Hb).
  { unfold identity_at. destruct (identities s !! cIndex d) as [id|] eqn:E; simpl.
    - apply (wf_identities _ Hwf) in E as (_ & Hname & _ & Hl & Hdi). split_and!; auto.
      apply Forall_forall. intros x Hx. apply dialable_byte.
      rewrite forallb_forall in Hdi. apply Hdi. by apply list_elem_of_In.
    - split_and!; [by vm_compute|done|constructor]. }
  split; simpl; auto; rewrite Hn; split; auto; by vm_compute.
Qed.

Lemma EncodeIdentity_bytes i p :
  all_bytes (URI i) -> all_bytes (Name i) -> EncodeIdentity i = Ok p -> all_bytes p.
Proof.
  intros Hu Hn H. unfold EncodeIdentity in H. split_if_in H; [injection H as <-; constructor|].
  split_if_in H; [discriminate|]. injection H as <-.
  assert (forall x, is_byte (u8 x)) as Hb by (intros; unfold in_width, u8; apply Z.mod_pos_bound; lia).
  constructor; [apply Hb|]. apply Forall_app. split; [done|]. constructor; [apply Hb|done].
Qed.

Section Messages.
Context (device : bytes) (seq : Z).
Context (Hdev : device_ok device) (Hseq : in_width 64 seq) (Hseq0 : seq <> 0).

Lemma device_not_empty : (normalizedDevice device =s? []) = false.
Proof. destruct Hdev as [E Hne]. unfold str_eqb. rewrite E. by apply bool_decide_eq_false_2. Qed.

Lemma state_message_sendable last c :
  call_sendable c ->
  let m := state_message device seq last c in
  message_canonical m /\ validate m = Ok tt /\ call_of m = Some c /\
  mCode m <> NoCallState /\ has_bits (mFlags m) FlagLast = last.
Proof.
  intros [Hi Hs Hf [Ht Ht0] [Hu Hn] [Hbu Hbn]].
  destruct (EncodeIdentity_ok (cIdentity c) Hu Hn) as (p & Ep & Hlp).
  pose proof (EncodeIdentity_Decode _ _ Ep) as Dp.
  pose proof (EncodeIdentity_bytes _ _ Hbu Hbn Ep) as Bp.
  unfold state_message. rewrite Ep. cbv zeta.
  assert (forall b : bool, (if b then Z.lor FlagSnapshot FlagLast else FlagSnapshot) ∈ [1; 3]) as Hfl
    by (intros []; set_solver).
  split_and!.
  - split; [|apply Hdev]. split; simpl; auto using device_ok_bytes; unfold in_width; try lia.
    + by vm_compute.
    + specialize (Hfl last). destruct last; by vm_compute.
  - unfold validate. cbn [mType mFlags mSequence mPayload mDevice mCode mIndex mToken mValue].
    rewrite device_not_empty, Dp.
    destruct (Z.eqb_spec seq 0); [done|]. destruct (Z.ltb_spec PayloadSize (len p)); [lia|].
    destruct (Z.eqb_spec (cState c) NoCallState); [unfold NoCallState in *; lia|].
    destruct (Z.eqb_spec (cIndex c) 0); [lia|]. destruct (Z.eqb_spec (cToken c) 0); [done|].
    destruct (Z.ltb_spec 6 (cState c)); [lia|].
    change 7 with callFlagsKnown. rewrite (proj2 (flags_known (cFlags c) ltac:(lia))) by lia.
    by destruct last.
  - unfold call_of. simpl. rewrite Dp. by destruct c.
  - simpl. unfold NoCallState. lia.
  - by destruct last.
Qed.

Lemma state_messages_reassemble cs :
  cs <> [] -> Forall call_sendable cs ->
  Forall (fun m => message_canonical m /\ validate m = Ok tt) (state_messages device seq cs) /\
  reassemble (state_messages device seq cs) = Some (mkSnapshot seq cs).
Proof.
  induction cs as [|c cs IH]; [done|]. intros _ Hc. apply Forall_cons_1 in Hc as [Hc Hcs].
  destruct cs as [|c' cs].
  - destruct (state_message_sendable true c Hc) as (H1 & H2 & H3 & H4 & H5).
    split; [by apply Forall_singleton|]. cbn [state_messages reassemble].
    change (mType (state_message device seq true c)) with TypeState. rewrite Z.eqb_refl. cbn [negb].
    by rewrite (proj2 (Z.eqb_neq _ _) H4), H3, H5.
  - destruct (IH ltac:(done) Hcs) as [IH1 IH2].
    destruct (state_message_sendable false c Hc) as (H1 & H2 & H3 & H4 & H5).
    change (state_messages device seq (c :: c' :: cs)) with
      (state_message device seq false c :: state_messages device seq (c' :: cs)).
    split; [by constructor|]. cbn [reassemble].
    change (mType (state_message device seq false c)) with TypeState. rewrite Z.eqb_refl. cbn [negb].
    rewrite (proj2 (Z.eqb_neq _ _) H4), H3, H5, IH2. cbn [sSequence sCalls].
    change (mSequence (state_message device seq false c)) with seq. by rewrite Z.eqb_refl.
Qed.

Lemma snapshotMessages_reassemble cs :
  Forall call_sendable cs ->
  let ms := snapshotMessages device (mkSnapshot seq cs) in
  Forall (fun m => message_canonical m /\ validate m = Ok tt) ms /\
  reassemble ms = Some (mkSnapshot seq cs).
Proof.
  intros Hc. destruct cs as [|c cs]; [|by apply state_messages_reassemble].
  unfold snapshotMessages. cbn [sCalls sSequence]. split.
  - apply Forall_singleton. split.
    { split; [|apply Hdev]. split; simpl; auto using device_ok_bytes; by vm_compute. }
    unfold validate. cbn [mType mFlags mSequence mPayload mDevice mCode mIndex mToken mValue].
    rewrite device_not_empty. by destruct (Z.eqb_spec seq 0).
  - cbn. done.
Qed.

End Messages.

(** ** Delivery *)

Definition sent_packets (o : output) : option bytes := match o with Sent _ p => Some p | Closed _ => None end.

(** The connection works: no send is going to fail. *)
Definition healthy (w : World) : Prop := clientFD (srv w) <> -1 /\ sends w = [].

Lemma decode_all_cons p ps m ms :
  codec_decode p = Ok m -> decode_all ps = Some ms -> decode_all (p :: ps) = Some (m :: ms).
Proof. intros Hp Hps. cbn [decode_all]. by rewrite Hp, Hps. Qed.

Lemma send_healthy w ms :
  healthy w -> Forall (fun m => message_canonical m /\ validate m = Ok tt) ms ->
  exists packets, sendMessagesLocked w ms =
      {| srv := srv w; sends := []; trace := trace w ++ (Sent (clientFD (srv w)) <$> packets) |} /\
    decode_all packets = Some ms.
Proof.
  intros [Hc Hs] Hm. revert w Hc Hs. induction Hm as [|m ms [Hcan Hv] Hm IH]; intros w Hc Hs.
  { exists []. split; [|done]. simpl. rewrite app_nil_r, <- Hs. by destruct w. }
  cbn [sendMessagesLocked]. unfold sendMessageLocked.
  destruct (Z.eqb_spec (clientFD (srv w)) (-1)); [done|].
  assert (Encode m = Ok (packet_of m)) as E by (unfold Encode; by rewrite Hv).
  rewrite E. unfold take_send. rewrite Hs. cbn [fst snd emit srv].
  destruct (Z.eqb_spec (clientFD (srv w)) (-1)); [done|].
  destruct (IH (emit w (Sent (clientFD (srv w)) (packet_of m))) Hc Hs) as (ps & -> & Hd).
  exists (packet_of m :: ps). split.
  - simpl. by rewrite <- app_assoc.
  - apply decode_all_cons; [|done]. exact (codec_roundtrip m (packet_of m) Hcan E).
Qed.

(** A message that does not encode is silently not sent. *)
Lemma send_unencodable w m e : Encode m = Error e -> send w m = w.
Proof.
  intros E. unfold send, sendMessages. cbn [sendMessagesLocked].
  assert (sendMessageLocked w m = w) as -> by (unfold sendMessageLocked; rewrite E; by destruct (_ =? -1)).
  by destruct (_ =? -1).
Qed.

(** C12.  Snapshot delivery: for every well-formed store and a connected peer, the
    packets [BroadcastSnapshot] sends all decode, and a peer that collects the
    state messages up to the one flagged last rebuilds exactly the store's
    snapshot: sequence number, calls in order, tokens and caller identities. *)
Theorem snapshot_delivered w s :
  store_wf s -> healthy w -> device_ok (sv_device (srv w)) ->
  exists packets ms,
    trace (BroadcastSnapshot w (SnapshotOf s)) = trace w ++ (Sent (clientFD (srv w)) <$> packets) /\
    srv (BroadcastSnapshot w (SnapshotOf s)) = srv w /\
    decode_all packets = Some ms /\ reassemble ms = Some (SnapshotOf s).
Proof.
  intros Hwf Hh Hd. pose proof (snapshot_sendable s Hwf) as Hc.
  destruct (wf_sequence _ Hwf) as [Hq Hq0].
  change (SnapshotOf s) with (mkSnapshot (sequence s) (sCalls (SnapshotOf s))).
  destruct (snapshotMessages_reassemble (sv_device (srv w)) (sequence s) Hd Hq Hq0 _ Hc) as [Hm Hr].
  destruct (send_healthy w _ Hh Hm) as (ps & E & Hdec).
  exists ps, (snapshotMessages (sv_device (srv w)) (mkSnapshot (sequence s) (sCalls (SnapshotOf s)))).
  unfold BroadcastSnapshot, sendMessages. by rewrite E.
Qed.

Definition demo_world : World :=
  mkWorld (mkServer (str "/run/lecall.sock") 1000 demo_address 3 7 true 40) [] [].

Lemma demo_world_ok : healthy demo_world /\ device_ok (sv_device (srv demo_world)).
Proof. split; split; [by vm_compute|done|by vm_compute|by vm_compute]. Qed.

Lemma snapshot_delivered_witness :
  exists packets ms,
    trace (BroadcastSnapshot demo_world (SnapshotOf two_answered)) =
      trace demo_world ++ (Sent (clientFD (srv demo_world)) <$> packets) /\
    srv (BroadcastSnapshot demo_world (SnapshotOf two_answered)) = srv demo_world /\
    decode_all packets = Some ms /\ reassemble ms = Some (SnapshotOf two_answered).
Proof.
  apply (snapshot_delivered demo_world two_answered); [exact two_answered_wf|apply demo_world_ok..].
Defined.

(** ** Commands and their acknowledgements *)

(** What the shared validation says about a command. *)
Lemma command_reference m :
  validate m = Ok tt -> mType m = TypeCommand ->
  0 < mType m /\ mCode m <= OpcodeJoin /\ validCallReference (mCode m) (mIndex m) (mToken m) = true.
Proof.
  unfold validate. intros H E. rewrite E in H |- *. split; [by vm_compute|].
  destruct (_ || (PayloadSize <? _)); [discriminate|]. destruct (_ =s? []); [discriminate|].
  change (TypeCommand =? TypeState) with false in H. rewrite Z.eqb_refl in H. cbv iota in H.
  destruct (negb (mFlags m =? 0)); [discriminate|].
  destruct (Z.ltb_spec OpcodeJoin (mCode m)); [discriminate|]. split; [done|].
  unfold validCallReference. destruct (mCode m =? OpcodeOriginate).
  - destruct (mIndex m =? 0), (mToken m =? 0); simpl in *; done.
  - destruct (mIndex m =? 0), (mToken m =? 0); simpl in *; done.
Qed.

Lemma classify_range r : 0 <= ClassifyCommandError r <= AckWriteFailed.
Proof. unfold ClassifyCommandError, classifyCommandError. repeat split_match; by vm_compute. Qed.

(** Whatever the handler answers, the acknowledgement of a decoded command can be
    encoded. *)
Lemma ack_sendable device m r :
  device_ok device -> message_typed m -> validate m = Ok tt -> mType m = TypeCommand ->
  message_canonical (ack_for device m r) /\ validate (ack_for device m r) = Ok tt.
Proof.
  intros Hd Ht V E. destruct (command_reference m V E) as (_ & Hc & Hr).
  destruct (validate_bounds m V) as (_ & _ & Hq). pose proof (classify_range r) as Hv.
  unfold AckWriteFailed in Hv. split.
  - split; [|apply Hd]. destruct Ht. split; simpl; auto using device_ok_bytes; try (by vm_compute).
    unfold in_width. lia.
  - unfold validate, ack_for. cbn [mType mFlags mSequence mPayload mDevice mCode mIndex mToken mValue].
    rewrite (device_not_empty device Hd), Hr.
    destruct (Z.eqb_spec (mSequence m) 0); [done|].
    destruct (Z.ltb_spec OpcodeJoin (mCode m)); [lia|].
    destruct (Z.ltb_spec AckWriteFailed (ClassifyCommandError r)); [unfold AckWriteFailed in *; lia|].
    done.
Qed.

(** The packet is a command addressed to this server. *)
Definition is_command (w : World) (p : bytes) (m : Message) : Prop :=
  Decode p = Ok m /\ mType m = TypeCommand /\ mDevice m = sv_device (srv w).

(** A packet from the connected peer has exactly one of two effects.  If it
    decodes to a command for this device, the handler runs once and the peer gets
    exactly one acknowledgement, which decodes and carries the command's sequence
    number, token, index and opcode with the classified outcome.  Otherwise the
    handler does not run and the peer is disconnected. *)
Theorem receive_spec {St} (handler : Message -> St -> result unit * St) w p st :
  healthy w -> device_ok (sv_device (srv w)) -> all_bytes p ->
  let '(w', st') := receive handler w (clientFD (srv w)) (Packet false p) st in
  (exists m ack, is_command w p m /\ st' = (handler m st).2 /\
     trace w' = trace w ++ [Sent (clientFD (srv w)) ack] /\ srv w' = srv w /\
     Decode ack = Ok (ack_for (sv_device (srv w)) m (handler m st).1)) \/
  ((forall m, ~ is_command w p m) /\ st' = st /\
   trace w' = trace w ++ [Closed (clientFD (srv w))] /\ clientFD (srv w') = -1).
Proof.
  intros Hh Hd Hb. unfold receive, is_command. cbn [orb].
  assert (dropClient w (clientFD (srv w)) =
    on_srv (emit w (Closed (clientFD (srv w)))) (fun s => with_client s (-1))) as Hdrop.
  { unfold dropClient, closeClientLocked. rewrite Z.eqb_refl.
    by rewrite (proj2 (Z.eqb_neq _ _) (proj1 Hh)). }
  destruct (negb (len p =? Z.of_nat PacketSize)) eqn:El.
  { right. rewrite Hdrop. split_and!; auto. intros m (D & _). unfold Decode in D.
    rewrite El in D. done. }
  destruct (Decode p) as [m|e] eqn:D; [|right; rewrite Hdrop; split_and!; auto; naive_solver].
  unfold str_eqb. destruct (Z.eqb_spec (mType m) TypeCommand) as [Et|Et];
    [|right; rewrite Hdrop; split_and!; auto; naive_solver].
  case_bool_decide as Ed; [|right; rewrite Hdrop; split_and!; auto; naive_solver].
  cbn [negb orb]. destruct (handler m st) as [res st'] eqn:Eh. left.
  destruct (Decode_typed p m Hb D) as [Ht V].
  destruct (ack_sendable (sv_device (srv w)) m res Hd Ht V Et) as [Hcan Hva].
  destruct (send_healthy w [ack_for (sv_device (srv w)) m res] Hh) as (ps & E & Hdec);
    [by apply Forall_singleton|].
  assert (exists a, ps = [a] /\ Decode a = Ok (ack_for (sv_device (srv w)) m res)) as (a & -> & Ha).
  { destruct ps as [|a [|b ps]]; cbn [decode_all] in Hdec; [done| |].
    - exists a. split; [done|]. change codec_decode with Decode in Hdec.
      destruct (Decode a); [congruence|done].
    - destruct (codec_decode a); [|done]. destruct (codec_decode b); [|done].
      destruct (decode_all ps); [|done]. done. }
  exists m, a. rewrite Eh. unfold send, sendMessages. rewrite E. split_and!; auto.
Qed.

(** A command packet as the channel driver sends it. *)
Definition demo_command : bytes := packet_of demo_accept.

Lemma receive_spec_witness :
  let '(w', st') := receive (fun _ n => (Ok tt, n + 1)) demo_world 7 (Packet false demo_command) 0 in
  st' = 1 /\ exists ack, trace w' = [Sent 7 ack] /\ Decode ack = Ok (ack_for demo_address demo_accept (Ok tt)).
Proof.
  pose proof (receive_spec (fun _ n => (Ok tt, n + 1)) demo_world demo_command 0
    (proj1 demo_world_ok) (proj2 demo_world_ok)
    ltac:(apply (bool_decide_unpack _); by vm_compute)) as H.
  assert (Decode demo_command = Ok demo_accept) as D by (vm_compute; reflexivity).
  change (clientFD (srv demo_world)) with 7 in H.
  destruct (receive _ demo_world 7 _ 0) as [w' st'].
  destruct H as [(m & ack & (Dm & _) & -> & Ht & _ & Da)|[H _]].
  - rewrite D in Dm. injection Dm as <-. split; [reflexivity|]. exists ack. split; [exact Ht|exact Da].
  - destruct (H demo_accept). split; [exact D|]. split; vm_compute; reflexivity.
Defined.

(** ** Who is talked to *)

(** What every send path does: it may lose the client, and sends only to it. *)
Record sends_to_client (w w' : World) : Prop := {
  st_uid : sv_peerUID (srv w') = sv_peerUID (srv w);
  st_client : clientFD (srv w') = clientFD (srv w) \/ clientFD (srv w') = -1;
  st_trace : exists new, trace w' = trace w ++ new /\
    forall fd p, Sent fd p ∈ new -> fd = clientFD (srv w) /\ fd <> -1
}.

#[export] Instance sends_to_client_refl : Reflexive sends_to_client.
Proof. intros w. split; auto. exists []. rewrite app_nil_r. split; [done|]. set_solver. Qed.
#[export] Instance sends_to_client_trans : Transitive sends_to_client.
Proof.
  intros a b c [U1 C1 (n1 & T1 & S1)] [U2 C2 (n2 & T2 & S2)]. split; [congruence| |].
  - destruct C1, C2; solve [left; congruence|right; congruence].
  - exists (n1 ++ n2). rewrite app_assoc, <- T1. split; [done|]. intros fd p H.
    apply elem_of_app in H as [H|H]; [eauto|]. destruct (S2 fd p H) as [E Hne]. split; [|done].
    destruct C1; congruence.
Qed.

Lemma on_srv_sends w f :
  (sv_peerUID (f (srv w)) = sv_peerUID (srv w)) -> clientFD (f (srv w)) = clientFD (srv w) ->
  sends_to_client w (on_srv w f).
Proof. intros. split; auto. exists []. rewrite app_nil_r. split; [done|]. set_solver. Qed.

Lemma closeClient_sends w : sends_to_client w (closeClientLocked w).
Proof.
  unfold closeClientLocked. destruct (_ =? -1); [done|]. split; simpl; auto.
  exists [Closed (clientFD (srv w))]. split; [done|]. set_solver.
Qed.

Lemma take_send_sends w : sends_to_client w (take_send w).2.
Proof.
  unfold take_send. destruct (sends w); [done|]. split; simpl; auto.
  exists []. rewrite app_nil_r. split; [done|]. set_solver.
Qed.

Lemma sendMessageLocked_sends w m : sends_to_client w (sendMessageLocked w m).
Proof.
  unfold sendMessageLocked. destruct (Z.eqb_spec (clientFD (srv w)) (-1)) as [|Hne]; [done|].
  destruct (Encode m) as [p|]; [|done].
  pose proof (take_send_sends w) as Ht. assert (srv (take_send w).2 = srv w) as Es
    by (unfold take_send; by destruct (sends w)).
  destruct (take_send w) as [ok w']. simpl in Ht, Es. transitivity w'; [done|].
  destruct ok; [|apply closeClient_sends]. split; simpl; auto.
  exists [Sent (clientFD (srv w')) p]. split; [done|]. intros fd q Hin.
  apply list_elem_of_singleton in Hin as [= -> ->]. by rewrite Es.
Qed.

Lemma sendMessages_sends w ms : sends_to_client w (sendMessagesLocked w ms).
Proof.
  revert w. induction ms as [|m ms IH]; intros w; [done|]. cbn [sendMessagesLocked].
  pose proof (sendMessageLocked_sends w m). destruct (_ =? -1); [done|]. etransitivity; [done|apply IH].
Qed.
#[export] Hint Resolve closeClient_sends sendMessageLocked_sends sendMessages_sends : go.

(** The operations of the server, each with what its environment answered. *)
Inductive server_op :=
  | OAccept (accepted : option (Z * option Z)) (sn : Snapshot)
  | OReceive (r : received) (res : Message -> result unit)
  | OHangup
  | OSetReady (b : bool)
  | OReady (b : bool)
  | OSnapshot (sn : Snapshot)
  | OResult (opcode index result token : Z)
  | OClose.

Definition server_step (w : World) (o : server_op) : World :=
  match o with
  | OAccept accepted sn => accept w accepted sn
  | OReceive r res => (receive (fun m u => (res m, u)) w (clientFD (srv w)) r tt).1
  | OHangup => dropClient w (clientFD (srv w))
  | OSetReady b => SetReady w b
  | OReady b => BroadcastReady w b
  | OSnapshot sn => BroadcastSnapshot w sn
  | OResult opcode index result token => BroadcastResult w opcode index result token
  | OClose => close w
  end.

(** The descriptor this operation was offered by a peer with the expected user id. *)
Definition offered (uid : Z) (o : server_op) (fd : Z) : Prop :=
  match o with OAccept (Some (client, Some u)) _ => fd = client /\ u = uid | _ => False end.

Lemma dropClient_sends w c : sends_to_client w (dropClient w c).
Proof. unfold dropClient. destruct (_ =? _); auto with go; done. Qed.

Lemma step_sends w o :
  (forall acc sn, o <> OAccept acc sn) -> sends_to_client w (server_step w o).
Proof.
  assert (forall w q, sends_to_client w (on_srv w (fun s => with_sequence s q))) as Hq
    by (intros; by apply on_srv_sends).
  intros Hacc. destruct o as [acc sn|r res| |b|b|sn|op i r t|]; simpl.
  - by destruct (Hacc acc sn).
  - unfold receive. repeat split_match; simpl; auto using dropClient_sends; try done; apply sendMessages_sends.
  - apply dropClient_sends.
  - unfold SetReady, nextSequence. destruct (negb _); [|by apply on_srv_sends].
    etransitivity; [|apply sendMessageLocked_sends]. etransitivity; [|apply Hq]. by apply on_srv_sends.
  - unfold BroadcastReady, nextSequence. etransitivity; [|apply sendMessages_sends]. apply Hq.
  - apply sendMessages_sends.
  - unfold BroadcastResult, nextSequence. etransitivity; [|apply sendMessages_sends]. apply Hq.
  - unfold close. pose proof (closeClient_sends w) as Hc. destruct (_ =? -1); [done|].
    transitivity (closeClientLocked w); [done|]. split; simpl; auto.
    exists [Closed (listenerFD (srv (closeClientLocked w)))]. split; [done|]. set_solver.
Qed.

Lemma accept_sends w acc sn :
  (sends_to_client w (accept w acc sn)) \/
  (exists client, acc = Some (client, Some (sv_peerUID (srv w))) /\ clientFD (srv w) = -1 /\
     sends_to_client (on_srv w (fun s => with_client s client)) (accept w acc sn)).
Proof.
  unfold accept. destruct acc as [[client cred]|]; [|by left].
  assert (sends_to_client w (emit w (Closed client))) as He.
  { split; simpl; auto. exists [Closed client]. split; [done|]. set_solver. }
  case_bool_decide as Eu; cbn [negb]; [|by left].
  destruct (Z.eqb_spec (clientFD (srv w)) (-1)); cbn [negb]; [|by left].
  right. exists client. subst cred. split_and!; auto. unfold nextSequence.
  etransitivity; [|apply sendMessages_sends]. by apply on_srv_sends.
Qed.

(** Every packet went to an offered descriptor, and so would the next. *)
Record authorised (uid : Z) (ops : list server_op) (w : World) : Prop := {
  au_uid : sv_peerUID (srv w) = uid;
  au_client : clientFD (srv w) = -1 \/ exists o, o ∈ ops /\ offered uid o (clientFD (srv w));
  au_trace : forall fd p, Sent fd p ∈ trace w -> exists o, o ∈ ops /\ offered uid o fd
}.

Lemma authorised_weaken uid ops ops' w :
  (forall o, o ∈ ops -> o ∈ ops') -> authorised uid ops w -> authorised uid ops' w.
Proof. intros H [U C T]. split; [done|naive_solver|naive_solver]. Qed.

Lemma authorised_sends uid ops w w' :
  sends_to_client w w' -> authorised uid ops w -> authorised uid ops w'.
Proof.
  intros [U C (new & T & S)] [Hu Hc Ht]. split; [congruence| |].
  - destruct C as [->| ->]; auto.
  - intros fd p Hin. rewrite T in Hin. apply elem_of_app in Hin as [Hin|Hin]; [eauto|].
    destruct (S fd p Hin) as [-> Hne]. destruct Hc; [done|]. done.
Qed.

Lemma authorised_step uid ops w o :
  authorised uid ops w -> authorised uid (ops ++ [o]) (server_step w o).
Proof.
  intros H. apply (authorised_weaken _ _ (ops ++ [o])) in H; [|set_solver].
  destruct o as [acc sn|r res| |b|b|sn|op i r t|];
    try (eapply authorised_sends; [by apply step_sends|done]).
  destruct (accept_sends w acc sn) as [Hs|(client & -> & Hn & Hs)]; [by eapply authorised_sends|].
  eapply authorised_sends; [exact Hs|]. destruct H as [Hu Hc Ht]. split; simpl; auto.
  right. exists (OAccept (Some (client, Some (sv_peerUID (srv w)))) sn). split; [set_solver|].
  by rewrite Hu.
Qed.

(** Over any sequence of operations and answers of the environment, packets
    go only to descriptors whose peer presented the configured user id, and the
    client the server serves is always such a descriptor (or none); a peer that
    connects while one is served is closed and changes nothing. *)
Theorem only_authorised_peers w ops :
  clientFD (srv w) = -1 -> trace w = [] ->
  let w' := foldl server_step w ops in
  authorised (sv_peerUID (srv w)) ops w' /\
  (clientFD (srv w') <> -1 -> forall fd cred sn,
     srv (server_step w' (OAccept (Some (fd, cred)) sn)) = srv w' /\
     trace (server_step w' (OAccept (Some (fd, cred)) sn)) = trace w' ++ [Closed fd]).
Proof.
  intros Hc Ht. cbv zeta. split.
  - induction ops as [|o ops IH] using rev_ind; simpl.
    { split; [done|by left|]. rewrite Ht. set_solver. }
    rewrite foldl_app. by apply authorised_step.
  - intros Hne fd cred sn. simpl. destruct (negb (bool_decide _)); [done|].
    by rewrite (proj2 (Z.eqb_neq _ _) Hne).
Qed.

Lemma only_authorised_peers_witness :
  let w := mkWorld (mkServer (str "/run/x") 1000 demo_address 3 (-1) false 40) [] [] in
  let ops := [OAccept (Some (8, Some 0)) (SnapshotOf two_answered);
              OAccept (Some (9, Some 1000)) (SnapshotOf two_answered); OSetReady true] in
  authorised 1000 ops (foldl server_step w ops) /\ clientFD (srv (foldl server_step w ops)) = 9.
Proof.
  intros w ops. split; [|vm_compute; reflexivity].
  apply (only_authorised_peers w ops); reflexivity.
Defined.
