(* ===== verification/LeCall.v ===== *)
(** * The le-call-go service

    Models runServe of src/callbridge-le-call-go/cmd/le-call-go/main.go: how the
    GTBS client's callbacks drive the control server and the media broker, what a
    command from the channel driver does before it reaches the client, and how the
    three goroutines' results end the process.  The broker's own behaviour is in
    [Sessions]; here its calls are an action trace. *)

From S2P Require Import Prelude GoStd Protocol GtbsState Inventory GtbsClient Control.

(** Calls on the media broker. *)
Inductive action :=
  | HoldAdvertisement (held : bool)
  | DropLEBearer
  | ReleaseCallToken (token : Z).

Record Service := mkService {
  client : Client;
  server : World;
  droppedForToken : Z
}.

(** The [Snapshot] callback; [order] enumerates the store's calls. *)
Definition on_snapshot (st : Service) (order : list Call) (sn : Snapshot) : Service * list action :=
  let w := BroadcastSnapshot (server st) sn in
  let token := HandsetAnswered (store (client st)) order in
  let hold := HoldAdvertisement (negb (token =? 0)) in
  if token =? 0 then (mkService (client st) w 0, [hold])
  else if negb (token =? droppedForToken st)
       then (mkService (client st) w token, [hold; DropLEBearer])
       else (mkService (client st) w (droppedForToken st), [hold]).

Definition on_event (st : Service) (order : list Call) (e : event) : Service * list action :=
  match e with
  | EvSnapshot sn => on_snapshot st order sn
  | EvReady r => (mkService (client st) (SetReady (server st) r) (droppedForToken st), [])
  | EvResult opcode index res token =>
      (mkService (client st) (BroadcastResult (server st) opcode index res token) (droppedForToken st), [])
  | _ => (st, [])
  end.

(** The command closure up to the client's write: the claim comes first. *)
Definition command_prepare (c : Client) (m : Message) : Client * list action :=
  let actions := if mCode m =? OpcodeTerminate then [ReleaseCallToken (mToken m)] else [] in
  let c := if mCode m =? OpcodeAccept
           then with_store c (ClaimCall (store c) (mIndex m) (mToken m)) else c in
  (c, actions).

Definition command (wr : option error) (m : Message) (c : Client) : result unit * Client :=
  let '(c, _) := command_prepare c m in
  match command_begin c m with
  | (Refused e, c) => (Error e, c)
  | (Writing _ _, c) => command_end c m wr
  end.

(** The end of [runServe]: the first goroutine's result, then up to two more, each
    a result or a timeout ([None]). *)
Fixpoint shutdown (first : option error) (rest : list (option (option error))) : option error :=
  match rest with
  | [] => first
  | None :: _ => match first with
                 | None => Some (New "LE call Go shutdown timed out")
                 | Some e => Some e
                 end
  | Some err :: rest =>
      shutdown (match first with None => err | Some e => Some e end) rest
  end.

(** ** Accepting a call *)

(** The store keeps a claim on a call through any operation after which the call is still listed. *)
Lemma claim_kept s i t o :
  store_wf s -> headroom s -> op_bytes o -> claimed s !! i = Some t -> is_Some (calls (exec s o) !! i) -> claimed (exec s o) !! i = Some t.
Proof.
  intros Hwf Hroom Hb Hcl [c Hc]. destruct (wf_claimed _ Hwf i t Hcl) as (d & Hd & Et). destruct o as [v|v|j u]; cbn [exec op_bytes] in *.
  - destruct (Apply s v) as [[sn s']|e] eqn:H; [|done]. destruct (Apply_applied _ _ _ _ Hwf Hroom Hb H) as [parsed A].
    pose proof (as_origin _ _ _ _ _ (ap_assigned _ _ _ _ _ A) i c Hc) as O. unfold token_origin in O. rewrite Hd in O.
    apply (ap_claimed _ _ _ _ _ A). split; [done|]. exists c. split; [done|congruence].
  - by destruct (ApplyIncomingCall_frame s v) as (_ & -> & _).
  - unfold ClaimCall. destruct (decide (j = i)) as [->|Ne].
    + rewrite Hd. repeat split_match; try done. bool_prop. cbn. rewrite lookup_insert_eq. congruence.
    + repeat split_match; try done. cbn. by rewrite lookup_insert_ne.
Qed.
(** [ops], the latest first, lead from [s] to [s'], and after each of them there is a call [i]. *)
Inductive listed (i : Z) (s : Store) : list store_op -> Store -> Prop :=
  | listed_now : listed i s [] s
  | listed_next ops s1 o : listed i s ops s1 -> op_bytes o -> is_Some (calls (exec s1 o) !! i) -> listed i s (o :: ops) (exec s1 o).
Lemma claim_stays nano ops0 s ops s' i t :
  reachable nano ops0 s -> len (ops ++ ops0) <= 2 ^ 54 -> claimed s !! i = Some t -> listed i s ops s' ->
  reachable nano (ops ++ ops0) s' /\ claimed s' !! i = Some t.
Proof.
  intros Hr L Hcl Li. induction Li as [|ops s1 o Li IH Hb Hs]; [done|].
  assert (len ((o :: ops) ++ ops0) = 1 + len (ops ++ ops0)) as El by (unfold len; cbn; lia).
  destruct IH as [R1 C1]; [lia|]. split; [by apply reach_step|]. destruct (reachable_age _ _ _ R1 ltac:(lia)) as [W1 A1].
  apply claim_kept; try done. unfold headroom. change (2 ^ 54) with 18014398509481984 in L. lia.
Qed.
Lemma claimed_ours s i t :
  store_wf s -> claimed s !! i = Some t -> exists d, calls s !! i = Some d /\ cToken d = t /\ carriable s d /\ answered_elsewhere s d = false.
Proof.
  intros Hwf Hcl. destruct (wf_claimed _ Hwf i t Hcl) as (d & Hd & Et). exists d.
  assert (carriable s d) as Hc by (right; right; rewrite (wf_index s i d Hwf Hd); congruence). split_and!; try done.
  apply not_true_iff_false. rewrite (answered_elsewhere_iff s i d Hwf Hd). tauto.
Qed.

(** C15.  When an Accept reaches the phone, the call is already claimed, and stays ours for as long as it lasts: whatever
    call-state updates and incoming-call notifications the phone sends afterwards, even before the write returns, and whatever else is claimed here, over
    any number of them (2^54 operations on the store in all), as long as the call stays listed it keeps its token and its claim, is one the media path
    may carry, and is never taken for a call answered on the handset. *)
Theorem accepted_call_stays_ours nano ops0 c m p v :
  reachable nano ops0 (store c) -> len ops0 < 2 ^ 54 -> mCode m = OpcodeAccept ->
  (command_begin (command_prepare c m).1 m).1 = Writing p v ->
  let s := store (command_begin (command_prepare c m).1 m).2 in
  claimed s !! mIndex m = Some (mToken m) /\
  forall ops s', len ops + len ops0 < 2 ^ 54 -> listed (mIndex m) s ops s' ->
    claimed s' !! mIndex m = Some (mToken m) /\
    exists d, calls s' !! mIndex m = Some d /\ cToken d = mToken m /\ carriable s' d /\ answered_elsewhere s' d = false.
Proof.
  intros Hr L Hm Hw. unfold command_prepare in *. rewrite Hm in *. cbn [fst snd] in *.
  change (OpcodeAccept =? OpcodeAccept) with true in *. cbv iota in *.
  set (s1 := ClaimCall (store c) (mIndex m) (mToken m)) in *.
  assert (reachable nano (DoClaim (mIndex m) (mToken m) :: ops0) s1) as Hr1 by (by apply (reach_step nano ops0 (store c))).
  assert (forall c', store (command_begin c' m).2 = store c') as Hst
    by (intros; unfold command_begin; repeat split_match; done).
  rewrite Hst. cbn [with_store store].
  assert (claimed s1 !! mIndex m = Some (mToken m)) as Hcl.
  { unfold command_begin in Hw. cbn [with_store store device mCode] in Hw. rewrite Hm in Hw.
    destruct (_ || _); [done|]. change (OpcodeAccept =? OpcodeOriginate) with false in Hw.
    cbn [andb negb] in Hw. destruct (ValidateIndexedCommand s1 _ _ _) eqn:Ev; [|done].
    unfold ValidateIndexedCommand in Ev. subst s1. destruct (ClaimCall_frame (store c) (mIndex m) (mToken m)) as (Hcs & _).
    rewrite Hcs in Ev. unfold ClaimCall. destruct (calls (store c) !! mIndex m) as [d|] eqn:Ed; [|done].
    destruct (mToken m =? 0) eqn:E0; [done|]. destruct (cToken d =? mToken m) eqn:Et; [|done].
    simpl. apply lookup_insert_eq. }
  split; [done|]. intros ops s' Ls Li.
  assert (len (ops ++ DoClaim (mIndex m) (mToken m) :: ops0) <= 2 ^ 54) as Lt by (rewrite len_app; unfold len in *; cbn [length]; lia).
  destruct (claim_stays _ _ _ _ _ _ _ Hr1 Lt Hcl Li) as [Hr' Hcl']. split; [done|]. apply claimed_ours; [|done].
  by apply (reachable_age _ _ _ Hr' Lt).
Qed.

(** The call is accepted, another comes in, and the first becomes active. *)
Definition accepted_store : Store := store (command_begin (command_prepare demo_session demo_accept).1 demo_accept).2.
Lemma accepted_call_witness :
  let s' := exec (exec accepted_store (DoApply [2; 0; 0; 5; 0; 0])) (DoApply [2; 3; 0; 5; 0; 0]) in
  claimed s' !! 2 = Some 6 /\
    exists d, calls s' !! 2 = Some d /\ cToken d = 6 /\ carriable s' d /\ answered_elsewhere s' d = false.
Proof.
  intros s'. apply (accepted_call_stays_ours 5 [DoApply [2; 0; 0]] demo_session demo_accept (str "/d/s/b") [OpcodeAccept; 2])
    with (ops := [DoApply [2; 3; 0; 5; 0; 0]; DoApply [2; 0; 0; 5; 0; 0]]).
  - apply run_ops_reachable. apply (bool_decide_unpack _). by vm_compute.
  - by vm_compute.
  - reflexivity.
  - vm_compute. reflexivity.
  - by vm_compute.
  - apply listed_next; [apply listed_next; [apply listed_now| |]| |]; first [apply (bool_decide_unpack _); by vm_compute|vm_compute; by eexists].
Defined.

(** The claim is made whether or not the Accept is sent: with the session
    down the command is refused, yet the claim stays, and when the phone then
    reports the call active, answered on the handset, the media path is offered
    it. *)
Theorem refused_accept_still_claims :
  exists c m value, store_wf (store c) /\ all_bytes value /\ mCode m = OpcodeAccept /\
    (command None m c).1 = Error ErrUnavailable /\
    let s := store (command None m c).2 in
    exists sn s', Apply s value = Ok (sn, s') /\ CurrentCallToken s' = (mToken m, true) /\
      HandsetAnswered s' ((map_to_list (calls s')).*2) = 0.
Proof.
  set (c := with_store demo_client (run_ops 5 [DoApply [2; 0; 0]])).
  set (s1 := store (command None demo_accept c).2).
  exists c, demo_accept, [2; 3; 0]. split_and!.
  - apply (reachable_age 5 [DoApply [2; 0; 0]]); [apply run_ops_reachable|by vm_compute].
    apply (bool_decide_unpack _). by vm_compute.
  - apply (bool_decide_unpack _). by vm_compute.
  - done.
  - vm_compute. reflexivity.
  - exists (match Apply s1 [2; 3; 0] with Ok x => x.1 | Error _ => mkSnapshot 0 [] end),
      (match Apply s1 [2; 3; 0] with Ok x => x.2 | Error _ => NewStore 0 end).
    split_and!; vm_compute; reflexivity.
Qed.

(** ** Handing a handset-answered call back *)

(** The callbacks of a run: each with the store and enumeration it saw. *)
Fixpoint snapshot_run (st : Service) (seen : list (Store * list Call)) : Service * list (list action) :=
  match seen with
  | [] => (st, [])
  | (s, order) :: seen =>
      let st := mkService (with_store (client st) s) (server st) (droppedForToken st) in
      let '(st, a) := on_snapshot st order (SnapshotOf s) in
      let '(st, l) := snapshot_run st seen in (st, a :: l)
  end.

(** What the media broker should be told, from the tokens alone: hold exactly while
    some call is answered elsewhere, and drop the link once when that call changes. *)
Fixpoint hand_back (previous : Z) (tokens : list Z) : list (list action) :=
  match tokens with
  | [] => []
  | t :: tokens =>
      (HoldAdvertisement (negb (t =? 0)) ::
       (if negb (t =? 0) && negb (t =? previous) then [DropLEBearer] else []))
      :: hand_back t tokens
  end.

(** Along any run of snapshots the advertisement is held exactly while a
    call is answered on the handset, the hold precedes the drop, and the link is
    dropped exactly when the reported call differs from the one reported just
    before: a repeated snapshot of the same call never drops again. *)
Theorem hand_back_once st seen :
  (snapshot_run st seen).2 =
  hand_back (droppedForToken st) ((fun x => HandsetAnswered x.1 x.2) <$> seen).
Proof.
  revert st. induction seen as [|[s order] seen IH]; intros st; [done|]. csimpl.
  unfold on_snapshot. cbn [client server droppedForToken store with_store].
  set (t := HandsetAnswered s order).
  destruct (Z.eqb_spec t 0) as [E|E]; cbn [negb andb].
  - destruct (snapshot_run _ seen) as [st' l] eqn:Er. apply (f_equal snd) in Er. simpl in Er.
    rewrite IH in Er. simpl in *. by rewrite <- Er, E.
  - destruct (Z.eqb_spec t (droppedForToken st)) as [E'|E']; cbn [negb];
      destruct (snapshot_run _ seen) as [st' l] eqn:Er; apply (f_equal snd) in Er; simpl in Er;
      rewrite IH in Er; simpl in *; by rewrite <- Er, ?E'.
Qed.

(** ** Results that reach the channel driver *)

(** C40.  A successful originate whose Call State notification has not arrived yet
    is lost: the client reports the result with the phone's call index and token
    0, which no packet can carry, so the channel driver is sent nothing. *)
Theorem early_originate_result_lost c w i r :
  pendingOriginate c = true -> onResult (cbs c) = true ->
  1 <= i <= 255 -> ValidResult r = true -> calls (store c) !! i = None ->
  (handleControlResult c [OpcodeOriginate; i; r]).2 = [EvResult OpcodeOriginate i r 0] /\
  trace (BroadcastResult w OpcodeOriginate i r 0) = trace w.
Proof.
  intros Hp Hon Hi Hr Hn. split.
  - unfold handleControlResult. cbn [len length at_ nth]. rewrite Hr.
    change (OpcodeJoin <? OpcodeOriginate) with false.
    change (OpcodeOriginate =? OpcodeOriginate) with true. cbn. rewrite Hp. cbn.
    unfold TokenForIndex. cbn. rewrite Hn. unfold emitResult. cbn. by rewrite Hon.
  - unfold BroadcastResult, nextSequence. set (m := {| mType := TypeResult |}).
    assert (exists e, Encode m = Error e) as [e He].
    { unfold Encode, validate, m. cbn [mType mFlags mSequence mPayload mDevice mCode mIndex mToken mValue].
      destruct (_ || _); [by eexists|]. destruct (_ =s? []); [by eexists|].
      change (TypeResult =? TypeState) with false. change (TypeResult =? TypeCommand) with false.
      change (TypeResult =? TypeAck) with false. rewrite Z.eqb_refl. cbv iota.
      unfold validCallReference. rewrite Z.eqb_refl, (proj2 (Z.eqb_neq i 0)) by lia.
      change (0 =? 0) with true. cbn. by eexists. }
    by rewrite (send_unencodable _ m e He).
Qed.

Lemma early_originate_witness :
  trace (BroadcastResult demo_world OpcodeOriginate 3 0 0) = [].
Proof.
  apply (early_originate_result_lost (with_pending demo_session ∅ true) demo_world 3 0);
    try reflexivity; lia.
Defined.
