(* ===== verification/Lc3.v ===== *)
(** * LC3 capabilities and configurations

    Models src/callbridge-sms-go/internal/bluez/lc3.go: the length-type-value
    parser, the preference-ordered choice of a conversational preset, the
    configuration it builds, and the parser of configurations the phone sends. *)

From stdpp Require Import pretty.
From S2P Require Import Prelude GoStd.

Definition FrontLeftLocation : Z := 0x00000001.
Definition FrontCenterLocation : Z := 0x00000004.
Definition UnspecifiedContext : Z := 0x0001.
Definition ConversationalContext : Z := 0x0002.
Definition MediaContext : Z := 0x0004.
Definition SupportedContexts : Z := Z.lor UnspecifiedContext ConversationalContext.
Definition ltvFrequency : Z := 0x01.
Definition ltvDuration : Z := 0x02.
Definition ltvChannelAllocation : Z := 0x03.
Definition ltvFrameLength : Z := 0x04.
Definition ltvFrameBlocksPerSDU : Z := 0x05.

Definition LC3Capabilities : bytes :=
  [0x03; ltvFrequency; 0x34; 0x00; 0x02; ltvDuration; 0x23; 0x02; ltvChannelAllocation; 0x01;
   0x05; ltvFrameLength; 30; 0; 80; 0].

(** Durations are nanoseconds, as in package time. *)
Definition Microsecond : Z := 1000.
Definition Millisecond : Z := 1000000.
Definition Second : Z := 1000000000.

Record CodecConfig := mkCodecConfig {
  SampleRate : Z;
  FrameDuration : Z;
  OctetsPerFrame : Z;
  ChannelAllocation : Z
}.

Record preset := mkPreset {
  p_name : string;
  frequencyCode : Z;
  frequencyBit : Z;
  durationCode : Z;
  durationBit : Z;
  sampleRate : Z;
  frameDuration : Z;
  octets : Z
}.

Definition conversationalPresets : list preset :=
  [ mkPreset "32_2" 0x06 (Z.shiftl 1 5) 0x01 (Z.shiftl 1 1) 32000 (10 * Millisecond) 80;
    mkPreset "32_1" 0x06 (Z.shiftl 1 5) 0x00 (Z.shiftl 1 0) 32000 (7500 * Microsecond) 60;
    mkPreset "16_1" 0x03 (Z.shiftl 1 2) 0x00 (Z.shiftl 1 0) 16000 (7500 * Microsecond) 30;
    mkPreset "24_2" 0x05 (Z.shiftl 1 4) 0x01 (Z.shiftl 1 1) 24000 (10 * Millisecond) 60;
    mkPreset "24_1" 0x05 (Z.shiftl 1 4) 0x00 (Z.shiftl 1 0) 24000 (7500 * Microsecond) 45;
    mkPreset "16_2" 0x03 (Z.shiftl 1 2) 0x01 (Z.shiftl 1 1) 16000 (10 * Millisecond) 40 ].

(** ** Length-type-value lists *)

(** The loop of [parseLTV] on the bytes from the current offset.  Every round
    consumes at least three bytes, so the length of the input is enough fuel
    ([parseLTV_spec]). *)
Fixpoint ltv_loop (fuel : nat) (rest : bytes) (values : gmap Z bytes) : result (gmap Z bytes) :=
  match rest with
  | [] => Ok values
  | b :: _ =>
      match fuel with
      | O => fail! "malformed LC3 LTV"
      | S fuel =>
          if (b <? 2) || (len rest <? 1 + b) then fail! "malformed LC3 LTV"
          else
            let typeID := at_ rest 1 in
            match values !! typeID with
            | Some _ => fail! "duplicate LC3 LTV type"
            | None =>
                ltv_loop fuel (drop (Z.to_nat (b + 1)) rest)
                  (<[typeID := slice rest 2 (Z.to_nat (1 + b))]> values)
            end
      end
  end.

Definition parseLTV (raw : bytes) : result (gmap Z bytes) :=
  if (len raw =? 0) || (64 <? len raw) then fail! "LC3 LTV length outside bound"
  else ltv_loop (length raw) raw ∅.

(** ** Choosing a configuration *)
Definition buildConfiguration (candidate : preset) (allocation : Z) : bytes :=
  [0x02; ltvFrequency; frequencyCode candidate;
   0x02; ltvDuration; durationCode candidate;
   0x05; ltvChannelAllocation; u8 allocation; u8 (Z.shiftr allocation 8);
     u8 (Z.shiftr allocation 16); u8 (Z.shiftr allocation 24);
   0x03; ltvFrameLength; u8 (octets candidate); u8 (Z.shiftr (octets candidate) 8)].

Definition compatible (frequencyMask duration minimum maximum : Z) (candidate : preset) : bool :=
  has_bits frequencyMask (frequencyBit candidate) && has_bits duration (durationBit candidate) &&
  (minimum <=? octets candidate) && (octets candidate <=? maximum).

(** [values[key]] with its length. *)
Definition field (values : gmap Z bytes) (key n : Z) : option bytes :=
  match values !! key with
  | Some v => if len v =? n then Some v else None
  | None => None
  end.

Definition SelectConfigurationForAllocation (capabilities : bytes) (allocation : Z) : result bytes :=
  if (allocation =? 0) || negb (OnesCount32 allocation =? 1)
  then fail! "LC3 channel allocation must select one location"
  else
    let! values := parseLTV capabilities in
    match field values ltvFrequency 2 with
    | None => fail! "LC3 frequency capability missing"
    | Some frequency =>
        match field values ltvDuration 1 with
        | None => fail! "LC3 frame duration capability missing"
        | Some duration =>
            if Z.land (at_ duration 0) 0x03 =? 0 then fail! "LC3 frame duration capability missing"
            else match field values ltvChannelAllocation 1 with
                 | None => fail! "LC3 mono capability missing"
                 | Some channels =>
                     if Z.land (at_ channels 0) 0x01 =? 0 then fail! "LC3 mono capability missing"
                     else match field values ltvFrameLength 4 with
                          | None => fail! "LC3 frame length capability missing"
                          | Some frameLength =>
                              let minimum := le_value (slice frameLength 0 2) in
                              let maximum := le_value (slice frameLength 2 4) in
                              if (minimum =? 0) || (maximum <? minimum)
                              then fail! "invalid LC3 frame length range"
                              else match List.find (compatible (le_value frequency) (at_ duration 0) minimum maximum)
                                           conversationalPresets with
                                   | Some candidate => Ok (buildConfiguration candidate allocation)
                                   | None => fail! "no supported conversational LC3 preset"
                                   end
                          end
                 end
        end
    end.

Definition SelectConfiguration (capabilities : bytes) : result bytes :=
  SelectConfigurationForAllocation capabilities FrontLeftLocation.

(** ** Reading a configuration *)
Definition parse_allocation (values : gmap Z bytes) : result Z :=
  match values !! ltvChannelAllocation with
  | None => Ok FrontLeftLocation
  | Some raw =>
      if negb (len raw =? 4) then fail! "invalid LC3 channel allocation"
      else
        let allocation := le_value raw in
        if (allocation =? 0) || negb (OnesCount32 allocation =? 1)
        then fail! "LC3 configuration must be mono" else Ok allocation
  end.

Definition ParseConfiguration (configuration : bytes) : result CodecConfig :=
  let! values := parseLTV configuration in
  match field values ltvFrequency 1 with
  | None => fail! "LC3 frequency configuration missing"
  | Some frequency =>
      match field values ltvDuration 1 with
      | None => fail! "unsupported LC3 frame duration"
      | Some duration =>
          if 0x01 <? at_ duration 0 then fail! "unsupported LC3 frame duration"
          else match field values ltvFrameLength 2 with
               | None => fail! "LC3 frame length configuration missing"
               | Some frameLength =>
                   if match values !! ltvFrameBlocksPerSDU with
                      | Some blocks => negb (len blocks =? 1) || negb (at_ blocks 0 =? 1)
                      | None => false
                      end
                   then fail! "LC3 configuration requires one frame block per SDU"
                   else
                     let! allocation := parse_allocation values in
                     let octetsRead := le_value frameLength in
                     match List.find (fun p => (at_ frequency 0 =? frequencyCode p) &&
                                               (at_ duration 0 =? durationCode p)) conversationalPresets with
                     | Some candidate =>
                         if negb (octetsRead =? octets candidate)
                         then Error (New ("LC3 " ++ p_name candidate ++ " requires " ++
                                          pretty (octets candidate) ++ " octets"))
                         else Ok {| SampleRate := sampleRate candidate;
                                    FrameDuration := frameDuration candidate;
                                    OctetsPerFrame := octetsRead; ChannelAllocation := allocation |}
                     | None => fail! "unsupported LC3 conversational preset"
                     end
               end
      end
  end.

(** ** What [parseLTV] accepts *)
Definition ltv_bytes (e : Z * bytes) : bytes := (1 + len e.2) :: e.1 :: e.2.
Definition ltv_ok (e : Z * bytes) : Prop := 1 <= len e.2 <= 254 /\ is_byte e.1 /\ all_bytes e.2.


Lemma ltv_concat_cons t v es :
  concat (ltv_bytes <$> (t, v) :: es) = (1 + len v) :: t :: v ++ concat (ltv_bytes <$> es).
Proof. done. Qed.

(** The end of the input. *)
Lemma ltv_done (values m : gmap Z bytes) :
  Ok values = Ok m <->
  exists es, [] = concat (ltv_bytes <$> es) /\ Forall ltv_ok es /\ NoDup es.*1 /\
    (forall t, t ∈ es.*1 -> values !! t = None) /\ m = list_to_map es ∪ values.
Proof.
  split.
  - intros [= <-]. exists []. split_and!; [done|apply Forall_nil_2|apply NoDup_nil_2|set_solver|].
    simpl. by rewrite (left_id_L ∅ (∪)).
  - intros ([|[t v] es] & E & _ & _ & _ & ->); [simpl; by rewrite (left_id_L ∅ (∪))|done].
Qed.

Lemma union_insert_swap (x values : gmap Z bytes) t v :
  x !! t = None -> x ∪ <[t := v]> values = <[t := v]> x ∪ values.
Proof.
  intros Hx. apply map_eq. intros k. rewrite !lookup_union, !lookup_insert.
  case_decide; subst; [rewrite Hx; by destruct (values !! k)|done].
Qed.

(** The entries of [rest] that the loop adds to [values]. *)
Definition ltv_entries (rest : bytes) (values m : gmap Z bytes) : Prop :=
  exists es, rest = concat (ltv_bytes <$> es) /\ Forall ltv_ok es /\ NoDup es.*1 /\
    (forall t, t ∈ es.*1 -> values !! t = None) /\ m = list_to_map es ∪ values.
Definition ltv_exact (fuel : nat) : Prop :=
  forall rest values m, (length rest <= fuel)%nat -> all_bytes rest -> ltv_loop fuel rest values = Ok m <-> ltv_entries rest values m.
Lemma ltv_sound fuel b rest values m :
  ltv_exact fuel -> (length (b :: rest) <= S fuel)%nat -> 0 <= b < 256 -> all_bytes rest ->
  ltv_loop (S fuel) (b :: rest) values = Ok m -> ltv_entries (b :: rest) values m.
Proof.
  intros IH Hf Hb0 Hb. cbn [ltv_loop]. rewrite len_cons.
  intros H. destruct ((b <? 2) || (1 + len rest <? 1 + b)) eqn:E; [done|]. bool_prop.
  destruct rest as [|t rest]; [unfold len in *; simpl in *; lia|].
  rewrite len_cons in *. change (at_ (b :: t :: rest) 1) with t in H.
  destruct (values !! t) eqn:Ev; [done|].
  replace (Z.to_nat (b + 1)) with (S (S (Z.to_nat (b - 1)))) in H by lia.
  replace (slice (b :: t :: rest) 2 (Z.to_nat (1 + b))) with (take (Z.to_nat (b - 1)) rest) in H
    by (unfold slice; simpl; f_equal; lia).
  cbn [drop] in H. apply Forall_cons_1 in Hb as [Ht Hb]. set (v := take (Z.to_nat (b - 1)) rest) in *.
  assert (len v = b - 1) as Lv by (subst v; unfold len in *; rewrite length_take; lia).
  apply IH in H; [|rewrite length_drop; simpl in Hf; lia|by apply Forall_drop].
  destruct H as (es & Er & Hok & Hd & Hn & ->).
  assert (t ∉ es.*1) as Hte by (intros Hin; specialize (Hn t Hin); by rewrite lookup_insert_eq in Hn).
  exists ((t, v) :: es). split_and!.
  + rewrite ltv_concat_cons, <- Er, Lv. subst v. rewrite take_drop. do 2 f_equal. lia.
  + constructor; [|done]. unfold ltv_ok. cbn [fst snd]. split_and!; auto; [lia|lia|].
    subst v. by apply Forall_take.
  + csimpl. by constructor.
  + csimpl. intros u Hu. apply elem_of_cons in Hu as [->|Hu]; [done|].
    specialize (Hn u Hu). by apply lookup_insert_None in Hn as [? _].
  + csimpl. apply union_insert_swap. by apply not_elem_of_list_to_map.
Qed.
Lemma ltv_complete fuel b rest values m :
  ltv_exact fuel -> (length (b :: rest) <= S fuel)%nat -> all_bytes rest ->
  ltv_entries (b :: rest) values m -> ltv_loop (S fuel) (b :: rest) values = Ok m.
Proof.
  intros IH Hf Hb. cbn [ltv_loop]. rewrite len_cons.
  intros ([|[t v] es] & E & Hok & Hd & Hn & ->); [done|]. rewrite ltv_concat_cons in E.
  injection E as -> ->.
  apply Forall_cons_1 in Hok as [(Hv & Ht & Hbv) Hok]. cbn [fst snd] in *. csimpl in Hd.
  apply NoDup_cons in Hd as [Hte Hd].
  assert (len (t :: v ++ concat (ltv_bytes <$> es)) = 1 + len v + len (concat (ltv_bytes <$> es))) as Ll
    by (rewrite len_cons, len_app; lia).
  rewrite Ll. pose proof (len_nonneg (concat (ltv_bytes <$> es))).
  destruct (Z.ltb_spec (1 + len v) 2); [lia|].
  destruct (Z.ltb_spec (1 + (1 + len v + len (concat (ltv_bytes <$> es)))) (1 + (1 + len v))); [lia|].
  cbn [orb].
  change (at_ (1 + len v :: t :: v ++ concat (ltv_bytes <$> es)) 1) with t.
  rewrite (Hn t) by (csimpl; set_solver).
  replace (Z.to_nat (1 + len v + 1)) with (S (S (length v))) by (unfold len; lia).
  replace (Z.to_nat (1 + (1 + len v))) with (2 + length v)%nat by (unfold len; lia).
  assert (slice (1 + len v :: t :: v ++ concat (ltv_bytes <$> es)) 2 (2 + length v) = v) as ->.
  { change (1 + len v :: t :: v ++ concat (ltv_bytes <$> es)) with
      (([1 + len v; t] ++ v) ++ concat (ltv_bytes <$> es)).
    rewrite slice_app_l by (rewrite ?length_app; simpl; lia). by apply slice_app_full. }
  cbn [drop].
  rewrite drop_app_length. apply IH.
  + simpl in Hf. rewrite length_app in Hf. lia.
  + apply Forall_cons_1 in Hb as [_ Hb]. by apply Forall_app in Hb as [_ Hb].
  + exists es. split_and!; auto.
    * intros u Hu. apply lookup_insert_None. split; [apply Hn; csimpl; set_solver|]. by intros ->.
    * csimpl. symmetry. apply union_insert_swap. by apply not_elem_of_list_to_map.
Qed.
Lemma ltv_loop_spec fuel : ltv_exact fuel.
Proof.
  induction fuel as [|fuel IH]; intros rest values m Hf Hb; (destruct rest as [|b rest]; [apply ltv_done|]); [simpl in Hf; lia|].
  apply Forall_cons_1 in Hb as [Hb0 Hb]. unfold in_width in Hb0. split; [by apply ltv_sound|by apply ltv_complete].
Qed.

(** [parseLTV] accepts exactly the concatenations, up to 64 bytes and not
    empty, of length-type-value entries with distinct types and at least one value
    byte, and returns exactly their values; in particular the loop always ends
    within the input and never reads past it. *)
Theorem parseLTV_spec raw m :
  all_bytes raw ->
  parseLTV raw = Ok m <->
  exists es, raw = concat (ltv_bytes <$> es) /\ 0 < len raw <= 64 /\ Forall ltv_ok es /\
    NoDup es.*1 /\ m = list_to_map es.
Proof.
  intros Hb. unfold parseLTV. pose proof (len_nonneg raw).
  destruct (Z.eqb_spec (len raw) 0); cbn [orb]; [split; [done|intros (? & ? & ? & _); lia]|].
  destruct (Z.ltb_spec 64 (len raw)); [split; [done|intros (? & ? & ? & _); lia]|].
  rewrite (ltv_loop_spec (length raw) raw ∅ m (le_n _) Hb). split.
  - intros (es & ? & ? & ? & _ & E). exists es. rewrite (right_id_L ∅ (∪)) in E. split_and!; auto; lia.
  - intros (es & ? & _ & ? & ? & E). exists es. by rewrite (right_id_L ∅ (∪)).
Qed.

Lemma parseLTV_witness :
  exists es, LC3Capabilities = concat (ltv_bytes <$> es) /\ 0 < len LC3Capabilities <= 64 /\
    Forall ltv_ok es /\ NoDup es.*1 /\
    match parseLTV LC3Capabilities with Ok m => m | Error _ => ∅ end = list_to_map es.
Proof.
  apply (parseLTV_spec LC3Capabilities
    (match parseLTV LC3Capabilities with Ok m => m | Error _ => ∅ end)).
  - apply (bool_decide_unpack _). by vm_compute.
  - reflexivity.
Defined.

(** A list of entries parses to the map of its values. *)
Lemma parseLTV_entries es :
  Forall ltv_ok es -> NoDup es.*1 -> 0 < len (concat (ltv_bytes <$> es)) <= 64 ->
  parseLTV (concat (ltv_bytes <$> es)) = Ok (list_to_map es).
Proof.
  intros Hok Hd Hl.
  assert (all_bytes (concat (ltv_bytes <$> es))) as Hb.
  { assert (len (concat (ltv_bytes <$> es)) <= 64) as Hl' by lia. clear Hl Hd. revert Hl'.
    induction Hok as [|[t v] es (Hv & Ht & Hbv) _ IH]; intros Hl; [constructor|].
    rewrite ltv_concat_cons in *. rewrite !len_cons, len_app in Hl. cbn [fst snd] in *.
    pose proof (len_nonneg (concat (ltv_bytes <$> es))).
    constructor; [unfold in_width; lia|]. constructor; [done|]. apply Forall_app. split; [done|].
    apply IH. lia. }
  unfold parseLTV. destruct (Z.eqb_spec (len (concat (ltv_bytes <$> es))) 0); [lia|].
  destruct (Z.ltb_spec 64 (len (concat (ltv_bytes <$> es)))); [lia|]. cbn [orb].
  apply ltv_loop_spec; [done|done|]. exists es. by rewrite (right_id_L ∅ (∪)).
Qed.

(** ** The configuration that is chosen *)
Definition config_of (p : preset) (allocation : Z) : CodecConfig :=
  mkCodecConfig (sampleRate p) (frameDuration p) (octets p) allocation.

Definition one_location (allocation : Z) : Prop :=
  in_width 32 allocation /\ allocation <> 0 /\ OnesCount32 allocation = 1.

Lemma allocation_bytes a :
  [u8 a; u8 (Z.shiftr a 8); u8 (Z.shiftr a 16); u8 (Z.shiftr a 24)] = le_bytes 4 a.
Proof.
  unfold u8. cbn [le_bytes]. rewrite !Z.shiftr_div_pow2 by lia. change (2 ^ 8) with 256.
  rewrite !Z.div_div by lia. done.
Qed.

(** Reading back what is built for each preset. *)
Lemma build_parse p a :
  p ∈ conversationalPresets -> one_location a -> ParseConfiguration (buildConfiguration p a) = Ok (config_of p a).
Proof.
  intros Hp (Hw & Ha & Ho).
  pose proof (allocation_bytes a) as Ea. pose proof (le_value_bytes_id 4 a Hw) as Ev.
  pose proof (le_bytes_bytes 4 a) as Hb4. pose proof (length_le_bytes 4 a) as H4.
  set (bs := le_bytes 4 a) in *. clearbody bs.
  set (es := [(ltvFrequency, [frequencyCode p]); (ltvDuration, [durationCode p]);
              (ltvChannelAllocation, bs); (ltvFrameLength, [octets p; 0])]).
  assert (is_byte (frequencyCode p) /\ is_byte (durationCode p) /\ is_byte (octets p)) as (B1 & B2 & B3).
  { clear es. repeat (apply elem_of_cons in Hp as [->|Hp]; [by vm_compute|]). by apply elem_of_nil in Hp. }
  assert (buildConfiguration p a = concat (ltv_bytes <$> es)) as E.
  { unfold es. rewrite !ltv_concat_cons. unfold buildConfiguration. rewrite <- Ea. clear -Hp.
    repeat (apply elem_of_cons in Hp as [->|Hp]; [reflexivity|]). by apply elem_of_nil in Hp. }
  unfold ParseConfiguration. rewrite E, parseLTV_entries.
  - cbn [result_bind]. unfold field, parse_allocation, es. cbn [list_to_map foldr fst snd].
    rewrite !lookup_insert. repeat (case_decide; [try done|try done]). rewrite lookup_empty.
    unfold len. rewrite H4. cbn [length Z.of_nat Z.eqb Pos.eqb negb]. rewrite Ev, Ho.
    destruct (Z.eqb_spec a 0); [done|]. cbn [orb Z.eqb Pos.eqb negb result_bind at_ nth]. clear -Hp.
    repeat (apply elem_of_cons in Hp as [->|Hp]; [reflexivity|]). by apply elem_of_nil in Hp.
  - assert (len bs = 4) as L4 by (unfold len; by rewrite H4). assert (is_byte 0) by (by vm_compute).
    repeat apply Forall_cons_2; try apply Forall_nil_2; unfold ltv_ok; cbn [fst snd]; rewrite ?L4;
      split_and!; first [done|by vm_compute|by apply Forall_singleton|
                         by apply Forall_cons_2; [|apply Forall_singleton]].
  - apply (bool_decide_unpack (NoDup es.*1)). by vm_compute.
  - rewrite <- E. by vm_compute.
Qed.

(** The capabilities as the choice reads them. *)
Definition caps_read (values : gmap Z bytes) (mask duration minimum maximum : Z) : Prop :=
  exists frequency dur channels frameLength,
    values !! ltvFrequency = Some frequency /\ len frequency = 2 /\ mask = le_value frequency /\
    values !! ltvDuration = Some dur /\ len dur = 1 /\ duration = at_ dur 0 /\
      Z.land duration 3 <> 0 /\
    values !! ltvChannelAllocation = Some channels /\ len channels = 1 /\
      Z.land (at_ channels 0) 1 <> 0 /\
    values !! ltvFrameLength = Some frameLength /\ len frameLength = 4 /\
      minimum = le_value (slice frameLength 0 2) /\ maximum = le_value (slice frameLength 2 4) /\
    minimum <> 0 /\ minimum <= maximum.

Lemma field_Some values key n v :
  field values key n = Some v <-> values !! key = Some v /\ len v = n.
Proof.
  unfold field. destruct (values !! key) as [w|]; [|naive_solver].
  destruct (Z.eqb_spec (len w) n); naive_solver.
Qed.

Lemma select_ok capabilities allocation cfg :
  SelectConfigurationForAllocation capabilities allocation = Ok cfg <->
  allocation <> 0 /\ OnesCount32 allocation = 1 /\
  exists values mask duration minimum maximum p,
    parseLTV capabilities = Ok values /\ caps_read values mask duration minimum maximum /\
    List.find (compatible mask duration minimum maximum) conversationalPresets = Some p /\
    cfg = buildConfiguration p allocation.
Proof.
  unfold SelectConfigurationForAllocation. split.
  - intros H. split_if_in H; [done|]. bool_prop. split_and!; auto.
    apply result_bind_ok in H as (values & Hv & H). exists values.
    destruct (field values ltvFrequency 2) as [fr|] eqn:E1; [|done]. apply field_Some in E1 as [? ?].
    destruct (field values ltvDuration 1) as [du|] eqn:E2; [|done]. apply field_Some in E2 as [? ?].
    destruct (Z.eqb_spec (Z.land (at_ du 0) 3) 0); [done|].
    destruct (field values ltvChannelAllocation 1) as [ch|] eqn:E3; [|done]. apply field_Some in E3 as [? ?].
    destruct (Z.eqb_spec (Z.land (at_ ch 0) 1) 0); [done|].
    destruct (field values ltvFrameLength 4) as [fl|] eqn:E4; [|done]. apply field_Some in E4 as [? ?].
    cbv zeta in H. split_if_in H; [done|]. bool_prop.
    destruct (List.find _ conversationalPresets) as [p|] eqn:Ef; [|done]. injection H as <-.
    eexists _, _, _, _, p. split_and!; [done| |exact Ef|done].
    exists fr, du, ch, fl. split_and!; auto.
  - intros (Ha & Ho & values & mask & duration & minimum & maximum & p & -> &
      (fr & du & ch & fl & F1 & L1 & -> & F2 & L2 & -> & Hd & F3 & L3 & Hc & F4 & L4 & -> & -> & Hm & Hmm) & Hf & ->).
    rewrite (proj2 (Z.eqb_neq _ _) Ha), Ho. cbn [Z.eqb Pos.eqb negb orb result_bind].
    rewrite (proj2 (field_Some _ _ _ _) (conj F1 L1)), (proj2 (field_Some _ _ _ _) (conj F2 L2)),
      (proj2 (field_Some _ _ _ _) (conj F3 L3)), (proj2 (field_Some _ _ _ _) (conj F4 L4)).
    rewrite (proj2 (Z.eqb_neq _ _) Hd), (proj2 (Z.eqb_neq _ _) Hc). cbv zeta.
    rewrite (proj2 (Z.eqb_neq _ _) Hm), (proj2 (Z.ltb_ge _ _) Hmm). cbn [orb]. by rewrite Hf.
Qed.

(** Whatever configuration is chosen for a phone's capabilities, the
    configuration parser reads back exactly the chosen preset on the requested
    single location, and that preset is the first in the preference order whose
    rate, duration and frame size the capabilities allow. *)
Theorem select_then_parse capabilities allocation cfg :
  in_width 32 allocation ->
  SelectConfigurationForAllocation capabilities allocation = Ok cfg ->
  exists p values mask duration minimum maximum,
    ParseConfiguration cfg = Ok (config_of p allocation) /\
    parseLTV capabilities = Ok values /\ caps_read values mask duration minimum maximum /\
    p ∈ conversationalPresets /\ compatible mask duration minimum maximum p = true /\
    (forall before q after, conversationalPresets = before ++ p :: after -> q ∈ before ->
       compatible mask duration minimum maximum q = false).
Proof.
  intros Hw H.
  apply select_ok in H as (Ha & Ho & values & mask & du & mn & mx & p & Hv & Hr & Hf & ->).
  exists p, values, mask, du, mn, mx. pose proof (find_some _ _ Hf) as [Hin Hc].
  apply list_elem_of_In in Hin. split_and!; auto.
  - apply build_parse; [done|]. by split_and!.
  - assert (NoDup (p_name <$> conversationalPresets)) as Hnd
      by (apply (bool_decide_unpack (NoDup (p_name <$> conversationalPresets))); by vm_compute).
    intros before q after E Hq. destruct (compatible mask du mn mx q) eqn:Eq; [|done]. exfalso.
    rewrite E in Hf, Hnd. rewrite fmap_app in Hnd. csimpl in Hnd.
    apply NoDup_app in Hnd as (_ & Hdis & _).
    assert (exists q', q' ∈ before /\ List.find (compatible mask du mn mx) (before ++ p :: after) = Some q')
      as (q' & Hq' & Hf').
    { clear -Hq Eq. induction before as [|x before IH]; [by apply elem_of_nil in Hq|]. simpl.
      destruct (compatible mask du mn mx x) eqn:Ex; [exists x; set_solver|].
      apply elem_of_cons in Hq as [->|Hq]; [congruence|]. destruct (IH Hq) as (q' & ? & ?).
      exists q'. set_solver. }
    rewrite Hf in Hf'. injection Hf' as <-. apply (Hdis (p_name p)); [by apply list_elem_of_fmap_2|].
    apply list_elem_of_here.
Qed.

Lemma select_then_parse_witness :
  exists cfg, SelectConfiguration LC3Capabilities = Ok cfg /\ exists c, ParseConfiguration cfg = Ok c.
Proof.
  exists (buildConfiguration (mkPreset "32_2" 0x06 (Z.shiftl 1 5) 0x01 (Z.shiftl 1 1) 32000 (10 * Millisecond) 80) 1).
  split; [vm_compute; reflexivity|].
  destruct (select_then_parse LC3Capabilities FrontLeftLocation
    (buildConfiguration (mkPreset "32_2" 0x06 (Z.shiftl 1 5) 0x01 (Z.shiftl 1 1) 32000 (10 * Millisecond) 80) 1))
    as (p & ? & ? & ? & ? & ? & H & _).
  - by vm_compute.
  - vm_compute. reflexivity.
  - eexists. exact H.
Defined.

(** What any accepted configuration looks like. *)
Lemma ParseConfiguration_ok cfg c :
  ParseConfiguration cfg = Ok c ->
  exists p, p ∈ conversationalPresets /\ SampleRate c = sampleRate p /\
    FrameDuration c = frameDuration p /\ OctetsPerFrame c = octets p /\
    ChannelAllocation c <> 0 /\ OnesCount32 (ChannelAllocation c) = 1.
Proof.
  unfold ParseConfiguration. intros H. apply result_bind_ok in H as (values & _ & H).
  destruct (field values ltvFrequency 1) as [fr|]; [|done].
  destruct (field values ltvDuration 1) as [du|]; [|done]. split_if_in H; [done|].
  destruct (field values ltvFrameLength 2) as [fl|]; [|done]. split_if_in H; [done|].
  apply result_bind_ok in H as (a & Ha & H).
  destruct (List.find _ conversationalPresets) as [p|] eqn:Ef; [|done].
  split_if_in H; [done|]. injection H as <-. bool_prop. exists p. apply find_some in Ef as [Hin _].
  apply list_elem_of_In in Hin. cbn [SampleRate FrameDuration OctetsPerFrame ChannelAllocation].
  unfold parse_allocation in Ha. destruct (values !! ltvChannelAllocation) as [raw|].
  - split_if_in Ha; [done|]. cbv zeta in Ha. split_if_in Ha; [done|]. injection Ha as <-. bool_prop.
    split_and!; auto.
  - injection Ha as <-. split_and!; auto; by vm_compute.
Qed.
