(* ===== verification/Handoff.v ===== *)
(** * Handing media transports to the channel driver

    Models src/callbridge-sms-go/internal/bluez/handoff.go: the descriptor packet
    that accompanies an isochronous channel's file descriptor, its validation, the
    lifecycle message the driver sends back, and the one-client server that
    publishes a sink/source pair.  What system calls answer is an input; packets
    and descriptors sent and descriptors closed are the output trace. *)

From S2P Require Import Prelude GoStd Lc3.

Definition handoffVersion : Z := 3.
Definition handoffHeaderSize : nat := 72.
Definition descriptorCount : Z := 1.
Definition maximumSocketPath : Z := 100.
Definition maximumTransport : Z := 512.
Definition handoffFlagOwnership : Z := Z.shiftl 1 0.
Definition handoffFlagLinked : Z := Z.shiftl 1 1.
Definition handoffFlagCallToken : Z := Z.shiftl 1 2.
Definition handoffFlagLifecycle : Z := Z.shiftl 1 3.
Definition handoffKnownFlags : Z :=
  Z.lor (Z.lor (Z.lor handoffFlagOwnership handoffFlagLinked) handoffFlagCallToken) handoffFlagLifecycle.
Definition lifecycleVersion : Z := 1.
Definition lifecycleTypeProgress : Z := 1.
Definition lifecycleTypeNormalEnd : Z := 2.
Definition lifecycleMessageSize : Z := 32.
Definition handoffMagic : bytes := str "GGLE".
Definition lifecycleMagic : bytes := str "GGLC".
Definition DirectionSink : Z := 1.
Definition DirectionSource : Z := 2.

Record Descriptor := mkDescriptor {
  dDirection : Z;
  dGeneration : Z;
  dBundleID : Z;
  dCallControlToken : Z;
  dCallControlCorrelated : bool;
  dOwnershipTransferred : bool;
  dLinked : bool;
  dLifecycleOwned : bool;
  dSampleRate : Z;
  dFrameDurationUS : Z;
  dOctetsPerFrame : Z;
  dChannelAllocation : Z;
  dIntervalUS : Z;
  dPresentationDelayUS : Z;
  dReadMTU : Z;
  dWriteMTU : Z;
  dLatencyMS : Z;
  dFraming : Z;
  dPHY : Z;
  dRetransmissions : Z;
  dTargetLatency : Z;
  dCIG : Z;
  dCIS : Z;
  dTransport : bytes
}.

(** ** Validation *)
Definition preset_ok (d : Descriptor) : bool :=
  existsb (fun p => (dSampleRate d =? u32 (sampleRate p)) &&
                    (dFrameDurationUS d =? u32 (frameDuration p / Microsecond)) &&
                    (dOctetsPerFrame d =? u16 (octets p))) conversationalPresets.

Definition validateDescriptor (d : Descriptor) : result unit :=
  if negb (dDirection d =? DirectionSink) && negb (dDirection d =? DirectionSource)
  then fail! "invalid LE Audio direction"
  else if (dGeneration d =? 0) || (dBundleID d =? 0)
  then fail! "invalid LE Audio generation or bundle"
  else if negb (dOwnershipTransferred d) || negb (dLinked d)
  then fail! "LE Audio descriptor is not an owned linked transport"
  else if negb (Bool.eqb (dLifecycleOwned d) (dDirection d =? DirectionSink))
  then fail! "LE Audio lifecycle ownership must belong to the sink descriptor"
  else if negb (Bool.eqb (dCallControlCorrelated d) (negb (dCallControlToken d =? 0)))
  then fail! "invalid LE Audio call-control token"
  else if negb (preset_ok d) || negb (dIntervalUS d =? dFrameDurationUS d)
  then fail! "invalid LE Audio codec or interval preset"
  else if (dChannelAllocation d =? 0) || negb (OnesCount32 (dChannelAllocation d) =? 1)
  then fail! "invalid LE Audio channel allocation"
  else if (1 <? dFraming d) || (Z.land (dPHY d) 0x02 =? 0) || (dRetransmissions d =? 0) ||
          (13 <? dRetransmissions d) || (dTargetLatency d <? 1) || (3 <? dTargetLatency d) ||
          (0xef <? dCIG d) || (0xef <? dCIS d)
  then fail! "invalid LE Audio transport parameters"
  else if (dLatencyMS d =? 0) || (100 <? dLatencyMS d) || (dPresentationDelayUS d =? 0) ||
          (0x00ffffff <? dPresentationDelayUS d)
  then fail! "invalid LE Audio latency"
  else if (4096 <? dReadMTU d) || (4096 <? dWriteMTU d) ||
          ((dDirection d =? DirectionSink) && (dReadMTU d <? dOctetsPerFrame d)) ||
          ((dDirection d =? DirectionSource) && (dWriteMTU d <? dOctetsPerFrame d))
  then fail! "invalid LE Audio MTU"
  else if (len (dTransport d) =? 0) || (maximumTransport <? len (dTransport d)) ||
          negb (at_ (dTransport d) 0 =? 47) || existsb (Z.eqb 0) (dTransport d)
  then fail! "invalid BlueZ transport path"
  else Ok tt.

Definition validateDescriptorPair (sink source : Descriptor) : result unit :=
  if negb (dDirection sink =? DirectionSink) || negb (dDirection source =? DirectionSource)
  then fail! "LE Audio pair directions are incomplete"
  else if negb (dBundleID sink =? dBundleID source) || negb (dSampleRate sink =? dSampleRate source) ||
          negb (dFrameDurationUS sink =? dFrameDurationUS source) ||
          negb (dOctetsPerFrame sink =? dOctetsPerFrame source) ||
          negb (dIntervalUS sink =? dIntervalUS source) || negb (dFraming sink =? dFraming source) ||
          negb (dPHY sink =? dPHY source) || negb (dCIG sink =? dCIG source) ||
          negb (dCIS sink =? dCIS source) ||
          negb (Bool.eqb (dCallControlCorrelated sink) (dCallControlCorrelated source)) ||
          negb (dCallControlToken sink =? dCallControlToken source)
  then fail! "LE Audio transports are not one bidirectional CIS bundle"
  else Ok tt.

(** ** The packet *)
Definition flags_byte (d : Descriptor) : Z :=
  let f := Z.lor handoffFlagOwnership handoffFlagLinked in
  let f := if dCallControlCorrelated d then Z.lor f handoffFlagCallToken else f in
  if dLifecycleOwned d then Z.lor f handoffFlagLifecycle else f.

Definition descriptor_packet (d : Descriptor) : bytes :=
  let packet := replicate (handoffHeaderSize + length (dTransport d)) 0 in
  let packet := copy_into packet 0 4 handoffMagic in
  let packet := put packet 4 handoffVersion in
  let packet := put packet 5 (dDirection d) in
  let packet := put packet 6 descriptorCount in
  let packet := put packet 7 (flags_byte d) in
  let packet := put_le 8 packet 8 (dGeneration d) in
  let packet := put_le 8 packet 16 (dBundleID d) in
  let packet := put_le 8 packet 24 (dCallControlToken d) in
  let packet := put_le 4 packet 32 (dSampleRate d) in
  let packet := put_le 4 packet 36 (dFrameDurationUS d) in
  let packet := put_le 4 packet 40 (dChannelAllocation d) in
  let packet := put_le 4 packet 44 (dIntervalUS d) in
  let packet := put_le 4 packet 48 (dPresentationDelayUS d) in
  let packet := put_le 2 packet 52 (dOctetsPerFrame d) in
  let packet := put_le 2 packet 54 (dReadMTU d) in
  let packet := put_le 2 packet 56 (dWriteMTU d) in
  let packet := put_le 2 packet 58 (dLatencyMS d) in
  let packet := put packet 60 (dFraming d) in
  let packet := put packet 61 (dPHY d) in
  let packet := put packet 62 (dRetransmissions d) in
  let packet := put packet 63 (dTargetLatency d) in
  let packet := put packet 64 (dCIG d) in
  let packet := put packet 65 (dCIS d) in
  let packet := put_le 2 packet 66 (u16 (len (dTransport d))) in
  splice packet handoffHeaderSize (dTransport d).

Definition encodeDescriptor (d : Descriptor) : result bytes :=
  let! _ := validateDescriptor d in
  Ok (descriptor_packet d).

Definition decodeDescriptor (packet : bytes) : result Descriptor :=
  if (len packet <? Z.of_nat handoffHeaderSize) || negb (slice packet 0 4 =s? handoffMagic) ||
     negb (at_ packet 4 =? handoffVersion) || negb (at_ packet 6 =? descriptorCount) ||
     negb (no_bits_outside (at_ packet 7) handoffKnownFlags) ||
     negb (has_bits (at_ packet 7) handoffFlagOwnership) ||
     negb (has_bits (at_ packet 7) handoffFlagLinked) || negb (le_value (slice packet 68 72) =? 0)
  then fail! "invalid LE Audio handoff header"
  else
    let pathLength := le_value (slice packet 66 68) in
    if (pathLength <? 1) || (maximumTransport <? pathLength) ||
       negb (len packet =? Z.of_nat handoffHeaderSize + pathLength)
    then fail! "invalid LE Audio handoff length"
    else
      let d := {| dDirection := at_ packet 5;
                  dGeneration := le_value (slice packet 8 16);
                  dBundleID := le_value (slice packet 16 24);
                  dCallControlToken := le_value (slice packet 24 32);
                  dCallControlCorrelated := has_bits (at_ packet 7) handoffFlagCallToken;
                  dOwnershipTransferred := true; dLinked := true;
                  dLifecycleOwned := has_bits (at_ packet 7) handoffFlagLifecycle;
                  dSampleRate := le_value (slice packet 32 36);
                  dFrameDurationUS := le_value (slice packet 36 40);
                  dOctetsPerFrame := le_value (slice packet 52 54);
                  dChannelAllocation := le_value (slice packet 40 44);
                  dIntervalUS := le_value (slice packet 44 48);
                  dPresentationDelayUS := le_value (slice packet 48 52);
                  dReadMTU := le_value (slice packet 54 56);
                  dWriteMTU := le_value (slice packet 56 58);
                  dLatencyMS := le_value (slice packet 58 60);
                  dFraming := at_ packet 60; dPHY := at_ packet 61;
                  dRetransmissions := at_ packet 62; dTargetLatency := at_ packet 63;
                  dCIG := at_ packet 64; dCIS := at_ packet 65;
                  dTransport := drop handoffHeaderSize packet |} in
      let! _ := encodeDescriptor d in
      Ok d.

(** ** Lifecycle messages *)
Record lifecycleProgress := mkProgress {
  lpBundleID : Z;
  lpSinkGeneration : Z;
  lpSourceGeneration : Z
}.

Definition decodeLifecycleMessage (packet : bytes) : result (Z * lifecycleProgress) :=
  if negb (len packet =? lifecycleMessageSize) || negb (slice packet 0 4 =s? lifecycleMagic) ||
     negb (at_ packet 4 =? lifecycleVersion) ||
     (negb (at_ packet 5 =? lifecycleTypeProgress) && negb (at_ packet 5 =? lifecycleTypeNormalEnd)) ||
     negb (at_ packet 6 =? 0) || negb (at_ packet 7 =? 0)
  then fail! "invalid LE Audio lifecycle message"
  else
    let progress := mkProgress (le_value (slice packet 8 16)) (le_value (slice packet 16 24))
                               (le_value (slice packet 24 32)) in
    if (lpBundleID progress =? 0) || (lpSinkGeneration progress =? 0) || (lpSourceGeneration progress =? 0)
    then fail! "invalid LE Audio lifecycle identity"
    else Ok (at_ packet 5, progress).

Definition decodeLifecycleProgress (packet : bytes) : result lifecycleProgress :=
  let! decoded := decodeLifecycleMessage packet in
  let '(typeID, progress) := decoded in
  if negb (typeID =? lifecycleTypeProgress)
  then fail! "LE Audio lifecycle message is not progress" else Ok progress.

(** ** The server *)
Record HandoffServer := mkHandoffServer {
  hs_path : bytes;
  hs_peerUID : Z;
  hs_listenerFD : Z;
  hs_clientFD : Z;
  hs_lastGen : list Z;
  hs_lastBundle : Z;
  hs_disconnectHandler : bool
}.

(** What the server does outside.  [HOpen] and [HEnd] are for the two ends of a lifecycle socket, [HClose] for the client's. *)
Inductive handoff_event :=
  | HSend (client : Z) (packet : bytes) (fds : list Z)
  | HOpen (l0 l1 : Z)
  | HEnd (fd : Z)
  | HClose (fd : Z)
  | HDisconnected.

Definition NewHandoffServer (path : bytes) (peerUID : Z) : result HandoffServer :=
  if negb (HasPrefix path (str "/")) || (maximumSocketPath <? len path) || (peerUID <? 0)
  then fail! "invalid LE Audio handoff configuration"
  else Ok {| hs_path := path; hs_peerUID := u32 peerUID; hs_listenerFD := -1; hs_clientFD := -1;
             hs_lastGen := [0; 0; 0]; hs_lastBundle := 0; hs_disconnectHandler := false |}.

Definition SetDisconnectHandler (s : HandoffServer) (handler : bool) : result unit * HandoffServer :=
  if negb (hs_listenerFD s =? -1)
  then (fail! "LE Audio handoff disconnect handler changed after start", s)
  else (Ok tt, {| hs_path := hs_path s; hs_peerUID := hs_peerUID s; hs_listenerFD := hs_listenerFD s;
                  hs_clientFD := hs_clientFD s; hs_lastGen := hs_lastGen s;
                  hs_lastBundle := hs_lastBundle s; hs_disconnectHandler := handler |}).

Definition hs_with_client (s : HandoffServer) (fd : Z) : HandoffServer :=
  {| hs_path := hs_path s; hs_peerUID := hs_peerUID s; hs_listenerFD := hs_listenerFD s;
     hs_clientFD := fd; hs_lastGen := hs_lastGen s; hs_lastBundle := hs_lastBundle s;
     hs_disconnectHandler := hs_disconnectHandler s |}.

Definition hs_published (s : HandoffServer) (sinkGen sourceGen bundle : Z) : HandoffServer :=
  {| hs_path := hs_path s; hs_peerUID := hs_peerUID s; hs_listenerFD := hs_listenerFD s;
     hs_clientFD := hs_clientFD s;
     hs_lastGen := <[Z.to_nat DirectionSource := sourceGen]> (<[Z.to_nat DirectionSink := sinkGen]> (hs_lastGen s));
     hs_lastBundle := bundle; hs_disconnectHandler := hs_disconnectHandler s |}.

Definition gen_of (s : HandoffServer) (direction : Z) : Z := at_ (hs_lastGen s) (Z.to_nat direction).

(** The outcome of one [sendmsg]: an error, or the bytes written. *)
Inductive sendmsg := SendErr (e : error) | Wrote (n : Z).

Definition sendDescriptorLocked (s : HandoffServer) (packet : bytes) (fds : list Z) (out : sendmsg)
  : result unit * HandoffServer * list handoff_event :=
  match fds with
  | [] => (fail! "missing LE Audio handoff descriptors", s, [])
  | _ =>
      let ev := [HSend (hs_clientFD s) packet fds] in
      match out with
      | Wrote n =>
          if n =? len packet then (Ok tt, s, ev)
          else (fail! "short LE Audio descriptor handoff", hs_with_client s (-1), ev ++ [HClose (hs_clientFD s)])
      | SendErr e =>
          (Error (Wrap "send LE Audio transport" e), hs_with_client s (-1), ev ++ [HClose (hs_clientFD s)])
      end
  end.

Definition own_lifecycle (d : Descriptor) (b : bool) : Descriptor :=
  {| dDirection := dDirection d; dGeneration := dGeneration d; dBundleID := dBundleID d;
     dCallControlToken := dCallControlToken d; dCallControlCorrelated := dCallControlCorrelated d;
     dOwnershipTransferred := dOwnershipTransferred d; dLinked := dLinked d; dLifecycleOwned := b;
     dSampleRate := dSampleRate d; dFrameDurationUS := dFrameDurationUS d;
     dOctetsPerFrame := dOctetsPerFrame d; dChannelAllocation := dChannelAllocation d;
     dIntervalUS := dIntervalUS d; dPresentationDelayUS := dPresentationDelayUS d;
     dReadMTU := dReadMTU d; dWriteMTU := dWriteMTU d; dLatencyMS := dLatencyMS d;
     dFraming := dFraming d; dPHY := dPHY d; dRetransmissions := dRetransmissions d;
     dTargetLatency := dTargetLatency d; dCIG := dCIG d; dCIS := dCIS d; dTransport := dTransport d |}.

(** What the system answers during one publication. *)
Record publish_env := mkPublishEnv {
  pe_socketpair : result (Z * Z);
  pe_send1 : sendmsg;
  pe_send2 : sendmsg
}.

(** The part of [PublishPair] under the mutex. *)
Definition publish_locked (s : HandoffServer) (env : publish_env) (sink source : Descriptor)
    (sinkPacket sourcePacket : bytes) (sinkFD sourceFD l0 l1 : Z)
  : result Z * HandoffServer * list handoff_event :=
  if (dGeneration sink <=? gen_of s DirectionSink) || (dGeneration source <=? gen_of s DirectionSource) ||
     (dBundleID sink <=? hs_lastBundle s)
  then (fail! "stale LE Audio generation", s, [])
  else if hs_clientFD s =? -1 then (fail! "LE Audio media peer is not connected", s, [])
  else match sendDescriptorLocked s sinkPacket [sinkFD; l1] (pe_send1 env) with
       | (Error e, s, ev) => (Error e, s, ev)
       | (Ok _, s, ev) =>
           match sendDescriptorLocked s sourcePacket [sourceFD] (pe_send2 env) with
           | (Error e, s, ev') => (Error e, s, ev ++ ev')
           | (Ok _, s, ev') =>
               (Ok l0, hs_published s (dGeneration sink) (dGeneration source) (dBundleID sink), ev ++ ev')
           end
       end.

Definition PublishPair (s : HandoffServer) (env : publish_env) (sinkFD : Z) (sink : Descriptor)
    (sourceFD : Z) (source : Descriptor) : result Z * HandoffServer * list handoff_event :=
  let sink := own_lifecycle sink true in
  let source := own_lifecycle source false in
  match validateDescriptorPair sink source with
  | Error e => (Error e, s, [])
  | Ok _ =>
      match encodeDescriptor sink with
      | Error e => (Error e, s, [])
      | Ok sinkPacket =>
          match encodeDescriptor source with
          | Error e => (Error e, s, [])
          | Ok sourcePacket =>
              if (sinkFD <? 0) || (sourceFD <? 0) || (sinkFD =? sourceFD)
              then (fail! "invalid LE Audio transport descriptor pair", s, [])
              else match pe_socketpair env with
                   | Error e => (Error (Wrap "open LE Audio lifecycle socket" e), s, [])
                   | Ok (l0, l1) =>
                       let '(r, s, ev) := publish_locked s env sink source sinkPacket sourcePacket
                                            sinkFD sourceFD l0 l1 in
                       (r, s, HOpen l0 l1 :: ev ++ (if is_ok r then [] else [HEnd l0]) ++ [HEnd l1])
                   end
          end
      end
  end.

(** One turn of [Run]'s poll loop: whether the served client became readable, and
    the connection accepted, if any, with its credential. *)
Definition handoff_turn (s : HandoffServer) (readable : bool) (accepted : option (Z * option Z))
  : HandoffServer * list handoff_event :=
  let '(s, ev) :=
    if negb (hs_clientFD s =? -1) && readable
    then (hs_with_client s (-1),
          HClose (hs_clientFD s) :: if hs_disconnectHandler s then [HDisconnected] else [])
    else (s, []) in
  match accepted with
  | None => (s, ev)
  | Some (client, credential) =>
      if negb (bool_decide (credential = Some (hs_peerUID s))) then (s, ev ++ [HClose client])
      else if negb (hs_clientFD s =? -1) then (s, ev ++ [HClose client])
      else (hs_with_client s client, ev)
  end.

(** ** Round trip *)
Record descriptor_typed (d : Descriptor) : Prop := {
  dt_Direction : is_byte (dDirection d);
  dt_Generation : in_width 64 (dGeneration d);
  dt_BundleID : in_width 64 (dBundleID d);
  dt_Token : in_width 64 (dCallControlToken d);
  dt_SampleRate : in_width 32 (dSampleRate d);
  dt_FrameDurationUS : in_width 32 (dFrameDurationUS d);
  dt_ChannelAllocation : in_width 32 (dChannelAllocation d);
  dt_IntervalUS : in_width 32 (dIntervalUS d);
  dt_PresentationDelayUS : in_width 32 (dPresentationDelayUS d);
  dt_OctetsPerFrame : in_width 16 (dOctetsPerFrame d);
  dt_ReadMTU : in_width 16 (dReadMTU d);
  dt_WriteMTU : in_width 16 (dWriteMTU d);
  dt_LatencyMS : in_width 16 (dLatencyMS d);
  dt_bytes : all_bytes [dFraming d; dPHY d; dRetransmissions d; dTargetLatency d; dCIG d; dCIS d];
  dt_Transport : all_bytes (dTransport d)
}.

(** The packet as a concatenation of its fields. *)
Definition descriptor_layout (d : Descriptor) : bytes :=
  handoffMagic ++ [handoffVersion; dDirection d; descriptorCount; flags_byte d] ++
  le_bytes 8 (dGeneration d) ++ le_bytes 8 (dBundleID d) ++ le_bytes 8 (dCallControlToken d) ++
  le_bytes 4 (dSampleRate d) ++ le_bytes 4 (dFrameDurationUS d) ++ le_bytes 4 (dChannelAllocation d) ++
  le_bytes 4 (dIntervalUS d) ++ le_bytes 4 (dPresentationDelayUS d) ++
  le_bytes 2 (dOctetsPerFrame d) ++ le_bytes 2 (dReadMTU d) ++ le_bytes 2 (dWriteMTU d) ++
  le_bytes 2 (dLatencyMS d) ++
  [dFraming d; dPHY d; dRetransmissions d; dTargetLatency d; dCIG d; dCIS d] ++
  le_bytes 2 (u16 (len (dTransport d))) ++ [0; 0; 0; 0] ++ dTransport d.

Lemma descriptor_packet_layout d : descriptor_packet d = descriptor_layout d.
Proof.
  unfold descriptor_packet, descriptor_layout, handoffHeaderSize, copy_into, put, put_le.
  set (fb := flags_byte d). set (pl := le_bytes 2 (u16 _)). set (t := dTransport d).
  assert (length pl = 2%nat) as Lpl by apply length_le_bytes. clearbody fb pl.
  change (replicate (72 + length t) 0) with ([] ++ replicate (72 + length t) 0).
  change (take (4 - 0) handoffMagic) with handoffMagic. cbv zeta.
  repeat (rewrite fill_next by (rewrite ?length_app, ?length_le_bytes, ?Lpl; simpl length; lia)).
  match goal with |- splice (?h ++ replicate ?n 0) 72 t = _ =>
    replace (replicate n 0) with ([0; 0; 0; 0] ++ replicate (length t) 0)
      by (replace n with (4 + length t)%nat by (rewrite ?length_le_bytes, ?Lpl; simpl length; lia); done)
  end.
  rewrite app_assoc, fill_next by (rewrite ?length_app, ?length_le_bytes, ?Lpl; simpl length; lia).
  rewrite Nat.sub_diag. cbn [replicate]. rewrite app_nil_r, <- !app_assoc. done.
Qed.

Lemma flags_byte_read d :
  no_bits_outside (flags_byte d) handoffKnownFlags = true /\
  has_bits (flags_byte d) handoffFlagOwnership = true /\
  has_bits (flags_byte d) handoffFlagLinked = true /\
  has_bits (flags_byte d) handoffFlagCallToken = dCallControlCorrelated d /\
  has_bits (flags_byte d) handoffFlagLifecycle = dLifecycleOwned d.
Proof. unfold flags_byte. destruct (dCallControlCorrelated d), (dLifecycleOwned d); by vm_compute. Qed.

Lemma validateDescriptor_bounds d :
  validateDescriptor d = Ok tt ->
  1 <= len (dTransport d) <= maximumTransport /\ dOwnershipTransferred d = true /\ dLinked d = true /\
  dGeneration d <> 0 /\ dBundleID d <> 0 /\
  (dDirection d = DirectionSink \/ dDirection d = DirectionSource) /\
  dLifecycleOwned d = (dDirection d =? DirectionSink).
Proof.
  unfold validateDescriptor. intros H.
  do 11 (match type of H with (if ?b then _ else _) = _ => destruct b eqn:? end; [discriminate H|]).
  bool_prop. pose proof (len_nonneg (dTransport d)).
  repeat match goal with H : _ && _ = false |- _ => apply andb_false_iff in H end.
  repeat match goal with H : Bool.eqb _ _ = true |- _ => apply Bool.eqb_prop in H end.
  rewrite !negb_false_iff, !Z.eqb_eq in *. split_and!; auto; lia.
Qed.

(** Where the fields of a packet are. *)
Lemma layout_fields d : let p := descriptor_layout d in
  slice p 0 4 = handoffMagic /\
  at_ p 4 = handoffVersion /\
  at_ p 6 = descriptorCount /\
  at_ p 7 = flags_byte d /\
  slice p 68 72 = [0; 0; 0; 0] /\
  slice p 66 68 = le_bytes 2 (u16 (len (dTransport d))) /\
  slice p 8 16 = le_bytes 8 (dGeneration d) /\
  slice p 16 24 = le_bytes 8 (dBundleID d) /\
  slice p 24 32 = le_bytes 8 (dCallControlToken d) /\
  slice p 32 36 = le_bytes 4 (dSampleRate d) /\
  slice p 36 40 = le_bytes 4 (dFrameDurationUS d) /\
  slice p 40 44 = le_bytes 4 (dChannelAllocation d) /\
  slice p 44 48 = le_bytes 4 (dIntervalUS d) /\
  slice p 48 52 = le_bytes 4 (dPresentationDelayUS d) /\
  slice p 52 54 = le_bytes 2 (dOctetsPerFrame d) /\
  slice p 54 56 = le_bytes 2 (dReadMTU d) /\
  slice p 56 58 = le_bytes 2 (dWriteMTU d) /\
  slice p 58 60 = le_bytes 2 (dLatencyMS d) /\
  drop handoffHeaderSize p = dTransport d /\
  at_ p 5 = dDirection d /\
  at_ p 60 = dFraming d /\
  at_ p 61 = dPHY d /\
  at_ p 62 = dRetransmissions d /\
  at_ p 63 = dTargetLatency d /\
  at_ p 64 = dCIG d /\
  at_ p 65 = dCIS d.
Proof. intros p. split_and!; reflexivity. Qed.
Lemma decode_layout d :
  descriptor_typed d -> 1 <= len (dTransport d) <= maximumTransport ->
  dOwnershipTransferred d = true -> dLinked d = true ->
  decodeDescriptor (descriptor_layout d) = let! _ := validateDescriptor d in Ok d.
Proof.
  intros Ht Hl Ho Hk. destruct (flags_byte_read d) as (F1 & F2 & F3 & F4 & F5).
  unfold maximumTransport in Hl. pose proof Hl as Hl'. unfold len in Hl'.
  unfold decodeDescriptor, encodeDescriptor.
  assert (len (descriptor_layout d) = 72 + len (dTransport d)) as ->.
  { unfold descriptor_layout, len. rewrite !length_app, !length_le_bytes. simpl length. lia. }
  pose proof (layout_fields d) as Lf. cbv zeta in Lf. set (p := descriptor_layout d) in *.
  destruct Lf as (-> & -> & -> & -> & -> & -> & -> & -> & -> & -> & -> & -> & -> & -> & -> & -> & -> & -> & -> & -> & -> & -> & -> & -> & -> & ->).
  rewrite F1, F2, F3, F4, F5.
  rewrite (le_value_bytes_id 2 (u16 _)) by (unfold u16; apply Z.mod_pos_bound; lia).
  assert (u16 (len (dTransport d)) = len (dTransport d)) as -> by (apply Z.mod_small; unfold len; lia).
  rewrite !le_value_bytes_id by (apply Ht).
  clearbody p.
  destruct (Z.ltb_spec (72 + len (dTransport d)) (Z.of_nat handoffHeaderSize)); [unfold handoffHeaderSize in *; lia|].
  change (handoffMagic =s? handoffMagic) with true. change (le_value [0; 0; 0; 0] =? 0) with true.
  change (handoffVersion =? handoffVersion) with true. change (descriptorCount =? descriptorCount) with true.
  destruct (Z.ltb_spec (len (dTransport d)) 1); [lia|].
  destruct (Z.ltb_spec maximumTransport (len (dTransport d))); [unfold maximumTransport in *; lia|].
  change (Z.of_nat handoffHeaderSize) with 72. rewrite Z.eqb_refl. cbn [negb orb].
  cbv zeta. match goal with |- context [validateDescriptor ?x] =>
    assert (x = d) as -> by (destruct d; simpl in Ho, Hk; by subst) end.
  by destruct (validateDescriptor d).
Qed.

Lemma descriptor_encode_decode d p :
  descriptor_typed d -> encodeDescriptor d = Ok p -> decodeDescriptor p = Ok d.
Proof.
  intros Ht H. unfold encodeDescriptor in H. destruct (validateDescriptor d) as [[]|] eqn:V; [|done].
  apply Ok_inj in H as <-. destruct (validateDescriptor_bounds d V) as (Hl & Ho & Hk & _).
  by rewrite descriptor_packet_layout, decode_layout, V.
Qed.

#[export] Instance Descriptor_codec : Codec Descriptor := {|
  codec_encode := encodeDescriptor;
  codec_decode := decodeDescriptor;
  codec_ok := descriptor_typed;
  codec_roundtrip := descriptor_encode_decode
|}.

(** Round trip of the transport descriptor: whatever [encodeDescriptor]
    accepts, the driver's decoder gives back unchanged, all 24 fields; the packet
    is the 72-byte header followed by the transport path. *)
Theorem descriptor_roundtrip d p :
  descriptor_typed d -> encodeDescriptor d = Ok p ->
  decodeDescriptor p = Ok d /\ len p = 72 + len (dTransport d).
Proof.
  intros Ht H. split; [by apply descriptor_encode_decode|].
  unfold encodeDescriptor in H. destruct (validateDescriptor d) as [[]|] eqn:V; [|done].
  apply Ok_inj in H as <-. rewrite descriptor_packet_layout.
  unfold descriptor_layout, len. rewrite !length_app, !length_le_bytes. simpl length. lia.
Qed.

Definition demo_sink : Descriptor := {|
  dDirection := DirectionSink; dGeneration := 7; dBundleID := 4; dCallControlToken := 6;
  dCallControlCorrelated := true; dOwnershipTransferred := true; dLinked := true;
  dLifecycleOwned := true; dSampleRate := 32000; dFrameDurationUS := 10000; dOctetsPerFrame := 80;
  dChannelAllocation := 1; dIntervalUS := 10000; dPresentationDelayUS := 40000; dReadMTU := 80;
  dWriteMTU := 0; dLatencyMS := 10; dFraming := 0; dPHY := 2; dRetransmissions := 2;
  dTargetLatency := 1; dCIG := 0; dCIS := 0; dTransport := str "/org/bluez/hci0/fd0" |}.

Lemma demo_sink_typed : descriptor_typed demo_sink.
Proof.
  split; try (by vm_compute); apply (bool_decide_unpack _); by vm_compute.
Qed.

Lemma descriptor_roundtrip_witness :
  exists p, encodeDescriptor demo_sink = Ok p /\ decodeDescriptor p = Ok demo_sink.
Proof.
  exists (descriptor_packet demo_sink). split; [vm_compute; reflexivity|].
  apply (descriptor_roundtrip demo_sink); [exact demo_sink_typed|vm_compute; reflexivity].
Defined.

(** ** Publication *)

Lemma own_lifecycle_typed d b : descriptor_typed d -> descriptor_typed (own_lifecycle d b).
Proof. intros []. by split. Qed.

Lemma send_outcome s packet fds out :
  fds <> [] ->
  let '(r, s', ev) := sendDescriptorLocked s packet fds out in
  match r with
  | Ok _ => s' = s /\ ev = [HSend (hs_clientFD s) packet fds]
  | Error _ => s' = hs_with_client s (-1) /\
      ev = [HSend (hs_clientFD s) packet fds; HClose (hs_clientFD s)]
  end.
Proof. destruct fds; [done|]. intros _. unfold sendDescriptorLocked. repeat split_match; simplify_eq; done. Qed.

(** What [publish_locked] did. *)
Lemma publish_locked_spec s env sink source p1 p2 f1 f2 l0 l1 :
  let '(r, s', ev) := publish_locked s env sink source p1 p2 f1 f2 l0 l1 in
  match r with
  | Ok l => l = l0 /\ gen_of s DirectionSink < dGeneration sink /\
      gen_of s DirectionSource < dGeneration source /\ hs_lastBundle s < dBundleID sink /\
      hs_clientFD s <> -1 /\
      s' = hs_published s (dGeneration sink) (dGeneration source) (dBundleID sink) /\
      ev = [HSend (hs_clientFD s) p1 [f1; l1]; HSend (hs_clientFD s) p2 [f2]]
  | Error _ => (s' = s \/ s' = hs_with_client s (-1)) /\ Forall (fun e => match e with HSend _ _ _ | HClose _ => True | _ => False end) ev
  end.
Proof.
  unfold publish_locked. split_match; [by split; [left|]|]. bool_prop. split_match; [by split; [left|]|]. bool_prop.
  pose proof (send_outcome s p1 [f1; l1] (pe_send1 env) ltac:(done)) as Hs1.
  destruct (sendDescriptorLocked s p1 [f1; l1] (pe_send1 env)) as [[[u|e] s1] ev1]; [|destruct Hs1 as [-> ->]; split; [by right|by repeat constructor]].
  destruct Hs1 as [-> ->]. pose proof (send_outcome s p2 [f2] (pe_send2 env) ltac:(done)) as Hs2.
  destruct (sendDescriptorLocked s p2 [f2] (pe_send2 env)) as [[[u2|e] s2] ev2]; [|destruct Hs2 as [-> ->]; split; [by right|by repeat constructor]].
  destruct Hs2 as [-> ->]. split_and!; auto; lia.
Qed.

Definition same_history (s s' : HandoffServer) : Prop :=
  hs_lastGen s' = hs_lastGen s /\ hs_lastBundle s' = hs_lastBundle s.

(** The effect of a publication on the server's history. *)
Lemma PublishPair_history s env sinkFD sink sourceFD source :
  let '(r, s', ev) := PublishPair s env sinkFD sink sourceFD source in
  match r with
  | Ok _ => gen_of s DirectionSink < dGeneration sink /\ gen_of s DirectionSource < dGeneration source /\
      hs_lastBundle s < dBundleID sink /\
      s' = hs_published s (dGeneration sink) (dGeneration source) (dBundleID sink)
  | Error _ => same_history s s'
  end.
Proof.
  unfold PublishPair. cbv zeta.
  set (k := own_lifecycle sink true) in *. set (r := own_lifecycle source false) in *.
  destruct (validateDescriptorPair k r) as [[]|e]; [|done].
  destruct (encodeDescriptor k) as [p1|e]; [|done]. destruct (encodeDescriptor r) as [p2|e]; [|done].
  destruct (_ || _ || _); [done|]. destruct (pe_socketpair env) as [[l0 l1]|e]; [|done].
  pose proof (publish_locked_spec s env k r p1 p2 sinkFD sourceFD l0 l1) as H.
  destruct (publish_locked s env k r p1 p2 sinkFD sourceFD l0 l1) as [[[l|e] s'] ev].
  - destruct H as (-> & H1 & H2 & H3 & _ & -> & _). done.
  - by destruct H as [[-> | ->] _].
Qed.

(** The ends of lifecycle sockets that were opened and closed. *)
Definition ends_opened (ev : list handoff_event) : list Z := ev ≫= fun e => match e with HOpen l0 l1 => [l0; l1] | _ => [] end.
Definition ends_closed (ev : list handoff_event) : list Z := ev ≫= fun e => match e with HEnd fd => [fd] | _ => [] end.
(** A publication closes what it opened, but for the end it returns. *)
Lemma PublishPair_ends s env sinkFD sink sourceFD source :
  let '(r, _, ev) := PublishPair s env sinkFD sink sourceFD source in
  ends_opened ev ≡ₚ ends_closed ev ++ match r with Ok l0 => [l0] | Error _ => [] end.
Proof.
  unfold PublishPair. cbv zeta. destruct (validateDescriptorPair _ _) as [[]|e]; [|done].
  destruct (encodeDescriptor _) as [p1|e]; [|done]. destruct (encodeDescriptor _) as [p2|e]; [|done].
  destruct (_ || _ || _); [done|]. destruct (pe_socketpair env) as [[l0 l1]|e]; [|done].
  match goal with |- context [publish_locked ?a ?b ?c ?d ?e ?f ?g ?h ?i ?j] => pose proof (publish_locked_spec a b c d e f g h i j) as H;
    destruct (publish_locked a b c d e f g h i j) as [[[l|e'] s'] ev] end.
  - destruct H as (-> & _ & _ & _ & _ & _ & ->). cbn. apply perm_swap.
  - destruct H as [_ F]. assert (ends_opened ev = [] /\ ends_closed ev = []) as [E1 E2].
    { induction F as [|x ev Hx F [IH1 IH2]]; [done|]. unfold ends_opened, ends_closed in *. rewrite !bind_cons. destruct x; try done. }
    unfold ends_opened, ends_closed in *. cbn [is_ok]. rewrite !bind_cons, !bind_app, E1, E2. done.
Qed.

(** [PublishPair] succeeds only for a validated pair that is newer than
    everything published before, and then the driver receives exactly two packets:
    the sink with its descriptor and the far end of a fresh lifecycle socket, then
    the source; both decode to the published descriptors, the near end is returned
    and the far end closed here.  On any failure nothing is recorded as published
    and both ends of the lifecycle socket are closed. *)
Theorem PublishPair_spec s env sinkFD sink sourceFD source :
  descriptor_typed sink -> descriptor_typed source ->
  let '(r, s', ev) := PublishPair s env sinkFD sink sourceFD source in
  match r with
  | Ok l0 => exists l1 p1 p2, pe_socketpair env = Ok (l0, l1) /\
      ev = [HOpen l0 l1; HSend (hs_clientFD s) p1 [sinkFD; l1]; HSend (hs_clientFD s) p2 [sourceFD]; HEnd l1] /\
      decodeDescriptor p1 = Ok (own_lifecycle sink true) /\
      decodeDescriptor p2 = Ok (own_lifecycle source false) /\
      validateDescriptorPair (own_lifecycle sink true) (own_lifecycle source false) = Ok tt /\
      gen_of s DirectionSink < dGeneration sink /\ gen_of s DirectionSource < dGeneration source /\
      hs_lastBundle s < dBundleID sink /\
      s' = hs_published s (dGeneration sink) (dGeneration source) (dBundleID sink)
  | Error _ => same_history s s' /\
      (ev = [] \/ exists l0 l1 ev0, pe_socketpair env = Ok (l0, l1) /\ ev = HOpen l0 l1 :: ev0 ++ [HEnd l0; HEnd l1])
  end.
Proof.
  intros Ht1 Ht2. apply (own_lifecycle_typed _ true) in Ht1. apply (own_lifecycle_typed _ false) in Ht2.
  unfold PublishPair. cbv zeta.
  set (k := own_lifecycle sink true) in *. set (r := own_lifecycle source false) in *.
  destruct (validateDescriptorPair k r) as [[]|e] eqn:V; [|by split; [|left]].
  destruct (encodeDescriptor k) as [p1|e] eqn:E1; [|by split; [|left]].
  destruct (encodeDescriptor r) as [p2|e] eqn:E2; [|by split; [|left]].
  destruct (_ || _ || _); [by split; [|left]|].
  destruct (pe_socketpair env) as [[l0 l1]|e]; [|by split; [|left]].
  pose proof (publish_locked_spec s env k r p1 p2 sinkFD sourceFD l0 l1) as H.
  destruct (publish_locked s env k r p1 p2 sinkFD sourceFD l0 l1) as [[[l|e] s'] ev].
  - destruct H as (-> & H1 & H2 & H3 & H4 & -> & ->). cbn [is_ok app].
    exists l1, p1, p2. split_and!; eauto using descriptor_encode_decode.
  - cbn [is_ok app]. split; [by destruct H as [[-> | ->] _]|]. right. exists l0, l1, ev. done.
Qed.

(** A source that pairs with [demo_sink]. *)
Definition demo_source : Descriptor := {|
  dDirection := DirectionSource; dGeneration := 8; dBundleID := 4; dCallControlToken := 6;
  dCallControlCorrelated := true; dOwnershipTransferred := true; dLinked := true;
  dLifecycleOwned := false; dSampleRate := 32000; dFrameDurationUS := 10000; dOctetsPerFrame := 80;
  dChannelAllocation := 1; dIntervalUS := 10000; dPresentationDelayUS := 40000; dReadMTU := 0;
  dWriteMTU := 80; dLatencyMS := 10; dFraming := 0; dPHY := 2; dRetransmissions := 2;
  dTargetLatency := 1; dCIG := 0; dCIS := 0; dTransport := str "/org/bluez/hci0/fd1" |}.
Definition demo_handoff : HandoffServer := mkHandoffServer (str "/run/x") 1000 3 7 [0; 0; 0] 0 true.
Definition demo_env : publish_env := mkPublishEnv (Ok (20, 21)) (Wrote 91) (Wrote 91).

Lemma demo_source_typed : descriptor_typed demo_source.
Proof. split; try (by vm_compute); apply (bool_decide_unpack _); by vm_compute. Qed.

Lemma PublishPair_witness :
  let '(r, s', ev) := PublishPair demo_handoff demo_env 11 demo_sink 12 demo_source in
  r = Ok 20 /\ exists p1 p2, ev = [HOpen 20 21; HSend 7 p1 [11; 21]; HSend 7 p2 [12]; HEnd 21] /\
    decodeDescriptor p1 = Ok demo_sink /\ decodeDescriptor p2 = Ok demo_source.
Proof.
  pose proof (PublishPair_spec demo_handoff demo_env 11 demo_sink 12 demo_source
    demo_sink_typed demo_source_typed) as H.
  destruct (PublishPair demo_handoff demo_env 11 demo_sink 12 demo_source) as [[r s'] ev] eqn:E.
  assert (r = Ok 20) as -> by (apply (f_equal (fun x => x.1.1)) in E; vm_compute in E; congruence).
  split; [reflexivity|]. destruct H as (l1 & p1 & p2 & Hs & Hev & D1 & D2 & _).
  injection Hs as <-. exists p1, p2. split; [exact Hev|]. split; [exact D1|exact D2].
Defined.

(** ** Never publishing an old generation *)
Inductive handoff_op :=
  | HPublish (env : publish_env) (sinkFD : Z) (sink : Descriptor) (sourceFD : Z) (source : Descriptor)
  | HTurn (readable : bool) (accepted : option (Z * option Z)).

(** What was published: the generations and the bundle. *)
Definition handoff_step (s : HandoffServer) (o : handoff_op) : HandoffServer * list (Z * Z * Z) :=
  match o with
  | HPublish env f1 sink f2 source =>
      let '(r, s', _) := PublishPair s env f1 sink f2 source in
      (s', if is_ok r then [(dGeneration sink, dGeneration source, dBundleID sink)] else [])
  | HTurn readable accepted => ((handoff_turn s readable accepted).1, [])
  end.

Fixpoint handoff_run (s : HandoffServer) (ops : list handoff_op) : list (Z * Z * Z) :=
  match ops with
  | [] => []
  | o :: ops => let '(s', l) := handoff_step s o in l ++ handoff_run s' ops
  end.

Definition newer (a b : Z * Z * Z) : Prop :=
  a.1.1 < b.1.1 /\ a.1.2 < b.1.2 /\ a.2 < b.2.

Definition history (s : HandoffServer) : Z * Z * Z :=
  (gen_of s DirectionSink, gen_of s DirectionSource, hs_lastBundle s).

Lemma handoff_turn_history s readable accepted :
  history (handoff_turn s readable accepted).1 = history s /\
  hs_lastGen (handoff_turn s readable accepted).1 = hs_lastGen s.
Proof. unfold handoff_turn. repeat split_match; simplify_eq; done. Qed.

(** A step publishes at most once, and then its history moves strictly forward to
    what it published. *)
Lemma handoff_step_history s o :
  length (hs_lastGen s) = 3%nat ->
  let '(s', l) := handoff_step s o in
  length (hs_lastGen s') = 3%nat /\
  ((l = [] /\ history s' = history s) \/ exists x, l = [x] /\ newer (history s) x /\ history s' = x).
Proof.
  destruct o as [env f1 sink f2 source|readable accepted]; simpl; intros Hl.
  - pose proof (PublishPair_history s env f1 sink f2 source) as H.
    destruct (PublishPair s env f1 sink f2 source) as [[[l0|e] s'] ev]; cbn [is_ok].
    + destruct H as (H1 & H2 & H3 & ->). split; [simpl; by rewrite !length_insert|]. right.
      eexists. split; [done|]. split; [done|]. unfold history, gen_of, hs_published, at_. cbn [hs_lastGen hs_lastBundle].
      destruct (hs_lastGen s) as [|a [|b [|c [|]]]]; try discriminate. done.
    + destruct H as [Hg Hb]. split; [by rewrite Hg|]. left. unfold history, gen_of. by rewrite Hg, Hb.
  - destruct (handoff_turn_history s readable accepted) as [E1 E2]. rewrite E2. auto.
Qed.

(** Over any sequence of publications and connection events, each published
    sink generation, source generation and bundle is strictly newer than all those
    published before: a stale or replayed transport is never handed over. *)
Theorem published_strictly_newer s ops :
  length (hs_lastGen s) = 3%nat ->
  StronglySorted newer (handoff_run s ops) /\ Forall (newer (history s)) (handoff_run s ops).
Proof.
  assert (forall a b c, newer a b -> newer b c -> newer a c) as Htr by (unfold newer; intros; lia).
  revert s. induction ops as [|o ops IH]; intros s Hl; [split; constructor|]. cbn [handoff_run].
  pose proof (handoff_step_history s o Hl) as H. destruct (handoff_step s o) as [s' l].
  destruct H as (Hl' & H). destruct (IH s' Hl') as [IS IF].
  destruct H as [[-> E]|(x & -> & Hn & E)]; cbn [app]; [by rewrite <- E|]. rewrite E in IF.
  split; constructor; auto. eapply Forall_impl; [exact IF|]. intros y Hy. by eapply Htr.
Qed.

Lemma published_strictly_newer_witness :
  handoff_run demo_handoff [HPublish demo_env 11 demo_sink 12 demo_source;
                            HPublish demo_env 11 demo_sink 12 demo_source] = [(7, 8, 4)] /\
  Forall (newer (history demo_handoff))
    (handoff_run demo_handoff [HPublish demo_env 11 demo_sink 12 demo_source;
                               HPublish demo_env 11 demo_sink 12 demo_source]).
Proof.
  split; [vm_compute; reflexivity|]. apply (published_strictly_newer demo_handoff). reflexivity.
Defined.
