(* ===== verification/Qos.v ===== *)
(** * Negotiating the isochronous channel

    Models the endpoint half of src/callbridge-sms-go/internal/bluez/broker.go: the
    choice of channel allocation, QoS and presentation delay for a phone's
    capabilities ([SelectProperties]), the QoS checks of [SetConfiguration] with
    its two bounded exceptions, the strict checks of an allocated transport, and
    the descriptor built from it. *)

From S2P Require Import Prelude GoStd Lc3 Handoff.

(** ** Data *)

(** Values of a QoS dictionary, by their D-Bus type. *)
Inductive qvalue := QByte (v : Z) | QUint16 (v : Z) | QUint32 (v : Z) | QOther.
Abbreviation qdict := (gmap string qvalue).

(** Values of the property dictionaries BlueZ passes to an endpoint. *)
Inductive pvalue := PBytes (b : bytes) | PUint32 (v : Z) | PDict (d : qdict) | PPaths (l : list bytes) | POther.
Abbreviation pdict := (gmap string pvalue).

Record TransportQoS := mkQoS {
  qCIG : Z;
  qCIS : Z;
  qIntervalUS : Z;
  qFraming : Z;
  qPHY : Z;
  qSDU : Z;
  qRetransmissions : Z;
  qLatencyMS : Z;
  qPresentationDelayUS : Z;
  qTargetLatency : Z
}.

Record transportConfig := mkTransportConfig {
  tcDirection : Z;
  tcGeneration : Z;
  tcCodec : CodecConfig;
  tcQoS : TransportQoS
}.

Record pendingTransport := mkPending {
  ptPath : bytes;
  ptRelease : bytes;
  ptConfig : transportConfig;
  ptQoS : TransportQoS;
  ptLinks : list bytes;
  ptFD : Z;
  ptReadMTU : Z;
  ptWriteMTU : Z
}.

(** A QoS validation error keeps its fixed reason. *)
Definition qos_error {A} (reason message : string) : result A := Error (Sentinel reason message).

(** [transportDetailReason]. *)
Fixpoint transportDetailReason (e : error) : string :=
  match e with
  | Sentinel reason _ => reason
  | Wrap _ cause => transportDetailReason cause
  | New _ => "transport_detail_unknown"
  end.

(** ** Reading variants; an absent key is the zero variant, which holds nothing *)
Definition variantByte (v : option qvalue) : option Z := match v with Some (QByte x) => Some x | _ => None end.
Definition variantUint16 (v : option qvalue) : option Z := match v with Some (QUint16 x) => Some x | _ => None end.
Definition variantUint32 (v : option qvalue) : option Z := match v with Some (QUint32 x) => Some x | _ => None end.
Definition variantDelay (v : option qvalue) : option Z :=
  match v with Some (QUint32 x) => Some x | Some (QUint16 x) => Some x | _ => None end.
Definition variantBytes (v : option pvalue) : option bytes := match v with Some (PBytes b) => Some b | _ => None end.

(** ** Channel allocation *)
Fixpoint first_allocation (properties : pdict) (keys : list string) : result Z :=
  match keys with
  | [] => Ok FrontLeftLocation
  | key :: keys =>
      match properties !! key with
      | None => first_allocation properties keys
      | Some (PUint32 locations) =>
          if locations =? 0 then Error (New ("invalid LC3 " ++ key))
          else if has_bits locations FrontLeftLocation then Ok FrontLeftLocation
          else Ok (Z.land locations (u32 (u32 (Z.lnot locations) + 1)))
      | Some _ => Error (New ("invalid LC3 " ++ key))
      end
  end.
Definition selectChannelAllocation (properties : pdict) : result Z :=
  first_allocation properties ["ChannelAllocation"; "Locations"].

(** ** Presentation delay *)

(** A bound that is present must be a non-zero 24-bit value. *)
Definition delay_bound (bounds : qdict) (key : string) (deflt : Z) (err : string) : result Z :=
  match bounds !! key with
  | None => Ok deflt
  | Some v => match variantDelay (Some v) with
              | Some d => if (d =? 0) || (0x00ffffff <? d) then Error (New err) else Ok d
              | None => Error (New err)
              end
  end.

(** A preferred bound may be zero, which means none. *)
Definition delay_preferred (bounds : qdict) (key : string) (err : string) : result (option Z) :=
  match bounds !! key with
  | None => Ok None
  | Some v => match variantDelay (Some v) with
              | Some d => if 0x00ffffff <? d then Error (New err)
                          else Ok (if d =? 0 then None else Some d)
              | None => Error (New err)
              end
  end.

Definition selectPresentationDelay (bounds : qdict) (preferred : Z) : result Z :=
  let! minimum := delay_bound bounds "MinimumDelay" 1 "invalid minimum presentation delay" in
  let! maximum := delay_bound bounds "MaximumDelay" 0x00ffffff "invalid maximum presentation delay" in
  if maximum <? minimum then fail! "remote presentation delay range is inverted"
  else
    let! preferredMinimum := delay_preferred bounds "PreferredMinimumDelay"
                               "invalid preferred minimum presentation delay" in
    let! preferredMaximum := delay_preferred bounds "PreferredMaximumDelay"
                               "invalid preferred maximum presentation delay" in
    let minimum := match preferredMinimum with Some d => if minimum <? d then d else minimum | None => minimum end in
    let maximum := match preferredMaximum with Some d => if d <? maximum then d else maximum | None => maximum end in
    if maximum <? minimum then fail! "remote preferred presentation delay has no overlap"
    else if preferred <? minimum then Ok minimum
    else if maximum <? preferred then Ok maximum
    else Ok preferred.

(** ** Selecting QoS *)
Definition default_qos (codec : CodecConfig) : TransportQoS :=
  let interval := u32 (FrameDuration codec / Microsecond) in
  let latency := if interval =? 7500 then 8 else 10 in
  {| qCIG := 0xff; qCIS := 0xff; qIntervalUS := interval; qFraming := 0; qPHY := 0x02;
     qSDU := u16 (OctetsPerFrame codec); qRetransmissions := 2; qLatencyMS := latency;
     qPresentationDelayUS := 40000; qTargetLatency := 2 |}.

Definition set_framing (q : TransportQoS) (f : Z) : TransportQoS :=
  {| qCIG := qCIG q; qCIS := qCIS q; qIntervalUS := qIntervalUS q; qFraming := f; qPHY := qPHY q;
     qSDU := qSDU q; qRetransmissions := qRetransmissions q; qLatencyMS := qLatencyMS q;
     qPresentationDelayUS := qPresentationDelayUS q; qTargetLatency := qTargetLatency q |}.
Definition set_retransmissions (q : TransportQoS) (r : Z) : TransportQoS :=
  {| qCIG := qCIG q; qCIS := qCIS q; qIntervalUS := qIntervalUS q; qFraming := qFraming q; qPHY := qPHY q;
     qSDU := qSDU q; qRetransmissions := r; qLatencyMS := qLatencyMS q;
     qPresentationDelayUS := qPresentationDelayUS q; qTargetLatency := qTargetLatency q |}.
Definition set_delay (q : TransportQoS) (d : Z) : TransportQoS :=
  {| qCIG := qCIG q; qCIS := qCIS q; qIntervalUS := qIntervalUS q; qFraming := qFraming q; qPHY := qPHY q;
     qSDU := qSDU q; qRetransmissions := qRetransmissions q; qLatencyMS := qLatencyMS q;
     qPresentationDelayUS := d; qTargetLatency := qTargetLatency q |}.

Definition select_framing (bounds : qdict) (q : TransportQoS) : result TransportQoS :=
  match bounds !! "Framing" with
  | None => Ok q
  | Some v => match variantByte (Some v) with
              | Some f => if 1 <? f then fail! "invalid remote LC3 framing capability" else Ok (set_framing q f)
              | None => fail! "invalid remote LC3 framing capability"
              end
  end.

Definition check_phy (bounds : qdict) : result unit :=
  match bounds !! "PHY" with
  | None => Ok tt
  | Some v => match variantByte (Some v) with
              | Some p => if Z.land p 0x02 =? 0
                          then fail! "remote endpoint does not support mandatory LE 2M PHY" else Ok tt
              | None => fail! "remote endpoint does not support mandatory LE 2M PHY"
              end
  end.

Definition check_latency (bounds : qdict) (q : TransportQoS) : result unit :=
  match bounds !! "MaximumLatency" with
  | None => Ok tt
  | Some v => match variantUint16 (Some v) with
              | Some m => if m <? qLatencyMS q
                          then fail! "remote endpoint maximum latency is below TMAP LC3 preset" else Ok tt
              | None => fail! "remote endpoint maximum latency is below TMAP LC3 preset"
              end
  end.

Definition select_retransmissions (bounds : qdict) (q : TransportQoS) : result TransportQoS :=
  match bounds !! "Retransmissions" with
  | None => Ok q
  | Some v => match variantByte (Some v) with
              | Some r => if (r =? 0) || (13 <? r) then fail! "invalid remote retransmission preference"
                          else Ok (set_retransmissions q r)
              | None => fail! "invalid remote retransmission preference"
              end
  end.

Definition selectQoS (properties : pdict) (codec : CodecConfig) : result TransportQoS :=
  let selected := default_qos codec in
  match properties !! "QoS" with
  | None => Ok selected
  | Some (PDict bounds) =>
      let! selected := select_framing bounds selected in
      let! _ := check_phy bounds in
      let! _ := check_latency bounds selected in
      let! selected := select_retransmissions bounds selected in
      let! delay := selectPresentationDelay bounds (qPresentationDelayUS selected) in
      Ok (set_delay selected delay)
  | Some _ => fail! "invalid remote LC3 QoS capabilities"
  end.

Definition qosVariants (q : TransportQoS) : qdict :=
  {[ "CIG" := QByte (qCIG q); "CIS" := QByte (qCIS q); "Interval" := QUint32 (qIntervalUS q);
     "Framing" := QByte (qFraming q); "PHY" := QByte (qPHY q); "SDU" := QUint16 (qSDU q);
     "Retransmissions" := QByte (qRetransmissions q); "Latency" := QUint16 (qLatencyMS q);
     "PresentationDelay" := QUint32 (qPresentationDelayUS q); "TargetLatency" := QByte (qTargetLatency q) ]}.

(** ** Checking QoS *)
Definition configured_id (qos : qdict) (key : string) (final : bool)
    (invalid invalidText missing missingText : string) : result Z :=
  match qos !! key with
  | Some v => match variantByte (Some v) with Some x => Ok x | None => qos_error invalid invalidText end
  | None => if final then qos_error missing missingText else Ok 0xff
  end.

(** A required field that satisfies its test. *)
Definition checked (v : option Z) (test : Z -> bool) (reason message : string) : result Z :=
  match v with
  | Some x => if test x then Ok x else qos_error reason message
  | None => qos_error reason message
  end.

Definition parseConfiguredQoS (qos : qdict) (codec : CodecConfig) (final : bool) : result TransportQoS :=
  let! cig := configured_id qos "CIG" final "qos_cig_invalid" "invalid LC3 QoS CIG"
                "qos_cig_missing" "final LC3 QoS CIG missing" in
  let! cis := configured_id qos "CIS" final "qos_cis_invalid" "invalid LC3 QoS CIS"
                "qos_cis_missing" "final LC3 QoS CIS missing" in
  if final && ((0xef <? cig) || (0xef <? cis))
  then qos_error "qos_ids_unallocated" "BlueZ did not allocate final CIG/CIS identifiers"
  else
    let! interval := checked (variantUint32 (qos !! "Interval"))
      (fun x => x =? u32 (FrameDuration codec / Microsecond))
      "qos_interval_mismatch" "LC3 QoS interval does not match frame duration" in
    let! sdu := checked (variantUint16 (qos !! "SDU")) (fun x => x =? OctetsPerFrame codec)
      "qos_sdu_mismatch" "LC3 QoS SDU does not match frame" in
    let! framing := checked (variantByte (qos !! "Framing")) (fun x => x <=? 1)
      "qos_framing_invalid" "invalid LC3 QoS framing" in
    let! phy := checked (variantByte (qos !! "PHY")) (fun x => negb (Z.land x 0x02 =? 0))
      "qos_phy_not_le_2m" "LC3 QoS must use mandatory LE 2M PHY" in
    let! retransmissions := checked (variantByte (qos !! "Retransmissions"))
      (fun x => negb (x =? 0) && (x <=? 13))
      "qos_retransmissions_invalid" "LC3 QoS retransmissions outside bound" in
    let! latency := checked (variantUint16 (qos !! "Latency")) (fun x => negb (x =? 0) && (x <=? 100))
      "qos_latency_invalid" "LC3 QoS latency outside bound" in
    let! delay := checked (variantUint32 (qos !! "PresentationDelay"))
      (fun x => negb (x =? 0) && (x <=? 0x00ffffff))
      "qos_presentation_delay_invalid" "LC3 QoS presentation delay outside bound" in
    let! target := checked (variantByte (qos !! "TargetLatency")) (fun x => (1 <=? x) && (x <=? 3))
      "qos_target_latency_invalid" "LC3 QoS target latency outside bound" in
    Ok {| qCIG := cig; qCIS := cis; qIntervalUS := interval; qFraming := framing; qPHY := phy;
          qSDU := sdu; qRetransmissions := retransmissions; qLatencyMS := latency;
          qPresentationDelayUS := delay; qTargetLatency := target |}.

Definition validateQoS (qos : qdict) (codec : CodecConfig) : result unit :=
  let! _ := parseConfiguredQoS qos codec false in Ok tt.

Definition parseFinalTransportQoS (qos : qdict) (codec : CodecConfig) (selected : TransportQoS) : result TransportQoS :=
  match qos !! "TargetLatency" with
  | Some _ => parseConfiguredQoS qos codec true
  | None =>
      if (qTargetLatency selected <? 1) || (3 <? qTargetLatency selected)
      then qos_error "qos_target_latency_fallback_invalid" "selected LC3 QoS target latency outside bound"
      else parseConfiguredQoS (<["TargetLatency" := QByte (qTargetLatency selected)]> qos) codec true
  end.

Definition parsePreliminaryConfiguredQoS (qos : qdict) (codec : CodecConfig) : result TransportQoS :=
  match qos !! "TargetLatency" with
  | Some _ => parseConfiguredQoS qos codec false
  | None =>
      let! selected := selectQoS ∅ codec in
      parseConfiguredQoS (<["TargetLatency" := QByte (qTargetLatency selected)]> qos) codec false
  end.

Definition with_octets (codec : CodecConfig) (n : Z) : CodecConfig :=
  {| SampleRate := SampleRate codec; FrameDuration := FrameDuration codec; OctetsPerFrame := n;
     ChannelAllocation := ChannelAllocation codec |}.

Definition boundedStaleConfiguredSDU (qos : qdict) (codec : CodecConfig) (parseErr : error) : option Z :=
  if negb (bool_decide (transportDetailReason parseErr = "qos_sdu_mismatch"%string)) then None
  else match variantUint16 (qos !! "SDU") with
       | None => None
       | Some staleSDU =>
           if (staleSDU =? 0) || (staleSDU =? OctetsPerFrame codec) then None
           else if negb (existsb (fun p => (frameDuration p =? FrameDuration codec) && (octets p =? staleSDU))
                          conversationalPresets) then None
           else if is_ok (parsePreliminaryConfiguredQoS qos (with_octets codec staleSDU))
                then Some staleSDU else None
       end.

Definition boundedUnallocatedConfiguredQoS (qos : qdict) (codec : CodecConfig) (parseErr : error) : option (Z * Z) :=
  if negb (bool_decide (transportDetailReason parseErr = "qos_sdu_mismatch"%string)) then None
  else match variantUint16 (qos !! "SDU"), variantByte (qos !! "CIG"), variantByte (qos !! "CIS") with
       | Some sdu, Some cig, Some cis =>
           if negb (sdu =? 0) || negb (cig =? 0xff) || negb (cis =? 0xff) then None
           else match selectQoS ∅ codec with
                | Error _ => None
                | Ok selected =>
                    if is_ok (parsePreliminaryConfiguredQoS (<["SDU" := QUint16 (qSDU selected)]> qos) codec)
                    then Some (cig, cis) else None
                end
       | _, _, _ => None
       end.

(** ** The endpoint's methods *)

(** What [SelectProperties] returns: configuration, metadata and QoS. *)
Record selected_properties := mkSelected { spCapabilities : bytes; spMetadata : bytes; spQoS : qdict }.

Definition SelectProperties (properties : pdict) : result selected_properties :=
  match variantBytes (properties !! "Capabilities") with
  | None => fail! "LC3 capabilities missing"
  | Some capabilities =>
      let! allocation := selectChannelAllocation properties in
      let! configuration := SelectConfigurationForAllocation capabilities allocation in
      let! codec := ParseConfiguration configuration in
      let! selectedQoS := selectQoS properties codec in
      Ok (mkSelected configuration [0x03; 0x02; 0x02; 0x00] (qosVariants selectedQoS))
  end.

(** The codec and QoS [SetConfiguration] stores, before [configure]. *)
Definition configuration_of (properties : pdict) : option bytes :=
  match variantBytes (properties !! "Configuration") with
  | Some c => Some c
  | None => variantBytes (properties !! "Capabilities")
  end.

Definition configured_qos (properties : pdict) (codec : CodecConfig) : result TransportQoS :=
  match properties !! "QoS" with
  | Some (PDict qos) =>
      match parsePreliminaryConfiguredQoS qos codec with
      | Ok q => Ok q
      | Error e =>
          match boundedStaleConfiguredSDU qos codec e, boundedUnallocatedConfiguredQoS qos codec e with
          | None, None => Error e
          | _, _ => selectQoS ∅ codec
          end
      end
  | Some _ => fail! "invalid LC3 QoS dictionary"
  | None => selectQoS ∅ codec
  end.

Definition set_configuration (properties : pdict) : result (CodecConfig * TransportQoS) :=
  match configuration_of properties with
  | None => fail! "LC3 configuration missing"
  | Some configuration =>
      let! codec := ParseConfiguration configuration in
      let! q := configured_qos properties codec in
      Ok (codec, q)
  end.

(** What [readTransportDetails] makes of the transport's properties. *)
Definition transport_details (properties : pdict) (codec : CodecConfig) (selected : TransportQoS)
  : result (TransportQoS * list bytes) :=
  match properties !! "QoS" with
  | Some (PDict qosMap) =>
      let! q := parseFinalTransportQoS qosMap codec selected in
      match properties !! "Links" with
      | None => Ok (q, [])
      | Some (PPaths links) => Ok (q, links)
      | Some _ => qos_error "transport_links_invalid" "invalid transport Links property"
      end
  | _ => qos_error "transport_qos_missing" "final transport QoS missing"
  end.

Definition descriptorForPending (t : pendingTransport) (generation bundleID callToken : Z)
    (callCorrelated : bool) : Descriptor :=
  {| dDirection := tcDirection (ptConfig t); dGeneration := generation; dBundleID := bundleID;
     dCallControlToken := callToken; dCallControlCorrelated := callCorrelated;
     dOwnershipTransferred := true; dLinked := true;
     dLifecycleOwned := tcDirection (ptConfig t) =? DirectionSink;
     dSampleRate := u32 (SampleRate (tcCodec (ptConfig t)));
     dFrameDurationUS := u32 (FrameDuration (tcCodec (ptConfig t)) / Microsecond);
     dOctetsPerFrame := u16 (OctetsPerFrame (tcCodec (ptConfig t)));
     dChannelAllocation := ChannelAllocation (tcCodec (ptConfig t));
     dIntervalUS := qIntervalUS (ptQoS t); dPresentationDelayUS := qPresentationDelayUS (ptQoS t);
     dReadMTU := ptReadMTU t; dWriteMTU := ptWriteMTU t; dLatencyMS := qLatencyMS (ptQoS t);
     dFraming := qFraming (ptQoS t); dPHY := qPHY (ptQoS t);
     dRetransmissions := qRetransmissions (ptQoS t); dTargetLatency := qTargetLatency (ptQoS t);
     dCIG := qCIG (ptQoS t); dCIS := qCIS (ptQoS t); dTransport := ptPath t |}.

(** ** Pairing *)
Definition containsObjectPath (paths : list bytes) (want : bytes) : bool :=
  existsb (fun p => p =s? want) paths.

Definition validateTransportPair (first second : pendingTransport) : result unit :=
  let a := tcCodec (ptConfig first) in let b := tcCodec (ptConfig second) in
  let qa := ptQoS first in let qb := ptQoS second in
  if tcDirection (ptConfig first) =? tcDirection (ptConfig second)
  then fail! "LE Audio pair directions are incomplete"
  else if negb (SampleRate a =? SampleRate b) || negb (FrameDuration a =? FrameDuration b) ||
          negb (OctetsPerFrame a =? OctetsPerFrame b)
  then fail! "LE Audio pair codec mismatch"
  else if negb (qCIG qa =? qCIG qb) || negb (qCIS qa =? qCIS qb) || negb (qIntervalUS qa =? qIntervalUS qb) ||
          negb (qFraming qa =? qFraming qb) || negb (qPHY qa =? qPHY qb)
  then fail! "LE Audio pair is not one bidirectional CIS"
  else if (0 <? len (ptLinks first)) && negb (containsObjectPath (ptLinks first) (ptPath second))
  then fail! "first LE Audio transport does not link its peer"
  else if (0 <? len (ptLinks second)) && negb (containsObjectPath (ptLinks second) (ptPath first))
  then fail! "second LE Audio transport does not link its peer"
  else Ok tt.

(** ** What is accepted *)

(** The bounds every accepted QoS satisfies for its codec. *)
Record qos_ok (codec : CodecConfig) (q : TransportQoS) : Prop := {
  ok_interval : qIntervalUS q = u32 (FrameDuration codec / Microsecond);
  ok_sdu : qSDU q = OctetsPerFrame codec;
  ok_framing : qFraming q <= 1;
  ok_phy : Z.land (qPHY q) 2 <> 0;
  ok_retransmissions : qRetransmissions q <> 0 /\ qRetransmissions q <= 13;
  ok_latency : qLatencyMS q <> 0 /\ qLatencyMS q <= 100;
  ok_delay : qPresentationDelayUS q <> 0 /\ qPresentationDelayUS q <= 0x00ffffff;
  ok_target : 1 <= qTargetLatency q <= 3
}.

Definition allocated (q : TransportQoS) : Prop := qCIG q <= 0xef /\ qCIS q <= 0xef.

Lemma checked_ok v test r m x : checked v test r m = Ok x <-> v = Some x /\ test x = true.
Proof.
  unfold checked, qos_error. destruct v as [y|]; [|split; [done|by intros [? _]]].
  destruct (test y) eqn:E; split.
  - by intros [= <-].
  - by intros [[= <-] _].
  - done.
  - intros [[= <-] Hx]. congruence.
Qed.

Lemma configured_id_ok qos key final a b c d x :
  configured_id qos key final a b c d = Ok x ->
  qos !! key = Some (QByte x) \/ (qos !! key = None /\ final = false /\ x = 0xff).
Proof.
  unfold configured_id, qos_error. intros H. destruct (qos !! key) as [[v|v|v|]|] eqn:E; simpl in H; try discriminate.
  - injection H as ->. by left.
  - destruct final; [discriminate|]. injection H as <-. by right.
Qed.

Lemma parseConfiguredQoS_ok qos codec final q :
  parseConfiguredQoS qos codec final = Ok q ->
  qos_ok codec q /\ (final = true -> allocated q).
Proof.
  unfold parseConfiguredQoS. intros H.
  apply result_bind_ok in H as (cig & _ & H). apply result_bind_ok in H as (cis & _ & H).
  split_if_in H; [done|].
  do 8 (let x := fresh "x" in let E := fresh "E" in
        apply result_bind_ok in H as (x & E & H); apply checked_ok in E as [_ E]).
  injection H as <-. bool_prop. split.
  - split; simpl; auto; lia.
  - intros ->. simpl in *. bool_prop. unfold allocated. simpl. lia.
Qed.

(** Every field of a dictionary built by [qosVariants] reads back. *)
Lemma qosVariants_read codec q :
  qos_ok codec q -> parseConfiguredQoS (qosVariants q) codec false = Ok q.
Proof.
  intros [H1 H2 H3 H4 [H5 H5'] [H6 H6'] [H7 H7'] [H8 H8']].
  unfold parseConfiguredQoS, configured_id.
  assert (qosVariants q !! "CIG"%string = Some (QByte (qCIG q))) as -> by done.
  assert (qosVariants q !! "CIS"%string = Some (QByte (qCIS q))) as -> by done.
  assert (qosVariants q !! "Interval"%string = Some (QUint32 (qIntervalUS q))) as -> by done.
  assert (qosVariants q !! "SDU"%string = Some (QUint16 (qSDU q))) as -> by done.
  assert (qosVariants q !! "Framing"%string = Some (QByte (qFraming q))) as -> by done.
  assert (qosVariants q !! "PHY"%string = Some (QByte (qPHY q))) as -> by done.
  assert (qosVariants q !! "Retransmissions"%string = Some (QByte (qRetransmissions q))) as -> by done.
  assert (qosVariants q !! "Latency"%string = Some (QUint16 (qLatencyMS q))) as -> by done.
  assert (qosVariants q !! "PresentationDelay"%string = Some (QUint32 (qPresentationDelayUS q))) as -> by done.
  assert (qosVariants q !! "TargetLatency"%string = Some (QByte (qTargetLatency q))) as -> by done.
  cbn [variantByte variantUint16 variantUint32 result_bind checked andb].
  rewrite H1, Z.eqb_refl. cbn [result_bind]. rewrite H2, Z.eqb_refl. cbn [result_bind].
  rewrite (proj2 (Z.leb_le _ _) H3). cbn [result_bind].
  rewrite (proj2 (Z.eqb_neq _ _) H4). cbn [negb result_bind].
  rewrite (proj2 (Z.eqb_neq _ _) H5), (proj2 (Z.leb_le _ _) H5'). cbn [negb andb result_bind].
  rewrite (proj2 (Z.eqb_neq _ _) H6), (proj2 (Z.leb_le _ _) H6'). cbn [negb andb result_bind].
  rewrite (proj2 (Z.eqb_neq _ _) H7), (proj2 (Z.leb_le _ _) H7'). cbn [negb andb result_bind].
  rewrite (proj2 (Z.leb_le _ _) H8), (proj2 (Z.leb_le _ _) H8'). cbn [andb result_bind].
  destruct q; simpl in *. congruence.
Qed.

(** ** What is selected *)
Definition codec_ok (codec : CodecConfig) : Prop :=
  exists p, p ∈ conversationalPresets /\ SampleRate codec = sampleRate p /\
    FrameDuration codec = frameDuration p /\ OctetsPerFrame codec = octets p /\
    ChannelAllocation codec <> 0 /\ OnesCount32 (ChannelAllocation codec) = 1.

Lemma parsed_codec_ok cfg c : ParseConfiguration cfg = Ok c -> codec_ok c.
Proof. intros H. apply ParseConfiguration_ok in H. exact H. Qed.

Lemma default_qos_ok codec : codec_ok codec -> qos_ok codec (default_qos codec).
Proof.
  intros (p & Hp & _ & Hd & Ho & _). unfold default_qos.
  assert (u16 (OctetsPerFrame codec) = OctetsPerFrame codec) as Eo.
  { rewrite Ho. clear -Hp. repeat (apply elem_of_cons in Hp as [->|Hp]; [by vm_compute|]).
    by apply elem_of_nil in Hp. }
  split; cbn [qIntervalUS qSDU qFraming qPHY qRetransmissions qLatencyMS qPresentationDelayUS qTargetLatency];
    [done|done|lia|by vm_compute|lia| |lia|lia].
  destruct (_ =? 7500); lia.
Qed.

Lemma delay_bound_ok bounds key deflt err d :
  1 <= deflt <= 0x00ffffff -> delay_bound bounds key deflt err = Ok d ->
  d <> 0 /\ d <= 0x00ffffff /\
  match bounds !! key with None => d = deflt | Some v => variantDelay (Some v) = Some d end.
Proof.
  unfold delay_bound. intros Hd H. destruct (bounds !! key) as [v|]; [|injection H as <-; lia].
  destruct (variantDelay (Some v)) as [x|]; [|done]. split_if_in H; [done|].
  injection H as <-. bool_prop. split_and!; auto.
Qed.

(** The interval the remote side allows. *)
Definition delay_range (bounds : qdict) (lo hi : Z) : Prop :=
  exists mn mx pmn pmx,
    delay_bound bounds "MinimumDelay" 1 "invalid minimum presentation delay" = Ok mn /\
    delay_bound bounds "MaximumDelay" 0x00ffffff "invalid maximum presentation delay" = Ok mx /\
    delay_preferred bounds "PreferredMinimumDelay" "invalid preferred minimum presentation delay" = Ok pmn /\
    delay_preferred bounds "PreferredMaximumDelay" "invalid preferred maximum presentation delay" = Ok pmx /\
    lo = Z.max mn (default mn pmn) /\ hi = Z.min mx (default mx pmx) /\ mn <= mx.

Lemma selectPresentationDelay_ok bounds preferred d :
  selectPresentationDelay bounds preferred = Ok d <->
  exists lo hi, delay_range bounds lo hi /\ lo <= hi /\ d = Z.max lo (Z.min preferred hi).
Proof.
  unfold selectPresentationDelay, delay_range. split.
  - intros H. apply result_bind_ok in H as (mn & E1 & H). apply result_bind_ok in H as (mx & E2 & H).
    split_if_in H; [done|]. apply result_bind_ok in H as (pmn & E3 & H).
    apply result_bind_ok in H as (pmx & E4 & H). cbv zeta in H. bool_prop.
    assert (match pmn with Some d => if mn <? d then d else mn | None => mn end = Z.max mn (default mn pmn)) as El.
    { destruct pmn as [x|]; simpl; [destruct (Z.ltb_spec mn x); lia|lia]. }
    assert (match pmx with Some d => if d <? mx then d else mx | None => mx end = Z.min mx (default mx pmx)) as Eh.
    { destruct pmx as [x|]; simpl; [destruct (Z.ltb_spec x mx); lia|lia]. }
    rewrite El, Eh in H. exists (Z.max mn (default mn pmn)), (Z.min mx (default mx pmx)).
    split_if_in H; [done|]. bool_prop. split; [exists mn, mx, pmn, pmx; by split_and!|]. split; [lia|].
    split_if_in H; [injection H as <-; bool_prop; lia|]. split_if_in H; injection H as <-; bool_prop; lia.
  - intros (lo & hi & (mn & mx & pmn & pmx & E1 & E2 & E3 & E4 & -> & -> & Hm) & Hl & ->).
    rewrite E1, E2. cbn [result_bind]. destruct (Z.ltb_spec mx mn); [lia|]. rewrite E3, E4. cbn [result_bind].
    assert (match pmn with Some d => if mn <? d then d else mn | None => mn end = Z.max mn (default mn pmn)) as ->.
    { destruct pmn as [x|]; simpl; [destruct (Z.ltb_spec mn x); lia|lia]. }
    assert (match pmx with Some d => if d <? mx then d else mx | None => mx end = Z.min mx (default mx pmx)) as ->.
    { destruct pmx as [x|]; simpl; [destruct (Z.ltb_spec x mx); lia|lia]. }
    destruct (Z.ltb_spec (Z.min mx (default mx pmx)) (Z.max mn (default mn pmn))); [lia|].
    destruct (Z.ltb_spec preferred (Z.max mn (default mn pmn))); [f_equal; lia|].
    destruct (Z.ltb_spec (Z.min mx (default mx pmx)) preferred); f_equal; lia.
Qed.

Lemma set_framing_ok codec q f : qos_ok codec q -> f <= 1 -> qos_ok codec (set_framing q f).
Proof. intros [] ?. by split. Qed.
Lemma set_retransmissions_ok codec q r :
  qos_ok codec q -> r <> 0 -> r <= 13 -> qos_ok codec (set_retransmissions q r).
Proof. intros [] ??. by split. Qed.
Lemma set_delay_ok codec q d :
  qos_ok codec q -> d <> 0 -> d <= 0x00ffffff -> qos_ok codec (set_delay q d).
Proof. intros [] ??. by split. Qed.

(** Values of the wire types are unsigned. *)
Definition qvalue_typed (v : qvalue) : Prop :=
  match v with
  | QByte x => in_width 8 x
  | QUint16 x => in_width 16 x
  | QUint32 x => in_width 32 x
  | QOther => True
  end.
Definition qdict_typed (d : qdict) : Prop := map_Forall (fun _ v => qvalue_typed v) d.
Definition pdict_typed (d : pdict) : Prop :=
  map_Forall (fun _ v => match v with
                         | PDict q => qdict_typed q
                         | PUint32 x => in_width 32 x
                         | PBytes b => all_bytes b
                         | _ => True
                         end) d.

Lemma variantDelay_typed d key v x :
  qdict_typed d -> d !! key = Some v -> variantDelay (Some v) = Some x -> 0 <= x.
Proof.
  intros Ht E H. specialize (Ht _ _ E). destruct v; simpl in *; try discriminate; injection H as <-;
    unfold in_width in Ht; lia.
Qed.

Lemma selected_delay_bounds bounds preferred d :
  qdict_typed bounds -> 0 < preferred ->
  selectPresentationDelay bounds preferred = Ok d -> d <> 0 /\ d <= 0x00ffffff.
Proof.
  intros Ht Hp H.
  apply selectPresentationDelay_ok in H as (lo & hi & (mn & mx & pmn & pmx & E1 & E2 & E3 & E4 & -> & -> & Hm) & Hl & ->).
  apply delay_bound_ok in E1 as (H1 & H1' & E1); [|lia]. apply delay_bound_ok in E2 as (H2 & H2' & _); [|lia].
  assert (0 < mn); [|lia].
  destruct (bounds !! "MinimumDelay"%string) as [v|] eqn:Ev; [|lia].
  pose proof (variantDelay_typed _ _ _ _ Ht Ev E1). lia.
Qed.

Lemma selectQoS_ok properties codec q :
  codec_ok codec -> pdict_typed properties -> selectQoS properties codec = Ok q -> qos_ok codec q.
Proof.
  intros Hc Ht H. unfold selectQoS in H. pose proof (default_qos_ok codec Hc) as Hd.
  assert (qPresentationDelayUS (default_qos codec) = 40000) as Hp by done.
  set (q0 := default_qos codec) in *. clearbody q0.
  destruct (properties !! "QoS"%string) as [[|x|bounds| |]|] eqn:Eq; try discriminate; [|by injection H as <-].
  specialize (Ht _ _ Eq). simpl in Ht.
  apply result_bind_ok in H as (q1 & E1 & H). apply result_bind_ok in H as (u1 & _ & H).
  apply result_bind_ok in H as (u2 & _ & H). apply result_bind_ok in H as (q2 & E2 & H).
  apply result_bind_ok in H as (d & E3 & H). injection H as <-.
  assert (qos_ok codec q1 /\ qPresentationDelayUS q1 = 40000) as [Hq1 Hp1].
  { unfold select_framing in E1. destruct (bounds !! "Framing"%string); [|by injection E1 as <-].
    destruct (variantByte _); [|done]. split_if_in E1; [done|]. injection E1 as <-. bool_prop.
    split; [by apply set_framing_ok|done]. }
  assert (qos_ok codec q2 /\ qPresentationDelayUS q2 = 40000) as [Hq2 Hp2].
  { unfold select_retransmissions in E2. destruct (bounds !! "Retransmissions"%string); [|by injection E2 as <-].
    destruct (variantByte _); [|done]. split_if_in E2; [done|]. injection E2 as <-. bool_prop.
    split; [by apply set_retransmissions_ok|done]. }
  rewrite Hp2 in E3. apply selected_delay_bounds in E3 as [? ?]; [|done|lia]. by apply set_delay_ok.
Qed.

(** ** The channel location *)

Lemma odd_decompose n x : 0 < x < 2 ^ Z.of_nat n ->
  exists k m, 0 <= k < Z.of_nat n /\ 0 <= m /\ x = 2 ^ k * (2 * m + 1).
Proof.
  revert x. induction n as [|n IH]; intros x Hx; [simpl in Hx; lia|].
  destruct (Z.even x) eqn:E.
  - apply Z.even_spec in E as [y ->]. destruct (IH y) as (k & m & Hk & Hm & ->).
    { rewrite Nat2Z.inj_succ, Z.pow_succ_r in Hx by lia. lia. }
    exists (k + 1), m. rewrite Z.pow_add_r by lia. split_and!; [lia|lia|lia|]. change (2 ^ 1) with 2. ring.
  - rewrite <- Z.negb_odd in E. apply negb_false_iff, Z.odd_spec in E as [m ->].
    exists 0, m. split_and!; try lia.
Qed.

Lemma land_complement m j : 0 <= m < 2 ^ j -> 0 <= j -> Z.land m (2 ^ j - 1 - m) = 0.
Proof.
  intros Hm Hj. assert (2 ^ j - 1 = Z.ones j) as -> by (rewrite Z.ones_equiv; lia).
  assert (Z.ldiff m (Z.ones j) = 0) as Hl.
  { rewrite Z.ldiff_ones_r by lia. rewrite Z.shiftr_div_pow2, Z.div_small by lia. apply Z.shiftl_0_l. }
  rewrite Z.sub_nocarry_ldiff by done. apply Z.bits_inj'. intros i Hi.
  rewrite Z.land_spec, Z.ldiff_spec, Z.bits_0. destruct (Z.testbit m i); simpl; [|done].
  by rewrite andb_false_r.
Qed.

(** [x & (^x + 1)] keeps exactly the lowest set bit. *)
Lemma lowest_bit x : 0 < x < 2 ^ 32 ->
  exists k, 0 <= k < 32 /\ Z.land x (u32 (u32 (Z.lnot x) + 1)) = 2 ^ k /\ Z.testbit x k = true.
Proof.
  intros Hx. destruct (odd_decompose 32 x Hx) as (k & m & Hk & Hm & E). exists k. split; [done|].
  change (Z.of_nat 32) with 32 in Hk.
  assert (u32 (u32 (Z.lnot x) + 1) = 2 ^ 32 - x) as ->.
  { unfold u32, Z.lnot. rewrite Zplus_mod_idemp_l. replace (Z.pred (- x) + 1) with (- x) by lia.
    replace (- x) with ((2 ^ 32 - x) + (-1) * 2 ^ 32) by lia. rewrite Z_mod_plus_full. apply Z.mod_small. lia. }
  set (j := 31 - k). assert (2 ^ 32 = 2 ^ k * (2 * 2 ^ j)) as E32.
  { subst j. rewrite <- Z.pow_succ_r by lia. rewrite <- Z.pow_add_r by lia. f_equal. lia. }
  assert (0 <= m < 2 ^ j) as Hmj by (assert (0 < 2 ^ k) by lia; nia).
  assert (2 ^ 32 - x = 2 ^ k * (2 * (2 ^ j - 1 - m) + 1)) as -> by (rewrite E32, E; ring).
  rewrite E. rewrite !(Z.mul_comm (2 ^ k)), <- !Z.shiftl_mul_pow2 by lia.
  split.
  - rewrite <- Z.shiftl_land. assert (Z.land (2 * m + 1) (2 * (2 ^ j - 1 - m) + 1) = 1) as ->.
    { apply Z.bits_inj'. intros i Hi. rewrite Z.land_spec. destruct (decide (i = 0)) as [->|Hi0].
      - by rewrite !Z.testbit_odd_0.
      - replace i with (Z.succ (Z.pred i)) by lia. rewrite !Z.testbit_odd_succ by lia.
        rewrite <- Z.land_spec, land_complement, Z.bits_0 by (subst j; lia).
        change 1 with (2 * 0 + 1). by rewrite Z.testbit_odd_succ, Z.bits_0 by lia. }
    rewrite Z.shiftl_1_l. done.
  - rewrite Z.shiftl_spec by lia. rewrite Z.sub_diag. apply Z.testbit_odd_0.
Qed.

Lemma pow2_one_location k : 0 <= k < 32 -> one_location (2 ^ k).
Proof.
  intros Hk. assert (k ∈ seqZ 0 32) as Hin by (apply elem_of_seqZ; lia).
  assert (Forall (fun i => one_location (2 ^ i)) (seqZ 0 32)) as Hf.
  { unfold one_location. apply (bool_decide_unpack _). by vm_compute. }
  rewrite Forall_forall in Hf. by apply Hf.
Qed.

Lemma selectChannelAllocation_ok properties a :
  pdict_typed properties -> selectChannelAllocation properties = Ok a ->
  one_location a /\
  (a = FrontLeftLocation \/ exists key l, properties !! key = Some (PUint32 l) /\ Z.land l a = a).
Proof.
  intros Ht. unfold selectChannelAllocation.
  assert (one_location FrontLeftLocation) as Hfl by (change FrontLeftLocation with (2 ^ 0); by apply pow2_one_location).
  induction ["ChannelAllocation"; "Locations"]%string as [|key keys IH]; simpl; [intros [= <-]; auto|].
  destruct (properties !! key) as [[|l|d| |]|] eqn:E; try done.
  specialize (Ht _ _ E). simpl in Ht. unfold in_width in Ht. destruct (Z.eqb_spec l 0); [done|].
  destruct (has_bits l FrontLeftLocation); [intros [= <-]; auto|]. intros H. apply Ok_inj in H as <-.
  destruct (lowest_bit l ltac:(lia)) as (k & Hk & -> & Hb). split; [by apply pow2_one_location|].
  right. exists key, l. split; [done|]. apply Z.bits_inj'. intros i Hi.
  rewrite Z.land_spec. destruct (decide (i = k)) as [->|Hne]; [by rewrite Hb|].
  rewrite (Z.pow2_bits_false k i) by lia. apply andb_false_r.
Qed.

(** ** Theorems *)

Lemma SelectProperties_ok properties r :
  pdict_typed properties -> SelectProperties properties = Ok r ->
  exists allocation p q,
    selectChannelAllocation properties = Ok allocation /\ p ∈ conversationalPresets /\
    ParseConfiguration (spCapabilities r) = Ok (config_of p allocation) /\
    spQoS r = qosVariants q /\ qos_ok (config_of p allocation) q.
Proof.
  intros Ht H. unfold SelectProperties in H.
  destruct (variantBytes (properties !! "Capabilities"%string)) as [caps|]; [|done].
  apply result_bind_ok in H as (a & Ea & H). apply result_bind_ok in H as (cfg & Ecfg & H).
  apply result_bind_ok in H as (codec & Ec & H). apply result_bind_ok in H as (q & Eq & H).
  injection H as <-. destruct (selectChannelAllocation_ok _ _ Ht Ea) as [Ha _].
  apply select_ok in Ecfg as (_ & _ & values & mask & du & mn & mx & p & _ & _ & Hf & ->).
  apply find_some in Hf as [Hin _]. apply list_elem_of_In in Hin.
  rewrite (build_parse p a Hin Ha) in Ec. injection Ec as <-.
  exists a, p, q. cbn [spCapabilities spQoS]. rewrite (build_parse p a Hin Ha). split_and!; auto.
  apply (selectQoS_ok properties); [|done|done].
  apply (parsed_codec_ok (buildConfiguration p a)). by apply build_parse.
Qed.

(** What the endpoint proposes to a phone it accepts back: for every
    property dictionary, a successful [SelectProperties] chose exactly one channel
    location (front left, or the lowest one the phone offers), its configuration
    parses to the chosen preset, and a later [SetConfiguration] with exactly the
    proposed configuration and QoS stores that codec and that QoS. *)
Theorem proposal_accepted_back properties r :
  pdict_typed properties -> SelectProperties properties = Ok r ->
  exists allocation p q,
    one_location allocation /\
    (allocation = FrontLeftLocation \/
     exists key l, properties !! key = Some (PUint32 l) /\ Z.land l allocation = allocation) /\
    p ∈ conversationalPresets /\ qos_ok (config_of p allocation) q /\
    set_configuration {[ "Configuration" := PBytes (spCapabilities r); "QoS" := PDict (spQoS r) ]} =
      Ok (config_of p allocation, q).
Proof.
  intros Ht H. destruct (SelectProperties_ok _ _ Ht H) as (a & p & q & Ea & Hp & Hc & Hq & Hok).
  destruct (selectChannelAllocation_ok _ _ Ht Ea) as [Ha Hl].
  exists a, p, q. split_and!; auto.
  unfold set_configuration, configuration_of, configured_qos.
  rewrite lookup_insert_eq. cbn [variantBytes]. rewrite Hc. cbn [result_bind].
  rewrite lookup_insert_ne, lookup_singleton_eq by done.
  rewrite Hq. unfold parsePreliminaryConfiguredQoS.
  assert (qosVariants q !! "TargetLatency"%string = Some (QByte (qTargetLatency q))) as -> by done.
  by rewrite (qosVariants_read _ _ Hok).
Qed.

(** A phone that offers two locations and a narrow delay range. *)
Definition demo_properties : pdict :=
  {[ "Capabilities" := PBytes LC3Capabilities; "Locations" := PUint32 0x0000000c;
     "QoS" := PDict {[ "PHY" := QByte 3; "MinimumDelay" := QUint32 41000; "Retransmissions" := QByte 5 ]} ]}.

Lemma demo_properties_typed : pdict_typed demo_properties.
Proof.
  intros k v. unfold demo_properties. rewrite !lookup_insert_Some, lookup_singleton_Some.
  intros [[_ <-]|[_ [[_ <-]|[_ [_ <-]]]]].
  - apply (bool_decide_unpack (all_bytes LC3Capabilities)). by vm_compute.
  - by vm_compute.
  - intros k' v'. rewrite !lookup_insert_Some, lookup_singleton_Some.
    intros [[_ <-]|[_ [[_ <-]|[_ [_ <-]]]]]; by vm_compute.
Qed.

Definition demo_proposal : selected_properties :=
  match SelectProperties demo_properties with Ok r => r | Error _ => mkSelected [] [] ∅ end.

Lemma proposal_witness :
  exists allocation p q, one_location allocation /\ p ∈ conversationalPresets /\
    set_configuration {[ "Configuration" := PBytes (spCapabilities demo_proposal);
                         "QoS" := PDict (spQoS demo_proposal) ]} = Ok (config_of p allocation, q).
Proof.
  destruct (proposal_accepted_back demo_properties demo_proposal) as (a & p & q & H1 & _ & H2 & _ & H3).
  - exact demo_properties_typed.
  - vm_compute. reflexivity.
  - exists a, p, q. split; [exact H1|]. split; [exact H2|exact H3].
Defined.

(** The presentation delay: when [selectPresentationDelay] succeeds the
    result is the preferred delay clamped to the interval the remote bounds and
    preferences leave, and it fails exactly when a bound is malformed or that
    interval is empty. *)
Theorem presentation_delay_clamped bounds preferred :
  (forall d, selectPresentationDelay bounds preferred = Ok d ->
     exists lo hi, delay_range bounds lo hi /\ lo <= d <= hi /\
       d = Z.max lo (Z.min preferred hi) /\ (forall x, lo <= x <= hi -> Z.abs (preferred - d) <= Z.abs (preferred - x))) /\
  (is_ok (selectPresentationDelay bounds preferred) = true <->
     exists lo hi, delay_range bounds lo hi /\ lo <= hi).
Proof.
  split.
  - intros d H. apply selectPresentationDelay_ok in H as (lo & hi & Hr & Hl & ->).
    exists lo, hi. split_and!; auto; lia.
  - split.
    + destruct (selectPresentationDelay bounds preferred) as [d|e] eqn:E; [|done]. intros _.
      apply selectPresentationDelay_ok in E as (lo & hi & Hr & Hl & _). eauto.
    + intros (lo & hi & Hr & Hl).
      assert (selectPresentationDelay bounds preferred = Ok (Z.max lo (Z.min preferred hi))) as ->; [|done].
      apply selectPresentationDelay_ok. eauto.
Qed.

(** Whatever [SetConfiguration] stores is a known preset on one location
    with a QoS that matches it within every bound, also on the two deferred paths
    (a stale SDU, an unallocated QoS); and the QoS accepted from an allocated
    transport additionally has real CIG and CIS numbers. *)
Theorem configuration_within_bounds properties codec q :
  pdict_typed properties -> set_configuration properties = Ok (codec, q) ->
  codec_ok codec /\ qos_ok codec q /\
  forall details q' links, transport_details details codec q = Ok (q', links) ->
    qos_ok codec q' /\ allocated q'.
Proof.
  intros Ht H. unfold set_configuration in H. destruct (configuration_of properties) as [cfg|]; [|done].
  apply result_bind_ok in H as (c & Ec & H). apply result_bind_ok in H as (q0 & Eq & H).
  injection H as -> ->. pose proof (parsed_codec_ok _ _ Ec) as Hc.
  assert (pdict_typed ∅) as He by apply map_Forall_empty.
  assert (forall q1, selectQoS ∅ codec = Ok q1 -> qos_ok codec q1) as Hs
    by (intros q1; by apply selectQoS_ok).
  split_and!; [done| |].
  - unfold configured_qos in Eq.
    destruct (properties !! "QoS"%string) as [[|x|qos| |]|]; try discriminate Eq; [|by apply Hs].
    destruct (parsePreliminaryConfiguredQoS qos codec) as [q1|e] eqn:Ep.
    + injection Eq as <-. unfold parsePreliminaryConfiguredQoS in Ep.
      destruct (qos !! "TargetLatency"%string); [by apply parseConfiguredQoS_ok in Ep as [? _]|].
      apply result_bind_ok in Ep as (q2 & _ & Ep). by apply parseConfiguredQoS_ok in Ep as [? _].
    + destruct (boundedStaleConfiguredSDU qos codec e), (boundedUnallocatedConfiguredQoS qos codec e);
        first [by apply Hs|done].
  - intros details q' links Hd. unfold transport_details in Hd.
    destruct (details !! "QoS"%string) as [[|x|qm| |]|]; try done.
    apply result_bind_ok in Hd as (q1 & Hf & Hd).
    assert (q1 = q') as -> by (destruct (details !! "Links"%string) as [[| | | |]|]; simplify_eq; done).
    unfold parseFinalTransportQoS in Hf. destruct (qm !! "TargetLatency"%string).
    + apply parseConfiguredQoS_ok in Hf as [? Ha]. auto.
    + split_if_in Hf; [done|]. apply parseConfiguredQoS_ok in Hf as [? Ha]. auto.
Qed.

Lemma configuration_witness :
  exists codec q, set_configuration {[ "Configuration" := PBytes (spCapabilities demo_proposal) ]} = Ok (codec, q)
    /\ codec_ok codec /\ qos_ok codec q.
Proof.
  set (cq := match set_configuration {[ "Configuration" := PBytes (spCapabilities demo_proposal) ]} with
             | Ok x => x | Error _ => (mkCodecConfig 0 0 0 0, default_qos (mkCodecConfig 0 0 0 0)) end).
  exists cq.1, cq.2. assert (set_configuration {[ "Configuration" := PBytes (spCapabilities demo_proposal) ]}
    = Ok (cq.1, cq.2)) as E by (vm_compute; reflexivity).
  split; [exact E|].
  destruct (configuration_within_bounds {[ "Configuration" := PBytes (spCapabilities demo_proposal) ]} cq.1 cq.2)
    as (H1 & H2 & _).
  - apply map_Forall_singleton. apply (bool_decide_unpack (all_bytes (spCapabilities demo_proposal))). by vm_compute.
  - exact E.
  - split; [exact H1|exact H2].
Defined.

(** The transport path is one BlueZ can have. *)
Definition path_ok (p : bytes) : Prop :=
  1 <= len p <= maximumTransport /\ at_ p 0 = 47 /\ existsb (Z.eqb 0) p = false.

Lemma descriptor_preset t gen bundle token cor :
  codec_ok (tcCodec (ptConfig t)) -> preset_ok (descriptorForPending t gen bundle token cor) = true.
Proof.
  intros (p & Hp & Hs & Hd & Ho & _). unfold preset_ok. apply existsb_exists. exists p.
  split; [by apply list_elem_of_In|]. simpl. rewrite Hs, Hd, Ho, !Z.eqb_refl. done.
Qed.

(** What the broker checks of a transport before it pairs it: the configuration of [SetConfiguration], and the final QoS and links
    that [acquire] reads. *)
Definition checked_transport (t : pendingTransport) : Prop :=
  exists properties details, pdict_typed properties /\
    set_configuration properties = Ok (tcCodec (ptConfig t), tcQoS (ptConfig t)) /\
    transport_details details (tcCodec (ptConfig t)) (tcQoS (ptConfig t)) = Ok (ptQoS t, ptLinks t).
(** What it does not check: the path and the sizes BlueZ gives. *)
Definition usable (t : pendingTransport) : Prop :=
  path_ok (ptPath t) /\ ptReadMTU t <= 4096 /\ ptWriteMTU t <= 4096 /\
  OctetsPerFrame (tcCodec (ptConfig t)) <= if tcDirection (ptConfig t) =? DirectionSink then ptReadMTU t else ptWriteMTU t.

Lemma codec_octets codec : codec_ok codec -> u16 (OctetsPerFrame codec) = OctetsPerFrame codec.
Proof.
  intros (p & Hp & _ & _ & -> & _). repeat (apply elem_of_cons in Hp as [->|Hp]; [by vm_compute|]). by apply elem_of_nil in Hp.
Qed.
(** The descriptor built for a transport whose codec and final QoS passed the
    checks is accepted by the hand-off exactly when its path and sizes are usable. *)
Lemma descriptorForPending_valid t gen bundle token :
  let c := ptConfig t in
  codec_ok (tcCodec c) -> qos_ok (tcCodec c) (ptQoS t) -> allocated (ptQoS t) ->
  tcDirection c = DirectionSink \/ tcDirection c = DirectionSource -> gen <> 0 -> bundle <> 0 ->
  is_ok (validateDescriptor (descriptorForPending t gen bundle token (negb (token =? 0)))) = true <-> usable t.
Proof.
  intros c Hc [Hi Hsdu Hf Hphy Hr Hl Hd Htl] [Hcig Hcis] Hdir Hg Hb.
  unfold validateDescriptor, usable, path_ok. rewrite descriptor_preset by done.
  cbn [descriptorForPending dDirection dGeneration dBundleID dOwnershipTransferred dLinked dLifecycleOwned
       dCallControlCorrelated dCallControlToken dIntervalUS dFrameDurationUS dChannelAllocation dFraming
       dPHY dRetransmissions dTargetLatency dCIG dCIS dLatencyMS dPresentationDelayUS dReadMTU dWriteMTU
       dOctetsPerFrame dTransport]. fold c. rewrite (codec_octets _ Hc).
  destruct Hc as (p & Hp & _ & _ & Ho & Ha & Ha1). fold c in Hp, Ho, Ha, Ha1.
  rewrite Hi, Ha1, !Bool.eqb_reflx, Z.eqb_refl.
  assert (negb (tcDirection c =? DirectionSink) && negb (tcDirection c =? DirectionSource) = false) as ->
    by (by destruct Hdir as [-> | ->]).
  repeat match goal with |- context [?a =? 0] => rewrite (proj2 (Z.eqb_neq a 0)) by first [done|tauto|lia] end.
  do 8 (match goal with |- context [?a <? ?b] => rewrite (proj2 (Z.ltb_ge a b)) by first [done|tauto|lia] end).
  cbn [orb negb]. change (1 =? 1) with true. cbn [orb negb].
  assert (tcDirection c = DirectionSink /\ (tcDirection c =? DirectionSink) = true /\ (tcDirection c =? DirectionSource) = false \/
    tcDirection c = DirectionSource /\ (tcDirection c =? DirectionSink) = false /\ (tcDirection c =? DirectionSource) = true) as X
    by (destruct Hdir as [-> | ->]; by auto).
  assert (0 <= len (ptPath t)) by apply len_nonneg.
  destruct X as [(_ & -> & ->) | (_ & -> & ->)]; cbn [andb]; rewrite ?orb_false_r.
  all: match goal with |- is_ok (if ?x then Error ?e else if ?y then Error ?f else Ok tt) = true <-> _ =>
         assert (is_ok (if x then Error e else if y then Error f else Ok tt) = negb x && negb y) as -> by (by destruct x, y) end.
  all: rewrite !andb_true_iff, !negb_true_iff, !orb_false_iff, !Z.ltb_ge, !Z.eqb_neq, negb_false_iff, Z.eqb_eq.
  all: split; [intros [[[A1 A2] A3] [[[B1 B2] B3] B4]]|intros ((A1 & B1 & B2) & A2 & A3 & A4)]; split_and!; (done || lia).
Qed.
Lemma checked_transport_ok t :
  checked_transport t -> codec_ok (tcCodec (ptConfig t)) /\ qos_ok (tcCodec (ptConfig t)) (ptQoS t) /\ allocated (ptQoS t).
Proof.
  intros (properties & details & T & S & D). destruct (configuration_within_bounds _ _ _ T S) as (C & _ & F). split; [done|]. by eapply F.
Qed.

(** C30.  A sink and a source whose configuration and final QoS were checked and that passed [validateTransportPair] give
    descriptors that agree as a pair, and the hand-off encodes each of them exactly when the transport's path is a BlueZ path of at most 512 bytes and its sizes are at most 4096 and hold a frame
    in its direction, which the broker has not checked before: everything else the hand-off checks of a descriptor is so by construction. *)
Theorem paired_descriptors_valid sink source g1 g2 token :
  checked_transport sink -> checked_transport source ->
  tcDirection (ptConfig sink) = DirectionSink -> tcDirection (ptConfig source) = DirectionSource ->
  validateTransportPair sink source = Ok tt -> g1 <> 0 -> g2 <> 0 ->
  let cor := negb (token =? 0) in
  let d1 := own_lifecycle (descriptorForPending sink g1 g1 token cor) true in
  let d2 := own_lifecycle (descriptorForPending source g2 g1 token cor) false in
  validateDescriptorPair d1 d2 = Ok tt /\
  (is_ok (encodeDescriptor d1) = true <-> usable sink) /\ (is_ok (encodeDescriptor d2) = true <-> usable source).
Proof.
  intros (C1 & Q1 & A1)%checked_transport_ok (C2 & Q2 & A2)%checked_transport_ok D1 D2 V Hg1 Hg2. cbv zeta.
  assert (own_lifecycle (descriptorForPending sink g1 g1 token (negb (token =? 0))) true =
          descriptorForPending sink g1 g1 token (negb (token =? 0))) as E1
    by (unfold own_lifecycle, descriptorForPending; simpl; by rewrite D1).
  assert (own_lifecycle (descriptorForPending source g2 g1 token (negb (token =? 0))) false =
          descriptorForPending source g2 g1 token (negb (token =? 0))) as E2
    by (unfold own_lifecycle, descriptorForPending; simpl; by rewrite D2).
  assert (forall d, is_ok (encodeDescriptor d) = is_ok (validateDescriptor d)) as En by (intros d; unfold encodeDescriptor; by destruct (validateDescriptor d)).
  rewrite E1, E2, !En. split; [|split; apply descriptorForPending_valid; auto]. unfold validateDescriptorPair.
  cbn [descriptorForPending dDirection dBundleID dSampleRate dFrameDurationUS dOctetsPerFrame dIntervalUS
       dFraming dPHY dCIG dCIS dCallControlCorrelated dCallControlToken].
  unfold validateTransportPair in V. cbv zeta in V. rewrite D1, D2 in *.
  split_if_in V; [done|]. split_if_in V; [done|]. split_if_in V; [done|]. bool_prop.
  repeat match goal with H : _ = _ :> Z |- _ => rewrite H; clear H end.
  by rewrite !Z.eqb_refl, Bool.eqb_reflx.
Qed.

(** A bidirectional CIS as a phone offers it: preset 32_2 on CIG 0, CIS 0. *)
Definition demo_codec : CodecConfig := mkCodecConfig 32000 (10 * Millisecond) 80 1.
Definition demo_qos : TransportQoS := {|
  qCIG := 0; qCIS := 0; qIntervalUS := 10000; qFraming := 0; qPHY := 2; qSDU := 80;
  qRetransmissions := 2; qLatencyMS := 10; qPresentationDelayUS := 40000; qTargetLatency := 2 |}.
Definition demo_transport (direction : Z) (path peer : string) : pendingTransport :=
  {| ptPath := str path; ptRelease := str path;
     ptConfig := {| tcDirection := direction; tcGeneration := 1; tcCodec := demo_codec; tcQoS := default_qos demo_codec |};
     ptQoS := demo_qos; ptLinks := [str peer]; ptFD := 6 + direction; ptReadMTU := 80; ptWriteMTU := 80 |}.
Definition demo_sink : pendingTransport := demo_transport DirectionSink "/dev/fd0" "/dev/fd1".
Definition demo_source : pendingTransport := demo_transport DirectionSource "/dev/fd1" "/dev/fd0".

Lemma demo_checked direction path peer : checked_transport (demo_transport direction path peer).
Proof.
  exists {[ "Configuration" := PBytes (buildConfiguration (mkPreset "32_2" 0x06 (Z.shiftl 1 5) 0x01 (Z.shiftl 1 1) 32000 (10 * Millisecond) 80) 1) ]},
    {[ "QoS" := PDict (qosVariants demo_qos); "Links" := PPaths [str peer] ]}. split_and!.
  - apply map_Forall_singleton. apply (bool_decide_unpack (all_bytes _)). by vm_compute.
  - by vm_compute.
  - unfold transport_details. by vm_compute.
Qed.

(** The sink's size holds a frame; the source's is one byte short, and only the hand-off notices. *)
Definition short_source : pendingTransport :=
  {| ptPath := ptPath demo_source; ptRelease := ptRelease demo_source; ptConfig := ptConfig demo_source; ptQoS := ptQoS demo_source;
     ptLinks := ptLinks demo_source; ptFD := ptFD demo_source; ptReadMTU := 80; ptWriteMTU := 79 |}.
Lemma paired_descriptors_witness :
  let d1 := own_lifecycle (descriptorForPending demo_sink 5 5 9 true) true in
  let d2 := own_lifecycle (descriptorForPending short_source 6 5 9 true) false in
  validateDescriptorPair d1 d2 = Ok tt /\ is_ok (encodeDescriptor d1) = true /\ is_ok (encodeDescriptor d2) = false.
Proof.
  intros d1 d2. destruct (paired_descriptors_valid demo_sink short_source 5 6 9) as (V & E1 & E2).
  - apply demo_checked.
  - exact (demo_checked DirectionSource "/dev/fd1" "/dev/fd0").
  - reflexivity.
  - reflexivity.
  - vm_compute. reflexivity.
  - discriminate.
  - discriminate.
  - split; [exact V|]. split.
    + apply E1. unfold usable, path_ok. vm_compute. repeat split; discriminate || reflexivity.
    + destruct (is_ok (encodeDescriptor d2)) eqn:E; [|reflexivity]. apply E2 in E as (_ & _ & _ & L). vm_compute in L. contradiction L. reflexivity.
Defined.
