(* ===== verification/Broker.v ===== *)
(** * The transport broker: session life cycle

    Models the state and the locked operations of [Broker] in
    src/callbridge-sms-go/internal/bluez/broker.go: the tables of transports, the
    session handed to Asterisk, its progress leases, its normal and forced release,
    and the retried [Release] calls with their fallback.

    A session is a heap object shared by several goroutines, which compare it with
    [b.activeSession] by pointer: [bSessions] is the heap and a session is named by
    its address.  A [map[...]bool] whose entries are only ever [true] is a set.  The
    [uint64] metrics wrap around.  Logging is not modelled. *)

From S2P Require Import Prelude GoStd Lc3 Handoff Qos.

Abbreviation path := bytes.

(** ** State *)

(** The [uint64] counters of [Broker]. *)
Inductive metric :=
  | releaseAttempts | releaseSuccesses | releaseErrors | releaseFallbacks
  | lifecycleProgressEvents | lifecycleStale | lifecycleHUPs | lifecycleTimeouts
  | lifecycleStartTimeouts | lifecycleNormalEnds
  | normalReleaseWaits | normalReleaseIdle | normalReleaseTimeouts | transportIdleComplete.
#[export] Instance metric_eq_dec : EqDecision metric.
Proof. solve_decision. Defined.
Definition metric_index (m : metric) : nat :=
  match m with
  | releaseAttempts => 0 | releaseSuccesses => 1 | releaseErrors => 2 | releaseFallbacks => 3
  | lifecycleProgressEvents => 4 | lifecycleStale => 5 | lifecycleHUPs => 6 | lifecycleTimeouts => 7
  | lifecycleStartTimeouts => 8 | lifecycleNormalEnds => 9
  | normalReleaseWaits => 10 | normalReleaseIdle => 11 | normalReleaseTimeouts => 12
  | transportIdleComplete => 13
  end.
Definition all_metrics : list metric :=
  [ releaseAttempts; releaseSuccesses; releaseErrors; releaseFallbacks; lifecycleProgressEvents;
    lifecycleStale; lifecycleHUPs; lifecycleTimeouts; lifecycleStartTimeouts; lifecycleNormalEnds;
    normalReleaseWaits; normalReleaseIdle; normalReleaseTimeouts; transportIdleComplete ].
#[export] Program Instance metric_countable : Countable metric :=
  inj_countable' metric_index (fun n => nth n all_metrics releaseAttempts) _.
Next Obligation. by intros []. Qed.

(** [activeTransportSession]; [None] is the zero [time.Time]. *)
Record session := mkSession {
  sConnection : Z;
  sReleasePaths : list path;
  sSinkPath : path;
  sSourcePath : path;
  sSinkGeneration : Z;
  sSourceGeneration : Z;
  sBundleID : Z;
  sCallToken : Z;
  sLifecycleFD : Z;
  sLifecycleDone : bool;
  sStartedAt : option Z;
  sProgressArmed : bool;
  sLastProgress : option Z;
  sNormalEndSeen : bool;
  sNormalWaitStarted : bool;
  sIdlePaths : gset path;
  sRemoteIdleSeen : bool;
  sReleasing : bool;
  sReleaseExhausted : bool
}.
#[export] Instance session_fields : Fields session := {| fields x :=
  mkSession (sConnection x) (sReleasePaths x) (sSinkPath x) (sSourcePath x) (sSinkGeneration x)
    (sSourceGeneration x) (sBundleID x) (sCallToken x) (sLifecycleFD x) (sLifecycleDone x) (sStartedAt x)
    (sProgressArmed x) (sLastProgress x) (sNormalEndSeen x) (sNormalWaitStarted x) (sIdlePaths x)
    (sRemoteIdleSeen x) (sReleasing x) (sReleaseExhausted x) |}.

(** [Broker]; a D-Bus connection is a number, [bRearmRequest] says whether the
    one-slot channel [rearmRequest] is full, [bProvider] whether a call-token
    provider is installed. *)
Record Broker := mkBroker {
  bAdapter : bytes;
  bExpectedAddress : bytes;
  bExpectedDevice : path;
  bAdvertisementHold : bool;
  bRearmRequest : bool;
  bHandoff : HandoffServer;
  bConnection : option Z;
  bConfigured : gmap path transportConfig;
  bAcquiring : gset path;
  bAcquired : gset path;
  bPairing : gset path;
  bPending : gmap path pendingTransport;
  bRegistered : bool;
  bAdvertising : bool;
  bDiscoverable : bool;
  bNextConfig : Z;
  bLastGen : Z;
  bProvider : bool;
  bRequireToken : bool;
  bActiveSession : option nat;
  bSessions : gmap nat session;
  bProgressStartLease : Z;
  bProgressLease : Z;
  bNormalReleaseWait : Z;
  bMetrics : gmap metric Z
}.
#[export] Instance Broker_fields : Fields Broker := {| fields x :=
  mkBroker (bAdapter x) (bExpectedAddress x) (bExpectedDevice x) (bAdvertisementHold x) (bRearmRequest x)
    (bHandoff x) (bConnection x) (bConfigured x) (bAcquiring x) (bAcquired x) (bPairing x) (bPending x)
    (bRegistered x) (bAdvertising x) (bDiscoverable x) (bNextConfig x) (bLastGen x) (bProvider x)
    (bRequireToken x) (bActiveSession x) (bSessions x) (bProgressStartLease x) (bProgressLease x)
    (bNormalReleaseWait x) (bMetrics x) |}.

Definition metric_of (b : Broker) (m : metric) : Z := default 0 (bMetrics b !! m).
Definition bump (m : metric) (b : Broker) : Broker :=
  b <| bMetrics := <[m := u64 (metric_of b m + 1)]> (bMetrics b) |>.

(** The object a session pointer names; [None] is [nil]. *)
Definition session_at (b : Broker) (sid : option nat) : option session :=
  match sid with Some i => bSessions b !! i | None => None end.
Definition put_session (b : Broker) (i : nat) (s : session) : Broker :=
  b <| bSessions := <[i := s]> (bSessions b) |>.

(** ** Constants *)
Definition Second : Z := 1000 * Millisecond.
Definition transportReleaseRetries : nat := 3.
Definition remoteASEReleasingWatchdog : Z := 3 * Second.
Definition mediaProgressStartTimeout : Z := 60 * Second.
Definition mediaProgressLeaseTimeout : Z := 5 * Second.
Definition pairAcquireTimeout : Z := 5 * Second.
Definition callCorrelationTimeout : Z := 3 * Second.
Definition callCorrelationPoll : Z := 20 * Millisecond.

(** ** Construction and configuration *)
Definition device_path (adapter device : bytes) : path :=
  str "/org/bluez/" ++ adapter ++ str "/dev_" ++ map (fun c => if c =? 58 then 95 else c) (ToUpper device).

Definition NewBroker (adapter device socket : bytes) (peerUID : Z) (logger : bool) : result Broker :=
  if negb logger || negb (HasPrefix adapter (str "hci")) || (len device =? 0)
  then fail! "invalid LE Audio broker configuration"
  else
    let! handoff := NewHandoffServer socket peerUID in
    let '(r, handoff) := SetDisconnectHandler handoff true in
    let! _ := r in
    Ok {| bAdapter := adapter; bExpectedAddress := ToUpper device;
          bExpectedDevice := device_path adapter device;
          bAdvertisementHold := false; bRearmRequest := false; bHandoff := handoff; bConnection := None;
          bConfigured := ∅; bAcquiring := ∅; bAcquired := ∅; bPairing := ∅; bPending := ∅;
          bRegistered := false; bAdvertising := false; bDiscoverable := false;
          bNextConfig := 0; bLastGen := 0; bProvider := false; bRequireToken := false;
          bActiveSession := None; bSessions := ∅;
          bProgressStartLease := mediaProgressStartTimeout; bProgressLease := mediaProgressLeaseTimeout;
          bNormalReleaseWait := 0; bMetrics := ∅ |}.

Definition started (b : Broker) : bool := bool_decide (is_Some (bConnection b)) || bool_decide (is_Some (bActiveSession b)).

Definition ConfigureMediaLeases (b : Broker) (startup active : Z) : result unit * Broker :=
  if (startup <=? 0) || (active <=? 0) then (fail! "invalid LE Audio media lease bounds", b)
  else if started b then (fail! "LE Audio media lease bounds changed after start", b)
  else (Ok tt, b <| bProgressStartLease := startup |> <| bProgressLease := active |>).

Definition ConfigureNormalReleaseWait (b : Broker) (wait : Z) : result unit * Broker :=
  if (wait <=? 0) || (remoteASEReleasingWatchdog <=? wait)
  then (fail! "normal LE Audio release wait must be positive and below the remote three-second watchdog", b)
  else if started b then (fail! "normal LE Audio release wait changed after broker start", b)
  else (Ok tt, b <| bNormalReleaseWait := wait |>).

Definition ConfigureCallControl (b : Broker) (provider required : bool) : result unit * Broker :=
  if negb provider && required then (fail! "required LE Audio call-token provider is nil", b)
  else if bool_decide (is_Some (bConnection b)) || bRegistered b
  then (fail! "LE Audio call control must be configured before Run", b)
  else (Ok tt, b <| bProvider := provider |> <| bRequireToken := required |>).

(** ** Releasing transports

    [answer] is the outcome of the next [Release] call given those already made;
    [closed] the outcome of closing the owning connection.  The log keeps every
    [Release] call with its outcome, and whether the fallback ran. *)
Section Release.
Context (answer : list (path * bool) -> path -> bool) (closed : bool).

Definition releaseMediaTransport (b : Broker) (log : list (path * bool)) (p : path)
  : bool * Broker * list (path * bool) :=
  let b := bump releaseAttempts b in
  let ok := answer log p in
  (ok, bump (if ok then releaseSuccesses else releaseErrors) b, log ++ [(p, ok)]).

(** One pass over the paths not released yet. *)
Fixpoint release_round (b : Broker) (log : list (path * bool)) (succeeded : gset path) (paths : list path)
  : bool * Broker * list (path * bool) * gset path :=
  match paths with
  | [] => (true, b, log, succeeded)
  | p :: paths =>
      if bool_decide (p ∈ succeeded) then release_round b log succeeded paths
      else let '(ok, b, log) := releaseMediaTransport b log p in
           let '(all, b, log, succeeded) :=
             release_round b log (if ok then {[ p ]} ∪ succeeded else succeeded) paths in
           (ok && all, b, log, succeeded)
  end.

Definition fallbackTransportOwner (b : Broker) : bool * Broker := (closed, bump releaseFallbacks b).

Fixpoint release_attempts (n : nat) (b : Broker) (log : list (path * bool)) (succeeded : gset path)
    (paths : list path) : bool * Broker * list (path * bool) * bool :=
  match n with
  | O => let '(ok, b) := fallbackTransportOwner b in (ok, b, log, true)
  | S n =>
      let '(all, b, log, succeeded) := release_round b log succeeded paths in
      if all then (true, b, log, false) else release_attempts n b log succeeded paths
  end.

(** The result: whether it returned [nil], the broker, the calls, and whether
    the owner connection was closed. *)
Definition releaseTransportPaths (b : Broker) (paths : list path)
  : bool * Broker * list (path * bool) * bool :=
  release_attempts transportReleaseRetries b [] ∅ paths.
End Release.

Definition pendingReleasePath (held : option pendingTransport) : path :=
  match held with
  | None => []
  | Some h => if 0 <? len (ptRelease h) then ptRelease h else ptPath h
  end.

Fixpoint release_paths (seen : gset path) (transports : list (option pendingTransport)) : list path :=
  match transports with
  | [] => []
  | held :: transports =>
      let p := pendingReleasePath held in
      if (0 <? len p) && negb (bool_decide (p ∈ seen))
      then p :: release_paths ({[ p ]} ∪ seen) transports
      else release_paths seen transports
  end.
Definition pendingReleasePaths (transports : list (option pendingTransport)) : list path :=
  release_paths ∅ transports.

(** ** The active session *)
Definition activeSessionForHandoff (conn : Z) (sink source : pendingTransport) (sinkD sourceD : Descriptor)
    (lifecycleFD now : Z) : session :=
  {| sConnection := conn; sReleasePaths := pendingReleasePaths [Some sink; Some source];
     sSinkPath := ptPath sink; sSourcePath := ptPath source;
     sSinkGeneration := dGeneration sinkD; sSourceGeneration := dGeneration sourceD;
     sBundleID := dBundleID sinkD; sCallToken := dCallControlToken sinkD; sLifecycleFD := lifecycleFD;
     sLifecycleDone := false; sStartedAt := Some now; sProgressArmed := false; sLastProgress := None;
     sNormalEndSeen := false; sNormalWaitStarted := false; sIdlePaths := ∅; sRemoteIdleSeen := false;
     sReleasing := false; sReleaseExhausted := false |}.

Definition signalActiveSessionDone (b : Broker) (sid : option nat) : Broker :=
  match sid, session_at b sid with
  | Some i, Some s => put_session b i (s <| sLifecycleDone := true |>)
  | _, _ => b
  end.

Definition clearActiveSessionLocked (b : Broker) (i : nat) : Broker :=
  match bSessions b !! i with
  | Some s =>
      if bool_decide (bActiveSession b = Some i)
      then signalActiveSessionDone
             (b <| bAcquired := bAcquired b ∖ {[ sSinkPath s; sSourcePath s ]} |> <| bActiveSession := None |>)
             (Some i)
      else b
  | None => b
  end.

Definition lifecycleProgressMatches (s : session) (p : lifecycleProgress) : bool :=
  (lpBundleID p =? sBundleID s) && (lpSinkGeneration p =? sSinkGeneration s) &&
  (lpSourceGeneration p =? sSourceGeneration s).

(** The guard of every operation on a session: it is current and not ending. *)
Definition current_session (b : Broker) (i : nat) : option session :=
  if bool_decide (bActiveSession b = Some i) then bSessions b !! i else None.
Definition open_session (b : Broker) (i : nat) : option session :=
  match current_session b i with
  | Some s => if sReleasing s || sReleaseExhausted s then None else Some s
  | None => None
  end.

Definition recordLifecycleProgress (b : Broker) (i : nat) (p : lifecycleProgress) (now : Z) : bool * Broker :=
  match open_session b i with
  | Some s =>
      if lifecycleProgressMatches s p
      then (true, bump lifecycleProgressEvents
                    (put_session b i (s <| sProgressArmed := true |> <| sLastProgress := Some now |>)))
      else (false, bump lifecycleStale b)
  | None => (false, bump lifecycleStale b)
  end.

Definition normalReleaseWaiting (b : Broker) (i : nat) : bool :=
  match open_session b i with Some s => sNormalWaitStarted s | None => false end.
Definition normalReleasePending (b : Broker) (i : nat) : bool :=
  match open_session b i with Some s => sNormalEndSeen s | None => false end.

Definition markNormalReleasePending (b : Broker) (i : nat) (normalEndEvent : bool) : bool * Broker :=
  match open_session b i with
  | None => (false, b)
  | Some s =>
      let b := if normalEndEvent then bump lifecycleNormalEnds b else b in
      if sNormalEndSeen s then (false, b)
      else (true, put_session b i (s <| sNormalEndSeen := true |>))
  end.

(** [true] when the goroutine [releaseActiveSession] was started. *)
Definition requestSpecificSessionRelease (b : Broker) (i : nat) : bool * Broker :=
  match open_session b i with
  | None => (false, b)
  | Some s => (true, put_session b i (s <| sReleasing := true |>))
  end.

(** What [beginNormalReleaseWait] started besides its result. *)
Inductive begun := BegunNothing | BegunRelease | BegunWait (wait : Z).

Definition beginNormalReleaseWait (b : Broker) (i : nat) (normalEndEvent : bool) : bool * begun * Broker :=
  match open_session b i with
  | None => (false, BegunNothing, b)
  | Some s =>
      let b := if normalEndEvent then bump lifecycleNormalEnds b else b in
      if sNormalWaitStarted s then (false, BegunNothing, b)
      else
        let s := s <| sNormalEndSeen := sNormalEndSeen s || normalEndEvent |> in
        let b := put_session b i s in
        let wait := bNormalReleaseWait b in
        if wait <=? 0
        then let '(went, b) := requestSpecificSessionRelease b i in
             (false, if went then BegunRelease else BegunNothing, b)
        else (true, BegunWait wait,
              bump normalReleaseWaits (put_session b i (s <| sNormalWaitStarted := true |>)))
  end.

Definition recordLifecycleNormalEnd (b : Broker) (i : nat) (identity : lifecycleProgress) : bool * Broker :=
  match open_session b i with
  | Some s =>
      if lifecycleProgressMatches s identity then markNormalReleasePending b i true
      else (false, bump lifecycleStale b)
  | None => (false, bump lifecycleStale b)
  end.

(** The locked part of [forceNormalReleaseTimeout]; [true] when it goes on to
    [releaseActiveSession]. *)
Definition forceNormalReleaseTimeout (b : Broker) (i : nat) : bool * Broker :=
  match open_session b i with
  | Some s =>
      if sNormalWaitStarted s
      then (true, bump normalReleaseTimeouts (put_session b i (s <| sReleasing := true |>)))
      else (false, b)
  | None => (false, b)
  end.

Definition requestActiveSessionRelease (b : Broker) : option nat * Broker :=
  match bActiveSession b with
  | None => (None, b)
  | Some i => let '(went, b) := requestSpecificSessionRelease b i in (if went then Some i else None, b)
  end.
Definition handleLEBearerDisconnected (b : Broker) : option nat * Broker := requestActiveSessionRelease b.

Definition ReleaseCallToken (b : Broker) (token : Z) : bool * Broker :=
  if token =? 0 then (false, b)
  else match bActiveSession b with
       | None => (false, b)
       | Some i =>
           match bSessions b !! i with
           | Some s => if sCallToken s =? token then markNormalReleasePending b i false else (false, b)
           | None => (false, b)
           end
       end.

Definition completeActiveSession (b : Broker) (i : nat) : Broker := clearActiveSessionLocked b i.

Definition release_failed (b : Broker) (i : nat) : Broker :=
  match current_session b i with
  | Some s =>
      if sRemoteIdleSeen s then clearActiveSessionLocked (bump transportIdleComplete b) i
      else put_session b i (s <| sReleasing := false |> <| sReleaseExhausted := true |>)
  | None => b
  end.

Definition releaseActiveSession (answer : list (path * bool) -> path -> bool) (closed : bool)
    (b : Broker) (i : nat) : Broker :=
  match bSessions b !! i with
  | None => b
  | Some s =>
      let '(ok, b, _, _) := releaseTransportPaths answer closed b (sReleasePaths s) in
      if ok then completeActiveSession b i else release_failed b i
  end.

(** ** Tables of transports *)
Definition close_pending (b : Broker) (p : path) : Broker * list Z :=
  match bPending b !! p with
  | Some held => (b <| bPending := delete p (bPending b) |>, [ptFD held])
  | None => (b, [])
  end.

Definition forget_path (b : Broker) (p : path) : Broker :=
  b <| bAcquiring := bAcquiring b ∖ {[ p ]} |> <| bAcquired := bAcquired b ∖ {[ p ]} |>
    <| bPairing := bPairing b ∖ {[ p ]} |>.

(** [dbus.ObjectPath.IsValid] is library code: a parameter. *)
Definition configure (IsValid : path -> bool) (b : Broker) (p : path) (direction : Z) (codec : CodecConfig)
    (qos : TransportQoS) : result unit * Broker * list Z :=
  if negb (IsValid p) || negb (HasPrefix p (bExpectedDevice b ++ str "/"))
  then (fail! "unexpected BlueZ transport", b, [])
  else if bNextConfig b =? 2 ^ 64 - 1
  then (fail! "LE Audio configuration generation exhausted", b, [])
  else
    let b := b <| bNextConfig := bNextConfig b + 1 |> in
    let '(b, fds) := close_pending b p in
    let b := b <| bConfigured := <[p := {| tcDirection := direction; tcGeneration := bNextConfig b;
                                           tcCodec := codec; tcQoS := qos |}]> (bConfigured b) |> in
    (Ok tt, forget_path b p, fds).

(** [endpoint.SetConfiguration]. *)
Definition SetConfiguration (IsValid : path -> bool) (b : Broker) (direction : Z) (p : path) (properties : pdict)
  : result unit * Broker * list Z :=
  match set_configuration properties with
  | Error e => (Error e, b, [])
  | Ok (codec, qos) => configure IsValid b p direction codec qos
  end.

Definition session_uses (s : session) (p : path) : bool :=
  bool_decide (p = sSinkPath s) || bool_decide (p = sSourcePath s) || containsObjectPath (sReleasePaths s) p.

Definition clear (b : Broker) (p : path) : Broker * list Z :=
  let '(b, fds) := close_pending b p in
  let b := forget_path (b <| bConfigured := delete p (bConfigured b) |>) p in
  (match bActiveSession b, session_at b (bActiveSession b) with
   | Some i, Some s => if session_uses s p then clearActiveSessionLocked b i else b
   | _, _ => b
   end, fds).

(** [closePendingLocked], in any iteration order. *)
Definition closePendingLocked (b : Broker) : Broker * list Z :=
  (b <| bPending := ∅ |>, map (fun e : path * pendingTransport => ptFD e.2) (map_to_list (bPending b))).

(** ** Signals *)
Inductive sigval := SVString (s : string) | SVBool (v : bool) | SVOther.
Inductive sigarg := SAString (s : string) | SADict (d : gmap string sigval) | SAOther.
Record dbus_signal := mkSignal { sgName : string; sgPath : path; sgBody : list sigarg }.

Definition propertiesChanged : string := "org.freedesktop.DBus.Properties.PropertiesChanged".
Definition transportInterface : string := "org.bluez.MediaTransport1".
Definition leBearerInterface : string := "org.bluez.Bearer.LE1".
Definition bluezBusName : string := "org.bluez".

(** The interface and the changed properties of a [PropertiesChanged] signal. *)
Definition changed_properties (sg : dbus_signal) : option (string * gmap string sigval) :=
  if String.eqb (sgName sg) propertiesChanged
  then match sgBody sg with SAString iface :: SADict changed :: _ => Some (iface, changed) | _ => None end
  else None.

(** The locked part of an "idle" transition. *)
Definition transport_idle (b : Broker) (p : path) : Broker :=
  let b := forget_path b p in
  match bActiveSession b, session_at b (bActiveSession b) with
  | Some i, Some s =>
      if session_uses s p then
        let s := s <| sIdlePaths := {[ p ]} ∪ sIdlePaths s |> in
        let b := put_session b i s in
        if bool_decide (sSinkPath s ∈ sIdlePaths s) && bool_decide (sSourcePath s ∈ sIdlePaths s) then
          if sReleasing s then put_session b i (s <| sRemoteIdleSeen := true |>)
          else
            let b := bump transportIdleComplete b in
            let b := if sNormalEndSeen s then bump normalReleaseIdle b else b in
            clearActiveSessionLocked b i
        else b
      else b
  | _, _ => b
  end.

(** [handleSignal]: the broker, and the path a goroutine [acquire] was started for. *)
Definition handleSignal (b : Broker) (signal : option dbus_signal) : Broker * option path :=
  match signal with
  | None => (b, None)
  | Some sg =>
      match changed_properties sg with
      | None => (b, None)
      | Some (iface, changed) =>
          if negb (bool_decide (sgPath sg = bExpectedDevice b)) &&
             negb (HasPrefix (sgPath sg) (bExpectedDevice b ++ str "/")) then (b, None)
          else if negb (String.eqb iface transportInterface) then (b, None)
          else match changed !! "State" with
               | Some (SVString state) =>
                   if String.eqb state "pending" then (b, Some (sgPath sg))
                   else if String.eqb state "idle" then (transport_idle b (sgPath sg), None)
                   else (b, None)
               | _ => (b, None)
               end
      end
  end.

(** [bluezNameLost]. *)
Definition bluezNameLost (signal : option dbus_signal) : bool :=
  match signal with
  | Some sg =>
      String.eqb (sgName sg) "org.freedesktop.DBus.NameOwnerChanged" &&
      match sgBody sg with
      | SAString name :: _ :: SAString newOwner :: _ => String.eqb name bluezBusName && String.eqb newOwner ""
      | _ => false
      end
  | None => false
  end.

(** [leBearerConnectionChanged]: [Some connected] when the signal matched. *)
Definition leBearerConnectionChanged (signal : option dbus_signal) (expectedDevice : path) : option bool :=
  match signal with
  | Some sg =>
      if bool_decide (sgPath sg = expectedDevice) then
        match changed_properties sg with
        | Some (iface, changed) =>
            if String.eqb iface leBearerInterface
            then match changed !! "Connected" with Some (SVBool c) => Some c | _ => None end
            else None
        | None => None
        end
      else None
  | None => None
  end.

(** ** Generations *)

(** [clock] is what [CLOCK_BOOTTIME] returned: seconds and nanoseconds. *)
Definition nextDescriptorGenerationLocked (b : Broker) (clock : result (Z * Z)) : result Z * Broker :=
  match clock with
  | Error e => (Error (Wrap "read LE Audio generation clock" e), b)
  | Ok (sec, nsec) =>
      if (sec <? 0) || (nsec <? 0) then (fail! "invalid LE Audio generation clock", b)
      else
        let generation := u64 (u64 (sec * Second) + nsec) in
        if generation <=? bLastGen b then
          if bLastGen b =? 2 ^ 64 - 1 then (fail! "LE Audio descriptor generation exhausted", b)
          else (Ok (bLastGen b + 1), b <| bLastGen := bLastGen b + 1 |>)
        else (Ok generation, b <| bLastGen := generation |>)
  end.

(** ** Pairing *)

(** The first candidate of the other direction in the order the map is visited;
    the flag is whether the pair is valid. *)
Fixpoint find_peer (current : pendingTransport) (entries : list (path * pendingTransport))
  : option (pendingTransport * bool) :=
  match entries with
  | [] => None
  | (_, candidate) :: entries =>
      if bool_decide (ptPath candidate = ptPath current) ||
         (tcDirection (ptConfig candidate) =? tcDirection (ptConfig current))
      then find_peer current entries
      else Some (candidate, is_ok (validateTransportPair current candidate))
  end.

Definition pairCurrentLocked (b : Broker) (conn : Z) (first second : pendingTransport) : bool :=
  let current (t : pendingTransport) :=
    match bConfigured b !! ptPath t with
    | Some c => tcGeneration c =? tcGeneration (ptConfig t)
    | None => false
    end in
  bool_decide (bConnection b = Some conn) && bool_decide (ptPath first ∈ bPairing b) &&
  bool_decide (ptPath second ∈ bPairing b) && current first && current second.

Definition clear_pairing (b : Broker) (held : pendingTransport) : Broker :=
  match bConfigured b !! ptPath held with
  | Some c => if tcGeneration c =? tcGeneration (ptConfig held)
              then b <| bPairing := bPairing b ∖ {[ ptPath held ]} |> else b
  | None => b
  end.
Definition clearPairingLocked (b : Broker) (first second : pendingTransport) : Broker :=
  clear_pairing (clear_pairing b first) second.

(** [string(path) < string(peer)]: bytewise lexicographic order. *)
Fixpoint path_ltb (p q : path) : bool :=
  match p, q with
  | _, [] => false
  | [], _ :: _ => true
  | x :: p, y :: q => if x <? y then true else if y <? x then false else path_ltb p q
  end.

(** [linkedAcquirePlan]: the linked peer, if any, and whether this path leads. *)
Definition linkedAcquirePlan (p : path) (links : list path) : result (option path * bool) :=
  match links with
  | [] => Ok (None, true)
  | [peer] => if (len peer =? 0) || bool_decide (peer = p) then fail! "invalid linked transport set"
              else Ok (Some peer, path_ltb p peer)
  | _ => fail! "invalid linked transport set"
  end.

(** [waitForCallToken]: [polls] are the successive answers of the provider, one per
    poll the timeout leaves time for; without a provider nothing is ever seen. *)
Fixpoint waitForCallToken (polls : list (Z * bool)) : Z * bool :=
  match polls with
  | [] => (0, false)
  | (token, correlated) :: polls =>
      if correlated && negb (token =? 0) then (token, true) else waitForCallToken polls
  end.

(** ** Advertisement hold *)
Definition HoldAdvertisement (b : Broker) (hold : bool) : Broker :=
  let changed := negb (eqb (bAdvertisementHold b) hold) in
  let b := b <| bAdvertisementHold := hold |> in
  if negb changed || hold then b else b <| bRearmRequest := true |>.
Definition advertisementHeld (b : Broker) : bool := bAdvertisementHold b.

(** ** Status *)
Record Snapshot := mkSnapshot {
  EndpointsRegistered : bool;
  Advertising : bool;
  Discoverable : bool;
  ExtendedAdvertising : bool;
  BAPAnnouncement : bool;
  CAPAnnouncement : bool;
  TMAPAnnouncement : bool;
  HeadsetAppearance : bool;
  SinkConfigured : bool;
  SourceConfigured : bool;
  SinkAcquired : bool;
  SourceAcquired : bool;
  BidirectionalCIS : bool;
  Counters : gmap metric Z
}.
Definition configured_as (b : Broker) (direction : Z) (e : path * transportConfig) : bool := tcDirection e.2 =? direction.
Definition SnapshotOf (b : Broker) : Snapshot :=
  let entries := map_to_list (bConfigured b) in
  let has d := existsb (configured_as b d) entries in
  let acquired d := existsb (fun e => configured_as b d e && bool_decide (e.1 ∈ bAcquired b)) entries in
  {| EndpointsRegistered := bRegistered b; Advertising := bAdvertising b; Discoverable := bDiscoverable b;
     ExtendedAdvertising := bAdvertising b; BAPAnnouncement := bAdvertising b; CAPAnnouncement := bAdvertising b;
     TMAPAnnouncement := bAdvertising b; HeadsetAppearance := bAdvertising b;
     SinkConfigured := has DirectionSink; SourceConfigured := has DirectionSource;
     SinkAcquired := acquired DirectionSink; SourceAcquired := acquired DirectionSource;
     BidirectionalCIS := acquired DirectionSink && acquired DirectionSource;
     Counters := bMetrics b |}.

(** ** Metrics *)

Lemma u64_succ x : u64 (u64 x + 1) = u64 (x + 1).
Proof. unfold u64. by rewrite Zplus_mod_idemp_l. Qed.

Lemma metric_bump b m m' :
  u64 (metric_of (bump m b) m') = u64 (metric_of b m' + (if decide (m = m') then 1 else 0)).
Proof.
  unfold metric_of, bump. cbn. case_decide as E.
  - subst. rewrite lookup_insert_eq. cbn. unfold u64. by rewrite Zmod_mod.
  - rewrite lookup_insert_ne by done. by rewrite Z.add_0_r.
Qed.

(** What [n] extra events of metric [m] leave. *)
Definition metric_delta (b b' : Broker) (m : metric) (n : Z) : Prop :=
  u64 (metric_of b' m) = u64 (metric_of b m + n).

Lemma metric_delta_trans b1 b2 b3 m x y :
  metric_delta b1 b2 m x -> metric_delta b2 b3 m y -> metric_delta b1 b3 m (x + y).
Proof.
  unfold metric_delta, u64. intros H1 H2. rewrite H2, <- Zplus_mod_idemp_l, H1, Zplus_mod_idemp_l.
  f_equal. lia.
Qed.

Lemma metric_delta_eq b b' m x y : metric_delta b b' m x -> x = y -> metric_delta b b' m y.
Proof. by intros ? <-. Qed.

(** Two brokers that differ in their metrics only. *)
Definition metrics_only (b b' : Broker) : Prop := b' <| bMetrics := bMetrics b |> = b.
Lemma metrics_only_refl b : metrics_only b b.
Proof. by destruct b. Qed.
Lemma metrics_only_bump b b' m : metrics_only b b' -> metrics_only b (bump m b').
Proof. by destruct b, b'. Qed.
Lemma metrics_only_eq b b' : metrics_only b b' -> b' = b <| bMetrics := bMetrics b' |>.
Proof. unfold metrics_only. intros <-. by destruct b'. Qed.

(** ** Release calls *)

(** The broker after the calls of a log. *)
Fixpoint charge (b : Broker) (log : list (path * bool)) : Broker :=
  match log with
  | [] => b
  | (_, ok) :: log => charge (bump (if ok then releaseSuccesses else releaseErrors) (bump releaseAttempts b)) log
  end.
Lemma charge_app b l1 l2 : charge b (l1 ++ l2) = charge (charge b l1) l2.
Proof. revert b. induction l1 as [|[p ok] l1 IH]; intros b; [done|apply IH]. Qed.
Lemma charge_only b log : metrics_only b (charge b log).
Proof.
  revert b. assert (forall b0 b, metrics_only b0 b -> metrics_only b0 (charge b log)) as H.
  { induction log as [|[p ok] log IH]; intros b0 b Hb; [done|]. cbn [charge]. apply IH.
    by apply metrics_only_bump, metrics_only_bump. }
  intros b. apply H, metrics_only_refl.
Qed.

Definition outcomes (ok : bool) (log : list (path * bool)) : Z := len (filter (fun e => e.2 = ok) log).
Definition tries (p : path) (log : list (path * bool)) : nat := length (filter (fun e => e.1 = p) log).

Lemma charge_metrics b log :
  metric_delta b (charge b log) releaseAttempts (len log) /\
  metric_delta b (charge b log) releaseSuccesses (outcomes true log) /\
  metric_delta b (charge b log) releaseErrors (outcomes false log) /\
  metric_delta b (charge b log) releaseFallbacks 0.
Proof.
  revert b. induction log as [|[p ok] log IH]; intros b.
  { unfold metric_delta, outcomes, len. cbn. by rewrite !Z.add_0_r. }
  cbn [charge]. set (b1 := bump _ _). destruct (IH b1) as (H1 & H2 & H3 & H4).
  assert (forall m, metric_delta b b1 m
    ((if decide (releaseAttempts = m) then 1 else 0) +
     (if decide ((if ok then releaseSuccesses else releaseErrors) = m) then 1 else 0))) as Hb.
  { intros m. unfold b1. eapply metric_delta_trans; apply metric_bump. }
  pose proof (metric_delta_trans _ _ _ _ _ _ (Hb releaseAttempts) H1) as G1.
  pose proof (metric_delta_trans _ _ _ _ _ _ (Hb releaseSuccesses) H2) as G2.
  pose proof (metric_delta_trans _ _ _ _ _ _ (Hb releaseErrors) H3) as G3.
  pose proof (metric_delta_trans _ _ _ _ _ _ (Hb releaseFallbacks) H4) as G4.
  split_and!; [eapply (metric_delta_eq _ _ _ _ _ G1)|eapply (metric_delta_eq _ _ _ _ _ G2)
    |eapply (metric_delta_eq _ _ _ _ _ G3)|eapply (metric_delta_eq _ _ _ _ _ G4)];
    unfold outcomes, len; rewrite ?filter_cons; destruct ok;
    repeat case_decide; try done; cbn -[Z.add Z.of_nat]; lia.
Qed.

Section ReleaseFacts.
Context (answer : list (path * bool) -> path -> bool) (closed : bool).

(** Every outcome in the log is the oracle's answer to what came before. *)
Definition answered (log new : list (path * bool)) : Prop :=
  forall l1 p ok l2, new = l1 ++ (p, ok) :: l2 -> ok = answer (log ++ l1) p.

Lemma answered_cons log p new :
  answered (log ++ [(p, answer log p)]) new -> answered log ((p, answer log p) :: new).
Proof.
  intros H l1 q ok l2 E. destruct l1 as [|e l1]; cbn in E.
  - injection E as <- <- _. by rewrite app_nil_r.
  - injection E as <- E. rewrite (H _ _ _ _ E). by rewrite <- app_assoc.
Qed.
Lemma answered_app log l1 l2 : answered log l1 -> answered (log ++ l1) l2 -> answered log (l1 ++ l2).
Proof.
  revert log. induction l1 as [|[p ok] l1 IH]; intros log H1 H2; [by rewrite app_nil_r in H2|].
  pose proof (H1 [] p ok l1 eq_refl) as Hok. rewrite app_nil_r in Hok. subst ok.
  cbn. apply answered_cons, IH.
  - intros x q ok y E. subst. rewrite <- app_assoc. by apply (H1 ((p, answer log p) :: x) q ok y).
  - by rewrite <- app_assoc.
Qed.

Lemma release_round_spec b log succeeded paths all b' log' succeeded' :
  NoDup paths -> release_round answer b log succeeded paths = (all, b', log', succeeded') ->
  exists new, log' = log ++ new /\ answered log new /\ b' = charge b new /\
    new.*1 = filter (fun p => p ∉ succeeded) paths /\
    (all = true <-> Forall (fun e => e.2 = true) new) /\
    (forall p, p ∈ succeeded' <-> p ∈ succeeded \/ (p, true) ∈ new).
Proof.
  revert b log succeeded all b' log' succeeded'.
  induction paths as [|p paths IH]; intros b log succ all b' log' succ' ND H.
  { cbn in H. injection H as <- <- <- <-. exists []. rewrite app_nil_r. split_and!; try done.
    - intros [|? ?] ? ? ? E; discriminate E.
    - intros q. rewrite elem_of_nil. tauto. }
  apply NoDup_cons in ND as [Hp ND]. cbn [release_round] in H. case_bool_decide as Hs.
  { destruct (IH _ _ _ _ _ _ _ ND H) as (new & ?). exists new. rewrite filter_cons_False by tauto. done. }
  cbn [releaseMediaTransport] in H. set (ok := answer log p) in *.
  destruct (release_round _ _ _ _ _) as [[[all1 b1] log1] succ1] eqn:E. injection H as <- <- <- <-.
  destruct (IH _ _ _ _ _ _ _ ND E) as (new & -> & Ha & -> & Hf & Hall & Hs').
  exists ((p, ok) :: new). split_and!.
  - by rewrite <- app_assoc.
  - by apply answered_cons.
  - done.
  - rewrite filter_cons_True by done. cbn. f_equal. rewrite Hf. apply filter_ext_elem.
    intros q Hq. destruct ok; set_solver.
  - rewrite Forall_cons, <- Hall. cbn. destruct ok, all1; cbn; tauto || naive_solver.
  - intros q. rewrite Hs', elem_of_cons. destruct ok; set_solver.
Qed.

(** A path is not called again once its [Release] succeeded. *)
Definition no_retry (log : list (path * bool)) : Prop :=
  forall l1 p ok l2, log = l1 ++ (p, ok) :: l2 -> (p, true) ∉ l1.

(** The state after [k] passes over [paths]. *)
Record passes (paths : list path) (k : nat) (log : list (path * bool)) (succeeded : gset path) : Prop := {
  ps_succeeded : forall p, p ∈ succeeded <-> (p, true) ∈ log;
  ps_paths : forall e, e ∈ log -> e.1 ∈ paths;
  ps_tries : forall p, (tries p log <= k)%nat;
  ps_failing : forall p, p ∈ paths -> p ∉ succeeded -> tries p log = k;
  ps_no_retry : no_retry log
}.

Lemma tries_app p l1 l2 : tries p (l1 ++ l2) = (tries p l1 + tries p l2)%nat.
Proof. unfold tries. by rewrite filter_app, length_app. Qed.
Lemma tries_count p (new : list (path * bool)) :
  NoDup new.*1 -> tries p new = (if decide (p ∈ new.*1) then 1 else 0)%nat.
Proof.
  induction new as [|[q ok] new IH]; [done|]. rewrite fmap_cons. intros [Hq ND]%NoDup_cons.
  specialize (IH ND). unfold tries in *. rewrite filter_cons. cbn [fst] in *.
  destruct (decide (q = p)) as [->|Hne]; cbn [length].
  - rewrite IH, decide_False by done. by rewrite decide_True by (apply list_elem_of_here).
  - rewrite IH. repeat case_decide; set_solver.
Qed.

Lemma no_retry_app log new :
  no_retry log -> NoDup new.*1 -> (forall p, p ∈ new.*1 -> (p, true) ∉ log) -> no_retry (log ++ new).
Proof.
  intros HL ND Hnew l1 p ok l2 E.
  apply app_eq_inv in E as [(k & -> & E)|(k & -> & E)].
  - destruct k as [|e k].
    + rewrite app_nil_r in Hnew. apply Hnew. cbn in E. rewrite <- E. apply list_elem_of_here.
    + cbn in E. injection E as <- ->. by apply (HL l1 p ok k).
  - rewrite E in ND, Hnew. rewrite fmap_app in ND. apply NoDup_app in ND as (_ & ND & _).
    rewrite elem_of_app. intros [Hin|Hin].
    + revert Hin. apply Hnew. rewrite fmap_app. set_solver.
    + specialize (ND p). apply ND; [|set_solver]. apply list_elem_of_fmap. by exists (p, true).
Qed.

Lemma release_round_passes b log succeeded paths k all b' log' succeeded' :
  NoDup paths -> passes paths k log succeeded ->
  release_round answer b log succeeded paths = (all, b', log', succeeded') ->
  passes paths (S k) log' succeeded' /\ (all = true <-> forall p, p ∈ paths -> p ∈ succeeded').
Proof.
  intros ND [P1 P2 P3 P4 P5] H.
  destruct (release_round_spec _ _ _ _ _ _ _ _ ND H) as (new & -> & _ & _ & Hf & Hall & Hs).
  assert (NoDup new.*1) as NDn by (rewrite Hf; by apply NoDup_filter).
  assert (forall p, p ∈ new.*1 <-> p ∈ paths /\ p ∉ succeeded) as Hin
    by (intros p; rewrite Hf, list_elem_of_filter; tauto).
  assert (forall p ok, (p, ok) ∈ new -> p ∈ new.*1) as Hfst
    by (intros p ok Hp; apply list_elem_of_fmap; by exists (p, ok)).
  split; [split|].
  - intros p. rewrite Hs, P1, elem_of_app. done.
  - intros e. rewrite elem_of_app. intros [He|He]; [by apply P2|].
    destruct e as [p ok]. by apply Hfst, Hin in He as [? _].
  - intros p. rewrite tries_app, (tries_count p new NDn). specialize (P3 p). case_decide; lia.
  - intros p Hp Hns. rewrite Hs in Hns. rewrite tries_app, (tries_count p new NDn), P4 by tauto.
    rewrite decide_True by (apply Hin; tauto). lia.
  - apply no_retry_app; auto. intros p Hp. rewrite <- P1. by apply Hin in Hp as [_ ?].
  - rewrite Hall, Forall_forall. split.
    + intros HF p Hp. rewrite Hs. destruct (decide (p ∈ succeeded)) as [?|Hn]; [by left|right].
      assert (p ∈ new.*1) as Hm by (apply Hin; tauto).
      apply list_elem_of_fmap in Hm as ([q ok] & -> & Hq). specialize (HF _ Hq). cbn in *. by subst.
    + intros HP [p ok] He. cbn. destruct ok; [done|]. exfalso.
      assert (p ∈ new.*1) as Hm by by eapply Hfst. apply Hin in Hm as [Hp Hn].
      specialize (HP p Hp). apply Hs in HP as [?|Ht]; [done|].
      assert (tries p new = 1%nat) as T by (rewrite tries_count by done; rewrite decide_True by (by eapply Hfst); done).
      apply list_elem_of_split in Ht as (a & c & ->). rewrite tries_app in T. unfold tries in T.
      rewrite filter_cons_True in T by done. cbn in T. rewrite elem_of_app, elem_of_cons in He.
      destruct He as [He|[He|He]]; [|discriminate He|];
        apply list_elem_of_split in He as (x & y & ->); rewrite filter_app, filter_cons_True, length_app in T by done;
        cbn in T; lia.
Qed.

Lemma release_attempts_spec n k b log succeeded paths ok b' log' fell :
  NoDup paths -> passes paths k log succeeded -> (n = 0%nat -> exists p, p ∈ paths /\ p ∉ succeeded) ->
  release_attempts answer closed n b log succeeded paths = (ok, b', log', fell) ->
  exists new succeeded' k', log' = log ++ new /\ answered log new /\
    b' = (if fell then bump releaseFallbacks (charge b new) else charge b new) /\
    passes paths k' log' succeeded' /\ (k' <= k + n)%nat /\
    (fell = false -> ok = true /\ forall p, p ∈ paths -> p ∈ succeeded') /\
    (fell = true -> ok = closed /\ k' = (k + n)%nat /\ exists p, p ∈ paths /\ p ∉ succeeded').
Proof.
  revert k b log succeeded. induction n as [|n IH]; intros k b log succ ND HP H0 H.
  { cbn in H. injection H as <- <- <- <-. exists [], succ, k. rewrite app_nil_r.
    split_and!; auto; try done; try lia; try (intros [|? ?] ? ? ? E; discriminate E). }
  cbn [release_attempts] in H.
  destruct (release_round answer b log succ paths) as [[[all b1] log1] succ1] eqn:E.
  destruct (release_round_passes _ _ _ _ _ _ _ _ _ ND HP E) as [HP1 Hall].
  destruct (release_round_spec _ _ _ _ _ _ _ _ ND E) as (new & -> & Ha & -> & _ & _ & _).
  destruct all.
  - injection H as <- <- <- <-. exists new, succ1, (S k). split_and!; auto; try done; try lia.
    by intros _; split; [|apply Hall].
  - assert (exists p, p ∈ paths /\ p ∉ succ1) as Hex.
    { destruct (decide (Forall (fun p => p ∈ succ1) paths)) as [HF|HF].
      - rewrite Forall_forall in HF. by assert (false = true) by by apply Hall.
      - apply not_Forall_Exists in HF; [|intros ?; apply _]. by apply Exists_exists in HF. }
    destruct (IH (S k) _ _ _ ND HP1 (fun _ => Hex) H) as (new2 & succ2 & k2 & -> & Ha2 & Hb & HP2 & Hk & Hf & Ht).
    exists (new ++ new2), succ2, k2. rewrite app_assoc, charge_app. split_and!; auto; try lia.
    + by apply answered_app.
    + intros Hfell. destruct (Ht Hfell) as (? & ? & ?). split_and!; auto; lia.
Qed.
End ReleaseFacts.

(** Giving transports back to BlueZ, for every behaviour of the [Release]
    method: only the given paths are called, each at most three times, and never
    again once it succeeded.  Either every path was released and the call returns
    success, or some path failed three times; then, and only then, the connection
    that owns the transports is closed, exactly once, and that decides the result.
    The counters record every call and its outcome, and nothing else changes. *)
Theorem releaseTransportPaths_spec answer closed b paths ok b' log fell :
  NoDup paths -> releaseTransportPaths answer closed b paths = (ok, b', log, fell) ->
  (forall e, e ∈ log -> e.1 ∈ paths) /\
  (forall p, tries p log <= 3)%nat /\
  no_retry log /\ answered answer [] log /\
  (if fell then ok = closed /\ exists p, p ∈ paths /\ tries p log = 3%nat /\ (p, true) ∉ log
   else ok = true /\ forall p, p ∈ paths -> (p, true) ∈ log) /\
  metrics_only b b' /\
  metric_delta b b' releaseAttempts (len log) /\
  metric_delta b b' releaseSuccesses (outcomes true log) /\
  metric_delta b b' releaseErrors (outcomes false log) /\
  metric_delta b b' releaseFallbacks (if fell then 1 else 0).
Proof.
  intros ND H. unfold releaseTransportPaths in H.
  assert (passes paths 0 [] ∅) as HP.
  { split; try done; [set_solver|by intros ? ?%elem_of_nil|intros [|? ?] ? ? ? E; discriminate E]. }
  destruct (release_attempts_spec _ _ _ _ _ _ _ _ _ _ _ _ ND HP (fun E => False_rect _ (Nat.neq_succ_0 _ E)) H)
    as (new & succ & k & -> & Ha & -> & [P1 P2 P3 P4 P5] & Hk & Hf & Ht).
  cbn [app] in *. destruct (charge_metrics b new) as (M1 & M2 & M3 & M4).
  assert (forall p, tries p new <= 3)%nat as Htries
    by (intros p; specialize (P3 p); unfold transportReleaseRetries in Hk; lia).
  assert (forall m x, metric_delta b (charge b new) m x -> m <> releaseFallbacks ->
            metric_delta b (bump releaseFallbacks (charge b new)) m x) as Hkeep.
  { intros m x Hm Hne. eapply metric_delta_eq; [eapply metric_delta_trans; [exact Hm|apply metric_bump]|].
    rewrite decide_False by done. lia. }
  destruct fell.
  - destruct (Ht eq_refl) as (-> & -> & p & Hp & Hn).
    split_and!; auto using metrics_only_bump, charge_only; try (by apply Hkeep).
    + exists p. rewrite <- P1. auto.
    + eapply metric_delta_eq; [eapply metric_delta_trans; [exact M4|apply metric_bump]|].
      by rewrite decide_True by done.
  - destruct (Hf eq_refl) as [-> HA]. split_and!; auto using charge_only.
    intros p Hp. by apply P1, HA.
Qed.

Definition demo_broker : Broker :=
  {| bAdapter := str "hci0"; bExpectedAddress := []; bExpectedDevice := str "/dev";
     bAdvertisementHold := false; bRearmRequest := false; bHandoff := demo_handoff; bConnection := Some 1;
     bConfigured := ∅; bAcquiring := ∅; bAcquired := ∅; bPairing := ∅; bPending := ∅;
     bRegistered := true; bAdvertising := false; bDiscoverable := false;
     bNextConfig := 0; bLastGen := 0; bProvider := false; bRequireToken := false;
     bActiveSession := None; bSessions := ∅;
     bProgressStartLease := mediaProgressStartTimeout; bProgressLease := mediaProgressLeaseTimeout;
     bNormalReleaseWait := Second; bMetrics := ∅ |}.

(** Two paths, the second of which never answers: it is tried three times. *)
Lemma releaseTransportPaths_witness :
  let '(ok, b', log, fell) :=
    releaseTransportPaths (fun _ p => bool_decide (p = str "/a")) true demo_broker [str "/a"; str "/b"] in
  fell = true /\ (tries (str "/b") log <= 3)%nat /\ metric_delta demo_broker b' releaseAttempts 4.
Proof.
  destruct (releaseTransportPaths (fun _ p => bool_decide (p = str "/a")) true demo_broker
              [str "/a"; str "/b"]) as [[[ok b'] log] fell] eqn:E.
  assert (NoDup [str "/a"; str "/b"]) as ND by (apply (bool_decide_unpack _); by vm_compute).
  destruct (releaseTransportPaths_spec _ _ _ _ _ _ _ _ ND E) as (_ & H1 & _ & _ & _ & _ & H2 & _).
  vm_compute in E. injection E as <- <- <- <-. split; [done|]. split; [apply H1|exact H2].
Defined.

(** ** The remote side goes idle *)

(** A session that ended: cleared, signalled, its transports no longer acquired. *)
Definition ended (b : Broker) (i : nat) (s : session) : Prop :=
  bActiveSession b = None /\ (exists s', bSessions b !! i = Some s' /\ sLifecycleDone s' = true) /\
  (sSinkPath s ∉ bAcquired b) /\ (sSourcePath s ∉ bAcquired b).

(** A session under release that will be cleared however the release ends. *)
Definition doomed (b : Broker) (i : nat) (s : session) : Prop :=
  bActiveSession b = Some i /\ exists s', bSessions b !! i = Some s' /\ sReleasing s' = true /\
    sRemoteIdleSeen s' = true /\ sSinkPath s' = sSinkPath s /\ sSourcePath s' = sSourcePath s /\
    sSinkPath s ∈ sIdlePaths s' /\ sSourcePath s ∈ sIdlePaths s'.

Lemma clearActive_ended b i s s0 :
  bActiveSession b = Some i -> bSessions b !! i = Some s -> sSinkPath s = sSinkPath s0 -> sSourcePath s = sSourcePath s0 ->
  ended (clearActiveSessionLocked b i) i s0.
Proof.
  intros A L E1 E2. unfold clearActiveSessionLocked. rewrite L, bool_decide_true by done.
  unfold signalActiveSessionDone. cbn. rewrite L. split; [done|]. cbn.
  split; [eexists; by rewrite lookup_insert_eq|]. rewrite E1, E2. set_solver.
Qed.

(** One idle signal of a path of the active session. *)
Lemma transport_idle_step b i s p :
  bActiveSession b = Some i -> bSessions b !! i = Some s -> session_uses s p = true ->
  let s1 := s <| sIdlePaths := {[ p ]} ∪ sIdlePaths s |> in
  if bool_decide (sSinkPath s ∈ sIdlePaths s1) && bool_decide (sSourcePath s ∈ sIdlePaths s1)
  then if sReleasing s then doomed (transport_idle b p) i s else ended (transport_idle b p) i s
  else bActiveSession (transport_idle b p) = Some i /\ bSessions (transport_idle b p) !! i = Some s1.
Proof.
  intros A L U s1. unfold transport_idle. change (bActiveSession (forget_path b p)) with (bActiveSession b).
  rewrite A. cbn [session_at]. change (bSessions (forget_path b p)) with (bSessions b). rewrite L, U. cbv zeta. fold s1.
  change (sSinkPath s1) with (sSinkPath s). change (sSourcePath s1) with (sSourcePath s). change (sReleasing s1) with (sReleasing s).
  destruct (_ && _) eqn:E; [|split; [done|cbn; by rewrite lookup_insert_eq]].
  bool_prop. destruct (sReleasing s) eqn:R.
  - split; [done|]. cbn. rewrite lookup_insert_eq. eexists. split; [done|]. cbn in *. by rewrite R.
  - destruct (sNormalEndSeen s1); apply (clearActive_ended _ _ s1); try done; cbn; by rewrite lookup_insert_eq.
Qed.

(** Remote release: once BlueZ reports both transports of the active session
    idle, in either order, the session is over.  If nothing was releasing it, it is
    cleared, its watcher is signalled and both transports can be acquired again; if
    a release is under way the session stays visible until that ends, and is then
    cleared even when the release failed. *)
Theorem remote_idle_ends_session b i s first second :
  bActiveSession b = Some i -> bSessions b !! i = Some s ->
  sIdlePaths s = ∅ -> sSinkPath s <> sSourcePath s ->
  (first = sSinkPath s /\ second = sSourcePath s \/ first = sSourcePath s /\ second = sSinkPath s) ->
  let b2 := transport_idle (transport_idle b first) second in
  if sReleasing s
  then bActiveSession b2 = Some i /\ bActiveSession (release_failed b2 i) = None /\
       bActiveSession (completeActiveSession b2 i) = None
  else ended b2 i s.
Proof.
  intros A L I N D. cbv zeta.
  assert (session_uses s first = true /\ session_uses s second = true) as [U1 U2].
  { assert (session_uses s (sSinkPath s) = true /\ session_uses s (sSourcePath s) = true) as [? ?].
    { unfold session_uses. rewrite (bool_decide_true (sSinkPath s = sSinkPath s)) by done.
      rewrite (bool_decide_true (sSourcePath s = sSourcePath s)) by done. by rewrite orb_true_r. }
    by destruct D as [[-> ->]|[-> ->]]. }
  pose proof (transport_idle_step b i s first A L U1) as H1. cbv zeta in H1.
  set (s1 := s <| sIdlePaths := {[ first ]} ∪ sIdlePaths s |>) in *.
  assert (bool_decide (sSinkPath s ∈ sIdlePaths s1) && bool_decide (sSourcePath s ∈ sIdlePaths s1) = false) as E1.
  { unfold s1. cbn. rewrite I. destruct D as [[-> ->]|[-> ->]].
    - rewrite andb_comm, bool_decide_false by set_solver. done.
    - rewrite bool_decide_false by set_solver. done. }
  rewrite E1 in H1. destruct H1 as [A1 L1]. set (b1 := transport_idle b first) in *.
  pose proof (transport_idle_step b1 i s1 second A1 L1 U2) as H2. cbv zeta in H2.
  change (sSinkPath s1) with (sSinkPath s) in H2. change (sSourcePath s1) with (sSourcePath s) in H2.
  change (sReleasing s1) with (sReleasing s) in H2.
  rewrite !bool_decide_true in H2 by (cbn; destruct D as [[-> ->]|[-> ->]]; set_solver). cbn [andb] in H2.
  set (b2 := transport_idle b1 second) in *. clearbody b2. destruct (sReleasing s); [|exact H2].
  destruct H2 as (A2 & s2 & L2 & R2 & S2 & P1 & P2 & _).
  assert (forall b3, bActiveSession b3 = Some i -> bSessions b3 !! i = Some s2 ->
            bActiveSession (clearActiveSessionLocked b3 i) = None) as HC.
  { intros b3 A3 L3. by destruct (clearActive_ended b3 i s2 s2 A3 L3 eq_refl eq_refl) as [? _]. }
  split; [exact A2|]. split; [|exact (HC _ A2 L2)]. unfold release_failed, current_session.
  rewrite A2, bool_decide_true, L2 by reflexivity. rewrite S2. by apply HC.
Qed.

Definition demo_session : session :=
  {| sConnection := 1; sReleasePaths := [str "/a"]; sSinkPath := str "/a"; sSourcePath := str "/b";
     sSinkGeneration := 1; sSourceGeneration := 2; sBundleID := 1; sCallToken := 0; sLifecycleFD := 9;
     sLifecycleDone := false; sStartedAt := Some 0; sProgressArmed := false; sLastProgress := None;
     sNormalEndSeen := false; sNormalWaitStarted := false; sIdlePaths := ∅; sRemoteIdleSeen := false;
     sReleasing := false; sReleaseExhausted := false |}.
Definition demo_active : Broker :=
  demo_broker <| bActiveSession := Some 0%nat |> <| bSessions := {[ 0%nat := demo_session ]} |>
    <| bAcquired := {[ str "/a"; str "/b" ]} |>.

Lemma remote_idle_witness :
  ended (transport_idle (transport_idle demo_active (str "/b")) (str "/a")) 0%nat demo_session.
Proof.
  apply (remote_idle_ends_session demo_active 0%nat demo_session (str "/b") (str "/a")); try reflexivity.
  - discriminate.
  - right. split; reflexivity.
Defined.
