(* ===== verification/Acquire.v ===== *)
(** * Acquiring a pair of transports

    Models [Broker.acquire], [expirePending] and the helpers they call in
    src/callbridge-sms-go/internal/bluez/broker.go.  [acquire] gives up the broker's
    mutex while it talks to BlueZ, so it is cut at those points: a goroutine is one
    of the phases of [acquire] with the local variables it carries to the next one,
    and each phase is a function of the broker and of what the system answered. *)

From S2P Require Import Prelude GoStd Lc3 Handoff Qos Broker.

(** ** Goroutines

    [GAcquire] is [go b.acquire(path)] before its first guard; [GLinks] reads the
    Links property; [GTry] has reserved its paths and calls TryAcquire; [GCorrelate]
    holds a pair and waits for a call token; [GCleanup] is the deferred removal of
    the reservation.  The others are [expirePending], [releaseActiveSession],
    [waitNormalRelease] and [watchActiveSession], the last with the lifecycle
    descriptor it owns. *)
Inductive goroutine :=
  | GAcquire (p : path)
  | GLinks (p : path)
  | GTry (p : path) (conn : Z) (cfg : transportConfig) (peer : option (path * transportConfig))
  | GCorrelate (p : path) (peer : option path) (conn : Z) (sink source : pendingTransport)
  | GCleanup (p : path) (peer : option path)
  | GExpire (p : path) (generation : Z)
  | GRelease (i : nat)
  | GWaitNormal (i : nat)
  | GWatch (i : nat) (fd : Z) (open : bool).

(** What one phase did: the broker, the goroutines that replace the one that ran,
    the descriptors the kernel handed out and those it was asked to close. *)
Record outcome := mkOutcome {
  oBroker : Broker;
  oNext : list goroutine;
  oOpened : list Z;
  oClosed : list Z
}.

(** ** First guard *)
Definition may_acquire (b : Broker) (p : path) : bool :=
  negb (bool_decide (p ∈ bAcquiring b)) && negb (bool_decide (p ∈ bAcquired b)) &&
  negb (bool_decide (p ∈ bPairing b)).

Definition acquire_target (b : Broker) (p : path) : option (transportConfig * Z) :=
  match bConfigured b !! p, bConnection b with
  | Some cfg, Some conn => if may_acquire b p then Some (cfg, conn) else None
  | _, _ => None
  end.

Definition acquire_begin (b : Broker) (p : path) : outcome :=
  mkOutcome b (match acquire_target b p with Some _ => [GLinks p] | None => [] end) [] [].

(** ** Reserving the path and its linked peer *)
Definition acquire_reserve (b : Broker) (p : path) (links : result (list path)) : outcome :=
  let stop := mkOutcome b [] [] [] in
  match links with
  | Error _ => stop
  | Ok links =>
      match linkedAcquirePlan p links with
      | Error _ => stop
      | Ok (peer, leader) =>
          if negb leader then stop
          else match acquire_target b p with
               | None => stop
               | Some (cfg, conn) =>
                   match peer with
                   | None =>
                       mkOutcome (b <| bAcquiring := {[ p ]} ∪ bAcquiring b |>) [GTry p conn cfg None] [] []
                   | Some q =>
                       match bConfigured b !! q with
                       | Some qcfg =>
                           if may_acquire b q
                           then mkOutcome (b <| bAcquiring := {[ p ]} ∪ ({[ q ]} ∪ bAcquiring b) |>)
                                          [GTry p conn cfg (Some (q, qcfg))] [] []
                           else stop
                       | None => stop
                       end
                   end
               end
      end
  end.

(** ** Acquiring

    [release] stands for [releaseTransportPaths] with the answers of the system. *)
Section Phases.
Context (answer : list (path * bool) -> path -> bool) (closed : bool).

Definition release (b : Broker) (paths : list path) : Broker :=
  let '(_, b, _, _) := releaseTransportPaths answer closed b paths in b.

(** [releasePendingTransports], with [closeDescriptors] applied to its closes. *)
Definition releasePendingTransports (b : Broker) (transports : list pendingTransport) : Broker :=
  release b (pendingReleasePaths (map Some transports)).

(** The reply to TryAcquire: an error, a reply that does not decode into a descriptor and two sizes, with the descriptors that came
    with it, or these. *)
Inductive acquire_reply := Refused (e : error) | Garbled (fds : list Z) | Acquired (fd readMTU writeMTU : Z).
(** What the system answers while [GTry] runs.  [te_order] is the order in which
    the map of pending transports is visited. *)
Record try_env := mkTryEnv {
  te_acquire : acquire_reply;
  te_details : result pdict;
  te_peer_details : result pdict;
  te_dup : result Z;
  te_order : list (path * pendingTransport) -> list (path * pendingTransport)
}.

Definition same_generation (b : Broker) (p : path) (cfg : transportConfig) : bool :=
  match bConfigured b !! p with Some c => tcGeneration c =? tcGeneration cfg | None => false end.

(** The locked section after TryAcquire; the goroutine owns the descriptors of
    [held] and [linked]. *)
Definition acquire_hold (order : list (path * pendingTransport) -> list (path * pendingTransport))
    (b : Broker) (conn : Z) (held : pendingTransport) (linked : option pendingTransport)
  : Broker * list goroutine * list Z :=
  let p := ptPath held in
  let own := ptFD held :: match linked with Some l => [ptFD l] | None => [] end in
  let give_back := (release b [p], [], own) in
  if negb (same_generation b p (ptConfig held)) then give_back
  else if negb (match linked with Some l => same_generation b (ptPath l) (ptConfig l) | None => true end)
  then give_back
  else if bool_decide (is_Some (bPending b !! p)) then give_back
  else if (match linked with
           | Some l => bool_decide (is_Some (<[p := held]> (bPending b) !! ptPath l))
           | None => false
           end) then give_back
  else
    let pending := <[p := held]> (bPending b) in
    let pending := match linked with Some l => <[ptPath l := l]> pending | None => pending end in
    match find_peer held (order (map_to_list pending)) with
    | None => (b <| bPending := pending |>, [GExpire p (tcGeneration (ptConfig held))], [])
    | Some (peer, false) =>
        (releasePendingTransports (b <| bPending := delete (ptPath peer) (delete p pending) |>) [held; peer],
         [], [ptFD held; ptFD peer])
    | Some (peer, true) =>
        let '(sink, source) :=
          if negb (tcDirection (ptConfig held) =? DirectionSink) then (peer, held) else (held, peer) in
        (b <| bPending := delete (ptPath peer) (delete p pending) |>
           <| bPairing := {[ ptPath source ]} ∪ ({[ ptPath sink ]} ∪ bPairing b) |>,
         [GCorrelate p (ptPath <$> linked) conn sink source], [])
    end.

(** A goroutine that stays in [acquire] keeps its deferred cleanup. *)
Definition with_cleanup (p : path) (peer : option path) (next : list goroutine) : list goroutine :=
  match next with
  | [GCorrelate _ _ _ _ _] => next
  | _ => GCleanup p peer :: next
  end.

Definition acquire_try (e : try_env) (b : Broker) (p : path) (conn : Z) (cfg : transportConfig)
    (peer : option (path * transportConfig)) : outcome :=
  let peerPath := fst <$> peer in
  match te_acquire e with
  | Refused _ => mkOutcome b [GCleanup p peerPath] [] []
  | Garbled fds => mkOutcome b [GCleanup p peerPath] fds []
  | Acquired fd readMTU writeMTU =>
      let reject opened := mkOutcome (release b [p]) [GCleanup p peerPath] opened opened in
      let finish held linked opened :=
        let '(b, next, fds) := acquire_hold (te_order e) b conn held linked in
        mkOutcome b (with_cleanup p peerPath next) opened fds in
      match (let! d := te_details e in transport_details d (tcCodec cfg) (tcQoS cfg)) with
      | Error _ => reject [fd]
      | Ok (q, links) =>
          let held := {| ptPath := p; ptRelease := p; ptConfig := cfg; ptQoS := q; ptLinks := links;
                         ptFD := fd; ptReadMTU := readMTU; ptWriteMTU := writeMTU |} in
          match peer with
          | None => finish held None [fd]
          | Some (pp, pcfg) =>
              if negb (containsObjectPath links pp) then reject [fd]
              else match (let! d := te_peer_details e in transport_details d (tcCodec pcfg) (tcQoS pcfg)) with
                   | Error _ => reject [fd]
                   | Ok (pq, plinks) =>
                       if negb (containsObjectPath plinks p) then reject [fd]
                       else match te_dup e with
                            | Error _ => reject [fd]
                            | Ok pfd =>
                                finish held
                                  (Some {| ptPath := pp; ptRelease := p; ptConfig := pcfg; ptQoS := pq;
                                           ptLinks := plinks; ptFD := pfd; ptReadMTU := readMTU;
                                           ptWriteMTU := writeMTU |}) [fd; pfd]
                            end
                   end
          end
      end
  end.

(** ** Correlating and publishing *)
Record publish_inputs := mkPublishInputs {
  pi_polls : list (Z * bool);
  pi_clock1 : result (Z * Z);
  pi_clock2 : result (Z * Z);
  pi_publish : publish_env;
  pi_now : Z;
  pi_address : nat
}.

(** Without a required token the provider is asked once; without a provider never. *)
Definition correlate (b : Broker) (polls : list (Z * bool)) : Z * bool :=
  waitForCallToken (if bProvider b then if bRequireToken b then polls else take 1 polls else []).

(** [pi_address] is where the new session object is allocated. *)
Definition acquire_publish (e : publish_inputs) (b : Broker) (p : path) (peer : option path) (conn : Z)
    (sink source : pendingTransport) : outcome :=
  let own := [ptFD sink; ptFD source] in
  let give_back b ev := mkOutcome (releasePendingTransports (clearPairingLocked b sink source) [sink; source])
                                  [GCleanup p peer] (ends_opened ev) (ends_closed ev ++ own) in
  let '(token, correlated) := correlate b (pi_polls e) in
  if bRequireToken b && negb correlated then give_back b []
  else if negb (pairCurrentLocked b conn sink source) then give_back b []
  else match nextDescriptorGenerationLocked b (pi_clock1 e) with
       | (Error _, b) => give_back b []
       | (Ok sinkGeneration, b) =>
           match nextDescriptorGenerationLocked b (pi_clock2 e) with
           | (Error _, b) => give_back b []
           | (Ok sourceGeneration, b) =>
               let sinkD := descriptorForPending sink sinkGeneration sinkGeneration token correlated in
               let sourceD := descriptorForPending source sourceGeneration sinkGeneration token correlated in
               let '(r, handoff, ev) :=
                 PublishPair (bHandoff b) (pi_publish e) (ptFD sink) sinkD (ptFD source) sourceD in
               let b := b <| bHandoff := handoff |> in
               match r with
               | Error _ => give_back b ev
               | Ok lifecycleFD =>
                   let s := activeSessionForHandoff conn sink source sinkD sourceD lifecycleFD (pi_now e) in
                   let b := b <| bAcquired := {[ ptPath source ]} ∪ ({[ ptPath sink ]} ∪ bAcquired b) |>
                              <| bActiveSession := Some (pi_address e) |> in
                   let b := clearPairingLocked (put_session b (pi_address e) s) sink source in
                   mkOutcome b [GCleanup p peer; GWatch (pi_address e) lifecycleFD (0 <=? lifecycleFD)]
                             (ends_opened ev) (ends_closed ev ++ own)
               end
           end
       end.

(** The deferred function. *)
Definition acquire_cleanup (b : Broker) (p : path) (peer : option path) : outcome :=
  mkOutcome (b <| bAcquiring := bAcquiring b ∖ ({[ p ]} ∪ match peer with Some q => {[ q ]} | None => ∅ end) |>)
            [] [] [].

(** [expirePending] after its timer. *)
Definition expirePending (b : Broker) (p : path) (generation : Z) : outcome :=
  match bPending b !! p with
  | Some held =>
      if tcGeneration (ptConfig held) =? generation
      then mkOutcome (releasePendingTransports (b <| bPending := delete p (bPending b) |>) [held]) [] []
                     [ptFD held]
      else mkOutcome b [] [] []
  | None => mkOutcome b [] [] []
  end.
End Phases.
