(* ===== verification/Watch.v ===== *)
(** * Watching the active session

    Models [watchActiveSession] of src/callbridge-sms-go/internal/bluez/broker.go:
    one turn of its loop drains the lifecycle socket, then checks the leases and
    the call token.  The theorems show that the watcher only ever returns from a
    session that is ending, and that no session outlives its lease. *)

From S2P Require Import Prelude GoStd Lc3 Handoff Qos Broker Acquire.

(** ** One turn *)

(** How draining the socket ended: nothing more to read, end of file, a failed or
    truncated receive, or a packet that does not decode. *)
Inductive drain_end := DrainAgain | DrainClosed | DrainFailed | DrainProtocol.

(** What [poll] reported: an error, nothing, or events with the packets queued. *)
Inductive poll_result :=
  | PollFailed
  | PollQuiet
  | PollReady (terminal hup : bool) (packets : list bytes) (fin : drain_end).

Fixpoint drain (b : Broker) (i : nat) (now : Z) (packets : list bytes) (fin : drain_end)
  : Broker * drain_end :=
  match packets with
  | [] => (b, fin)
  | packet :: packets =>
      match decodeLifecycleMessage packet with
      | Error _ => (b, DrainProtocol)
      | Ok (typeID, progress) =>
          let b := if typeID =? lifecycleTypeProgress
                   then (recordLifecycleProgress b i progress now).2
                   else if typeID =? lifecycleTypeNormalEnd
                   then (recordLifecycleNormalEnd b i progress).2 else b in
          drain b i now packets fin
      end
  end.

(** [requestSpecificSessionRelease] followed by [return]. *)
Definition stop_with (b : Broker) (i : nat) : Broker * list goroutine * option bool :=
  let '(went, b) := requestSpecificSessionRelease b i in
  (b, if went then [GRelease i] else [], None).

(** The first half of the loop body: [None] is a return, [Some open] goes on. *)
Definition watch_events (b : Broker) (i : nat) (open : bool) (now : Z) (poll : poll_result)
  : Broker * list goroutine * option bool :=
  if negb open then (b, [], Some false)
  else match poll with
       | PollFailed => stop_with b i
       | PollQuiet => (b, [], Some true)
       | PollReady terminal hup packets fin =>
           let '(b, fin) := drain b i now packets fin in
           match fin with
           | DrainFailed | DrainProtocol => stop_with b i
           | DrainAgain | DrainClosed =>
               let peerClosed := match fin with DrainClosed => true | _ => false end in
               if terminal then stop_with b i
               else if peerClosed || hup then
                 let b := if bool_decide (bActiveSession b = Some i) then bump lifecycleHUPs b else b in
                 if normalReleasePending b i then (b, [], Some false) else stop_with b i
               else (b, [], Some true)
           end
       end.

(** [time.Since(t) >= bound]; a zero [time.Time] is ages ago. *)
Definition elapsed (now : Z) (t : option Z) (bound : Z) : bool :=
  match t with Some t => bound <=? now - t | None => true end.

Definition start_expired (b : Broker) (s : session) (now : Z) : bool :=
  negb (sProgressArmed s) && (0 <? bProgressStartLease b) && bool_decide (is_Some (sStartedAt s)) &&
  elapsed now (sStartedAt s) (bProgressStartLease b).
Definition progress_expired (b : Broker) (s : session) (now : Z) : bool :=
  sProgressArmed s && (0 <? bProgressLease b) && elapsed now (sLastProgress s) (bProgressLease b).

(** What an expired lease leads to. *)
Definition lease_over (b : Broker) (i : nat) (m : metric) : Broker * list goroutine * bool :=
  if normalReleasePending b i then
    let '(_, started, b) := beginNormalReleaseWait b i false in
    (b, match started with
        | BegunNothing => [] | BegunRelease => [GRelease i] | BegunWait _ => [GWaitNormal i]
        end, true)
  else
    let b := match open_session b i with Some _ => bump m b | None => b end in
    let '(b, next, _) := stop_with b i in (b, next, false).

(** The second half; [provider] is what the call-token provider returns. *)
Definition watch_leases (b : Broker) (i : nat) (now : Z) (provider : option Z)
  : Broker * list goroutine * bool :=
  match current_session b i with
  | None => (b, [], false)
  | Some s =>
      if sReleaseExhausted s then (b, [], false)
      else if normalReleaseWaiting b i then (b, [], true)
      else if start_expired b s now then lease_over b i lifecycleStartTimeouts
      else if progress_expired b s now then lease_over b i lifecycleTimeouts
      else if negb (sCallToken s =? 0) &&
              negb (bool_decide ((if bProvider b then provider else None) = Some (sCallToken s)))
      then ((markNormalReleasePending b i false).2, [], true)
      else (b, [], true)
  end.

Definition watch_turn (b : Broker) (i : nat) (open : bool) (now : Z) (poll : poll_result) (provider : option Z)
  : Broker * list goroutine * option bool :=
  match bSessions b !! i with
  | None => (b, [], None)
  | Some s =>
      if sLifecycleDone s then (b, [], None)
      else match watch_events b i open now poll with
           | (b, next, None) => (b, next, None)
           | (b, next, Some open) =>
               let '(b, next', goon) := watch_leases b i now provider in
               (b, next ++ next', if goon then Some open else None)
           end
  end.

(** ** The parts of a turn

    Each locked section of the watcher, on its own. *)
Inductive watch_op (i : nat) (b : Broker) : Broker -> list goroutine -> Prop :=
  | wo_progress p now : watch_op i b (recordLifecycleProgress b i p now).2 []
  | wo_normal_end p : watch_op i b (recordLifecycleNormalEnd b i p).2 []
  | wo_metric m : watch_op i b (bump m b) []
  | wo_mark : watch_op i b (markNormalReleasePending b i false).2 []
  | wo_request b' : requestSpecificSessionRelease b i = (true, b') -> watch_op i b b' [GRelease i]
  | wo_wait b' wait : beginNormalReleaseWait b i false = (true, BegunWait wait, b') ->
      watch_op i b b' [GWaitNormal i]
  | wo_wait_unset b' : beginNormalReleaseWait b i false = (false, BegunRelease, b') ->
      watch_op i b b' [GRelease i]
  | wo_wait_again b' : beginNormalReleaseWait b i false = (false, BegunNothing, b') -> watch_op i b b' [].

Inductive watch_ops (i : nat) (b : Broker) : Broker -> list goroutine -> Prop :=
  | wos_nil : watch_ops i b b []
  | wos_snoc b1 b2 next next' : watch_ops i b b1 next -> watch_op i b1 b2 next' -> watch_ops i b b2 (next ++ next').

(** ** Open sessions *)
Lemma open_session_Some b i s :
  open_session b i = Some s <->
  bActiveSession b = Some i /\ bSessions b !! i = Some s /\ sReleasing s = false /\ sReleaseExhausted s = false.
Proof.
  unfold open_session, current_session. case_bool_decide as E; [|naive_solver].
  destruct (bSessions b !! i) as [s0|]; [|naive_solver].
  destruct (sReleasing s0) eqn:R, (sReleaseExhausted s0) eqn:X; cbn; naive_solver congruence.
Qed.

Lemma open_session_ext b b' i :
  bActiveSession b' = bActiveSession b -> bSessions b' !! i = bSessions b !! i ->
  open_session b' i = open_session b i.
Proof. unfold open_session, current_session. by intros -> ->. Qed.
Lemma open_session_bump b m i : open_session (bump m b) i = open_session b i.
Proof. done. Qed.

Lemma open_session_put b i s s' :
  open_session b i = Some s' ->
  open_session (put_session b i s) i = if sReleasing s || sReleaseExhausted s then None else Some s.
Proof.
  intros (A & _)%open_session_Some. unfold open_session, current_session, put_session. cbn.
  by rewrite A, bool_decide_true, lookup_insert_eq by done.
Qed.

Lemma stop_with_closes b i b' next r : stop_with b i = (b', next, r) -> open_session b' i = None /\ r = None.
Proof.
  unfold stop_with, requestSpecificSessionRelease. destruct (open_session b i) as [s|] eqn:E.
  - intros [= <- _ <-]. split; [|done]. by rewrite (open_session_put _ _ _ _ E).
  - intros [= <- _ <-]. done.
Qed.

Lemma watch_events_None b i open now poll b' next :
  watch_events b i open now poll = (b', next, None) -> open_session b' i = None.
Proof.
  unfold watch_events. destruct open; cbn; [|done]. destruct poll as [| |terminal hup packets fin]; [|done|].
  - by intros [? _]%stop_with_closes.
  - destruct (drain b i now packets fin) as [b1 fin1].
    destruct fin1, terminal; cbn;
      repeat split_match; try discriminate; intros H;
      solve [apply stop_with_closes in H; tauto | discriminate H].
Qed.

Lemma lease_over_spec b i m b' next goon :
  normalReleaseWaiting b i = false -> lease_over b i m = (b', next, goon) ->
  if goon then open_session b' i = None /\ next = [GRelease i] \/
               (exists s, open_session b' i = Some s /\ sNormalWaitStarted s = true) /\ next = [GWaitNormal i]
  else open_session b' i = None.
Proof.
  unfold lease_over, normalReleaseWaiting, normalReleasePending. intros W H.
  destruct (open_session b i) as [s|] eqn:E.
  2:{ destruct (stop_with b i) as [[b1 n1] r1] eqn:S. injection H as <- <- <-. by apply stop_with_closes in S as [? _]. }
  destruct (sNormalEndSeen s) eqn:N.
  - unfold beginNormalReleaseWait in H. rewrite E, W in H. cbn zeta in H.
    set (s1 := s <| sNormalEndSeen := _ |>) in *.
    assert (open_session (put_session b i s1) i = Some s1) as E1.
    { rewrite (open_session_put _ _ _ _ E). apply open_session_Some in E as (_ & _ & R & X).
      unfold s1. cbn. by rewrite R, X. }
    destruct (bNormalReleaseWait (put_session b i s1) <=? 0).
    + unfold requestSpecificSessionRelease in H. rewrite E1 in H. injection H as <- <- <-. left. split; [|done].
      by rewrite (open_session_put _ _ _ _ E1).
    + injection H as <- <- <-. right. split; [|done]. exists (s1 <| sNormalWaitStarted := true |>).
      rewrite open_session_bump, (open_session_put _ _ _ _ E1). split; [|done].
      apply open_session_Some in E1 as (_ & _ & R & X). cbn in *. by rewrite R, X.
  - destruct (stop_with _ i) as [[b1 n1] r1] eqn:S. injection H as <- <- <-. by apply stop_with_closes in S as [? _].
Qed.

Lemma watch_leases_spec b i now provider b' next goon :
  watch_leases b i now provider = (b', next, goon) ->
  (goon = false -> open_session b' i = None) /\
  (forall s, open_session b' i = Some s -> sNormalWaitStarted s = true \/
     start_expired b' s now = false /\ progress_expired b' s now = false).
Proof.
  unfold watch_leases. intros H. destruct (current_session b i) as [s|] eqn:C.
  2:{ injection H as <- <- <-. unfold open_session. rewrite C. naive_solver. }
  destruct (sReleaseExhausted s) eqn:X.
  { injection H as <- <- <-. unfold open_session. rewrite C, X, orb_true_r. naive_solver. }
  destruct (normalReleaseWaiting b i) eqn:W.
  { injection H as <- <- <-. split; [done|]. intros s1 E. unfold normalReleaseWaiting in W. rewrite E in W. by left. }
  assert (open_session b i = None \/ open_session b i = Some s) as O.
  { unfold open_session. rewrite C. destruct (_ || _); auto. }
  assert (forall m, lease_over b i m = (b', next, goon) -> (goon = false -> open_session b' i = None) /\
    (forall s, open_session b' i = Some s -> sNormalWaitStarted s = true \/
       start_expired b' s now = false /\ progress_expired b' s now = false)) as HL.
  { intros m HL. pose proof (lease_over_spec _ _ _ _ _ _ W HL) as HS. destruct goon; cbv iota in HS.
    - split; [done|]. intros s1 E1. destruct HS as [[HN _]|[(s2 & E2 & ?) _]]; [congruence|].
      rewrite E1 in E2. injection E2 as ->. by left.
    - split; [done|]. intros s1 E1. congruence. }
  destruct (start_expired b s now) eqn:SE; [by eapply HL|].
  destruct (progress_expired b s now) eqn:PE; [by eapply HL|].
  destruct (_ && _).
  - injection H as <- <- <-. split; [done|]. unfold markNormalReleasePending.
    destruct O as [O|O]; rewrite O; [cbn [snd]; intros s1 E1; congruence|].
    destruct (sNormalEndSeen s); cbn [snd]; intros s1 E1; [rewrite O in E1|rewrite (open_session_put _ _ _ _ O) in E1].
    + injection E1 as <-. auto.
    + apply open_session_Some in O as (_ & _ & R & _). cbn in E1. rewrite R, X in E1. injection E1 as <-. by right.
  - injection H as <- <- <-. split; [done|]. intros s1 E1. destruct O as [O|O]; rewrite O in E1; [done|].
    injection E1 as <-. auto.
Qed.

(** C23.  The watcher of a session, one turn: whatever it read from the lifecycle
    socket and whatever the provider said, it returns only when the session is
    no longer open (it was replaced, is being released, or its release is
    exhausted), and a session still open afterwards either waits for the remote
    side in the bounded normal release, or is within both of its media leases. *)
Theorem watch_turn_attends b i open now poll provider b' next r :
  (forall s, bSessions b !! i = Some s -> sLifecycleDone s = true -> bActiveSession b <> Some i) ->
  watch_turn b i open now poll provider = (b', next, r) ->
  (r = None -> open_session b' i = None) /\
  (forall s, open_session b' i = Some s -> sNormalWaitStarted s = true \/
     start_expired b' s now = false /\ progress_expired b' s now = false).
Proof.
  intros Hd H. unfold watch_turn in H. destruct (bSessions b !! i) as [s|] eqn:E.
  2:{ injection H as <- <- <-. assert (open_session b i = None) as O.
      { unfold open_session, current_session. rewrite E. by destruct (bool_decide _). }
      rewrite O. done. }
  destruct (sLifecycleDone s) eqn:D.
  { injection H as <- <- <-. assert (open_session b i = None) as O.
    { unfold open_session, current_session. by rewrite bool_decide_false by (by eapply Hd). }
    rewrite O. done. }
  destruct (watch_events b i open now poll) as [[b1 n1] [o1|]] eqn:V.
  - destruct (watch_leases b1 i now provider) as [[b2 n2] goon] eqn:L. injection H as <- <- <-.
    destruct (watch_leases_spec _ _ _ _ _ _ _ L) as [H1 H2]. split; [|exact H2].
    destruct goon; [done|]. intros _. by apply H1.
  - injection H as <- <- <-. apply watch_events_None in V. rewrite V. done.
Qed.

(** ** A turn is a sequence of its locked sections *)
Lemma watch_ops_one i b b' next : watch_op i b b' next -> watch_ops i b b' next.
Proof. intros H. change next with ([] ++ next). by eapply wos_snoc; [apply wos_nil|]. Qed.
Lemma watch_ops_trans i b1 b2 b3 n1 n2 : watch_ops i b1 b2 n1 -> watch_ops i b2 b3 n2 -> watch_ops i b1 b3 (n1 ++ n2).
Proof.
  intros H1 H2. induction H2 as [|b3 b4 n2 n3 H2 IH H3]; [by rewrite app_nil_r|].
  rewrite app_assoc. by eapply wos_snoc.
Qed.
Lemma watch_ops_then i b1 b2 b3 n : watch_ops i b1 b2 [] -> watch_ops i b2 b3 n -> watch_ops i b1 b3 n.
Proof. apply watch_ops_trans. Qed.
Lemma watch_ops_bump i b m (c : bool) : watch_ops i b (if c then bump m b else b) [].
Proof. destruct c; [apply watch_ops_one, wo_metric|apply wos_nil]. Qed.

Lemma drain_ops i b now packets fin : watch_ops i b (drain b i now packets fin).1 [].
Proof.
  revert b. induction packets as [|packet packets IH]; intros b; cbn [drain]; [apply wos_nil|].
  destruct (decodeLifecycleMessage packet) as [[t p]|e]; [|apply wos_nil].
  eapply watch_ops_then; [|apply IH].
  destruct (t =? _); [apply watch_ops_one, wo_progress|].
  destruct (t =? _); [apply watch_ops_one, wo_normal_end|apply wos_nil].
Qed.

Lemma stop_with_ops i b b' next r : stop_with b i = (b', next, r) -> watch_ops i b b' next.
Proof.
  unfold stop_with. destruct (requestSpecificSessionRelease b i) as [went b1] eqn:E. intros [= <- <- _].
  destruct went; [by apply watch_ops_one, wo_request|].
  unfold requestSpecificSessionRelease in E. destruct (open_session b i); [discriminate E|]. injection E as <-. apply wos_nil.
Qed.

Lemma watch_events_ops b i open now poll b' next r :
  watch_events b i open now poll = (b', next, r) -> watch_ops i b b' next.
Proof.
  unfold watch_events. destruct open; cbn [negb]; [|intros [= <- <- _]; apply wos_nil].
  destruct poll as [| |terminal hup packets fin]; [apply stop_with_ops|intros [= <- <- _]; apply wos_nil|].
  pose proof (drain_ops i b now packets fin) as D. destruct (drain b i now packets fin) as [b1 fin1]. cbn [fst] in D.
  pose proof (watch_ops_bump i b1 lifecycleHUPs (bool_decide (bActiveSession b1 = Some i))) as HB.
  intros H. eapply watch_ops_then; [exact D|].
  destruct fin1; try (by eapply stop_with_ops); (destruct terminal; [by eapply stop_with_ops|]);
    (destruct (_ || hup); [|injection H as <- <- _; apply wos_nil]);
    (eapply watch_ops_then; [exact HB|]);
    (destruct (normalReleasePending _ i); [injection H as <- <- _; apply wos_nil|by eapply stop_with_ops]).
Qed.

Lemma begin_wait_ops i b went started b' :
  beginNormalReleaseWait b i false = (went, started, b') ->
  watch_ops i b b' match started with
                   | BegunNothing => [] | BegunRelease => [GRelease i] | BegunWait _ => [GWaitNormal i]
                   end.
Proof.
  intros H. assert (went = match started with BegunWait _ => true | _ => false end) as ->.
  { unfold beginNormalReleaseWait in H. repeat split_match; by simplify_eq. }
  destruct started; apply watch_ops_one;
    [by apply wo_wait_again|by apply wo_wait_unset|by eapply wo_wait].
Qed.

Lemma lease_over_ops i b m b' next goon : lease_over b i m = (b', next, goon) -> watch_ops i b b' next.
Proof.
  unfold lease_over. destruct (normalReleasePending b i).
  - destruct (beginNormalReleaseWait b i false) as [[w st] b1] eqn:E. intros [= <- <- _]. by eapply begin_wait_ops.
  - destruct (stop_with _ i) as [[b1 n1] r1] eqn:S. intros [= <- <- _].
    eapply watch_ops_then; [|by eapply stop_with_ops].
    destruct (open_session b i); [apply watch_ops_one, wo_metric|apply wos_nil].
Qed.

Lemma watch_turn_ops b i open now poll provider b' next r :
  watch_turn b i open now poll provider = (b', next, r) -> watch_ops i b b' next.
Proof.
  unfold watch_turn. destruct (bSessions b !! i) as [s|]; [|intros [= <- <- _]; apply wos_nil].
  destruct (sLifecycleDone s); [intros [= <- <- _]; apply wos_nil|].
  destruct (watch_events b i open now poll) as [[b1 n1] [o1|]] eqn:V; apply watch_events_ops in V.
  2:{ by intros [= <- <- _]. }
  destruct (watch_leases b1 i now provider) as [[b2 n2] goon] eqn:L. intros [= <- <- _].
  eapply watch_ops_trans; [exact V|]. clear V. unfold watch_leases in L.
  destruct (current_session b1 i) as [s1|]; [|injection L as <- <- _; apply wos_nil].
  destruct (sReleaseExhausted s1); [injection L as <- <- _; apply wos_nil|].
  destruct (normalReleaseWaiting b1 i); [injection L as <- <- _; apply wos_nil|].
  destruct (start_expired b1 s1 now); [by eapply lease_over_ops|].
  destruct (progress_expired b1 s1 now); [by eapply lease_over_ops|].
  destruct (_ && _); injection L as <- <- _; [apply watch_ops_one, wo_mark|apply wos_nil].
Qed.
