(* ===== verification/Sessions.v ===== *)
(** * Interleavings of the broker's goroutines

    Puts the locked operations of [Broker.v], the phases of [acquire] and the
    sections of the watcher together: a configuration is the broker, the running
    goroutines and the descriptors the kernel holds open; a step is one locked
    section of one goroutine, or an event from BlueZ, Asterisk or the operator.

    Shown for every interleaving: transport and lifecycle descriptors are closed
    exactly once and never leak; a session is released at most once; a session
    that is not finished always has the goroutine that will finish it; generations
    given to Asterisk are never refused as stale and never name two sessions. *)

From S2P Require Import Prelude GoStd Lc3 Handoff Qos Broker Acquire Watch.

(** ** Events *)

(** [runBlueZOnce] resets the tables when it connects and when it returns. *)
Definition reset_tables (b : Broker) : Broker * list Z :=
  let b := b <| bConfigured := ∅ |> <| bAcquiring := ∅ |> <| bAcquired := ∅ |> <| bPairing := ∅ |> in
  let b := signalActiveSessionDone b (bActiveSession b) in
  closePendingLocked (b <| bActiveSession := None |>).
Definition bluez_connected (b : Broker) (conn : Z) (devicePath : path) : Broker * list Z :=
  reset_tables (b <| bExpectedDevice := devicePath |> <| bConnection := Some conn |>).
Definition bluez_registered (b : Broker) : Broker := b <| bRegistered := true |>.
(** What is deferred when the endpoints could not be registered. *)
Definition bluez_disconnected (b : Broker) : Broker := b <| bConnection := None |>.
Definition bluez_gone (b : Broker) : Broker * list Z :=
  let '(b, fds) := reset_tables (b <| bRegistered := false |> <| bAdvertising := false |>
                                   <| bDiscoverable := false |>) in
  (bluez_disconnected b, fds).

Definition spawn_release (i : option nat) : list goroutine :=
  match i with Some i => [GRelease i] | None => [] end.

(** One poll turn of the hand-off server, whose disconnect handler is
    [requestActiveSessionRelease]. *)
Definition handoff_poll (b : Broker) (readable : bool) (accepted : option (Z * option Z))
  : Broker * list goroutine :=
  let '(h, ev) := handoff_turn (bHandoff b) readable accepted in
  let b := b <| bHandoff := h |> in
  if existsb (fun e => match e with HDisconnected => true | _ => false end) ev
  then let '(i, b) := requestActiveSessionRelease b in (b, spawn_release i)
  else (b, []).

Inductive event (b : Broker) : Broker -> list goroutine -> list Z -> Prop :=
  | ev_media_leases startup active : event b (ConfigureMediaLeases b startup active).2 [] []
  | ev_release_wait wait : event b (ConfigureNormalReleaseWait b wait).2 [] []
  | ev_call_control provider required : event b (ConfigureCallControl b provider required).2 [] []
  | ev_connected conn device b' fds : bluez_connected b conn device = (b', fds) -> event b b' [] fds
  | ev_registered : event b (bluez_registered b) [] []
  | ev_disconnected : event b (bluez_disconnected b) [] []
  | ev_gone b' fds : bluez_gone b = (b', fds) -> event b b' [] fds
  | ev_set_configuration IsValid direction p properties r b' fds :
      SetConfiguration IsValid b direction p properties = (r, b', fds) -> event b b' [] fds
  | ev_clear p b' fds : clear b p = (b', fds) -> event b b' [] fds
  | ev_signal signal b' p : handleSignal b signal = (b', p) ->
      event b b' (match p with Some p => [GAcquire p] | None => [] end) []
  | ev_bearer_down b' i : handleLEBearerDisconnected b = (i, b') -> event b b' (spawn_release i) []
  | ev_handoff readable accepted b' next : handoff_poll b readable accepted = (b', next) -> event b b' next []
  | ev_release_token token : event b (ReleaseCallToken b token).2 [] []
  | ev_hold hold : event b (HoldAdvertisement b hold) [] [].

(** ** Goroutines *)

(** TryAcquire's reply has the type it is documented with: a descriptor and two sizes. *)
Definition typed_reply (e : try_env) : Prop := match te_acquire e with Garbled _ => False | _ => True end.
Inductive runs (b : Broker) : goroutine -> outcome -> Prop :=
  | run_acquire p : runs b (GAcquire p) (acquire_begin b p)
  | run_links p links : runs b (GLinks p) (acquire_reserve b p links)
  | run_try answer closed e p conn cfg peer :
      (forall l, te_order e l ≡ₚ l) -> typed_reply e ->
      runs b (GTry p conn cfg peer) (acquire_try answer closed e b p conn cfg peer)
  | run_correlate answer closed e p peer conn sink source :
      bSessions b !! pi_address e = None ->
      runs b (GCorrelate p peer conn sink source) (acquire_publish answer closed e b p peer conn sink source)
  | run_cleanup p peer : runs b (GCleanup p peer) (acquire_cleanup b p peer)
  | run_expire answer closed p generation :
      runs b (GExpire p generation) (expirePending answer closed b p generation)
  | run_release answer closed i :
      runs b (GRelease i) (mkOutcome (releaseActiveSession answer closed b i) [] [] [])
  | run_wait_done i s : bSessions b !! i = Some s -> sLifecycleDone s = true ->
      runs b (GWaitNormal i) (mkOutcome b [] [] [])
  | run_wait_fires i went b' : forceNormalReleaseTimeout b i = (went, b') ->
      runs b (GWaitNormal i) (mkOutcome b' (if went then [GRelease i] else []) [] [])
  | run_watch i fd open open' b' next : watch_op i b b' next ->
      runs b (GWatch i fd open) (mkOutcome b' (GWatch i fd open' :: next) [] [])
  | run_watch_returns i fd open : open_session b i = None ->
      runs b (GWatch i fd open) (mkOutcome b [] [] [fd]).

(** ** Steps

    [cOpen] is [None] once a descriptor was closed that was not open.
    [cReleased] records the sessions for which [releaseActiveSession] started. *)
Record config := mkConfig {
  cBroker : Broker;
  cThreads : list goroutine;
  cOpen : option (list Z);
  cReleased : list nat
}.

Definition releases (next : list goroutine) : list nat :=
  omap (fun g => match g with GRelease i => Some i | _ => None end) next.
Fixpoint close_fd (fd : Z) (open : list Z) : option (list Z) :=
  match open with
  | [] => None
  | x :: open => if x =? fd then Some open else (fun l => x :: l) <$> close_fd fd open
  end.
Fixpoint close_fds (fds open : list Z) : option (list Z) :=
  match fds with
  | [] => Some open
  | fd :: fds => match close_fd fd open with Some open => close_fds fds open | None => None end
  end.
Definition kernel (open : option (list Z)) (opened closed : list Z) : option (list Z) :=
  match open with Some open => close_fds closed (opened ++ open) | None => None end.
Definition fresh_fds (open : option (list Z)) (opened : list Z) : Prop :=
  match open with Some open => NoDup (opened ++ open) | None => False end.

Inductive step : config -> config -> Prop :=
  | step_run b l g r open rel o :
      runs b g o -> fresh_fds open (oOpened o) ->
      step (mkConfig b (l ++ g :: r) open rel)
           (mkConfig (oBroker o) (l ++ oNext o ++ r) (kernel open (oOpened o) (oClosed o))
                     (rel ++ releases (oNext o)))
  | step_event b b' ts open rel next closed :
      event b b' next closed ->
      step (mkConfig b ts open rel)
           (mkConfig b' (ts ++ next) (kernel open [] closed) (rel ++ releases next)).

Definition initial (b : Broker) : config := mkConfig b [] (Some []) [].
Definition reachable (b : Broker) (c : config) : Prop := rtc step (initial b) c.

(** ** Descriptors *)
Lemma close_fd_perm fd open rest :
  open ≡ₚ fd :: rest -> exists open', close_fd fd open = Some open' /\ open' ≡ₚ rest.
Proof.
  revert rest. induction open as [|x open IH]; intros rest H; cbn.
  { by apply Permutation_nil_cons in H. }
  destruct (x =? fd) eqn:E; bool_prop.
  - subst. exists open. split; [done|]. by apply Permutation_cons_inv in H.
  - assert (x ∈ rest) as Hx.
    { assert (x ∈ fd :: rest) as Hx by (rewrite <- H; apply list_elem_of_here).
      apply elem_of_cons in Hx as [|]; [congruence|done]. }
    apply elem_of_Permutation in Hx as (rest' & Hr). rewrite Hr in H.
    assert (open ≡ₚ fd :: rest') as H'.
    { apply (Permutation_cons_inv (a := x)). by rewrite H, Permutation_swap. }
    destruct (IH _ H') as (o & -> & Ho). exists (x :: o). split; [done|]. by rewrite Hr, Ho.
Qed.

Lemma close_fds_perm fds open rest :
  open ≡ₚ fds ++ rest -> exists open', close_fds fds open = Some open' /\ open' ≡ₚ rest.
Proof.
  revert open. induction fds as [|fd fds IH]; intros open H; cbn; [eauto|].
  destruct (close_fd_perm fd open (fds ++ rest) H) as (o & -> & Ho). by apply IH.
Qed.

(** The descriptors a goroutine owns, and those of the pending transports. *)
Definition fds_of (g : goroutine) : list Z :=
  match g with
  | GCorrelate _ _ _ sink source => [ptFD sink; ptFD source]
  | GWatch _ fd _ => [fd]
  | _ => []
  end.
Definition fds_in (ts : list goroutine) : list Z := ts ≫= fds_of.
Definition pending_fds (m : gmap path pendingTransport) : list Z :=
  map (fun e : path * pendingTransport => ptFD e.2) (map_to_list m).
Definition owned (b : Broker) (ts : list goroutine) : list Z := pending_fds (bPending b) ++ fds_in ts.

Definition keyed (m : gmap path pendingTransport) : Prop := map_Forall (fun p t => ptPath t = p) m.

Lemma pending_fds_insert m p t : m !! p = None -> pending_fds (<[p := t]> m) ≡ₚ ptFD t :: pending_fds m.
Proof. intros H. unfold pending_fds. by rewrite (map_to_list_insert m p t H). Qed.
Lemma pending_fds_delete m p t : m !! p = Some t -> pending_fds m ≡ₚ ptFD t :: pending_fds (delete p m).
Proof.
  intros H. rewrite <- (pending_fds_insert (delete p m) p t) by apply lookup_delete_eq.
  by rewrite insert_delete_eq, insert_id.
Qed.

(** ** What each operation does to the sessions *)
Definition sview : Type := option nat * gmap nat session.
Definition view (b : Broker) : sview := (bActiveSession b, bSessions b).

(** Two versions of a session object in the same phase of its life. *)
Record same_phase (s s' : session) : Prop := {
  sp_done : sLifecycleDone s' = sLifecycleDone s;
  sp_releasing : sReleasing s' = sReleasing s;
  sp_exhausted : sReleaseExhausted s' = sReleaseExhausted s;
  sp_waiting : sNormalWaitStarted s' = sNormalWaitStarted s;
  sp_bundle : sBundleID s' = sBundleID s;
  sp_token : sCallToken s' = sCallToken s
}.

(** A move of the active session, with the goroutines it starts. *)
Inductive move : sview -> sview -> list goroutine -> Prop :=
  | mv_flags i m s s' : m !! i = Some s -> same_phase s s' -> move (Some i, m) (Some i, <[i := s']> m) []
  | mv_release i m s : m !! i = Some s -> sReleasing s = false -> sReleaseExhausted s = false ->
      move (Some i, m) (Some i, <[i := s <| sReleasing := true |>]> m) [GRelease i]
  | mv_wait i m s : m !! i = Some s -> sReleasing s = false -> sReleaseExhausted s = false ->
      move (Some i, m) (Some i, <[i := s <| sNormalWaitStarted := true |>]> m) [GWaitNormal i]
  | mv_finish i m s : m !! i = Some s ->
      move (Some i, m) (Some i, <[i := s <| sReleasing := false |> <| sReleaseExhausted := true |>]> m) []
  | mv_clear i m s : m !! i = Some s ->
      move (Some i, m) (None, <[i := s <| sLifecycleDone := true |>]> m) []
  | mv_drop i m : m !! i = None -> move (Some i, m) (None, m) [].

Inductive moves : sview -> sview -> list goroutine -> Prop :=
  | mvs_nil v : moves v v []
  | mvs_cons v1 v2 v3 n1 n2 : move v1 v2 n1 -> moves v2 v3 n2 -> moves v1 v3 (n1 ++ n2).

Lemma moves_one v v' n : move v v' n -> moves v v' n.
Proof. intros H. rewrite <- (app_nil_r n). by eapply mvs_cons; [|apply mvs_nil]. Qed.
Lemma moves_app v1 v2 v3 n1 n2 : moves v1 v2 n1 -> moves v2 v3 n2 -> moves v1 v3 (n1 ++ n2).
Proof.
  induction 1 as [|v1 v1' v2 n1 n1' Hm H IH]; [done|]. intros H2. rewrite <- app_assoc. eapply mvs_cons; eauto.
Qed.
Lemma moves_then v1 v2 v3 n : moves v1 v2 [] -> moves v2 v3 n -> moves v1 v3 n.
Proof. apply moves_app. Qed.

Lemma open_view b i s :
  open_session b i = Some s ->
  view b = (Some i, bSessions b) /\ bSessions b !! i = Some s /\ sReleasing s = false /\ sReleaseExhausted s = false.
Proof. intros (A & L & R & X)%open_session_Some. unfold view. by rewrite A. Qed.
Lemma current_view b i s :
  current_session b i = Some s -> view b = (Some i, bSessions b) /\ bSessions b !! i = Some s.
Proof. unfold current_session. case_bool_decide as A; [|done]. unfold view. by rewrite A. Qed.
Lemma view_put b i s : view (put_session b i s) = (bActiveSession b, <[i := s]> (bSessions b)).
Proof. done. Qed.

Lemma moves_flags b i s s' : open_session b i = Some s -> same_phase s s' -> moves (view b) (view (put_session b i s')) [].
Proof.
  intros (E & L & _ & _)%open_view P. rewrite E, view_put. injection E as ->.
  apply moves_one. by eapply mv_flags.
Qed.

Lemma clearActiveSessionLocked_moves b i : moves (view b) (view (clearActiveSessionLocked b i)) [].
Proof.
  unfold clearActiveSessionLocked. destruct (bSessions b !! i) as [s|] eqn:L; [|apply mvs_nil].
  case_bool_decide as A; [|apply mvs_nil]. unfold signalActiveSessionDone. cbn. rewrite L.
  unfold view. rewrite A. cbn. apply moves_one. by eapply mv_clear.
Qed.

Lemma recordLifecycleProgress_moves b i p now : moves (view b) (view (recordLifecycleProgress b i p now).2) [].
Proof.
  unfold recordLifecycleProgress. destruct (open_session b i) as [s|] eqn:O; [|apply mvs_nil].
  destruct (lifecycleProgressMatches s p); [|apply mvs_nil]. by apply (moves_flags b i s).
Qed.

Lemma markNormalReleasePending_moves b i e : moves (view b) (view (markNormalReleasePending b i e).2) [].
Proof.
  unfold markNormalReleasePending. destruct (open_session b i) as [s|] eqn:O; [|apply mvs_nil].
  destruct (sNormalEndSeen s); cbn [snd]; [by destruct e; apply mvs_nil|].
  assert (same_phase s (s <| sNormalEndSeen := true |>)) as P by done.
  destruct e; exact (moves_flags b i s _ O P).
Qed.

Lemma recordLifecycleNormalEnd_moves b i p : moves (view b) (view (recordLifecycleNormalEnd b i p).2) [].
Proof.
  unfold recordLifecycleNormalEnd. destruct (open_session b i) as [s|] eqn:O; [|apply mvs_nil].
  destruct (lifecycleProgressMatches s p); [apply markNormalReleasePending_moves|apply mvs_nil].
Qed.

Lemma request_moves b i went b' :
  requestSpecificSessionRelease b i = (went, b') -> moves (view b) (view b') (if went then [GRelease i] else []).
Proof.
  unfold requestSpecificSessionRelease. destruct (open_session b i) as [s|] eqn:O; intros [= <- <-]; [|apply mvs_nil].
  apply open_view in O as (E & L & R & X). rewrite E, view_put. injection E as ->. apply moves_one. by eapply mv_release.
Qed.
Lemma requestActive_moves b i b' :
  requestActiveSessionRelease b = (i, b') -> moves (view b) (view b') (spawn_release i).
Proof.
  unfold requestActiveSessionRelease. destruct (bActiveSession b) as [j|]; [|intros [= <- <-]; apply mvs_nil].
  destruct (requestSpecificSessionRelease b j) as [went b1] eqn:E. intros [= <- <-].
  apply request_moves in E. by destruct went.
Qed.

Lemma force_moves b i went b' :
  forceNormalReleaseTimeout b i = (went, b') -> moves (view b) (view b') (if went then [GRelease i] else []).
Proof.
  unfold forceNormalReleaseTimeout. destruct (open_session b i) as [s|] eqn:O; [|intros [= <- <-]; apply mvs_nil].
  destruct (sNormalWaitStarted s); intros [= <- <-]; [|apply mvs_nil].
  apply open_view in O as (E & L & R & X). rewrite E. change (view (bump ?m ?b)) with (view b). rewrite view_put.
  injection E as ->. apply moves_one. by eapply mv_release.
Qed.

Lemma begin_wait_moves b i e went started b' :
  beginNormalReleaseWait b i e = (went, started, b') ->
  moves (view b) (view b') match started with
                           | BegunNothing => [] | BegunRelease => [GRelease i] | BegunWait _ => [GWaitNormal i]
                           end.
Proof.
  unfold beginNormalReleaseWait. destruct (open_session b i) as [s|] eqn:O; [|intros [= <- <- <-]; apply mvs_nil].
  set (b1 := if e then bump lifecycleNormalEnds b else b).
  assert (view b1 = view b) as V by by destruct e. assert (open_session b1 i = Some s) as O1 by by destruct e.
  destruct (sNormalWaitStarted s) eqn:W; [intros [= <- <- <-]; rewrite V; apply mvs_nil|]. cbv zeta.
  set (s1 := s <| sNormalEndSeen := _ |>).
  assert (open_session (put_session b1 i s1) i = Some s1) as O2.
  { rewrite (open_session_put _ _ _ _ O1). apply open_session_Some in O1 as (_ & _ & R & X). cbn. by rewrite R, X. }
  assert (moves (view b) (view (put_session b1 i s1)) []) as M by (rewrite <- V; by eapply moves_flags).
  destruct (_ <=? 0).
  - destruct (requestSpecificSessionRelease _ i) as [w b2] eqn:E. intros [= <- <- <-].
    apply request_moves in E. eapply moves_then; [exact M|]. by destruct w.
  - intros [= <- <- <-]. eapply moves_then; [exact M|]. apply open_view in O2 as (E & L & R & X).
    change (view (bump ?m ?b)) with (view b). rewrite (view_put (put_session b1 i s1)), E.
    injection E as EA. change (bActiveSession (put_session b1 i s1)) with (bActiveSession b1). rewrite EA.
    apply moves_one. exact (mv_wait i _ s1 L R X).
Qed.

Lemma watch_op_moves i b b' next : watch_op i b b' next -> moves (view b) (view b') next.
Proof.
  destruct 1 as [p now|p|m| |b' H|b' w H|b' H|b' H];
    [apply recordLifecycleProgress_moves|apply recordLifecycleNormalEnd_moves|apply mvs_nil
    |apply markNormalReleasePending_moves|apply request_moves in H|apply begin_wait_moves in H
    |apply begin_wait_moves in H|apply begin_wait_moves in H]; exact H.
Qed.

Lemma transport_idle_moves b p : moves (view b) (view (transport_idle b p)) [].
Proof.
  unfold transport_idle. change (bActiveSession (forget_path b p)) with (bActiveSession b).
  destruct (bActiveSession b) as [i|] eqn:A; [|apply mvs_nil]. cbn [session_at].
  change (bSessions (forget_path b p)) with (bSessions b).
  destruct (bSessions b !! i) as [s|] eqn:L; [|apply mvs_nil].
  destruct (session_uses s p); [|apply mvs_nil]. cbv zeta.
  set (s1 := s <| sIdlePaths := _ |>). set (b1 := put_session (forget_path b p) i s1).
  assert (forall s', same_phase s s' -> moves (view b) (view (put_session b1 i s')) []) as M.
  { intros s' P. unfold view, b1. cbn. rewrite A, insert_insert_eq. apply moves_one. by eapply mv_flags. }
  assert (moves (view b) (view b1) []) as M1.
  { unfold view, b1. cbn. rewrite A. apply moves_one. by eapply mv_flags. }
  destruct (_ && _); [|exact M1]. destruct (sReleasing s1); [by apply M|].
  eapply moves_then; [exact M1|]. destruct (sNormalEndSeen s1);
    match goal with |- context [clearActiveSessionLocked ?b i] =>
      change (view b1) with (view b); apply clearActiveSessionLocked_moves end.
Qed.

Lemma ReleaseCallToken_moves b token : moves (view b) (view (ReleaseCallToken b token).2) [].
Proof.
  unfold ReleaseCallToken. destruct (token =? 0); [apply mvs_nil|].
  destruct (bActiveSession b) as [i|]; [|apply mvs_nil]. destruct (bSessions b !! i) as [s|]; [|apply mvs_nil].
  destruct (sCallToken s =? token); [apply markNormalReleasePending_moves|apply mvs_nil].
Qed.

(** ** Operations that leave sessions, pending transports and generations alone *)
Record quiet (b b' : Broker) : Prop := {
  q_view : view b' = view b;
  q_pending : bPending b' = bPending b;
  q_handoff : bHandoff b' = bHandoff b;
  q_lastGen : bLastGen b' = bLastGen b
}.
Lemma quiet_refl b : quiet b b.
Proof. done. Qed.
Lemma quiet_trans b1 b2 b3 : quiet b1 b2 -> quiet b2 b3 -> quiet b1 b3.
Proof. intros [] []. split; congruence. Qed.
Lemma metrics_quiet b b' : metrics_only b b' -> quiet b b'.
Proof. intros H. apply metrics_only_eq in H. rewrite H. done. Qed.

Lemma release_round_only answer b log succeeded paths :
  metrics_only b (release_round answer b log succeeded paths).1.1.2.
Proof.
  enough (forall b0, metrics_only b0 b -> metrics_only b0 (release_round answer b log succeeded paths).1.1.2) as H
    by apply H, metrics_only_refl.
  revert b log succeeded. induction paths as [|p paths IH]; intros b log succ b0 Hb; [done|].
  cbn [release_round]. case_bool_decide; [by apply IH|]. cbn [releaseMediaTransport].
  specialize (IH (bump (if answer log p then releaseSuccesses else releaseErrors) (bump releaseAttempts b))
                 (log ++ [(p, answer log p)]) (if answer log p then {[ p ]} ∪ succ else succ) b0
                 ltac:(by apply metrics_only_bump, metrics_only_bump)).
  destruct (release_round _ _ _ _ _) as [[[? ?] ?] ?]. exact IH.
Qed.
Lemma release_attempts_only answer closed n b log succeeded paths :
  metrics_only b (release_attempts answer closed n b log succeeded paths).1.1.2.
Proof.
  enough (forall b0, metrics_only b0 b ->
            metrics_only b0 (release_attempts answer closed n b log succeeded paths).1.1.2) as H
    by apply H, metrics_only_refl.
  revert b log succeeded. induction n as [|n IH]; intros b log succ b0 Hb; cbn [release_attempts].
  { cbn. by apply metrics_only_bump. }
  pose proof (release_round_only answer b log succ paths) as R.
  destruct (release_round answer b log succ paths) as [[[all b1] log1] succ1]. cbn in R.
  assert (metrics_only b0 b1) as H1.
  { apply metrics_only_eq in Hb, R. unfold metrics_only. rewrite R, Hb. by destruct b0. }
  destruct all; [done|by apply IH].
Qed.
Lemma release_quiet answer closed b paths : quiet b (release answer closed b paths).
Proof.
  apply metrics_quiet. unfold release.
  pose proof (release_attempts_only answer closed transportReleaseRetries b [] ∅ paths) as R.
  unfold releaseTransportPaths. by destruct (release_attempts _ _ _ _ _ _ _) as [[[? ?] ?] ?].
Qed.
Lemma forget_path_quiet b p : quiet b (forget_path b p).
Proof. done. Qed.
Lemma clearPairingLocked_quiet b first second : quiet b (clearPairingLocked b first second).
Proof.
  assert (forall b t, quiet b (clear_pairing b t)) as H.
  { intros b0 t. unfold clear_pairing. destruct (bConfigured b0 !! ptPath t); [|done].
    by destruct (_ =? _). }
  eapply quiet_trans; apply H.
Qed.
Lemma quiet_moves b b' : quiet b b' -> moves (view b) (view b') [].
Proof. intros [-> _ _ _]. apply mvs_nil. Qed.

Lemma releaseActiveSession_moves answer closed b i :
  moves (view b) (view (releaseActiveSession answer closed b i)) [] /\
  (forall s, current_session (releaseActiveSession answer closed b i) i = Some s -> sReleasing s = false).
Proof.
  unfold releaseActiveSession. destruct (bSessions b !! i) as [s|] eqn:L.
  2:{ split; [apply mvs_nil|]. unfold current_session. rewrite L. by case_bool_decide. }
  pose proof (release_quiet answer closed b (sReleasePaths s)) as Q. unfold release in Q.
  destruct (releaseTransportPaths answer closed b (sReleasePaths s)) as [[[ok b1] log] fell].
  assert (bActiveSession b1 = bActiveSession b /\ bSessions b1 = bSessions b) as [A1 S1].
  { destruct Q as [V _ _ _]. by injection V as -> ->. }
  assert (forall b2, view b2 = view b1 -> moves (view b) (view (clearActiveSessionLocked b2 i)) [] /\
    (forall s, current_session (clearActiveSessionLocked b2 i) i = Some s -> sReleasing s = false)) as HC.
  { intros b2 E. split.
    - eapply moves_then; [by apply quiet_moves|]. rewrite <- E. apply clearActiveSessionLocked_moves.
    - injection E as EA ES. unfold clearActiveSessionLocked. rewrite ES, S1, L.
      case_bool_decide as HA.
      + unfold signalActiveSessionDone. cbn. rewrite ES, S1, L. unfold current_session. by cbn.
      + unfold current_session. by rewrite bool_decide_false. }
  destruct ok; [by apply HC|]. unfold release_failed.
  destruct (current_session b1 i) as [s1|] eqn:C.
  2:{ split; [by apply quiet_moves|]. by rewrite C. }
  destruct (sRemoteIdleSeen s1); [by apply HC|]. split.
  - eapply moves_then; [by apply quiet_moves|]. apply current_view in C as [E L1].
    rewrite E, view_put. injection E as ->. apply moves_one. by eapply mv_finish.
  - intros s2. apply current_view in C as [E L1]. injection E as EA.
    unfold current_session, put_session. cbn. rewrite EA, bool_decide_true, lookup_insert_eq by done.
    by intros [= <-].
Qed.

(** ** Events *)
Lemma reset_tables_spec b b' fds :
  reset_tables b = (b', fds) ->
  moves (view b) (view b') [] /\ bPending b' = ∅ /\ fds = pending_fds (bPending b) /\
  bHandoff b' = bHandoff b /\ bLastGen b' = bLastGen b.
Proof.
  unfold reset_tables, closePendingLocked. intros [= <- <-]. unfold signalActiveSessionDone. cbn.
  destruct (bActiveSession b) as [i|] eqn:A; cbn.
  - destruct (bSessions b !! i) as [s|] eqn:L; cbn; split_and!; try done.
    + unfold view. cbn. rewrite A. apply moves_one. by eapply mv_clear.
    + unfold view. cbn. rewrite A. apply moves_one. by eapply mv_drop.
  - split_and!; try done. unfold view. cbn. rewrite A. apply mvs_nil.
Qed.

Lemma close_pending_spec b p b' fds :
  close_pending b p = (b', fds) ->
  view b' = view b /\ bHandoff b' = bHandoff b /\ bLastGen b' = bLastGen b /\
  (keyed (bPending b) -> keyed (bPending b')) /\ pending_fds (bPending b) ≡ₚ fds ++ pending_fds (bPending b').
Proof.
  unfold close_pending. destruct (bPending b !! p) as [t|] eqn:E; intros [= <- <-]; split_and!; try done.
  - intros K. by apply map_Forall_delete.
  - by apply pending_fds_delete.
Qed.

Lemma same_history_refl h : same_history h h.
Proof. done. Qed.

(** The started goroutines other than [acquire]. *)
Definition watchers (next : list goroutine) : list goroutine :=
  List.filter (fun g => match g with GAcquire _ => false | _ => true end) next.

(** What an event does, as the invariants need it. *)
Record effect (b b' : Broker) (next : list goroutine) (closed : list Z) : Prop := {
  ef_moves : moves (view b) (view b') (watchers next);
  ef_keyed : keyed (bPending b) -> keyed (bPending b');
  ef_fds : pending_fds (bPending b) ≡ₚ closed ++ pending_fds (bPending b');
  ef_handoff : bLastGen b' = bLastGen b /\ same_history (bHandoff b) (bHandoff b')
}.

Lemma quiet_effect b b' : quiet b b' -> effect b b' [] [].
Proof.
  intros Q. pose proof (quiet_moves _ _ Q) as M. destruct Q as [V P H L]. by split; rewrite ?P, ?H, ?L.
Qed.
Lemma moves_effect b b' next :
  moves (view b) (view b') (watchers next) ->
  bPending b' = bPending b -> bLastGen b' = bLastGen b -> bHandoff b' = bHandoff b -> effect b b' next [].
Proof. intros M P L H. split; rewrite ?P, ?H, ?L; done. Qed.

(** The fields an operation on sessions never writes. *)
Definition rest (b : Broker) := (bPending b, bLastGen b, bHandoff b).
Lemma rest_effect b b' next :
  moves (view b) (view b') (watchers next) ->
  rest b' = rest b -> effect b b' next [].
Proof. intros M [= P L H]. by apply moves_effect. Qed.

Ltac by_rest := repeat split_match; simplify_eq/=; done.
Lemma clearActive_rest b i : rest (clearActiveSessionLocked b i) = rest b.
Proof. unfold clearActiveSessionLocked, signalActiveSessionDone. by_rest. Qed.
Lemma request_rest b i : rest (requestSpecificSessionRelease b i).2 = rest b.
Proof. unfold requestSpecificSessionRelease. by_rest. Qed.
Lemma requestActive_rest b : rest (requestActiveSessionRelease b).2 = rest b.
Proof.
  unfold requestActiveSessionRelease. destruct (bActiveSession b) as [i|]; [|done].
  pose proof (request_rest b i). by destruct (requestSpecificSessionRelease b i).
Qed.
Lemma mark_rest b i e : rest (markNormalReleasePending b i e).2 = rest b.
Proof. unfold markNormalReleasePending. destruct e; by_rest. Qed.
Lemma progress_rest b i p now : rest (recordLifecycleProgress b i p now).2 = rest b.
Proof. unfold recordLifecycleProgress. by_rest. Qed.
Lemma normal_end_rest b i p : rest (recordLifecycleNormalEnd b i p).2 = rest b.
Proof.
  unfold recordLifecycleNormalEnd. destruct (open_session b i) as [s|]; [|done].
  destruct (lifecycleProgressMatches s p); [apply mark_rest|done].
Qed.
Lemma begin_wait_rest b i e : rest (beginNormalReleaseWait b i e).2 = rest b.
Proof. unfold beginNormalReleaseWait, requestSpecificSessionRelease. destruct e; by_rest. Qed.
Lemma force_rest b i : rest (forceNormalReleaseTimeout b i).2 = rest b.
Proof. unfold forceNormalReleaseTimeout. by_rest. Qed.
Lemma token_rest b token : rest (ReleaseCallToken b token).2 = rest b.
Proof.
  unfold ReleaseCallToken. destruct (token =? 0); [done|]. destruct (bActiveSession b) as [i|]; [|done].
  destruct (bSessions b !! i) as [s|]; [|done]. destruct (sCallToken s =? token); [apply mark_rest|done].
Qed.
Lemma transport_idle_rest b p : rest (transport_idle b p) = rest b.
Proof.
  unfold transport_idle. change (bActiveSession (forget_path b p)) with (bActiveSession b).
  destruct (bActiveSession b) as [i|]; [|done]. destruct (session_at _ _) as [s|]; [|done].
  destruct (session_uses s p); [|done]. destruct (_ && _); [|done]. destruct (sReleasing _); [done|].
  destruct (sNormalEndSeen _); by rewrite clearActive_rest.
Qed.
Lemma watch_op_rest i b b' next : watch_op i b b' next -> rest b' = rest b.
Proof.
  destruct 1 as [p now|p|m| |b' H|b' w H|b' H|b' H];
    [apply progress_rest|apply normal_end_rest|done|apply mark_rest| | | |];
    [rewrite <- (request_rest b i)|rewrite <- (begin_wait_rest b i false)..]; by rewrite H.
Qed.

Lemma handleSignal_effect b signal b' p :
  handleSignal b signal = (b', p) -> effect b b' (match p with Some p => [GAcquire p] | None => [] end) [].
Proof.
  unfold handleSignal. intros H.
  assert ((b' = b) \/ (exists q, b' = transport_idle b q /\ p = None)) as [->|(q & -> & ->)].
  { repeat split_match; simplify_eq; eauto. }
  - by destruct p; apply rest_effect; [apply mvs_nil| |apply mvs_nil|].
  - apply rest_effect; [apply transport_idle_moves|apply transport_idle_rest].
Qed.

Lemma clear_effect b p b' fds : clear b p = (b', fds) -> effect b b' [] fds.
Proof.
  unfold clear. destruct (close_pending b p) as [b1 fds1] eqn:E. apply close_pending_spec in E as (V & H & L & K & F).
  set (b2 := forget_path _ p). intros [= <- <-].
  assert (view b2 = view b /\ rest b2 = rest b1) as [V2 R2] by done.
  enough (forall b3, moves (view b2) (view b3) [] -> rest b3 = rest b2 -> effect b b3 [] fds1) as HE.
  { change (bActiveSession b1) with (bActiveSession b2).
    destruct (bActiveSession b2) as [i|]; [|apply HE; [apply mvs_nil|done]].
    destruct (session_at b2 (Some i)) as [s|]; [|apply HE; [apply mvs_nil|done]].
    destruct (session_uses s p); [|apply HE; [apply mvs_nil|done]].
    apply HE; [apply clearActiveSessionLocked_moves|apply clearActive_rest]. }
  intros b3 M R. rewrite R2 in R. injection R as RP RL RH. rewrite V2 in M. split; rewrite ?RP, ?RL, ?RH, ?H, ?L;
    auto using same_history_refl.
Qed.

Lemma configure_effect IsValid b p direction codec qos r b' fds :
  configure IsValid b p direction codec qos = (r, b', fds) -> effect b b' [] fds.
Proof.
  unfold configure. destruct (_ || _); [intros [= <- <- <-]; by apply quiet_effect|].
  destruct (bNextConfig b =? _); [intros [= <- <- <-]; by apply quiet_effect|]. cbv zeta.
  set (b0 := b <| bNextConfig := _ |>). destruct (close_pending b0 p) as [b1 fds1] eqn:E.
  apply close_pending_spec in E as (V & H & L & K & F). intros [= _ <- <-].
  split; cbn; rewrite ?H, ?L; auto using same_history_refl.
  change (moves (view b0) (view b1) []). rewrite V. apply mvs_nil.
Qed.

Lemma handoff_same_history s readable accepted : same_history s (handoff_turn s readable accepted).1.
Proof.
  destruct (handoff_turn_history s readable accepted) as [H1 H2]. split; [done|]. by injection H1.
Qed.

Lemma event_effect b b' next closed : event b b' next closed -> effect b b' next closed.
Proof.
  destruct 1 as [st ac|w|pr rq|conn dev b' fds H| | |b' fds H|V d p props r b' fds H|p b' fds H|sg b' p H
                |b' i H|rd ac b' nx H|tok|h].
  - apply quiet_effect. unfold ConfigureMediaLeases. by repeat split_match.
  - apply quiet_effect. unfold ConfigureNormalReleaseWait. by repeat split_match.
  - apply quiet_effect. unfold ConfigureCallControl. by repeat split_match.
  - apply reset_tables_spec in H as (M & P & -> & Hh & L). cbn in *.
    split; [exact M|by rewrite P|by rewrite P, app_nil_r|by rewrite Hh, L].
  - by apply quiet_effect.
  - by apply quiet_effect.
  - unfold bluez_gone in H. destruct (reset_tables _) as [b1 fds1] eqn:E. injection H as <- <-.
    apply reset_tables_spec in E as (M & P & -> & Hh & L). cbn in *.
    split; [exact M|by rewrite P|cbn; by rewrite P, app_nil_r|cbn; by rewrite Hh, L].
  - unfold SetConfiguration in H. destruct (set_configuration props) as [[codec qos]|e].
    + by eapply configure_effect.
    + injection H as _ <- <-. by apply quiet_effect.
  - by eapply clear_effect.
  - by eapply handleSignal_effect.
  - unfold handleLEBearerDisconnected in H. pose proof (requestActive_rest b) as R. rewrite H in R.
    apply requestActive_moves in H. apply rest_effect; [by destruct i|done].
  - unfold handoff_poll in H. pose proof (handoff_same_history (bHandoff b) rd ac) as HH.
    destruct (handoff_turn (bHandoff b) rd ac) as [h ev]. cbn in HH.
    destruct (existsb _ ev); [|injection H as <- <-; split; cbn; auto using mvs_nil].
    set (b1 := b <| bHandoff := h |>) in *. pose proof (requestActive_rest b1) as R.
    destruct (requestActiveSessionRelease b1) as [i b2] eqn:E. injection H as <- <-.
    apply requestActive_moves in E. injection R as RP RL RH.
    split; cbn; rewrite ?RP, ?RL, ?RH; auto. by destruct i.
  - apply rest_effect; [apply ReleaseCallToken_moves|apply token_rest].
  - apply quiet_effect. unfold HoldAdvertisement. by destruct (_ || _).
Qed.

(** ** Goroutines and descriptors *)
Lemma find_peer_Some held entries peer ok :
  find_peer held entries = Some (peer, ok) ->
  exists k, (k, peer) ∈ entries /\ ptPath peer <> ptPath held /\
    tcDirection (ptConfig peer) <> tcDirection (ptConfig held) /\ ok = is_ok (validateTransportPair held peer).
Proof.
  induction entries as [|[k c] entries IH]; [done|]. cbn [find_peer].
  destruct (_ || _) eqn:E.
  - intros H. destruct (IH H) as (k' & ? & ?). exists k'. split; [by apply list_elem_of_further|done].
  - intros [= <- <-]. bool_prop. exists k. split; [apply list_elem_of_here|done].
Qed.

(** The pending map once the held transport and its linked peer are entered. *)
Definition with_linked (m : gmap path pendingTransport) (linked : option pendingTransport) :=
  match linked with Some l => <[ptPath l := l]> m | None => m end.

Lemma pending_entered m held linked :
  keyed m -> m !! ptPath held = None ->
  match linked with Some l => <[ptPath held := held]> m !! ptPath l = None | None => True end ->
  let pending := with_linked (<[ptPath held := held]> m) linked in
  keyed pending /\ pending !! ptPath held = Some held /\
  pending_fds pending ≡ₚ (ptFD held :: match linked with Some l => [ptFD l] | None => [] end) ++ pending_fds m.
Proof.
  intros K H1 H2. cbv zeta. destruct linked as [l|]; cbn [with_linked].
  - assert (ptPath l <> ptPath held) as Hne by (intros E; rewrite E, lookup_insert_eq in H2; done).
    split_and!.
    + by apply map_Forall_insert_2; [|apply map_Forall_insert_2].
    + by rewrite lookup_insert_ne, lookup_insert_eq.
    + rewrite pending_fds_insert by done. rewrite pending_fds_insert by done. cbn. apply Permutation_swap.
  - split_and!; [by apply map_Forall_insert_2|by rewrite lookup_insert_eq|by rewrite pending_fds_insert].
Qed.

Lemma pending_taken pending held peer entries ok :
  keyed pending -> pending !! ptPath held = Some held -> entries ≡ₚ map_to_list pending ->
  find_peer held entries = Some (peer, ok) ->
  keyed (delete (ptPath peer) (delete (ptPath held) pending)) /\
  pending_fds pending ≡ₚ ptFD held :: ptFD peer :: pending_fds (delete (ptPath peer) (delete (ptPath held) pending)).
Proof.
  intros K Hh Hp (k & Hk & Hne & _)%find_peer_Some. rewrite Hp in Hk. apply elem_of_map_to_list in Hk.
  assert (ptPath peer = k) as <- by by apply K in Hk. split.
  - by apply map_Forall_delete, map_Forall_delete.
  - rewrite (pending_fds_delete _ _ _ Hh). constructor. apply pending_fds_delete. by rewrite lookup_delete_ne.
Qed.

Lemma acquire_hold_fds answer closed order b conn held linked b' next fds :
  (forall l, order l ≡ₚ l) -> keyed (bPending b) ->
  acquire_hold answer closed order b conn held linked = (b', next, fds) ->
  keyed (bPending b') /\
  (ptFD held :: match linked with Some l => [ptFD l] | None => [] end) ++ pending_fds (bPending b)
    ≡ₚ fds ++ pending_fds (bPending b') ++ fds_in next.
Proof.
  intros Ho K H. unfold acquire_hold in H.
  set (own := ptFD held :: _) in *. set (p := ptPath held) in *.
  assert (forall n, (release answer closed b [p], [] : list goroutine, own) = (b', n, fds) -> n = next ->
    keyed (bPending b') /\ own ++ pending_fds (bPending b) ≡ₚ fds ++ pending_fds (bPending b') ++ fds_in next) as HR.
  { intros n [= <- <- <-] <-. rewrite (q_pending _ _ (release_quiet answer closed b [p])).
    split; [done|]. by rewrite app_nil_r. }
  destruct (negb (same_generation b p _)); [by eapply HR|].
  destruct (negb _); [by eapply HR|].
  case_bool_decide as D1; [by eapply HR|].
  destruct (match linked with Some l => _ | None => false end) eqn:D2; [by eapply HR|].
  assert (bPending b !! p = None) as N1 by (by apply eq_None_not_Some).
  assert (match linked with Some l => <[p := held]> (bPending b) !! ptPath l = None | None => True end) as N2.
  { destruct linked as [l|]; [|done]. bool_prop. by apply eq_None_not_Some. }
  destruct (pending_entered _ _ _ K N1 N2) as (K1 & L1 & F1). fold p in K1, L1, F1. fold own in F1. cbv zeta in H.
  change (match linked with Some l => <[ptPath l := l]> _ | None => _ end)
    with (with_linked (<[p := held]> (bPending b)) linked) in H.
  set (pending := with_linked _ linked) in *.
  destruct (find_peer held (order (map_to_list pending))) as [[peer [|]]|] eqn:FP.
  - destruct (pending_taken _ _ _ _ _ K1 L1 (Ho _) FP) as [K2 F2]. fold p in K2, F2.
    destruct (negb (_ =? DirectionSink)); injection H as <- <- <-; (split; [exact K2|]);
      cbn [bPending fds_in app]; rewrite <- F1, F2;
      cbn; rewrite Permutation_app_comm; cbn; first [done | apply Permutation_swap].
  - destruct (pending_taken _ _ _ _ _ K1 L1 (Ho _) FP) as [K2 F2]. fold p in K2, F2. injection H as <- <- <-.
    unfold releasePendingTransports. rewrite (q_pending _ _ (release_quiet _ _ _ _)). split; [exact K2|].
    rewrite <- F1, F2. cbn. by rewrite app_nil_r.
  - injection H as <- <- <-. split; [exact K1|]. cbn. by rewrite app_nil_r, F1.
Qed.

Lemma with_cleanup_fds p peer next : fds_in (with_cleanup p peer next) = fds_in next.
Proof. by destruct next as [|[] [|? ?]]. Qed.

Lemma releaseActiveSession_rest answer closed b i : rest (releaseActiveSession answer closed b i) = rest b.
Proof.
  unfold releaseActiveSession. destruct (bSessions b !! i) as [s|]; [|done].
  pose proof (release_quiet answer closed b (sReleasePaths s)) as Q. unfold release in Q.
  destruct (releaseTransportPaths answer closed b (sReleasePaths s)) as [[[ok b1] log] fell].
  assert (rest b1 = rest b) as R by (destruct Q as [_ P H L]; unfold rest; by rewrite P, H, L).
  destruct ok; [unfold completeActiveSession; by rewrite clearActive_rest|]. unfold release_failed.
  destruct (current_session b1 i) as [s1|]; [|done].
  destruct (sRemoteIdleSeen s1); [by rewrite clearActive_rest|done].
Qed.

(** The books of one phase: what it opened and what was owned before is what it
    closed and what is owned afterwards. *)
Definition balanced (b : Broker) (g : goroutine) (o : outcome) : Prop :=
  keyed (bPending b) -> keyed (bPending (oBroker o)) /\
  oOpened o ++ pending_fds (bPending b) ++ fds_of g ≡ₚ
    oClosed o ++ pending_fds (bPending (oBroker o)) ++ fds_in (oNext o).

Lemma quiet_balanced b b' g next opened closed :
  bPending b' = bPending b -> opened ++ fds_of g ≡ₚ closed ++ fds_in next ->
  balanced b g (mkOutcome b' next opened closed).
Proof.
  intros P F K. cbn. rewrite P. split; [done|].
  rewrite !(Permutation_app_comm (pending_fds (bPending b))), !app_assoc. by rewrite F.
Qed.

Lemma acquire_try_balanced answer closed e b p conn cfg peer :
  (forall l, te_order e l ≡ₚ l) -> typed_reply e ->
  balanced b (GTry p conn cfg peer) (acquire_try answer closed e b p conn cfg peer).
Proof.
  intros Ho Ty. unfold typed_reply in Ty. unfold acquire_try. destruct (te_acquire e) as [err|fds|fd rm wm]; [by apply quiet_balanced|done|].
  assert (forall opened, balanced b (GTry p conn cfg peer)
            (mkOutcome (release answer closed b [p]) [GCleanup p (fst <$> peer)] opened opened)) as HR.
  { intros opened. apply quiet_balanced; [apply (q_pending _ _ (release_quiet answer closed b [p]))|done]. }
  assert (forall held linked opened,
    opened = ptFD held :: match linked with Some l => [ptFD l] | None => [] end ->
    balanced b (GTry p conn cfg peer)
      (let '(b, next, fds) := acquire_hold answer closed (te_order e) b conn held linked in
       mkOutcome b (with_cleanup p (fst <$> peer) next) opened fds)) as HF.
  { intros held linked opened -> K.
    destruct (acquire_hold answer closed (te_order e) b conn held linked) as [[b1 next] fds] eqn:E.
    destruct (acquire_hold_fds _ _ _ _ _ _ _ _ _ _ Ho K E) as [K1 F1]. cbn [oBroker oOpened oClosed oNext fds_of].
    split; [done|]. by rewrite with_cleanup_fds, app_nil_r. }
  destruct (result_bind _ _) as [[q links]|err]; [|apply HR].
  destruct peer as [[pp pcfg]|]; [|by apply HF].
  destruct (negb _); [apply HR|].
  destruct (result_bind _ _) as [[pq plinks]|err]; [|apply HR].
  destruct (negb _); [apply HR|]. destruct (te_dup e) as [pfd|err]; [by apply HF|apply HR].
Qed.

(** The descriptors of a reply that does not decode are nobody's: they are not closed, and no goroutine and no table has them. *)
Lemma garbled_reply_leaks answer closed e b p conn cfg peer fds :
  te_acquire e = Garbled fds ->
  let o := acquire_try answer closed e b p conn cfg peer in
  oOpened o = fds /\ oClosed o = [] /\ oBroker o = b /\ fds_in (oNext o) = [].
Proof. intros E. unfold acquire_try. by rewrite E. Qed.

Lemma nextGeneration_rest b clock r b' :
  nextDescriptorGenerationLocked b clock = (r, b') ->
  view b' = view b /\ bPending b' = bPending b /\ bHandoff b' = bHandoff b.
Proof. unfold nextDescriptorGenerationLocked. intros H. repeat split_match; by simplify_eq. Qed.

Lemma acquire_publish_balanced answer closed e b p peer conn sink source :
  balanced b (GCorrelate p peer conn sink source) (acquire_publish answer closed e b p peer conn sink source).
Proof.
  unfold acquire_publish. destruct (correlate b (pi_polls e)) as [token cor].
  assert (forall b1 ev, bPending b1 = bPending b -> ends_opened ev ≡ₚ ends_closed ev -> balanced b (GCorrelate p peer conn sink source)
    (mkOutcome (releasePendingTransports answer closed (clearPairingLocked b1 sink source) [sink; source])
               [GCleanup p peer] (ends_opened ev) (ends_closed ev ++ [ptFD sink; ptFD source]))) as HG.
  { intros b1 ev P Ev. apply quiet_balanced; [|cbn; by rewrite Ev, app_nil_r]. unfold releasePendingTransports.
    rewrite (q_pending _ _ (release_quiet _ _ _ _)), (q_pending _ _ (clearPairingLocked_quiet _ _ _)). done. }
  destruct (_ && _); [by apply (HG b [])|]. destruct (negb _); [by apply (HG b [])|].
  destruct (nextDescriptorGenerationLocked b (pi_clock1 e)) as [[g1|err] b1] eqn:E1;
    apply nextGeneration_rest in E1 as (_ & P1 & _); [|by apply (HG b1 [])].
  destruct (nextDescriptorGenerationLocked b1 (pi_clock2 e)) as [[g2|err] b2] eqn:E2;
    apply nextGeneration_rest in E2 as (_ & P2 & _); [|apply (HG b2 []); [congruence|done]].
  match goal with |- context [PublishPair ?a ?b ?c ?d ?e ?f] => pose proof (PublishPair_ends a b c d e f) as Ends;
    destruct (PublishPair a b c d e f) as [[[fd|err] h] ev] end; [|apply HG; [cbn; congruence|by rewrite Ends, app_nil_r]].
  apply quiet_balanced.
  - rewrite (q_pending _ _ (clearPairingLocked_quiet _ _ _)). cbn. congruence.
  - cbn. rewrite Ends, <- !app_assoc. apply Permutation_app_head, (Permutation_app_comm [fd] [ptFD sink; ptFD source]).
Qed.

Lemma runs_balanced b g o : runs b g o -> balanced b g o.
Proof.
  destruct 1 as [p|p links|a c e p conn cfg peer Ho Ty|a c e p peer conn sink source _|p peer|a c p gen
                |a c i|i s _ _|i went b' H|i fd op op' b' next H|i fd op _].
  - by apply quiet_balanced; [|destruct (acquire_target b p)].
  - unfold acquire_reserve. repeat split_match; simplify_eq; by apply quiet_balanced.
  - by apply acquire_try_balanced.
  - apply acquire_publish_balanced.
  - by apply quiet_balanced.
  - unfold expirePending. destruct (bPending b !! p) as [held|] eqn:E; [|by apply quiet_balanced].
    destruct (_ =? gen); [|by apply quiet_balanced]. intros K. cbn. unfold releasePendingTransports.
    rewrite (q_pending _ _ (release_quiet _ _ _ _)). cbn. rewrite !app_nil_r.
    split; [by apply map_Forall_delete|by apply pending_fds_delete].
  - pose proof (releaseActiveSession_rest a c b i) as R. injection R as P _ _. by apply quiet_balanced.
  - by apply quiet_balanced.
  - pose proof (force_rest b i) as R. rewrite H in R. injection R as P _ _. apply quiet_balanced; [done|].
    by destruct went.
  - pose proof (watch_op_rest _ _ _ _ H) as R. injection R as P _ _. apply quiet_balanced; [done|].
    by destruct H.
  - by apply quiet_balanced.
Qed.

(** An invariant of the initial configuration and of every step. *)
Lemma reachable_invariant (I : config -> Prop) b c :
  I (initial b) -> (forall c c', I c -> step c c' -> I c') -> reachable b c -> I c.
Proof.
  intros H0 HS HR. revert H0. unfold reachable in HR.
  induction HR as [c|c1 c2 c3 H1 _ IH]; [done|]. intros H0. by eapply IH, HS.
Qed.

(** ** Descriptors are closed exactly once *)
Record books (c : config) : Prop := {
  bk_keyed : keyed (bPending (cBroker c));
  bk_open : exists open, cOpen c = Some open /\ NoDup open /\ open ≡ₚ owned (cBroker c) (cThreads c)
}.

Lemma fds_in_app l r : fds_in (l ++ r) = fds_in l ++ fds_in r.
Proof. unfold fds_in. apply bind_app. Qed.

Lemma kernel_settles open opened closed after :
  NoDup (opened ++ open) -> opened ++ open ≡ₚ closed ++ after ->
  exists open', kernel (Some open) opened closed = Some open' /\ NoDup open' /\ open' ≡ₚ after.
Proof.
  intros ND H. destruct (close_fds_perm closed (opened ++ open) after H) as (o & E & P).
  exists o. split_and!; [done| |done]. rewrite P. rewrite H in ND. by apply NoDup_app in ND as (_ & _ & ?).
Qed.

Lemma event_no_fds b b' next closed : event b b' next closed -> fds_in next = [].
Proof.
  destruct 1 as [| | | | | | | | |sg b' p H|b' i H|rd ac b' nx H| |]; try done; [by destruct p|by destruct i|].
  unfold handoff_poll in H. destruct (handoff_turn _ _ _) as [h ev].
  destruct (existsb _ _); [|by injection H as _ <-].
  destruct (requestActiveSessionRelease _) as [i b2]. injection H as _ <-. by destruct i.
Qed.

Lemma step_books c c' : books c -> step c c' -> books c'.
Proof.
  intros [K (open & E & ND & P)] H. destruct H as [b l g r open0 rel o HR HF|b b' ts open0 rel next cl HE]; cbn in *; subst open0.
  - destruct (runs_balanced _ _ _ HR K) as [K' B]. split; [done|]. cbn in *. unfold owned in *.
    apply kernel_settles; [done|]. rewrite P. rewrite !fds_in_app in *. cbn.
    rewrite (Permutation_app_comm (fds_in l)), <- !app_assoc in *.
    transitivity ((oOpened o ++ pending_fds (bPending b) ++ fds_of g) ++ fds_in r ++ fds_in l).
    + by rewrite <- !app_assoc.
    + rewrite B, <- !app_assoc. apply Permutation_app_head, Permutation_app_head.
      rewrite (app_assoc (fds_in (oNext o))). apply Permutation_app_comm.
  - assert (fds_in next = []) as N by by eapply event_no_fds.
    apply event_effect in HE as [_ HK HF _]. split; [by apply HK|]. unfold owned in *.
    apply (kernel_settles open []); [done|]. cbn [app cBroker cThreads]. by rewrite P, HF, fds_in_app, N, app_nil_r, <- app_assoc.
Qed.

(** What [NewBroker] returns, as the invariants need it. *)
Lemma NewBroker_initial adapter device socket uid logger b :
  NewBroker adapter device socket uid logger = Ok b ->
  bPending b = ∅ /\ view b = (None, ∅) /\ bLastGen b = 0 /\
  hs_lastGen (bHandoff b) = [0; 0; 0] /\ hs_lastBundle (bHandoff b) = 0.
Proof.
  unfold NewBroker. destruct (_ || _); [done|]. unfold NewHandoffServer. destruct (_ || _); [done|].
  cbn. intros H. apply Ok_inj in H. by subst b.
Qed.

(** C1.  Descriptor safety of the broker, over every interleaving of its
    goroutines with the events of BlueZ, Asterisk and the operator, as long as BlueZ
    answers [TryAcquire] with the types of its interface: no transport, lifecycle
    or socketpair descriptor is ever closed while it is not open (so never twice), and
    the descriptors open at any time are exactly those of the pending transports
    and of the goroutines still working on them, each owned once (so none leaks). *)
Theorem descriptors_never_leak adapter device socket uid b c :
  NewBroker adapter device socket uid true = Ok b -> reachable b c ->
  exists open, cOpen c = Some open /\ NoDup open /\ open ≡ₚ owned (cBroker c) (cThreads c).
Proof.
  intros HB HR. enough (books c) as [_ ?] by done.
  eapply reachable_invariant; [|apply step_books|exact HR].
  apply NewBroker_initial in HB as (P & _). split; cbn.
  - rewrite P. apply map_Forall_empty.
  - exists []. split_and!; [done|constructor|]. unfold owned. by rewrite P.
Qed.

(** ** Sessions are attended, and released once *)

(** Every phase of the active session has the goroutine that ends it. *)
Record attended (v : sview) (ts : list goroutine) : Prop := {
  at_valid : forall i, v.1 = Some i -> is_Some (v.2 !! i);
  at_live : forall i s, v.1 = Some i -> v.2 !! i = Some s -> sLifecycleDone s = false;
  at_releasing : forall i s, v.1 = Some i -> v.2 !! i = Some s -> sReleasing s = true -> GRelease i ∈ ts;
  at_watched : forall i s, v.1 = Some i -> v.2 !! i = Some s -> sReleasing s = false -> sReleaseExhausted s = false ->
    (exists fd op, GWatch i fd op ∈ ts) /\ (sNormalWaitStarted s = true -> GWaitNormal i ∈ ts)
}.

(** No session was released twice, and one that was released is not open. *)
Record released_once (v : sview) (rel : list nat) : Prop := {
  ro_once : NoDup rel;
  ro_closed : forall i, i ∈ rel -> exists s, v.2 !! i = Some s /\
    (v.1 = Some i -> sReleasing s || sReleaseExhausted s = true)
}.

Lemma attended_weaken v ts ts' : (forall g, g ∈ ts -> g ∈ ts') -> attended v ts -> attended v ts'.
Proof.
  intros Hs [A B C D]. split; auto.
  - intros i s H1 H2 H3. eauto.
  - intros i s H1 H2 H3 H4. destruct (D i s H1 H2 H3 H4) as [(fd & op & ?) ?]. split; eauto.
Qed.

Lemma attended_move v v' n ts : attended v ts -> move v v' n -> attended v' (n ++ ts).
Proof.
  intros [A B C D] M.
  assert (forall i m (s s' : session), v = (Some i, m) -> m !! i = Some s -> sLifecycleDone s' = sLifecycleDone s ->
    (sReleasing s' = true -> GRelease i ∈ n ++ ts) ->
    (sReleasing s' = false -> sReleaseExhausted s' = false ->
       (exists fd op, GWatch i fd op ∈ n ++ ts) /\ (sNormalWaitStarted s' = true -> GWaitNormal i ∈ n ++ ts)) ->
    attended (Some i, <[i := s']> m) (n ++ ts)) as HS.
  { intros i m s s' -> L E1 E2 E3. split; cbn in *.
    - intros j [= <-]. by rewrite lookup_insert_eq.
    - intros j t [= <-]. rewrite lookup_insert_eq. intros [= <-]. rewrite E1. by eapply (B i).
    - intros j t [= <-]. rewrite lookup_insert_eq. intros [= <-]. auto.
    - intros j t [= <-]. rewrite lookup_insert_eq. intros [= <-]. auto. }
  destruct M as [i m s s' L [P1 P2 P3 P4 P5]|i m s L R X|i m s L R X|i m s L|i m s L|i m L].
  - apply (HS i m s _ eq_refl L P1); rewrite ?P2, ?P3, ?P4; cbn; [by apply (C i)|by apply (D i)].
  - apply (HS i m s (s <| sReleasing := true |>)); cbn; try done. intros _. apply list_elem_of_here.
  - apply (HS i m s (s <| sNormalWaitStarted := true |>)); cbn; rewrite ?R; try done. intros _ _. destruct (D i s eq_refl L R X) as [(fd & op & W) _].
    split; [exists fd, op; by apply list_elem_of_further|]. intros _. apply list_elem_of_here.
  - by apply (HS i m s (s <| sReleasing := false |> <| sReleaseExhausted := true |>)).
  - split; done.
  - split; done.
Qed.

Lemma attended_moves v v' n ts : moves v v' n -> attended v ts -> attended v' (n ++ ts).
Proof.
  intros M. revert ts. induction M as [v|v1 v2 v3 n1 n2 M1 M2 IH]; intros ts H; [done|].
  eapply attended_weaken; [|apply IH, (attended_move _ _ _ _ H M1)]. intros g. rewrite !elem_of_app. tauto.
Qed.

Lemma released_move v v' n rel : released_once v rel -> move v v' n -> released_once v' (rel ++ releases n).
Proof.
  intros [N R] M.
  assert (forall i m (s s' : session), v = (Some i, m) -> m !! i = Some s ->
    (sReleasing s || sReleaseExhausted s = true -> sReleasing s' || sReleaseExhausted s' = true) ->
    released_once (Some i, <[i := s']> m) rel) as HS.
  { intros i m s s' -> L E. split; [done|]. intros j Hj. destruct (R j Hj) as (t & Lt & Ht). cbn in *.
    destruct (decide (i = j)) as [<-|Hne].
    - exists s'. rewrite lookup_insert_eq. split; [done|]. intros _. apply E. rewrite L in Lt. injection Lt as ->. auto.
    - exists t. rewrite lookup_insert_ne by done. split; [done|]. congruence. }
  destruct M as [i m s s' L [P1 P2 P3 P4 P5]|i m s L R1 X|i m s L R1 X|i m s L|i m s L|i m L];
    cbn [releases omap list_omap]; rewrite ?app_nil_r.
  - eapply HS; eauto. by rewrite P2, P3.
  - assert (released_once (Some i, <[i := s <| sReleasing := true |>]> m) rel) as [_ R'] by by apply (HS i m s). split.
    + apply NoDup_app. split_and!; [done| |apply NoDup_singleton]. intros j Hj ->%list_elem_of_singleton.
      destruct (R i Hj) as (t & Lt & Ht). cbn in *. rewrite L in Lt. injection Lt as ->.
      specialize (Ht eq_refl). by rewrite R1, X in Ht.
    + intros j Hj. apply elem_of_app in Hj as [Hj| ->%list_elem_of_singleton]; [by apply R'|].
      eexists. cbn. by rewrite lookup_insert_eq.
  - eapply HS; eauto.
  - eapply HS; eauto.
  - split; [done|]. intros j Hj. destruct (R j Hj) as (t & Lt & _). cbn in *.
    destruct (decide (i = j)) as [<-|Hne]; [rewrite lookup_insert_eq|rewrite lookup_insert_ne by done];
      by eexists.
  - split; [done|]. intros j Hj. destruct (R j Hj) as (t & Lt & _). by exists t.
Qed.

Lemma releases_app n1 n2 : releases (n1 ++ n2) = releases n1 ++ releases n2.
Proof. apply omap_app. Qed.

Lemma released_moves v v' n rel : moves v v' n -> released_once v rel -> released_once v' (rel ++ releases n).
Proof.
  intros M. revert rel. induction M as [v|v1 v2 v3 n1 n2 M1 M2 IH]; intros rel H; [by rewrite app_nil_r|].
  rewrite releases_app, app_assoc. apply IH. by eapply released_move.
Qed.

(** When the goroutine [g] is replaced by [next], nothing is left waiting for it. *)
Definition leaves (g : goroutine) (b : Broker) (next : list goroutine) : Prop :=
  match g with
  | GRelease i => forall s, current_session b i = Some s -> sReleasing s = false
  | GWaitNormal i => forall s, open_session b i = Some s -> sNormalWaitStarted s = false
  | GWatch i _ _ => open_session b i = None \/ exists fd op, GWatch i fd op ∈ next
  | _ => True
  end.

Lemma attended_leaves b g l r sp next :
  attended (view b) (sp ++ l ++ g :: r) -> (forall x, x ∈ sp -> x ∈ next) -> leaves g b next ->
  attended (view b) (l ++ next ++ r).
Proof.
  intros [A B C D] Hsp HL.
  assert (forall x, x ∈ sp ++ l ++ g :: r -> x = g \/ x ∈ l ++ next ++ r) as Hin.
  { intros x. rewrite !elem_of_app, elem_of_cons. intros [?|[?|[?|?]]]; auto. }
  split; [exact A|exact B|..]; intros i s Hi Hs.
  - intros R. destruct (Hin _ (C i s Hi Hs R)) as [<-|]; [|done]. exfalso. cbn in Hi, Hs, HL.
    specialize (HL s). unfold current_session in HL. rewrite bool_decide_true in HL by done.
    by rewrite HL in R.
  - intros R X. destruct (D i s Hi Hs R X) as [(fd & op & W) T].
    assert (open_session b i = Some s) as O by by apply open_session_Some.
    split.
    + destruct (Hin _ W) as [<-|]; [|by exists fd, op]. cbn in HL. destruct HL as [HN|(fd' & op' & Hn)]; [congruence|].
      exists fd', op'. rewrite !elem_of_app. auto.
    + intros HW. destruct (Hin _ (T HW)) as [<-|]; [|done]. exfalso. cbn in HL. specialize (HL s O). congruence.
Qed.

(** A goroutine either moves the active session or installs a fresh one. *)
Record installs (b : Broker) (o : outcome) (i : nat) (s : session) : Prop := {
  in_fresh : bSessions b !! i = None;
  in_view : view (oBroker o) = (Some i, <[i := s]> (bSessions b));
  in_phase : sLifecycleDone s = false /\ sReleasing s = false /\ sReleaseExhausted s = false /\
    sNormalWaitStarted s = false;
  in_watched : exists fd op, GWatch i fd op ∈ oNext o;
  in_releases : releases (oNext o) = []
}.
Definition moves_on (b : Broker) (g : goroutine) (o : outcome) : Prop :=
  exists sp, moves (view b) (view (oBroker o)) sp /\ (forall x, x ∈ sp -> x ∈ oNext o) /\
    releases (oNext o) = releases sp /\ leaves g (oBroker o) (oNext o).

Lemma quiet_moves_on b g o :
  view (oBroker o) = view b -> releases (oNext o) = [] -> leaves g (oBroker o) (oNext o) -> moves_on b g o.
Proof.
  intros V R L. exists []. split_and!; [rewrite V; apply mvs_nil|by intros x ?%elem_of_nil|done|done].
Qed.

(** What the phases of [acquire] before publication leave unchanged. *)
Definition kept (b : Broker) := (view b, bHandoff b, bLastGen b).
Lemma quiet_kept b b' : quiet b b' -> kept b' = kept b.
Proof. intros [V _ H L]. unfold kept. by rewrite V, H, L. Qed.

Lemma acquire_hold_kept answer closed order b conn held linked b' next fds :
  acquire_hold answer closed order b conn held linked = (b', next, fds) -> kept b' = kept b /\ releases next = [].
Proof.
  unfold acquire_hold, releasePendingTransports. intros H.
  repeat first [progress simplify_eq | split_match];
    rewrite ?(quiet_kept _ _ (release_quiet _ _ _ _)); done.
Qed.

Lemma acquire_try_kept answer closed e b p conn cfg peer :
  let o := acquire_try answer closed e b p conn cfg peer in
  kept (oBroker o) = kept b /\ releases (oNext o) = [].
Proof.
  cbv zeta. unfold acquire_try. destruct (te_acquire e) as [err|fds|fd rm wm]; [done|done|].
  assert (forall held linked opened,
    let o := (let '(b, next, fds) := acquire_hold answer closed (te_order e) b conn held linked in
              mkOutcome b (with_cleanup p (fst <$> peer) next) opened fds) in
    kept (oBroker o) = kept b /\ releases (oNext o) = []) as HF.
  { intros held linked opened.
    destruct (acquire_hold answer closed (te_order e) b conn held linked) as [[b1 next] fds] eqn:E.
    apply acquire_hold_kept in E as [V R]. cbn [oBroker oNext]. split; [done|]. by destruct next as [|[] [|? ?]]. }
  pose proof (quiet_kept _ _ (release_quiet answer closed b [p])) as VR.
  destruct (result_bind _ _) as [[q links]|err]; [|done].
  destruct peer as [[pp pcfg]|]; [|apply HF].
  destruct (negb _); [done|]. destruct (result_bind _ _) as [[pq plinks]|err]; [|done].
  destruct (negb _); [done|]. destruct (te_dup e) as [pfd|err]; [apply HF|done].
Qed.

(** ** Generations *)

(** Everything handed to Asterisk so far is bounded by the last generation, and
    the bundle of a session names it. *)
Record gens_ok (b : Broker) : Prop := {
  go_range : 0 <= bLastGen b;
  go_len : length (hs_lastGen (bHandoff b)) = 3%nat;
  go_hist : gen_of (bHandoff b) DirectionSink <= bLastGen b /\
    gen_of (bHandoff b) DirectionSource <= bLastGen b /\ hs_lastBundle (bHandoff b) <= bLastGen b;
  go_sessions : forall i s, bSessions b !! i = Some s -> 0 < sBundleID s <= bLastGen b;
  go_unique : forall i j s t, bSessions b !! i = Some s -> bSessions b !! j = Some t ->
    sBundleID s = sBundleID t -> i = j
}.

Lemma nextGeneration_spec b clock r b' :
  nextDescriptorGenerationLocked b clock = (r, b') ->
  view b' = view b /\ bHandoff b' = bHandoff b /\
  match r with Ok g => bLastGen b < g /\ bLastGen b' = g | Error _ => b' = b end.
Proof.
  unfold nextDescriptorGenerationLocked. intros H.
  repeat split_match; simplify_eq; split_and!; try done; bool_prop; cbn; lia.
Qed.

Lemma gens_later b b' :
  gens_ok b -> bSessions b' = bSessions b -> same_history (bHandoff b) (bHandoff b') -> bLastGen b <= bLastGen b' ->
  gens_ok b'.
Proof.
  intros [R L (H1 & H2 & H3) S U] ES [HG HB] HL. unfold gen_of in *. split; rewrite ?ES, ?HG, ?HB; auto.
  - lia.
  - unfold gen_of. rewrite HG. lia.
  - intros i s Hs. specialize (S i s Hs). lia.
Qed.

(** [acquire] either installs one new session whose identity is new, or leaves
    the sessions alone; generations only grow. *)
(** A session whose bundle no other has. *)
Lemma bundle_insert (m : gmap nat session) address s :
  (forall j t, m !! j = Some t -> sBundleID t <> sBundleID s) ->
  (forall i j t u, m !! i = Some t -> m !! j = Some u -> sBundleID t = sBundleID u -> i = j) ->
  forall i j t u, <[address := s]> m !! i = Some t -> <[address := s]> m !! j = Some u -> sBundleID t = sBundleID u -> i = j.
Proof.
  intros Hnew Un i j t u. destruct (decide (address = i)) as [<-|Hi], (decide (address = j)) as [<-|Hj];
    rewrite ?lookup_insert_eq, ?lookup_insert_ne by done; [done| | |apply Un].
  - intros [= <-] Hu E. by destruct (Hnew _ _ Hu).
  - intros Ht [= <-] E. by destruct (Hnew _ _ Ht).
Qed.
(** What publishing may do to the sessions: nothing, or install one. *)
Definition publishes b address (o : outcome) : Prop :=
  gens_ok (oBroker o) /\ (view (oBroker o) = view b /\ releases (oNext o) = [] \/ exists s, installs b o address s).
Lemma publish_abandoned answer closed address b b1 p peer sink source opened fds :
  gens_ok b1 -> view b1 = view b ->
  publishes b address (mkOutcome (releasePendingTransports answer closed (clearPairingLocked b1 sink source) [sink; source])
    [GCleanup p peer] opened fds).
Proof.
  intros G1 V1. unfold publishes. cbn. unfold releasePendingTransports.
  set (b2 := release _ _ _ _). assert (quiet b1 b2) as [V P H L].
  { eapply quiet_trans; [apply clearPairingLocked_quiet|apply release_quiet]. }
  split; [|left; split; [congruence|done]]. apply (gens_later b1); auto; [by injection V|by rewrite H|by rewrite L].
Qed.
Lemma acquire_publish_spec answer closed e b p peer conn sink source :
  bSessions b !! pi_address e = None -> gens_ok b ->
  publishes b (pi_address e) (acquire_publish answer closed e b p peer conn sink source).
Proof.
  intros HF G. unfold acquire_publish. destruct (correlate b (pi_polls e)) as [token cor].
  destruct (_ && _); [by apply publish_abandoned|]. destruct (negb _); [by apply publish_abandoned|].
  destruct (nextDescriptorGenerationLocked b (pi_clock1 e)) as [[g1|err] b1] eqn:E1;
    apply nextGeneration_spec in E1 as (V1 & H1 & N1); [|subst b1; by apply publish_abandoned].
  destruct (nextDescriptorGenerationLocked b1 (pi_clock2 e)) as [[g2|err] b2] eqn:E2;
    apply nextGeneration_spec in E2 as (V2 & H2 & N2).
  2:{ subst b2. apply publish_abandoned; [|done]. apply (gens_later b); auto; [by injection V1|by rewrite H1|lia]. }
  assert (gens_ok b2) as G2.
  { apply (gens_later b); auto; [injection V1; injection V2; congruence|by rewrite H2, H1|lia]. }
  set (sinkD := descriptorForPending sink g1 g1 token cor). set (sourceD := descriptorForPending source g2 g1 token cor).
  pose proof (PublishPair_history (bHandoff b2) (pi_publish e) (ptFD sink) sinkD (ptFD source) sourceD) as PH.
  destruct (PublishPair _ _ _ _ _ _) as [[[fd|err] h] ev].
  2:{ apply publish_abandoned; [|change (view b2 = view b); congruence]. by apply (gens_later b2). }
  destruct PH as (P1 & P2 & P3 & ->). cbn in P1, P2, P3.
  set (s := activeSessionForHandoff conn sink source sinkD sourceD fd (pi_now e)).
  set (b3 := put_session _ (pi_address e) s).
  pose proof (clearPairingLocked_quiet b3 sink source) as [V P H L]. unfold publishes. cbn [oBroker oNext].
  assert (bSessions b2 = bSessions b) as ES by (injection V1; injection V2; congruence).
  split.
  - destruct G2 as [R Ln (Q1 & Q2 & Q3) S U]. rewrite ES in S, U.
    split; rewrite ?L, ?H; injection V as _ VS; rewrite ?VS; cbn; rewrite ?ES, ?length_insert; auto.
    + unfold gen_of, hs_published, at_. cbn. destruct (hs_lastGen (bHandoff b2)) as [|x [|y [|z [|]]]]; try done.
      change (g1 <= bLastGen b2 /\ g2 <= bLastGen b2 /\ g1 <= bLastGen b2). lia.
    + intros i t. destruct (decide (pi_address e = i)) as [<-|Hne].
      * rewrite lookup_insert_eq. intros [= <-]. pose proof (go_range _ G). cbn. lia.
      * rewrite lookup_insert_ne by done. apply S.
    + apply bundle_insert; [|exact U]. intros j t Ht. pose proof (go_sessions _ G j t Ht). cbn. lia.
  - right. exists s. split; [done| |done| |done].
    + cbn [oBroker]. rewrite V. unfold view. cbn. by rewrite ES.
    + exists fd, (0 <=? fd). cbn. apply list_elem_of_further, list_elem_of_here.
Qed.

Lemma moves_bundles v v' n i : moves v v' n -> sBundleID <$> v'.2 !! i = sBundleID <$> v.2 !! i.
Proof.
  induction 1 as [v|v1 v2 v3 n1 n2 M1 M2 IH]; [done|]. rewrite IH. clear M2 IH.
  assert (forall (j : nat) (m : gmap nat session) (s s' : session), m !! j = Some s -> sBundleID s' = sBundleID s ->
    sBundleID <$> <[j := s']> m !! i = sBundleID <$> m !! i) as HS.
  { intros j m s s' L E. destruct (decide (j = i)) as [<-|Hne].
    - rewrite lookup_insert_eq, L. cbn. by rewrite E.
    - by rewrite lookup_insert_ne. }
  destruct M1 as [j m s s' L [_ _ _ _ P]|j m s L _ _|j m s L _ _|j m s L|j m s L|j m L]; cbn; by eapply HS || done.
Qed.

Lemma gens_moved b b' n :
  gens_ok b -> moves (view b) (view b') n -> bLastGen b' = bLastGen b -> same_history (bHandoff b) (bHandoff b') ->
  gens_ok b'.
Proof.
  intros [R L Q S U] M EL [HG HB].
  assert (forall i s, bSessions b' !! i = Some s -> exists t, bSessions b !! i = Some t /\ sBundleID t = sBundleID s) as HS.
  { intros i s Hs. pose proof (moves_bundles _ _ _ i M) as E. cbn in E. rewrite Hs in E. cbn in E.
    destruct (bSessions b !! i) as [t|]; [|done]. injection E as E. by exists t. }
  split; rewrite ?EL, ?HG, ?HB; auto.
  - unfold gen_of in *. by rewrite HG.
  - intros i s Hs. destruct (HS i s Hs) as (t & Ht & <-). by eapply S.
  - intros i j s t Hi Hj E. destruct (HS i s Hi) as (s' & Hs' & Es), (HS j t Hj) as (t' & Ht' & Et).
    eapply U; eauto. congruence.
Qed.

(** ** The invariant of the sessions *)
Record sound (c : config) : Prop := {
  so_attended : attended (view (cBroker c)) (cThreads c);
  so_released : released_once (view (cBroker c)) (cReleased c);
  so_gens : gens_ok (cBroker c)
}.

Lemma rest_gens b b' n : gens_ok b -> moves (view b) (view b') n -> rest b' = rest b -> gens_ok b'.
Proof. intros G M [= _ L H]. eapply gens_moved; eauto. by rewrite H. Qed.

Lemma runs_sessions b g o :
  runs b g o -> gens_ok b ->
  (forall i s, bActiveSession b = Some i -> bSessions b !! i = Some s -> sLifecycleDone s = false) ->
  gens_ok (oBroker o) /\ (moves_on b g o \/ exists i s, installs b o i s).
Proof.
  intros H G HD. destruct H as [p|p links|a c e p conn cfg peer Ho Ty|a c e p peer conn sink source HF|p peer|a c p gen
    |a c i|i s Hs Hdone|i went b' H|i fd op op' b' next H|i fd op H].
  - split; [done|]. left. apply quiet_moves_on; [done| |done]. cbn. by destruct (acquire_target b p).
  - assert (quiet b (oBroker (acquire_reserve b p links)) /\ releases (oNext (acquire_reserve b p links)) = []) as [Q R]
      by (unfold acquire_reserve; repeat split_match; done).
    split; [|left; by apply quiet_moves_on; [apply Q| |]].
    eapply rest_gens; [done|by apply quiet_moves|]. destruct Q as [_ P H L]. unfold rest. by rewrite P, H, L.
  - destruct (acquire_try_kept a c e b p conn cfg peer) as [V R]. injection V as VA VS H L.
    assert (view (oBroker (acquire_try a c e b p conn cfg peer)) = view b) as V by (unfold view; by rewrite VA, VS).
    split; [|left; by apply quiet_moves_on]. apply (gens_later b); auto; [by rewrite H|by rewrite L].
  - destruct (acquire_publish_spec a c e b p peer conn sink source HF G) as [G' [[V R]|(s & I)]].
    + split; [done|]. left. by apply quiet_moves_on.
    + split; [done|]. right. eauto.
  - split; [by apply (gens_later b)|]. left. by apply quiet_moves_on.
  - unfold expirePending. destruct (bPending b !! p) as [held|]; [|split; [done|left; by apply quiet_moves_on]].
    destruct (_ =? gen); [|split; [done|left; by apply quiet_moves_on]]. unfold releasePendingTransports.
    set (b1 := b <| bPending := delete p (bPending b) |>). cbn [oBroker]. destruct (release_quiet a c b1 (pendingReleasePaths (map Some [held]))) as [V P H L].
    split; [|left; apply quiet_moves_on; cbn; auto; by rewrite V].
    apply (gens_later b); auto; [by injection V|by rewrite H|by rewrite L].
  - destruct (releaseActiveSession_moves a c b i) as [M HL]. pose proof (releaseActiveSession_rest a c b i) as R.
    split; [by eapply rest_gens|]. left. exists []. split_and!; auto.
  - split; [done|]. left. apply quiet_moves_on; [done|done|]. cbn. intros t Ht. apply open_session_Some in Ht as (A & L & _).
    rewrite L in Hs. injection Hs as ->. specialize (HD _ _ A L). congruence.
  - pose proof (force_moves _ _ _ _ H) as M. pose proof (force_rest b i) as R. rewrite H in R. cbn in R.
    split; [by eapply rest_gens|]. left. exists (if went then [GRelease i] else []). split_and!; auto.
    cbn. unfold forceNormalReleaseTimeout in H. destruct (open_session b i) as [s|] eqn:O.
    + destruct (sNormalWaitStarted s) eqn:W; injection H as <- <-; intros t Ht; [|congruence].
      rewrite open_session_bump, (open_session_put _ _ _ _ O) in Ht. done.
    + injection H as <- <-. intros t Ht. congruence.
  - pose proof (watch_op_moves _ _ _ _ H) as M. pose proof (watch_op_rest _ _ _ _ H) as R.
    split; [by eapply rest_gens|]. left. exists next. split_and!; auto.
    + intros x Hx. by apply list_elem_of_further.
    + right. exists fd, op'. apply list_elem_of_here.
  - split; [done|]. left. apply quiet_moves_on; [done|done|]. by left.
Qed.

Lemma installs_attended b o i s l r : installs b o i s -> attended (view (oBroker o)) (l ++ oNext o ++ r).
Proof.
  intros [_ V (D & R & X & W) (fd & op & Hw) _]. rewrite V. split; cbn.
  - intros j [= <-]. by rewrite lookup_insert_eq.
  - intros j t [= <-]. rewrite lookup_insert_eq. by intros [= <-].
  - intros j t [= <-]. rewrite lookup_insert_eq. intros [= <-]. congruence.
  - intros j t [= <-]. rewrite lookup_insert_eq. intros [= <-] _ _.
    split; [|congruence]. exists fd, op. rewrite !elem_of_app. auto.
Qed.

Lemma installs_released b o i s rel :
  installs b o i s -> released_once (view b) rel -> released_once (view (oBroker o)) (rel ++ releases (oNext o)).
Proof.
  intros [F V _ _ ->] [N R]. rewrite V, app_nil_r. split; [done|]. intros j Hj.
  destruct (R j Hj) as (t & Lt & _). cbn in *. assert (i <> j) as Hne by congruence.
  exists t. rewrite lookup_insert_ne by done. split; [done|]. congruence.
Qed.

Lemma event_watchers b b' next closed : event b b' next closed -> releases next = releases (watchers next).
Proof. intros _. induction next as [|g next IH]; [done|]. destruct g; first [exact IH | exact (f_equal (cons _) IH)]. Qed.

Lemma step_sound c c' : sound c -> step c c' -> sound c'.
Proof.
  intros [A R G] H. destruct H as [b l g r open rel o HR HF|b b' ts open rel next cl HE]; cbn in *.
  - destruct (runs_sessions b g o HR G ltac:(intros i s; apply (at_live _ _ A))) as [G' [(sp & M & Hsp & Er & HL)|(i & s & HI)]].
    + split; cbn; [|rewrite Er; by eapply released_moves|done].
      eapply attended_leaves; [|exact Hsp|exact HL]. exact (attended_moves _ _ _ _ M A).
    + split; cbn; [by eapply installs_attended|by eapply installs_released|done].
  - rewrite (event_watchers _ _ _ _ HE). apply event_effect in HE as [M _ _ [HL HH]].
    split; cbn; [|by eapply released_moves|by eapply gens_moved].
    eapply attended_weaken; [|exact (attended_moves _ _ _ ts M A)].
    intros g. rewrite !elem_of_app. unfold watchers. rewrite list_elem_of_In, filter_In, <- list_elem_of_In. tauto.
Qed.

Lemma initial_sound adapter device socket uid b :
  NewBroker adapter device socket uid true = Ok b -> sound (initial b).
Proof.
  intros (_ & V & L & HG & HB)%NewBroker_initial. injection V as VA VS.
  split; cbn [initial cBroker cThreads cReleased].
  - unfold view. rewrite VA, VS. by split.
  - split; [constructor|by intros i ?%elem_of_nil].
  - split; rewrite ?L, ?HG, ?HB, ?VS; try done. unfold gen_of. by rewrite HG.
Qed.

(** C6.  A session is given back to BlueZ at most once: over every interleaving,
    [releaseActiveSession] starts at most once for each session, whichever of the
    lease, the socket, the bearer, the hand-off peer or the timeout asked for it, and
    at most one goroutine is releasing it. *)
Theorem session_released_once adapter device socket uid b c :
  NewBroker adapter device socket uid true = Ok b -> reachable b c ->
  NoDup (cReleased c) /\
  (forall i, i ∈ cReleased c -> open_session (cBroker c) i = None) /\
  (forall i b', requestSpecificSessionRelease (cBroker c) i = (true, b') -> i ∉ cReleased c).
Proof.
  intros HB HR. assert (sound c) as [_ [N R] _]
    by (eapply reachable_invariant; [by eapply initial_sound|apply step_sound|exact HR]).
  assert (forall i, i ∈ cReleased c -> open_session (cBroker c) i = None) as HC.
  { intros i Hi. destruct (R i Hi) as (s & L & Hs). destruct (open_session (cBroker c) i) as [t|] eqn:O; [|done].
    apply open_session_Some in O as (A & Lt & R1 & X). cbn in L. rewrite L in Lt. injection Lt as ->.
    specialize (Hs A). by rewrite R1, X in Hs. }
  split_and!; [done|done|]. intros i b' H Hi. unfold requestSpecificSessionRelease in H. by rewrite (HC i Hi) in H.
Qed.

(** C7.  A session handed to Asterisk is never abandoned: in every reachable
    configuration the active session is either being released by a running
    goroutine, or it is watched and, if its normal release was begun, the timer
    that forces the release is running; or its three release attempts and the
    closing of the connection all failed. *)
Theorem active_session_attended adapter device socket uid b c i :
  NewBroker adapter device socket uid true = Ok b -> reachable b c -> bActiveSession (cBroker c) = Some i ->
  exists s, bSessions (cBroker c) !! i = Some s /\ sLifecycleDone s = false /\
    (sReleaseExhausted s = true \/
     sReleasing s = true /\ GRelease i ∈ cThreads c \/
     (exists fd op, GWatch i fd op ∈ cThreads c) /\
       (sNormalWaitStarted s = true -> GWaitNormal i ∈ cThreads c)).
Proof.
  intros HB HR HA. assert (sound c) as [[A B C D] _ _]
    by (eapply reachable_invariant; [by eapply initial_sound|apply step_sound|exact HR]).
  destruct (A i HA) as [s Hs]. exists s. split; [done|]. split; [by eapply B|].
  destruct (sReleaseExhausted s) eqn:X; [by left|right].
  destruct (sReleasing s) eqn:R; [left; split; [done|by eapply C]|right; by eapply D].
Qed.

(** C17.  Generations: whatever CLOCK_BOOTTIME returns, the sink and source
    generations drawn for a new pair exceed everything Asterisk was ever given, so
    the anti-replay check of the hand-off never refuses the broker's own pair, and a
    lifecycle message identifies at most one session ever created. *)
Theorem generations_never_stale adapter device socket uid b c :
  NewBroker adapter device socket uid true = Ok b -> reachable b c ->
  (forall clock1 clock2 g1 g2 b1 b2,
     nextDescriptorGenerationLocked (cBroker c) clock1 = (Ok g1, b1) ->
     nextDescriptorGenerationLocked b1 clock2 = (Ok g2, b2) ->
     0 < g1 < g2 /\ gen_of (bHandoff b2) DirectionSink < g1 /\ gen_of (bHandoff b2) DirectionSource < g2 /\
     hs_lastBundle (bHandoff b2) < g1) /\
  (forall i j s t p, bSessions (cBroker c) !! i = Some s -> bSessions (cBroker c) !! j = Some t ->
     lifecycleProgressMatches s p = true -> lifecycleProgressMatches t p = true -> i = j).
Proof.
  intros HB HR. assert (sound c) as [_ _ [R L (H1 & H2 & H3) S U]]
    by (eapply reachable_invariant; [by eapply initial_sound|apply step_sound|exact HR]).
  split.
  - intros c1 c2 g1 g2 b1 b2 (V1 & E1 & N1)%nextGeneration_spec (V2 & E2 & N2)%nextGeneration_spec.
    rewrite E2, E1. lia.
  - intros i j s t p Hi Hj Ms Mt. unfold lifecycleProgressMatches in *. bool_prop. eapply U; eauto. congruence.
Qed.

(** ** A run to a published session

    BlueZ connects, both transports are configured, Asterisk connects, the sink
    becomes pending, and the pair is acquired, correlated and published. *)
Lemma step_run_eq c c' l g r o :
  runs (cBroker c) g o -> cThreads c = l ++ g :: r -> fresh_fds (cOpen c) (oOpened o) ->
  c' = mkConfig (oBroker o) (l ++ oNext o ++ r) (kernel (cOpen c) (oOpened o) (oClosed o))
         (cReleased c ++ releases (oNext o)) -> step c c'.
Proof. destruct c as [b ts open rel]. cbn. intros HR -> HF ->. by apply step_run. Qed.
Lemma step_event_eq c c' b' next closed :
  event (cBroker c) b' next closed ->
  c' = mkConfig b' (cThreads c ++ next) (kernel (cOpen c) [] closed) (cReleased c ++ releases next) -> step c c'.
Proof. destruct c as [b ts open rel]. cbn. intros HE ->. by apply step_event. Qed.

Definition after_event (c : config) (b' : Broker) (next : list goroutine) (closed : list Z) : config :=
  mkConfig b' (cThreads c ++ next) (kernel (cOpen c) [] closed) (cReleased c ++ releases next).
Definition after_run (c : config) (l r : list goroutine) (o : outcome) : config :=
  mkConfig (oBroker o) (l ++ oNext o ++ r) (kernel (cOpen c) (oOpened o) (oClosed o)) (cReleased c ++ releases (oNext o)).

Definition run_broker : Broker :=
  match NewBroker (str "hci0") (str "AA:BB") (str "/run/x") 1000 true with Ok b => b | Error _ => demo_broker end.
Definition run_props : pdict := {[ "Configuration" := PBytes (spCapabilities demo_proposal) ]}.
Definition any_path (p : path) : bool := true.
Definition all_ok (log : list (path * bool)) (p : path) : bool := true.
Definition run_qos : qdict :=
  <["CIG" := QByte 0]> (<["CIS" := QByte 0]> (spQoS demo_proposal)).
Definition pending_signal : dbus_signal :=
  mkSignal propertiesChanged (str "/d/s") [SAString transportInterface; SADict {[ "State" := SVString "pending" ]}].

Definition demo_c0 : config := initial run_broker.
Definition demo_c1 : config := Eval vm_compute in
  let '(b, fds) := bluez_connected (cBroker demo_c0) 1 (str "/d") in after_event demo_c0 b [] fds.
Definition demo_c2 : config := Eval vm_compute in
  let '(_, b, fds) := SetConfiguration any_path (cBroker demo_c1) DirectionSink (str "/d/s") run_props in after_event demo_c1 b [] fds.
Definition demo_c3 : config := Eval vm_compute in
  let '(_, b, fds) := SetConfiguration any_path (cBroker demo_c2) DirectionSource (str "/d/t") run_props in after_event demo_c2 b [] fds.
Definition demo_c4 : config := Eval vm_compute in
  let '(b, next) := handoff_poll (cBroker demo_c3) false (Some (5, Some 1000)) in after_event demo_c3 b next [].
Definition demo_c5 : config := Eval vm_compute in
  let '(b, p) := handleSignal (cBroker demo_c4) (Some pending_signal) in
  after_event demo_c4 b (match p with Some p => [GAcquire p] | None => [] end) [].
Definition demo_c6 : config := Eval vm_compute in after_run demo_c5 [] [] (acquire_begin (cBroker demo_c5) (str "/d/s")).
Definition demo_c7 : config := Eval vm_compute in after_run demo_c6 [] [] (acquire_reserve (cBroker demo_c6) (str "/d/s") (Ok [str "/d/t"])).
Definition transport_props (peer : string) : pdict := {[ "QoS" := PDict run_qos; "Links" := PPaths [str peer] ]}.
Definition run_try_env : try_env :=
  mkTryEnv (Acquired 10 80 80) (Ok (transport_props "/d/t")) (Ok (transport_props "/d/s")) (Ok 11) (fun l => l).
Definition demo_c8 : config := Eval vm_compute in
  match cThreads demo_c7 with
  | [GTry p conn cfg peer] => after_run demo_c7 [] [] (acquire_try all_ok true run_try_env (cBroker demo_c7) p conn cfg peer)
  | _ => demo_c7
  end.
Definition run_publish : publish_inputs :=
  mkPublishInputs [] (Ok (100, 0)) (Ok (100, 1)) (mkPublishEnv (Ok (20, 21)) (Wrote 76) (Wrote 76)) 0 0.
Definition demo_c9 : config := Eval vm_compute in
  match cThreads demo_c8 with
  | [GCorrelate p peer conn sink source] =>
      after_run demo_c8 [] [] (acquire_publish all_ok true run_publish (cBroker demo_c8) p peer conn sink source)
  | _ => demo_c8
  end.

Lemma demo_new : NewBroker (str "hci0") (str "AA:BB") (str "/run/x") 1000 true = Ok run_broker.
Proof. vm_compute. reflexivity. Qed.

Lemma demo_reachable : reachable run_broker demo_c9.
Proof.
  unfold reachable.
  apply (rtc_l _ _ demo_c1); [eapply step_event_eq; [eapply (ev_connected _ 1 (str "/d")); reflexivity|vm_compute; reflexivity]|].
  apply (rtc_l _ _ demo_c2); [eapply step_event_eq;
    [eapply (ev_set_configuration _ any_path DirectionSink (str "/d/s") run_props); vm_compute; reflexivity|vm_compute; reflexivity]|].
  apply (rtc_l _ _ demo_c3); [eapply step_event_eq;
    [eapply (ev_set_configuration _ any_path DirectionSource (str "/d/t") run_props); vm_compute; reflexivity|vm_compute; reflexivity]|].
  apply (rtc_l _ _ demo_c4); [eapply step_event_eq;
    [eapply (ev_handoff _ false (Some (5, Some 1000))); vm_compute; reflexivity|vm_compute; reflexivity]|].
  apply (rtc_l _ _ demo_c5); [eapply step_event_eq;
    [eapply (ev_signal _ (Some pending_signal)); vm_compute; reflexivity|vm_compute; reflexivity]|].
  apply (rtc_l _ _ demo_c6); [apply (step_run_eq _ _ [] (GAcquire (str "/d/s")) [] (acquire_begin (cBroker demo_c5) (str "/d/s")));
    [constructor|reflexivity|constructor|vm_compute; reflexivity]|].
  apply (rtc_l _ _ demo_c7); [apply (step_run_eq _ _ [] (GLinks (str "/d/s")) []
      (acquire_reserve (cBroker demo_c6) (str "/d/s") (Ok [str "/d/t"])));
    [constructor|reflexivity|vm_compute; constructor|vm_compute; reflexivity]|].
  apply (rtc_l _ _ demo_c8).
  { destruct (cThreads demo_c7) as [|[| |p conn cfg peer| | | | | |] [|]] eqn:E; try discriminate E.
    apply (step_run_eq _ _ [] (GTry p conn cfg peer) [] (acquire_try all_ok true run_try_env (cBroker demo_c7) p conn cfg peer));
      [by constructor|done| |]; injection E as <- <- <- <-; [|vm_compute; reflexivity].
    apply (bool_decide_unpack _). by vm_compute. }
  apply (rtc_l _ _ demo_c9); [|apply rtc_refl].
  destruct (cThreads demo_c8) as [|[| | |p peer conn sink source| | | | |] [|]] eqn:E; try discriminate E.
  apply (step_run_eq _ _ [] (GCorrelate p peer conn sink source) []
    (acquire_publish all_ok true run_publish (cBroker demo_c8) p peer conn sink source));
    [by constructor|done| |]; injection E as <- <- <- <- <-; [|vm_compute; reflexivity].
  apply (bool_decide_unpack _). by vm_compute.
Qed.

Lemma descriptors_never_leak_witness :
  exists open, cOpen demo_c9 = Some open /\ open ≡ₚ owned (cBroker demo_c9) (cThreads demo_c9) /\ 20 ∈ open.
Proof.
  destruct (descriptors_never_leak _ _ _ _ _ _ demo_new demo_reachable) as (open & E & _ & P).
  exists open. split; [exact E|]. split; [exact P|]. injection E as <-. apply list_elem_of_here.
Defined.

Lemma session_released_once_witness : NoDup (cReleased demo_c9).
Proof. exact (proj1 (session_released_once _ _ _ _ _ _ demo_new demo_reachable)). Defined.

Lemma active_session_witness : exists s, bSessions (cBroker demo_c9) !! 0%nat = Some s /\ sLifecycleDone s = false.
Proof.
  destruct (active_session_attended _ _ _ _ _ _ 0%nat demo_new demo_reachable) as (s & H1 & H2 & _).
  - vm_compute. reflexivity.
  - exists s. split; [exact H1|exact H2].
Defined.

(** The clock went backwards since the publication: the generations still grow. *)
Lemma generations_never_stale_witness :
  exists g1 g2 b1 b2,
    nextDescriptorGenerationLocked (cBroker demo_c9) (Ok (5, 0)) = (Ok g1, b1) /\
    nextDescriptorGenerationLocked b1 (Ok (5, 0)) = (Ok g2, b2) /\
    0 < g1 < g2 /\ gen_of (bHandoff b2) DirectionSink < g1.
Proof.
  destruct (nextDescriptorGenerationLocked (cBroker demo_c9) (Ok (5, 0))) as [[g1|e] b1] eqn:E1; [|vm_compute in E1; discriminate E1].
  destruct (nextDescriptorGenerationLocked b1 (Ok (5, 0))) as [[g2|e] b2] eqn:E2.
  - exists g1, g2, b1, b2. split; [reflexivity|]. split; [exact E2|].
    destruct (generations_never_stale _ _ _ _ _ _ demo_new demo_reachable) as [H _].
    destruct (H _ _ _ _ _ _ E1 E2) as (H1 & H2 & _). split; [exact H1|exact H2].
  - exfalso. vm_compute in E1. injection E1 as _ <-. vm_compute in E2. discriminate E2.
Defined.

(** Sixty seconds after a publication without media the watcher releases it. *)
Lemma watch_turn_attends_witness :
  let b := cBroker demo_c9 in
  exists b', watch_turn b 0%nat true (60 * Second) PollQuiet None = (b', [GRelease 0%nat], None) /\
    open_session b' 0%nat = None.
Proof.
  cbv zeta.
  destruct (watch_turn (cBroker demo_c9) 0%nat true (60 * Second) PollQuiet None) as [[b' next] r] eqn:E.
  pose proof (watch_turn_attends (cBroker demo_c9) 0%nat true (60 * Second) PollQuiet None b' next r) as H.
  exists b'. assert (next = [GRelease 0%nat] /\ r = None) as [-> ->] by (vm_compute in E; injection E as _ <- <-; done).
  split; [reflexivity|]. apply H; [|exact E|reflexivity].
  intros s Hs Hd. vm_compute in Hs. injection Hs as <-. discriminate Hd.
Defined.

(** ** A second pair replaces the session of the first *)

(** When [acquire] publishes another pair while a session is active, the
    earlier session stops being the current one without being released or
    completed: its object is left as it was, its watcher returns at its next turn
    without starting a release, and every later request to release it is refused.
    Its transports stay acquired until BlueZ itself reports them idle. *)
Theorem replaced_session_abandoned answer closed e b p peer conn sink source i s :
  bSessions b !! pi_address e = None -> gens_ok b ->
  bActiveSession b = Some i -> bSessions b !! i = Some s ->
  let b' := oBroker (acquire_publish answer closed e b p peer conn sink source) in
  bActiveSession b' <> Some i ->
  bSessions b' !! i = Some s /\
  requestSpecificSessionRelease b' i = (false, b') /\
  (forall open now poll provider, exists b2, watch_turn b' i open now poll provider = (b2, [], None)).
Proof.
  intros HF G HA HS b' HN.
  destruct (acquire_publish_spec answer closed e b p peer conn sink source HF G) as [_ [[V _]|(t & [F V _ _ _])]];
    fold b' in V; injection V as VA VS.
  { by rewrite VA in HN. }
  assert (pi_address e <> i) as Hne by congruence.
  assert (bSessions b' !! i = Some s) as Hs by (by rewrite VS, lookup_insert_ne).
  assert (forall b1, bActiveSession b1 = bActiveSession b' -> open_session b1 i = None /\ current_session b1 i = None) as HC.
  { intros b1 E. unfold open_session, current_session. by rewrite E, bool_decide_false. }
  split; [done|]. split.
  { unfold requestSpecificSessionRelease. by rewrite (proj1 (HC b' eq_refl)). }
  intros open now poll provider. unfold watch_turn. rewrite Hs. destruct (sLifecycleDone s); [by eexists|].
  assert (forall b1, bActiveSession b1 = bActiveSession b' -> stop_with b1 i = (b1, [], None)) as HW.
  { intros b1 E. unfold stop_with, requestSpecificSessionRelease. by rewrite (proj1 (HC b1 E)). }
  assert (forall packets b1 fin, bActiveSession b1 = bActiveSession b' ->
            bActiveSession (drain b1 i now packets fin).1 = bActiveSession b') as HD.
  { induction packets as [|packet packets IH]; intros b1 fin E; cbn [drain]; [done|].
    destruct (decodeLifecycleMessage packet) as [[ty pr]|]; [|done]. apply IH.
    destruct (ty =? _); [unfold recordLifecycleProgress; by rewrite (proj1 (HC b1 E))|].
    destruct (ty =? _); [unfold recordLifecycleNormalEnd; by rewrite (proj1 (HC b1 E))|done]. }
  assert (exists b1 r, watch_events b' i open now poll = (b1, [], r) /\ bActiveSession b1 = bActiveSession b') as (b1 & r & -> & E1).
  { unfold watch_events. destruct open; cbn [negb]; [|by eexists _, _].
    destruct poll as [| |terminal hup packets fin]; [rewrite HW by done; by eexists _, _|by eexists _, _|].
    specialize (HD packets b' fin eq_refl). destruct (drain b' i now packets fin) as [b1 fin1]. cbn [fst] in HD.
    rewrite bool_decide_false by (by rewrite HD). unfold normalReleasePending. rewrite (proj1 (HC b1 HD)).
    destruct fin1, terminal; rewrite ?HW by done; cbn; repeat split_match; by eexists _, _. }
  destruct r; [|by eexists]. unfold watch_leases. rewrite (proj2 (HC b1 E1)). by eexists.
Qed.

Definition replaced_broker : Broker :=
  (cBroker demo_c9) <| bConfigured := {[ ptPath Qos.demo_sink := ptConfig Qos.demo_sink;
                                       ptPath Qos.demo_source := ptConfig Qos.demo_source ]} |>
    <| bPairing := {[ ptPath Qos.demo_sink; ptPath Qos.demo_source ]} |>.
Definition replace_inputs : publish_inputs :=
  mkPublishInputs [] (Ok (200, 0)) (Ok (200, 1)) (mkPublishEnv (Ok (30, 31)) (Wrote 80) (Wrote 80)) 0 1.

Lemma replaced_session_witness :
  requestSpecificSessionRelease
    (oBroker (acquire_publish all_ok true replace_inputs replaced_broker (str "/dev/fd0") None 1
                Qos.demo_sink Qos.demo_source)) 0%nat =
  (false, oBroker (acquire_publish all_ok true replace_inputs replaced_broker (str "/dev/fd0") None 1
                     Qos.demo_sink Qos.demo_source)).
Proof.
  destruct (bSessions replaced_broker !! 0%nat) as [s|] eqn:E; [|discriminate E].
  apply (replaced_session_abandoned all_ok true replace_inputs replaced_broker (str "/dev/fd0") None 1
           Qos.demo_sink Qos.demo_source 0%nat s).
  - reflexivity.
  - apply (gens_later (cBroker demo_c9)); [|reflexivity|split; reflexivity|apply Z.le_refl].
    assert (sound demo_c9) as [_ _ G]; [|exact G].
    eapply reachable_invariant; [eapply initial_sound, demo_new|apply step_sound|exact demo_reachable].
  - reflexivity.
  - exact E.
  - vm_compute. discriminate.
Defined.
