(* ===== verification/Advert.v ===== *)
(** * Serving BlueZ: registration and the targeted advertisement

    Models [Run], [runBlueZOnce], [resetLEBearer], [selectDevicePath] and
    [advertisement.Release] of src/callbridge-sms-go/internal/bluez/broker.go.  The
    replies of BlueZ are inputs.  The theorems put the loop beside BlueZ, which has the phone's link and the
    advertisement and whose signals arrive later: whenever the loop has caught up, with the phone away and no hold, the
    advertisement is on the air or a rearm request is queued, unless BlueZ dropped it by itself; and a hold is respected by
    every turn of the loop. *)

From stdpp Require Import pretty.
From S2P Require Import Prelude GoStd Inventory Lc3 Handoff Qos Broker Acquire Sessions.

(** ** Selecting the device *)

(** [order]: the enumeration of the managed objects the [range] loop sees. *)
Definition selectDevicePath (order : list (bytes * interfaces)) (adapter address : bytes) : result path :=
  let adapterPath := str "/org/bluez/" ++ adapter in
  match (filter (fun o => Is_true (device_matches adapterPath address o)) order).*1 with
  | [p] => Ok p
  | matches => Error (New ("expected one BlueZ device for selector, found " ++ pretty (len matches)))
  end.
(** [resolveDevicePath], with the answer of [GetManagedObjects]. *)
Definition resolveDevicePath (answer : result (list (bytes * interfaces))) (adapter address : bytes) : result path :=
  let! objects := answer in selectDevicePath objects adapter address.

(** ** The serving state

    [svRegistered] is the local [advertisementRegistered], what the loop last had BlueZ do; whether BlueZ has the
    advertisement is [raOnAir] below. *)
Record serve := mkServe {
  svBroker : Broker;
  svDevice : path;
  svRegistered : bool
}.
#[export] Instance serve_fields : Fields serve :=
  {| fields x := mkServe (svBroker x) (svDevice x) (svRegistered x) |}.

Definition setAdvertisement (sv : serve) (enable : bool) (reply : result unit) : result unit * serve :=
  if eqb enable (svRegistered sv) then (Ok tt, sv)
  else match reply with
       | Error e => (Error e, sv)
       | Ok _ =>
           (Ok tt, sv <| svRegistered := enable |>
                      <| svBroker := (svBroker sv) <| bAdvertising := enable |> <| bDiscoverable := enable |> |>)
       end.

(** [Release] is called by BlueZ when it drops the advertisement by itself. *)
Definition advertisement_Release (b : Broker) : Broker := b <| bAdvertising := false |> <| bDiscoverable := false |>.

(** [reads]: what each poll of the property returned before the deadline. *)
Fixpoint await_disconnected (reads : list (result bool)) : result unit :=
  match reads with
  | [] => fail! "LE bearer still connected after Disconnect"
  | Error e :: _ => Error e
  | Ok false :: _ => Ok tt
  | Ok true :: reads => await_disconnected reads
  end.
Definition resetLEBearer (disconnect : result unit) (reads : list (result bool)) : result unit :=
  let! _ := disconnect in await_disconnected reads.

(** ** Setting up *)
Record setup_env := mkSetupEnv {
  se_connect : result Z;
  se_unix_fds : bool;
  se_objects : result (list (bytes * interfaces));
  se_endpoints : list (result unit);
  se_exports : list (result unit);
  se_connected : result bool;
  se_disconnect : result unit;
  se_reads : list (result bool);
  se_advertise : result unit
}.

(** The first failure of a sequence of calls. *)
Fixpoint all_calls (calls : list (result unit)) : result unit :=
  match calls with [] => Ok tt | c :: calls => let! _ := c in all_calls calls end.

(** The advertisement at start: a phone already connected is disconnected first. *)
Definition start_advertisement (e : setup_env) (sv : serve) : result unit * serve :=
  match se_connected e with
  | Error err => (Error (Wrap "read initial LE bearer state" err), sv)
  | Ok connected =>
      let connected := connected && negb (is_ok (resetLEBearer (se_disconnect e) (se_reads e))) in
      if connected then (Ok tt, sv)
      else match setAdvertisement sv true (se_advertise e) with
           | (Error err, sv) => (Error (Wrap "register targeted LE Audio advertisement" err), sv)
           | (Ok _, sv) => (Ok tt, sv)
           end
  end.

(** [runBlueZOnce] up to its loop: the error, or the state the loop starts in, with
    the broker as its deferred functions will find it, and the descriptors closed. *)
Definition bluez_setup (e : setup_env) (b : Broker) : result unit * serve * list Z :=
  let idle := mkServe b [] false in
  match se_connect e with
  | Error err => (Error (Wrap "connect system bus" err), idle, [])
  | Ok conn =>
      if negb (se_unix_fds e) then (fail! "system bus lacks Unix FD passing", idle, [])
      else match resolveDevicePath (se_objects e) (bAdapter b) (bExpectedAddress b) with
           | Error err => (Error (Wrap "resolve LE Audio device" err), idle, [])
           | Ok device =>
               let '(b, fds) := bluez_connected b conn device in
               let sv := mkServe b device false in
               match all_calls (se_endpoints e) with
               | Error err => (Error err, sv, fds)
               | Ok _ =>
                   let sv := sv <| svBroker := bluez_registered b |> in
                   match all_calls (se_exports e) with
                   | Error err => (Error err, sv, fds)
                   | Ok _ => let '(r, sv) := start_advertisement e sv in (r, sv, fds)
                   end
               end
           end
  end.

(** ** The loop *)
Inductive serve_event :=
  | SvStop
  | SvHandoff (e : option error)
  | SvRearm (connected : result bool) (reply : result unit)
  | SvBusLost
  | SvSignal (signal : option dbus_signal) (reply : result unit).

Definition errHandoffStopped : error := Sentinel "errHandoffStopped" "LE Audio handoff server stopped".
(** The sentinel stays in the chain; only the order of the two texts differs. *)
Definition wrapHandoffFailure (e : option error) : error :=
  match e with
  | None => errHandoffStopped
  | Some e => Wrap (error_text e) errHandoffStopped
  end.

(** One turn: the state, the goroutines started, and [Some r] to return [r]. *)
Definition serve_turn (sv : serve) (ev : serve_event) : serve * list goroutine * option (result unit) :=
  let set sv enable reply message :=
    match setAdvertisement sv enable reply with
    | (Error e, sv) => (sv, Some (Error (Wrap message e)))
    | (Ok _, sv) => (sv, None)
    end in
  match ev with
  | SvStop => (sv, [], Some (Ok tt))
  | SvHandoff e => (sv, [], Some (Error (wrapHandoffFailure e)))
  | SvBusLost => (sv, [], Some (fail! "BlueZ system bus disconnected"))
  | SvRearm connected reply =>
      let sv := sv <| svBroker := (svBroker sv) <| bRearmRequest := false |> |> in
      match connected with
      | Error e => (sv, [], Some (Error (Wrap "read LE bearer state for rearm" e)))
      | Ok connected =>
          if connected || advertisementHeld (svBroker sv) then (sv, [], None)
          else let '(sv, r) := set sv true reply "rearm targeted advertisement after hold"%string in (sv, [], r)
      end
  | SvSignal None _ => (sv, [], Some (fail! "BlueZ signal channel closed"))
  | SvSignal (Some sg) reply =>
      if bluezNameLost (Some sg) then (sv, [], Some (fail! "BlueZ bus name disappeared"))
      else match leBearerConnectionChanged (Some sg) (svDevice sv) with
           | Some true =>
               let '(sv, r) := set sv false reply "stop targeted advertisement after LE connect"%string in (sv, [], r)
           | Some false =>
               let '(i, b) := handleLEBearerDisconnected (svBroker sv) in
               let sv := sv <| svBroker := b |> in
               if advertisementHeld b then (sv, spawn_release i, None)
               else let '(sv, r) := set sv true reply "rearm targeted advertisement after LE disconnect"%string in
                    (sv, spawn_release i, r)
           | None =>
               let '(b, p) := handleSignal (svBroker sv) (Some sg) in
               (sv <| svBroker := b |>, match p with Some p => [GAcquire p] | None => [] end, None)
           end
  end.

(** The deferred functions: the advertisement is withdrawn, then the tables reset. *)
Definition bluez_teardown (sv : serve) (reply : result unit) : Broker * list Z :=
  let '(_, sv) := setAdvertisement sv false reply in bluez_gone (svBroker sv).

(** ** [Run] *)

(** How one attempt ended, and what was waiting afterwards. *)
Inductive attempt :=
  | AttemptStopped (handoff : bool)
  | AttemptHandoffStopped (e : error)
  | AttemptRetry
  | AttemptCancelled
  | AttemptHandoffFailed (e : option error).

Definition next_backoff (backoff : Z) : Z := if backoff <? 30 * Second then backoff * 2 else backoff.

(** The waits between attempts, and [Run]'s result once it returns; [exit] is the
    result of [waitHandoffExit]. *)
Fixpoint run_attempts (exit : result unit) (backoff : Z) (attempts : list attempt)
  : list Z * option (result unit) :=
  match attempts with
  | [] => ([], None)
  | AttemptStopped handoff :: _ => ([], Some (if handoff then Ok tt else exit))
  | AttemptHandoffStopped e :: _ => ([], Some (Error e))
  | AttemptCancelled :: _ => ([backoff], Some exit)
  | AttemptHandoffFailed e :: _ => ([backoff], Some (Error (wrapHandoffFailure e)))
  | AttemptRetry :: attempts =>
      let '(waits, r) := run_attempts exit (next_backoff backoff) attempts in (backoff :: waits, r)
  end.

(** ** The hold and the rearm request are only written by their owners *)
Definition adv_fields (b : Broker) : bool * bool := (bAdvertisementHold b, bRearmRequest b).

Lemma clearActive_adv b i : adv_fields (clearActiveSessionLocked b i) = adv_fields b.
Proof. unfold clearActiveSessionLocked, signalActiveSessionDone. by_rest. Qed.
Lemma requestActive_adv b : adv_fields (requestActiveSessionRelease b).2 = adv_fields b.
Proof.
  unfold requestActiveSessionRelease, requestSpecificSessionRelease.
  destruct (bActiveSession b) as [i|]; [|done]. by destruct (open_session b i).
Qed.
Lemma transport_idle_adv b p : adv_fields (transport_idle b p) = adv_fields b.
Proof.
  unfold transport_idle. change (bActiveSession (forget_path b p)) with (bActiveSession b).
  destruct (bActiveSession b) as [i|]; [|done]. destruct (session_at _ _) as [s|]; [|done].
  destruct (session_uses s p); [|done]. destruct (_ && _); [|done]. destruct (sReleasing _); [done|].
  destruct (sNormalEndSeen _); by rewrite clearActive_adv.
Qed.
Lemma handleSignal_adv b signal : adv_fields (handleSignal b signal).1 = adv_fields b.
Proof.
  assert ((handleSignal b signal).1 = b \/ exists q, (handleSignal b signal).1 = transport_idle b q) as [->|[q ->]];
    [|done|apply transport_idle_adv].
  unfold handleSignal. repeat split_match; eauto.
Qed.

(** ** The advertisement under a hold *)

(** What a turn that set the advertisement leaves. *)
Lemma setAdvertisement_spec sv enable reply :
  match setAdvertisement sv enable reply with
  | (Ok _, sv') => svRegistered sv' = enable /\ adv_fields (svBroker sv') = adv_fields (svBroker sv)
  | (Error _, sv') => sv' = sv
  end.
Proof.
  unfold setAdvertisement. destruct (eqb enable (svRegistered sv)) eqn:E.
  - apply eqb_prop in E. by rewrite <- E.
  - by destruct reply.
Qed.

(** Case analysis on the one [setAdvertisement] of a turn that went on. *)
Ltac set_case H :=
  match type of H with
  | context [setAdvertisement ?sv ?e ?r] =>
      let S := fresh "S" in
      pose proof (setAdvertisement_spec sv e r) as S;
      destruct (setAdvertisement sv e r) as [[[]|?] ?]; [|discriminate H]
  end.

(** One turn of the loop, as far as the advertisement is concerned. *)
Lemma serve_turn_spec sv ev sv' next :
  serve_turn sv ev = (sv', next, None) ->
  match ev with
  | SvRearm (Ok connected) _ =>
      adv_fields (svBroker sv') = (bAdvertisementHold (svBroker sv), false) /\
      svRegistered sv' = if connected || bAdvertisementHold (svBroker sv) then svRegistered sv else true
  | SvSignal sg _ =>
      adv_fields (svBroker sv') = adv_fields (svBroker sv) /\
      svRegistered sv' =
        match leBearerConnectionChanged sg (svDevice sv) with
        | Some true => false
        | Some false => if bAdvertisementHold (svBroker sv) then svRegistered sv else true
        | None => svRegistered sv
        end
  | _ => False
  end.
Proof.
  destruct ev as [|e|connected reply| |[sg|] reply]; try done; cbn [serve_turn]; intros H.
  - destruct connected as [connected|e]; [|done]. cbn in H.
    destruct (connected || bAdvertisementHold (svBroker sv)) eqn:E; [by injection H as <- _|].
    set_case H. destruct S as [S1 S2]. injection H as <- _. by rewrite S1, S2.
  - destruct (bluezNameLost (Some sg)); [done|].
    destruct (leBearerConnectionChanged (Some sg) (svDevice sv)) as [[|]|].
    + set_case H. destruct S as [S1 S2]. by injection H as <- _.
    + unfold handleLEBearerDisconnected in H. pose proof (requestActive_adv (svBroker sv)) as A.
      destruct (requestActiveSessionRelease (svBroker sv)) as [i b]. cbn in A. injection A as AH AR.
      unfold advertisementHeld in H. rewrite AH in H.
      destruct (bAdvertisementHold (svBroker sv)) eqn:E; [injection H as <- _; cbn; unfold adv_fields; by rewrite AH, AR, E|].
      set_case H. destruct S as [S1 S2]. injection H as <- _.
      rewrite S1, S2. cbn. unfold adv_fields. by rewrite AH, AR, E.
    + pose proof (handleSignal_adv (svBroker sv) (Some sg)) as A.
      destruct (handleSignal (svBroker sv) (Some sg)) as [b p]. injection H as <- _. done.
Qed.

(** ** Runs of the loop beside BlueZ

    [raLink] is the phone's LE link and [raSignals] its changes that the loop has not taken yet, in order;
    [raOnAir] is whether BlueZ has the advertisement, and [raDropped] whether it has dropped it since it last accepted it.  A reply of
    BlueZ tells the truth: a property read is the link, a call that succeeds was done. *)
Record radio := mkRadio {
  raServe : serve; raLink : bool; raSignals : list bool; raOnAir : bool; raDropped : bool
}.
#[export] Instance radio_fields : Fields radio :=
  {| fields x := mkRadio (raServe x) (raLink x) (raSignals x) (raOnAir x) (raDropped x) |}.
(** A turn of the loop: when it changed the registration, BlueZ did it. *)
Definition after_turn (r : radio) (sv : serve) : radio :=
  if eqb (svRegistered (raServe r)) (svRegistered sv) then r <| raServe := sv |>
  else r <| raServe := sv |> <| raOnAir := svRegistered sv |> <| raDropped := false |>.

(** The link changes; the loop takes a signal, of the link or another, or a rearm request; [HoldAdvertisement] is called; another goroutine of the
    broker runs, which changes neither the hold nor the request; BlueZ drops the advertisement and calls [Release]. *)
Inductive adv_step : radio -> radio -> Prop :=
  | as_link r connected :
      connected <> raLink r -> adv_step r (r <| raLink := connected |> <| raSignals := raSignals r ++ [connected] |>)
  | as_signal r connected rest sg reply sv next :
      raSignals r = connected :: rest -> leBearerConnectionChanged sg (svDevice (raServe r)) = Some connected ->
      serve_turn (raServe r) (SvSignal sg reply) = (sv, next, None) -> adv_step r ((after_turn r sv) <| raSignals := rest |>)
  | as_other_signal r sg reply sv next :
      leBearerConnectionChanged sg (svDevice (raServe r)) = None ->
      serve_turn (raServe r) (SvSignal sg reply) = (sv, next, None) -> adv_step r (after_turn r sv)
  | as_rearm r reply sv next :
      bRearmRequest (svBroker (raServe r)) = true ->
      serve_turn (raServe r) (SvRearm (Ok (raLink r)) reply) = (sv, next, None) -> adv_step r (after_turn r sv)
  | as_hold r hold :
      adv_step r (r <| raServe := (raServe r) <| svBroker := HoldAdvertisement (svBroker (raServe r)) hold |> |>)
  | as_other r b :
      adv_fields b = adv_fields (svBroker (raServe r)) -> adv_step r (r <| raServe := (raServe r) <| svBroker := b |> |>)
  | as_release r :
      raOnAir r = true ->
      adv_step r (r <| raServe := (raServe r) <| svBroker := advertisement_Release (svBroker (raServe r)) |> |>
                    <| raOnAir := false |> <| raDropped := true |>).

(** What is so when the loop has caught up with the link. *)
Definition advertises (r : radio) : Prop :=
  (raOnAir r = true -> raLink r = false) /\
  (raOnAir r = true \/ raLink r = true \/ bAdvertisementHold (svBroker (raServe r)) = true \/
   bRearmRequest (svBroker (raServe r)) = true \/ raDropped r = true).

(** The signals not taken lead from what the loop knows to the link, and the flag agrees with BlueZ unless it dropped the advertisement. *)
Record in_step (r : radio) : Prop := {
  is_link : exists known, raLink r = List.last (raSignals r) known;
  is_air : raOnAir r = svRegistered (raServe r) && negb (raDropped r);
  is_quiet : raSignals r = [] -> (svRegistered (raServe r) = true -> raLink r = false) /\
    (svRegistered (raServe r) = true \/ raLink r = true \/ bAdvertisementHold (svBroker (raServe r)) = true \/ bRearmRequest (svBroker (raServe r)) = true)
}.
Lemma in_step_advertises r : in_step r -> raSignals r = [] -> advertises r.
Proof.
  intros [_ A Q] E. destruct (Q E) as [Q1 Q2]. unfold advertises. rewrite A, andb_true_iff, negb_true_iff. split; [naive_solver|]. destruct (raDropped r); [by auto 10|]. destruct Q2 as [?|[?|[?|?]]]; auto.
Qed.
Lemma after_turn_air r sv :
  raOnAir r = svRegistered (raServe r) && negb (raDropped r) ->
  raOnAir (after_turn r sv) = svRegistered (raServe (after_turn r sv)) && negb (raDropped (after_turn r sv)).
Proof.
  intros A. unfold after_turn. destruct (eqb _ _) eqn:E; [|cbn; by rewrite andb_true_r]. apply eqb_prop in E. cbn. by rewrite <- E.
Qed.
Lemma after_turn_frame r sv : raServe (after_turn r sv) = sv /\ raLink (after_turn r sv) = raLink r /\ raSignals (after_turn r sv) = raSignals r.
Proof. unfold after_turn. by destruct (eqb _ _). Qed.

Lemma last_of_cons {A} (l : list A) a d : List.last (a :: l) d = List.last l a.
Proof. revert a d. induction l as [|b l IH]; intros a d; [done|]. change (List.last (a :: b :: l) d) with (List.last (b :: l) d). by rewrite !IH. Qed.
Lemma adv_step_keeps x y : adv_step x y -> in_step x -> in_step y.
Proof.
  destruct 1 as [r c N|r c rest sg reply sv next S L T|r sg reply sv next L T|r reply sv next Q T|r hold|r b E|r E]; intros [(k & Ik) Ia Iq].
  - split; [exists k; cbn; by rewrite last_last|done|]. cbn. intros X. by apply app_eq_nil in X as [_ X].
  - destruct (after_turn_frame r sv) as (F1 & F2 & F3). apply serve_turn_spec in T as [A R]. injection A as AH AR. rewrite L in R.
    rewrite S in Ik. split; cbn.
    + exists c. by rewrite F2, Ik, last_of_cons.
    + by apply after_turn_air.
    + rewrite F1, F2, AH, R. intros ->. cbn in Ik. rewrite Ik. destruct c; [split; [done|auto]|]. split; [done|]. destruct (bAdvertisementHold (svBroker (raServe r))); auto.
  - destruct (after_turn_frame r sv) as (F1 & F2 & F3). apply serve_turn_spec in T as [A R]. injection A as AH AR. rewrite L in R.
    split; [exists k; by rewrite F2, F3|by apply after_turn_air|]. rewrite F1, F2, F3, AH, AR, R. done.
  - destruct (after_turn_frame r sv) as (F1 & F2 & F3). apply serve_turn_spec in T as [A R]. injection A as AH AR.
    split; [exists k; by rewrite F2, F3|by apply after_turn_air|]. rewrite F1, F2, F3, AH, AR, R. intros X. destruct (Iq X) as [I1 I2].
    destruct (raLink r); cbn; [split; auto|]. destruct (bAdvertisementHold (svBroker (raServe r))); split; auto.
  - split; [by exists k|done|]. cbn. unfold HoldAdvertisement. intros X. destruct (Iq X) as [I1 I2]. split; [done|].
    destruct (bAdvertisementHold (svBroker (raServe r))) eqn:B, hold; cbn; rewrite ?B; auto.
  - injection E as EH ER. split; [by exists k|done|]. cbn. by rewrite EH, ER.
  - split; [by exists k|cbn; by rewrite andb_false_r|exact Iq].
Qed.

(** Whether the phone is taken to be connected once the loop starts: it was, and could not be disconnected. *)
Definition left_connected (e : setup_env) : bool :=
  match se_connected e with Ok connected => connected && negb (is_ok (resetLEBearer (se_disconnect e) (se_reads e))) | Error _ => false end.
(** The loop has just started: BlueZ has the advertisement if the loop registered it, and the signals that have come since then lead to the link. *)
Definition starts (e : setup_env) (sv : serve) (r : radio) : Prop :=
  start_advertisement e sv = (Ok tt, raServe r) /\ raLink r = List.last (raSignals r) (left_connected e) /\
  raOnAir r = svRegistered (raServe r) /\ raDropped r = false.
Lemma start_in_step e sv r : svRegistered sv = false -> starts e sv r -> in_step r.
Proof.
  intros R0 (H & Lk & Oa & Dr). split; [by eexists|rewrite Oa, Dr; by rewrite andb_true_r|]. intros X. rewrite X in Lk. cbn in Lk. rewrite Lk.
  unfold start_advertisement in H. unfold left_connected. destruct (se_connected e) as [c|err]; [|done]. destruct (_ && _).
  - injection H as <-. rewrite R0. auto.
  - pose proof (setAdvertisement_spec sv true (se_advertise e)) as S.
    destruct (setAdvertisement sv true (se_advertise e)) as [[[]|err] sv1]; [|done]. injection H as <-. destruct S as [-> _]. auto.
Qed.

(** C27.  The targeted advertisement is not lost: from a successful start, over
    every run of the serving loop beside BlueZ (the phone's link going up and down, its signals arriving later, holds and their
    release, rearm requests, transport signals), whenever the loop has taken every signal of the link, BlueZ does not have the advertisement while the phone is
    connected, and if it does not have it then the phone is connected, a
    hold is in force, a rearm request is queued, or BlueZ has dropped the advertisement by itself since it
    accepted it, the one case in which nothing brings it back while the phone is away. *)
Theorem advertisement_never_lost e sv r1 r2 :
  svRegistered sv = false -> starts e sv r1 -> rtc adv_step r1 r2 -> raSignals r2 = [] -> advertises r2.
Proof.
  intros R0 HS HR Q. apply in_step_advertises; [|done]. apply start_in_step in HS; [|done]. clear Q. induction HR as [|x y z H1 _ IH]; [done|].
  by eapply IH, adv_step_keeps.
Qed.

(** A hold is respected: no turn of the loop, whatever arrives, starts the
    advertisement while it is held. *)
Theorem hold_respected sv ev sv' next r :
  bAdvertisementHold (svBroker sv) = true -> serve_turn sv ev = (sv', next, r) ->
  svRegistered sv' = true -> svRegistered sv = true.
Proof.
  intros HH H HR. destruct r as [r|].
  - destruct ev as [|e|[c|e] reply| |[sg|] reply]; cbn [serve_turn] in H; try (by injection H as <- _ _).
    + unfold advertisementHeld in H. cbn in H. rewrite HH, orb_true_r in H. discriminate H.
    + destruct (bluezNameLost (Some sg)); [by injection H as <- _ _|].
      destruct (leBearerConnectionChanged (Some sg) (svDevice sv)) as [[|]|].
      * pose proof (setAdvertisement_spec sv false reply) as S.
        destruct (setAdvertisement sv false reply) as [[[]|e] sv1]; [discriminate H|].
        injection H as <- _ _. by subst.
      * unfold handleLEBearerDisconnected, advertisementHeld in H. pose proof (requestActive_adv (svBroker sv)) as A.
        destruct (requestActiveSessionRelease (svBroker sv)) as [i b]. cbn in A. injection A as AH _.
        rewrite AH, HH in H. discriminate H.
      * destruct (handleSignal (svBroker sv) (Some sg)). discriminate H.
  - pose proof (serve_turn_spec _ _ _ _ H) as S. destruct ev as [|e|[c|e] reply| |sg reply]; try done.
    + destruct S as [_ S]. rewrite HH, orb_true_r in S. congruence.
    + destruct S as [_ S]. rewrite HH in S. destruct (leBearerConnectionChanged sg (svDevice sv)) as [[|]|]; congruence.
Qed.

(** ** Where the advertisement and the hold part ways *)

(** When BlueZ itself releases the advertisement, the loop does not notice:
    [Release] clears the status flags but not [advertisementRegistered], so at the
    next disconnect of the phone the loop goes on without registering anything
    ([reply] is never used) and the broker stays silent. *)
Theorem released_advertisement_not_rearmed sv sg reply :
  svRegistered sv = true -> bAdvertisementHold (svBroker sv) = false ->
  bluezNameLost (Some sg) = false -> leBearerConnectionChanged (Some sg) (svDevice sv) = Some false ->
  let sv1 := sv <| svBroker := advertisement_Release (svBroker sv) |> in
  exists sv2 next, serve_turn sv1 (SvSignal (Some sg) reply) = (sv2, next, None) /\
    bAdvertising (svBroker sv2) = false /\ bDiscoverable (svBroker sv2) = false.
Proof.
  intros HR HH HN HL sv1. unfold serve_turn. rewrite HN. change (svDevice sv1) with (svDevice sv). rewrite HL.
  unfold handleLEBearerDisconnected, requestActiveSessionRelease, requestSpecificSessionRelease, advertisementHeld.
  destruct (bActiveSession (svBroker sv1)) as [i|]; [destruct (open_session (svBroker sv1) i) as [s|]|]; cbn;
    rewrite HH; unfold setAdvertisement; cbn; rewrite HR; cbn; by eexists _, _.
Qed.

(** A hold does not survive a restart of the loop: when BlueZ comes back while
    a hold is in force and the phone is away, the advertisement is started. *)
Theorem restart_ignores_hold e sv :
  se_connected e = Ok false -> se_advertise e = Ok tt -> svRegistered sv = false ->
  bAdvertisementHold (svBroker sv) = true ->
  exists sv', start_advertisement e sv = (Ok tt, sv') /\
    svRegistered sv' = true /\ bAdvertising (svBroker sv') = true /\ bAdvertisementHold (svBroker sv') = true.
Proof.
  intros H1 H2 H3 H4. unfold start_advertisement. rewrite H1. cbn [andb]. unfold setAdvertisement.
  rewrite H3, H2. cbn. by eexists.
Qed.

(** ** Witnesses *)
Definition demo_serve : serve := mkServe demo_broker (str "/dev") false.
Definition demo_setup : setup_env := mkSetupEnv (Ok 1) true (Ok []) [] [] (Ok false) (Ok tt) [] (Ok tt).
Definition link_signal (connected : bool) : dbus_signal :=
  mkSignal propertiesChanged (str "/dev") [SAString leBearerInterface; SADict {[ "Connected" := SVBool connected ]}].
Definition serve_after (sv : serve) (ev : serve_event) : serve := (serve_turn sv ev).1.1.

(** The phone connects, the handset answers, the phone drops off, the call ends. *)
Definition demo_v1 : serve := (start_advertisement demo_setup demo_serve).2.
Definition demo_v2 : serve := serve_after demo_v1 (SvSignal (Some (link_signal true)) (Ok tt)).
Definition demo_v3 : serve := demo_v2 <| svBroker := HoldAdvertisement (svBroker demo_v2) true |>.
Definition demo_v4 : serve := serve_after demo_v3 (SvSignal (Some (link_signal false)) (Ok tt)).
Definition demo_v5 : serve := demo_v4 <| svBroker := HoldAdvertisement (svBroker demo_v4) false |>.

Lemma signal_eq r r' connected rest sg reply sv next :
  raSignals r = connected :: rest -> leBearerConnectionChanged sg (svDevice (raServe r)) = Some connected ->
  serve_turn (raServe r) (SvSignal sg reply) = (sv, next, None) -> r' = (after_turn r sv) <| raSignals := rest |> -> adv_step r r'.
Proof. intros S L T ->. by eapply as_signal. Qed.
Lemma advertisement_never_lost_witness :
  bAdvertisementHold (svBroker demo_v4) = true /\ advertises (mkRadio demo_v5 false [] false false).
Proof.
  split; [vm_compute; reflexivity|].
  apply (advertisement_never_lost demo_setup demo_serve (mkRadio demo_v1 false [] true false) (mkRadio demo_v5 false [] false false)).
  - reflexivity.
  - repeat split.
  - apply (rtc_l _ _ (mkRadio demo_v1 true [true] true false)); [by apply (as_link (mkRadio demo_v1 false [] true false) true)|].
    apply (rtc_l _ _ (mkRadio demo_v2 true [] false false));
      [eapply (signal_eq _ _ true [] (Some (link_signal true)) (Ok tt)); vm_compute; reflexivity|].
    apply (rtc_l _ _ (mkRadio demo_v3 true [] false false)); [apply (as_hold (mkRadio demo_v2 true [] false false) true)|].
    apply (rtc_l _ _ (mkRadio demo_v3 false [false] false false)); [by apply (as_link (mkRadio demo_v3 true [] false false) false)|].
    apply (rtc_l _ _ (mkRadio demo_v4 false [] false false));
      [eapply (signal_eq _ _ false [] (Some (link_signal false)) (Ok tt)); vm_compute; reflexivity|].
    apply (rtc_l _ _ (mkRadio demo_v5 false [] false false)); [apply (as_hold (mkRadio demo_v4 false [] false false) false)|apply rtc_refl].
  - reflexivity.
Defined.

Lemma hold_respected_witness : svRegistered demo_v4 = true -> svRegistered demo_v3 = true.
Proof.
  destruct (serve_turn demo_v3 (SvSignal (Some (link_signal false)) (Ok tt))) as [[sv' next] r] eqn:E.
  intros H. apply (hold_respected demo_v3 (SvSignal (Some (link_signal false)) (Ok tt)) sv' next r).
  - vm_compute. reflexivity.
  - exact E.
  - unfold demo_v4, serve_after in H. rewrite E in H. exact H.
Defined.

Lemma released_advertisement_witness :
  exists sv2 next,
    serve_turn (demo_v1 <| svBroker := advertisement_Release (svBroker demo_v1) |>)
      (SvSignal (Some (link_signal false)) (Ok tt)) = (sv2, next, None) /\
    bAdvertising (svBroker sv2) = false /\ bDiscoverable (svBroker sv2) = false.
Proof. apply released_advertisement_not_rearmed; vm_compute; reflexivity. Defined.

Lemma restart_ignores_hold_witness :
  exists sv', start_advertisement demo_setup
      (demo_serve <| svBroker := HoldAdvertisement demo_broker true |>) = (Ok tt, sv') /\
    svRegistered sv' = true /\ bAdvertising (svBroker sv') = true /\ bAdvertisementHold (svBroker sv') = true.
Proof. apply restart_ignores_hold; vm_compute; reflexivity. Defined.
