(* ===== verification/GoText.v ===== *)
(** * Text in Go: UTF-8 strings, cutting and splitting, numbers and lines

    What the SMS bridge uses of [unicode/utf8], [strings], [strconv], [encoding/hex]
    and [bufio.Scanner], beyond what [GoStd] has.  A string is its bytes. *)

From S2P Require Import Prelude GoStd.

(** ** Runes to bytes *)

(** [utf8.AppendRune]: surrogates and out-of-range values become U+FFFD. *)
Definition valid_rune (r : Z) : bool :=
  (0 <=? r) && (r <? 0xd800) || (0xe000 <=? r) && (r <=? 0x10ffff).
Definition encode_rune (r : Z) : bytes :=
  let r := if valid_rune r then r else RuneError in
  if r <? 0x80 then [r]
  else if r <? 0x800 then [0xc0 + r / 64; 0x80 + r mod 64]
  else if r <? 0x10000 then [0xe0 + r / 4096; 0x80 + r / 64 mod 64; 0x80 + r mod 64]
  else [0xf0 + r / 262144; 0x80 + r / 4096 mod 64; 0x80 + r / 64 mod 64; 0x80 + r mod 64].

(** [string([]rune)]. *)
Definition string_of_runes (rs : list Z) : bytes := rs ≫= encode_rune.

(** [utf8.RuneLen] of a rune that was decoded (never a surrogate). *)
Definition RuneLen (r : Z) : Z :=
  if valid_rune r then
    if r <? 0x80 then 1 else if r <? 0x800 then 2 else if r <? 0x10000 then 3 else 4
  else -1.

(** A string is valid UTF-8 when re-encoding its runes gives it back. *)
Definition valid_utf8 (s : bytes) : bool := bool_decide (string_of_runes (runes s) = s).

(** ** Case *)

(** The runes other than ASCII letters that lower or fold to an ASCII letter are the
    dotted capital I, the long s and the Kelvin sign; comparing with ASCII text needs
    no other case. *)
Definition lower_rune (r : Z) : Z :=
  if is_upper r then r + 32 else if r =? 0x130 then 0x69 else if r =? 0x212a then 0x6b else r.
Definition fold_rune (r : Z) : Z :=
  if is_upper r then r + 32 else if r =? 0x17f then 0x73 else if r =? 0x212a then 0x6b else r.
Definition ToLowerText (s : bytes) : bytes := string_of_runes (lower_rune <$> runes s).
Definition EqualFoldText (s t : bytes) : bool :=
  bool_decide (fold_rune <$> runes s = fold_rune <$> runes t).

(** ** Cutting and splitting *)

(** [strings.Index]. *)
Fixpoint Index (s sub : bytes) : option nat :=
  if HasPrefix s sub then Some 0%nat
  else match s with [] => None | _ :: s => S <$> Index s sub end.

(** [strings.Cut] at a byte. *)
Definition CutByte (s : bytes) (c : Z) : option (bytes * bytes) :=
  match IndexByte s c with Some i => Some (take i s, drop (S i) s) | None => None end.

(** [strings.Split] at a byte, and [strings.Join]. *)
Fixpoint SplitByte (s : bytes) (c : Z) : list bytes :=
  match s with
  | [] => [[]]
  | b :: s => if b =? c then [] :: SplitByte s c
              else match SplitByte s c with
                   | part :: parts => (b :: part) :: parts
                   | [] => [[b]]
                   end
  end.
Fixpoint Join (parts : list bytes) (sep : bytes) : bytes :=
  match parts with
  | [] => []
  | [part] => part
  | part :: parts => part ++ sep ++ Join parts sep
  end.

(** [strings.FieldsFunc] for a predicate on ASCII bytes: the non-empty pieces. *)
Definition FieldsFunc (f : Z -> bool) (s : bytes) : list bytes :=
  filter (fun p => p <> []) (SplitByte ((fun c => if f c then 0 - 1 else c) <$> s) (0 - 1)).

(** [strings.Trim] and its one-sided forms for a set of ASCII bytes. *)
Fixpoint TrimLeftSet (f : Z -> bool) (s : bytes) : bytes :=
  match s with c :: s' => if f c then TrimLeftSet f s' else s | [] => [] end.
Definition TrimRightSet (f : Z -> bool) (s : bytes) : bytes := rev (TrimLeftSet f (rev s)).

(** [ReplaceAll(s, "\r\n", "\n")] and then [ReplaceAll(s, "\r", "\n")]. *)
Fixpoint crlf_to_lf (s : bytes) : bytes :=
  match s with
  | a :: (b :: s'') as s' => if (a =? 13) && (b =? 10) then 10 :: crlf_to_lf s'' else a :: crlf_to_lf s'
  | _ => s
  end.
Definition unix_lines (s : bytes) : bytes := replace_byte (crlf_to_lf s) 13 10.

(** ** Numbers *)

Fixpoint digits_value (s : bytes) (n : Z) : option Z :=
  match s with
  | [] => Some n
  | c :: s => if is_digit c then digits_value s (10 * n + (c - 48)) else None
  end.

(** [strconv.Atoi]: an optional sign and at least one digit, within [int]. *)
Definition Atoi (s : bytes) : option Z :=
  let '(neg, ds) := match s with
                    | 43 :: ds => (false, ds)
                    | 45 :: ds => (true, ds)
                    | _ => (false, s)
                    end in
  match ds with
  | [] => None
  | _ => n ← digits_value ds 0;
         let n := if neg : bool then - n else n in
         if (n <? - 2 ^ 63) || (2 ^ 63 - 1 <? n) then None else Some n
  end.

(** Decimal digits of a natural number, most significant first. *)
Fixpoint decimal_loop (fuel : nat) (n : Z) (acc : bytes) : bytes :=
  match fuel with
  | O => acc
  | S fuel => if n <=? 0 then acc else decimal_loop fuel (n / 10) (48 + n mod 10 :: acc)
  end.
Definition decimal (n : Z) : bytes :=
  if n =? 0 then [48] else decimal_loop (S (Z.to_nat (Z.log2 n))) n [].
(** [strconv.Itoa]. *)
Definition Itoa (n : Z) : bytes := if n <? 0 then 45 :: decimal (- n) else decimal n.

(** [strconv.ParseUint(part, 16, 8)] of a two-character part. *)
Definition parse_hex_octet (part : bytes) : option Z :=
  match part with
  | [a; b] => x ← hex_digit a; y ← hex_digit b; Some (16 * x + y)
  | _ => None
  end.

(** [hex.EncodeToString]. *)
Definition hex_string (s : bytes) : bytes := s ≫= hex_pair.

(** ** Lines *)

(** [bufio.ScanLines]: lines without their newline and one carriage return before
    it; a last line without newline counts when it is not empty.  A line of [maximum]
    bytes or more stops the scan with an error, kept as the second component. *)
Definition drop_cr (s : bytes) : bytes :=
  match rev s with 13 :: r => rev r | _ => s end.
Fixpoint scan_lines (pending : list bytes) (maximum : Z) : list bytes * bool :=
  match pending with
  | [] => ([], true)
  | [last] => if len last <? maximum then (match last with [] => [] | _ => [drop_cr last] end, true)
              else ([], false)
  | line :: rest => if len line <? maximum
                    then let '(lines, ok) := scan_lines rest maximum in (drop_cr line :: lines, ok)
                    else ([], false)
  end.
Definition ScanLines (data : bytes) (maximum : Z) : list bytes * bool :=
  scan_lines (SplitByte data 10) maximum.

(** ** Facts: UTF-8 *)

Lemma valid_rune_spec r : valid_rune r = true <-> (0 <= r < 0xd800 \/ 0xe000 <= r <= 0x10ffff).
Proof. unfold valid_rune. rewrite orb_true_iff, !andb_true_iff, !Z.leb_le, !Z.ltb_lt. lia. Qed.

Ltac euclid := Z.to_euclidean_division_equations; lia.

Lemma in_range_true lo c hi : lo <= c <= hi -> in_range lo c hi = true.
Proof. by rewrite in_range_spec. Qed.
Lemma in_range_false lo c hi : ~ (lo <= c <= hi) -> in_range lo c hi = false.
Proof. intros H. apply not_true_iff_false. by rewrite in_range_spec. Qed.

Lemma lead_class_2 b : 0xC2 <= b <= 0xDF -> lead_class b = Some (2%nat, 0x80, 0xBF).
Proof. intros H. unfold lead_class. by rewrite in_range_true. Qed.
Lemma lead_class_3 b : 0xE0 <= b <= 0xEF ->
  exists lo hi, lead_class b = Some (3%nat, lo, hi) /\
    lo = (if b =? 0xE0 then 0xA0 else 0x80) /\ hi = (if b =? 0xED then 0x9F else 0xBF).
Proof.
  intros H. unfold lead_class. rewrite in_range_false by lia.
  destruct (Z.eqb_spec b 0xE0) as [->|]; [by repeat eexists|].
  destruct (Z.eqb_spec b 0xED) as [->|]; [by repeat eexists|].
  rewrite in_range_true by lia. by repeat eexists.
Qed.
Lemma lead_class_4 b : 0xF0 <= b <= 0xF4 ->
  exists lo hi, lead_class b = Some (4%nat, lo, hi) /\
    lo = (if b =? 0xF0 then 0x90 else 0x80) /\ hi = (if b =? 0xF4 then 0x8F else 0xBF).
Proof.
  intros H. unfold lead_class. rewrite in_range_false by lia.
  rewrite !(proj2 (Z.eqb_neq b _)) by lia. rewrite in_range_false by lia.
  destruct (Z.eqb_spec b 0xF0) as [->|]; [by repeat eexists|].
  destruct (Z.eqb_spec b 0xF4) as [->|]; [by repeat eexists|].
  rewrite in_range_true by lia. by repeat eexists.
Qed.

(** Decoding an encoded rune. *)
Lemma DecodeRune_encode r rest :
  valid_rune r = true -> DecodeRune (encode_rune r ++ rest) = (r, length (encode_rune r)).
Proof.
  intros Hv. unfold encode_rune. rewrite Hv. apply valid_rune_spec in Hv.
  destruct (Z.ltb_spec r 0x80); [apply DecodeRune_ascii; unfold RuneSelf; lia|].
  destruct (Z.ltb_spec r 0x800).
  { unfold DecodeRune. cbn [app]. rewrite (proj2 (Z.ltb_ge _ _)) by (unfold RuneSelf; euclid).
    rewrite lead_class_2 by euclid. rewrite in_range_true by euclid.
    destruct rest as [|? [|? ?]]; cbn [length]; f_equal; euclid. }
  destruct (Z.ltb_spec r 0x10000).
  - unfold DecodeRune. cbn [app]. rewrite (proj2 (Z.ltb_ge _ _)) by (unfold RuneSelf; euclid).
    destruct (lead_class_3 (0xe0 + r / 4096)) as (lo & hi & -> & -> & ->); [euclid|].
    unfold cont. rewrite !in_range_true; [destruct rest as [|? ?]; cbn [length andb]; f_equal; euclid|euclid|].
    destruct (Z.eqb_spec (224 + r / 4096) 224), (Z.eqb_spec (224 + r / 4096) 237); euclid.
  - unfold DecodeRune. cbn [app]. rewrite (proj2 (Z.ltb_ge _ _)) by (unfold RuneSelf; euclid).
    destruct (lead_class_4 (0xf0 + r / 262144)) as (lo & hi & -> & -> & ->); [euclid|].
    unfold cont. rewrite !in_range_true; [cbn [length andb]; f_equal; euclid|euclid|euclid|].
    destruct (Z.eqb_spec (240 + r / 262144) 240), (Z.eqb_spec (240 + r / 262144) 244); euclid.
Qed.

Lemma encode_rune_bytes r : all_bytes (encode_rune r).
Proof.
  unfold encode_rune. assert (exists r', (if valid_rune r then r else RuneError) = r' /\ 0 <= r' <= 0x10ffff) as (r' & -> & H).
  { destruct (valid_rune r) eqn:E; eexists; (split; [done|]); [apply valid_rune_spec in E; lia|done]. }
  repeat case_match; bool_prop; repeat (apply Forall_cons; split); try apply Forall_nil; try done;
    unfold in_width; change (2 ^ 8) with 256; euclid.
Qed.

Lemma encode_rune_width r : valid_rune r = true -> len (encode_rune r) = RuneLen r.
Proof. intros H. unfold encode_rune, RuneLen. rewrite H. repeat case_match; done. Qed.

Lemma encode_rune_pos r : (1 <= length (encode_rune r) <= 4)%nat.
Proof. unfold encode_rune. repeat case_match; cbn; lia. Qed.

Lemma lead_class_inv b0 size lo hi :
  lead_class b0 = Some (size, lo, hi) ->
  (size = 2%nat /\ 0xC2 <= b0 <= 0xDF /\ 0x80 <= lo /\ hi <= 0xBF) \/
  (size = 3%nat /\ 0xE0 <= b0 <= 0xEF /\ 0x80 <= lo /\ hi <= 0xBF /\ (b0 = 0xE0 -> 0xA0 <= lo) /\ (b0 = 0xED -> hi <= 0x9F)) \/
  (size = 4%nat /\ 0xF0 <= b0 <= 0xF4 /\ 0x80 <= lo /\ hi <= 0xBF /\ (b0 = 0xF0 -> 0x90 <= lo) /\ (b0 = 0xF4 -> hi <= 0x8F)).
Proof.
  unfold lead_class. intros H.
  repeat (split_if_in H; [injection H as <- <- <-; range_prop; lia|]). discriminate.
Qed.

(** Decoding bytes gives a valid rune. *)
Lemma DecodeRune_valid p : all_bytes p -> valid_rune (DecodeRune p).1 = true.
Proof.
  intros Hb. destruct p as [|b0 p]; [done|]. apply Forall_cons in Hb as [H0 _].
  unfold in_width in H0. unfold DecodeRune.
  destruct (Z.ltb_spec b0 RuneSelf); [apply valid_rune_spec; unfold RuneSelf in *; simpl; lia|].
  destruct (lead_class b0) as [[[size lo] hi]|] eqn:E; [|done]. apply lead_class_inv in E.
  destruct p as [|b1 [|b2 [|b3 p]]], size as [|[|[|[|[|size]]]]]; try done;
    repeat case_match; try done; cbn [fst]; range_prop; apply valid_rune_spec; lia.
Qed.

Lemma runes_loop_valid fuel s : all_bytes s -> Forall (fun r => valid_rune r = true) (runes_loop fuel s).
Proof.
  revert s. induction fuel as [|fuel IH]; intros s Hs; [constructor|]. cbn [runes_loop].
  destruct s as [|b s]; [constructor|]. pose proof (DecodeRune_valid _ Hs) as Hv.
  destruct (DecodeRune (b :: s)) as [r size]. constructor; [done|]. by apply IH, Forall_drop.
Qed.
Lemma runes_valid s : all_bytes s -> Forall (fun r => valid_rune r = true) (runes s).
Proof. apply runes_loop_valid. Qed.

(** Fuel beyond the length changes nothing. *)
Lemma runes_loop_fuel s n m :
  all_bytes s -> (length s <= n)%nat -> (length s <= m)%nat -> runes_loop n s = runes_loop m s.
Proof.
  revert s m. induction n as [|n IH]; intros s m Hs Hn Hm.
  { destruct s; [|simpl in Hn; lia]. by destruct m. }
  destruct s as [|b s]; [by destruct m|]. destruct m as [|m]; [simpl in Hm; lia|]. cbn [runes_loop].
  pose proof (DecodeRune_size (b :: s) ltac:(done) Hs) as Hz.
  destruct (DecodeRune (b :: s)) as [r size]. cbn in Hz, Hn, Hm. f_equal.
  apply IH; [by apply Forall_drop|rewrite length_drop; cbn; lia..].
Qed.

Lemma runes_cons r s :
  valid_rune r = true -> all_bytes s -> runes (encode_rune r ++ s) = r :: runes s.
Proof.
  intros Hv Hs. unfold runes. rewrite length_app. pose proof (encode_rune_pos r) as Hp.
  pose proof (DecodeRune_encode r s Hv) as HD.
  destruct (length (encode_rune r) + length s)%nat as [|n] eqn:E; [lia|]. cbn [runes_loop].
  destruct (encode_rune r ++ s) as [|b p] eqn:Ep; [destruct (encode_rune r); cbn in Hp; [lia|discriminate]|].
  rewrite HD, <- Ep, drop_app_length. f_equal. apply runes_loop_fuel; [done|lia..].
Qed.

Lemma string_of_runes_bytes rs : all_bytes (string_of_runes rs).
Proof. induction rs as [|r rs IH]; [constructor|]. apply Forall_app. split; [apply encode_rune_bytes|done]. Qed.

Lemma runes_string_app rs s :
  Forall (fun r => valid_rune r = true) rs -> all_bytes s -> runes (string_of_runes rs ++ s) = rs ++ runes s.
Proof.
  intros H Hs. induction H as [|r rs Hr H IH]; [done|].
  unfold string_of_runes. cbn [mbind list_bind app]. fold (string_of_runes rs). rewrite <- app_assoc.
  rewrite runes_cons; [by rewrite IH|done|]. apply Forall_app. split; [apply string_of_runes_bytes|done].
Qed.

Lemma runes_string rs : Forall (fun r => valid_rune r = true) rs -> runes (string_of_runes rs) = rs.
Proof. intros H. rewrite <- (app_nil_r (string_of_runes rs)), runes_string_app by (done || constructor). apply app_nil_r. Qed.

Lemma string_of_runes_app a b : string_of_runes (a ++ b) = string_of_runes a ++ string_of_runes b.
Proof. apply bind_app. Qed.

#[export] Hint Resolve encode_rune_bytes string_of_runes_bytes : go.

(** ASCII text is its own list of runes. *)
Lemma runes_ascii s : Forall (fun c => 0 <= c < RuneSelf) s -> runes s = s.
Proof.
  unfold runes. induction 1 as [|c s Hc H IH]; [done|]. cbn [length runes_loop].
  rewrite DecodeRune_ascii by done. cbn [drop]. rewrite drop_0. by rewrite IH.
Qed.

Lemma is_digit_spec c : is_digit c = true <-> 48 <= c <= 57.
Proof. apply in_range_spec. Qed.

Lemma digits_ascii s : Forall (fun c => is_digit c = true) s -> Forall (fun c => 0 <= c < RuneSelf) s.
Proof. intros H. eapply Forall_impl; [done|]. intros c Hc. apply is_digit_spec in Hc. unfold RuneSelf. lia. Qed.

Lemma digits_bytes s : Forall (fun c => is_digit c = true) s -> all_bytes s.
Proof. intros H. eapply Forall_impl; [done|]. intros c Hc. apply is_digit_spec in Hc. unfold in_width. lia. Qed.

Lemma forallb_Forall_true {A} (f : A -> bool) l : forallb f l = true <-> Forall (fun x => f x = true) l.
Proof.
  rewrite forallb_forall, Forall_forall. split; intros E x Hx; apply E; by apply list_elem_of_In.
Qed.

Lemma index_where_Forall f s : index_where f s = None -> Forall (fun c => f c = false) s.
Proof.
  induction s as [|c s IH]; cbn [index_where]; [constructor|]. destruct (f c) eqn:E; [done|].
  destruct (index_where f s); [done|]. constructor; auto.
Qed.

(** Digits are visible: nothing to trim around them. *)
Lemma digit_visible c : is_digit c = true -> 0 <= c < RuneSelf /\ IsSpace c = false.
Proof.
  intros H. apply is_digit_spec in H. split; [unfold RuneSelf; lia|]. unfold IsSpace.
  rewrite !in_range_false by lia. repeat (rewrite (proj2 (Z.eqb_neq _ _)) by lia). done.
Qed.

(** ** Facts: searching *)

(** Two strings differ at a position both have. *)
Fixpoint mismatch (p sub : bytes) : bool :=
  match p, sub with
  | a :: p, b :: sub => negb (a =? b) || mismatch p sub
  | _, _ => false
  end.
(** No occurrence of [sub] can start inside [p], whatever follows. *)
Fixpoint clear_of (p sub : bytes) : bool :=
  match p with [] => true | _ :: p' => mismatch p sub && clear_of p' sub end.

Lemma mismatch_HasPrefix p s sub : mismatch p sub = true -> HasPrefix (p ++ s) sub = false.
Proof.
  revert sub. induction p as [|a p IH]; intros [|b sub] H; try done. cbn [mismatch app HasPrefix] in *.
  rewrite (Z.eqb_sym b a). revert H. destruct (a =? b); [apply IH|done].
Qed.

Lemma Index_clear p s sub : clear_of p sub = true -> Index (p ++ s) sub = (fun n => length p + n)%nat <$> Index s sub.
Proof.
  induction p as [|a p IH]; cbn [clear_of]; intros H; [cbn [app]; by destruct (Index s sub)|]. bool_prop.
  assert (HasPrefix ((a :: p) ++ s) sub = false) as E by (by apply mismatch_HasPrefix).
  cbn [app Index] in *. rewrite E, IH by done. by destruct (Index s sub).
Qed.

Lemma clear_of_first p b sub : Forall (fun c => c <> b) p -> clear_of p (b :: sub) = true.
Proof. induction 1 as [|c p Hc F IH]; [done|]. cbn. by rewrite (proj2 (Z.eqb_neq c b) Hc), IH. Qed.
Lemma clear_of_app p q sub : clear_of p sub = true -> clear_of q sub = true -> clear_of (p ++ q) sub = true.
Proof.
  induction p as [|a p IH]; intros Hp Hq; [done|]. cbn [clear_of app] in *. bool_prop. rewrite IH, andb_true_r by done.
  clear -H. revert sub H. induction p as [|b p IHp] in a |- *; intros [|x sub] H; cbn in *; try done.
  - by destruct (negb (a =? x)).
  - apply orb_true_iff in H as [-> | H]; [done|]. rewrite (IHp b sub H). apply orb_true_r.
Qed.

Lemma Index_here sub s : Index (sub ++ s) sub = Some 0%nat.
Proof.
  assert (HasPrefix (sub ++ s) sub = true) as E.
  { induction sub as [|b sub IH]; [by destruct s|]. cbn. by rewrite Z.eqb_refl. }
  destruct (sub ++ s); cbn [Index] in *; by rewrite E.
Qed.

(** Where a prefix of a concatenation comes from. *)
Lemma HasPrefix_app_inv u s sub :
  HasPrefix (u ++ s) sub = true -> HasPrefix u sub = true \/ exists w, sub = u ++ w /\ w <> [] /\ HasPrefix s w = true.
Proof.
  revert sub. induction u as [|a u IH]; intros sub H.
  - destruct sub as [|b sub]; [by left|]. right. exists (b :: sub). done.
  - destruct sub as [|b sub]; [by left|]. cbn [app HasPrefix] in *. bool_prop. subst b.
    match goal with E : HasPrefix _ _ = true |- _ => apply IH in E as [E | (w & -> & N & E)] end.
    + left. by rewrite Z.eqb_refl.
    + right. by exists w.
Qed.

(** The first occurrence of a marker whose first byte does not come back in it. *)
Lemma Index_first u b tail t :
  Contains u (b :: tail) = false -> Forall (fun c => c <> b) tail ->
  Index (u ++ (b :: tail) ++ t) (b :: tail) = Some (length u).
Proof.
  intros C F. induction u as [|a u IH]; [apply (Index_here (b :: tail))|].
  cbn [Contains] in C. bool_prop. specialize (IH ltac:(done)).
  assert (HasPrefix ((a :: u) ++ (b :: tail) ++ t) (b :: tail) = false) as E.
  { apply not_true_iff_false. intros E. apply HasPrefix_app_inv in E as [E | (w & E & N & P)]; [congruence|].
    injection E as -> ->. apply Forall_app in F as [_ F]. destruct w as [|x w]; [done|].
    cbn [app HasPrefix] in P. bool_prop. subst x. by apply Forall_cons in F as [F _]. }
  cbn [app Index] in *. rewrite E, IH. done.
Qed.

(** ** Facts: line ends *)
Lemma crlf_to_lf_app s t : crlf_to_lf (s ++ 13 :: 10 :: t) = crlf_to_lf s ++ 10 :: crlf_to_lf t.
Proof.
  induction s as [s IH] using (induction_ltof1 _ (@length Z)). unfold ltof in IH.
  destruct s as [|a [|b s]]; [done| |].
  - cbn [app]. destruct (a =? 13) eqn:E.
    + apply Z.eqb_eq in E as ->. done.
    + cbn. by rewrite E.
  - cbn [app crlf_to_lf]. destruct ((a =? 13) && (b =? 10)).
    + cbn [app]. f_equal. apply IH. cbn. lia.
    + cbn [app]. f_equal. apply (IH (b :: s)). cbn. lia.
Qed.
Lemma unix_lines_app s t : unix_lines (s ++ [13; 10] ++ t) = unix_lines s ++ [10] ++ unix_lines t.
Proof. unfold unix_lines, replace_byte. cbn [app]. by rewrite crlf_to_lf_app, fmap_app. Qed.
Lemma unix_lines_plain s : Forall (fun c => c <> 13) s -> unix_lines s = s.
Proof.
  intros F. unfold unix_lines, replace_byte.
  assert (crlf_to_lf s = s) as ->.
  { induction F as [|a s Ha F IH]; [done|]. cbn. destruct s as [|b s]; [done|]. rewrite (proj2 (Z.eqb_neq _ _) Ha). cbn [andb]. by rewrite IH. }
  induction F as [|a s Ha F IH]; [done|]. cbn. rewrite (proj2 (Z.eqb_neq a 13) Ha), IH. done.
Qed.
(** One line of a message built with carriage returns. *)
Lemma unix_line l t : Forall (fun c => c <> 13) l -> unix_lines (l ++ [13; 10] ++ t) = l ++ [10] ++ unix_lines t.
Proof. intros F. by rewrite unix_lines_app, (unix_lines_plain l F). Qed.

(** ** Facts: decimal text *)
Lemma decimal_loop_digits fuel n acc :
  Forall (fun c => is_digit c = true) acc -> Forall (fun c => is_digit c = true) (decimal_loop fuel n acc).
Proof.
  revert n acc. induction fuel as [|fuel IH]; intros n acc F; cbn [decimal_loop]; [done|].
  destruct (n <=? 0); [done|]. apply IH. constructor; [|done]. apply is_digit_spec.
  pose proof (Z.mod_pos_bound n 10 ltac:(lia)). lia.
Qed.
Lemma decimal_digits n : Forall (fun c => is_digit c = true) (decimal n).
Proof. unfold decimal. destruct (n =? 0); [by repeat constructor|]. apply decimal_loop_digits. constructor. Qed.

(** ** Facts: pieces of a text *)
Lemma SplitByte_cases s c :
  SplitByte s c = [s] \/ exists p t, s = p ++ c :: t /\ SplitByte s c = p :: SplitByte t c.
Proof.
  induction s as [|b s IH]; [by left|]. cbn [SplitByte]. destruct (Z.eqb_spec b c) as [->|N].
  - right. by exists [], s.
  - destruct IH as [-> | (p & t & -> & ->)]; [by left|]. right. by exists (b :: p), t.
Qed.
Lemma Join_SplitByte s c : Join (SplitByte s c) [c] = s.
Proof.
  induction s as [s IH] using (induction_ltof1 _ (@length Z)). unfold ltof in IH.
  destruct (SplitByte_cases s c) as [-> | (p & t & -> & ->)]; [done|].
  assert (Join (SplitByte t c) [c] = t) as E by (apply IH; rewrite length_app; cbn; lia).
  rewrite <- E at 2. by destruct (SplitByte_cases t c) as [-> | (q & u & -> & ->)].
Qed.
(** The last pieces joined again are an end of the text. *)
Lemma Join_drop_SplitByte s c k : exists j, Join (drop k (SplitByte s c)) [c] = drop j s.
Proof.
  revert s. induction k as [|k IH]; intros s; [exists 0%nat; by rewrite !drop_0, Join_SplitByte|].
  destruct (SplitByte_cases s c) as [-> | (p & t & -> & ->)].
  - exists (length s). rewrite drop_all. by destruct k.
  - cbn [drop]. destruct (IH t) as [j ->]. exists (S (length p + j))%nat.
    rewrite (cons_middle c), app_assoc. replace (S (length p + j)) with (length (p ++ [c]) + j)%nat by (rewrite length_app; cbn; lia).
    by rewrite <- drop_drop, drop_app_length.
Qed.
Lemma TrimLeftSet_suffix f s : exists k, TrimLeftSet f s = drop k s.
Proof.
  induction s as [|c s [k IH]]; cbn [TrimLeftSet]; [by exists 0%nat|]. destruct (f c); [by exists (S k)|by exists 0%nat].
Qed.
Lemma crlf_to_lf_keeps (P : Z -> Prop) s : P 10 -> Forall P s -> Forall P (crlf_to_lf s) /\ (length (crlf_to_lf s) <= length s)%nat.
Proof.
  intros P10. induction s as [s IH] using (induction_ltof1 _ (@length Z)). unfold ltof in IH. intros F.
  destruct s as [|a [|b s]]; [done|done|].
  change (crlf_to_lf (a :: b :: s)) with (if (a =? 13) && (b =? 10) then 10 :: crlf_to_lf s else a :: crlf_to_lf (b :: s)). apply Forall_cons in F as [Fa F]. destruct ((a =? 13) && (b =? 10)).
  - apply Forall_cons in F as [_ F]. destruct (IH s) as [G L]; [cbn; lia|done|]. split; [by constructor|cbn; lia].
  - destruct (IH (b :: s)) as [G L]; [cbn; lia|done|]. split; [by constructor|]. cbn [length] in *. lia.
Qed.
Lemma unix_lines_keeps (P : Z -> Prop) s : P 10 -> Forall P s -> Forall P (unix_lines s) /\ (length (unix_lines s) <= length s)%nat.
Proof.
  intros P10 F. destruct (crlf_to_lf_keeps P s P10 F) as [G L]. unfold unix_lines, replace_byte. rewrite length_fmap. split; [|done].
  apply Forall_fmap. eapply Forall_impl; [done|]. intros c Hc. cbn. by destruct (c =? 13).
Qed.

(** ** Scanning: the next byte, white space as JSON and XML have it *)
(** The text after a given byte, when it comes next. *)
Definition next_is (c : Z) (s : bytes) : option bytes := match s with d :: rest => if d =? c then Some rest else None | [] => None end.
Definition is_white (c : Z) : bool := (c =? 32) || (c =? 9) || (c =? 13) || (c =? 10).
Fixpoint skip_white (s : bytes) : bytes := match s with c :: rest => if is_white c then skip_white rest else s | [] => [] end.
Lemma next_is_hit c s : next_is c (c :: s) = Some s.
Proof. cbn. by rewrite Z.eqb_refl. Qed.
Lemma next_is_miss c d s : d <> c -> next_is c (d :: s) = None.
Proof. intros N. cbn. by rewrite (proj2 (Z.eqb_neq d c)). Qed.
Lemma next_is_spec c s rest : next_is c s = Some rest -> s = c :: rest.
Proof. unfold next_is. destruct s as [|d s]; [done|]. destruct (Z.eqb_spec d c) as [->|]; [|done]. by intros [= ->]. Qed.
Lemma skip_white_black c s : is_white c = false -> skip_white (c :: s) = c :: s.
Proof. intros E. cbn. by rewrite E. Qed.

(** ** Valid UTF-8 *)
Definition utf8 (s : bytes) : Prop := valid_utf8 s = true.
Lemma encode_ascii c : 0 <= c < RuneSelf -> encode_rune c = [c].
Proof.
  intros H. unfold RuneSelf in H. unfold encode_rune. assert (valid_rune c = true) as -> by (apply valid_rune_spec; lia).
  by rewrite (proj2 (Z.ltb_lt _ _)) by lia.
Qed.
Lemma utf8_bytes s : utf8 s -> all_bytes s.
Proof. intros E%bool_decide_eq_true. rewrite <- E. apply string_of_runes_bytes. Qed.
Lemma utf8_nil : utf8 [].
Proof. done. Qed.
Lemma utf8_encode r s : utf8 s -> utf8 (encode_rune r ++ s).
Proof.
  intros U. pose proof (utf8_bytes s U) as B. apply bool_decide_eq_true in U. apply bool_decide_eq_true.
  assert (exists r', encode_rune r = encode_rune r' /\ valid_rune r' = true) as (r' & -> & V).
  { destruct (valid_rune r) eqn:V; [by exists r|]. exists RuneError. split; [|done]. unfold encode_rune. by rewrite V. }
  rewrite runes_cons by done. unfold string_of_runes in *. cbn [mbind list_bind]. by rewrite U.
Qed.
Lemma utf8_ascii_cons c s : 0 <= c < RuneSelf -> utf8 s -> utf8 (c :: s).
Proof. intros Hc U. change (c :: s) with ([c] ++ s). rewrite <- (encode_ascii c Hc). by apply utf8_encode. Qed.
Lemma utf8_ascii s : Forall (fun c => 0 <= c < RuneSelf) s -> utf8 s.
Proof. induction 1; [done|]. by apply utf8_ascii_cons. Qed.

Lemma HasPrefix_split s q : HasPrefix s q = true -> exists r, s = q ++ r.
Proof.
  revert s. induction q as [|a q IH]; intros s; [by exists s|]. destruct s as [|b s]; [done|]. cbn [HasPrefix].
  intros H. bool_prop. subst. destruct (IH s) as [r ->]; [done|]. by exists r.
Qed.

(** What may not be in a path, a header or an action of the manager. *)
Lemma ContainsAny_controls v : ContainsAny v [0; 13; 10] = false <-> Forall (fun c => c <> 0 /\ c <> 13 /\ c <> 10) v.
Proof.
  unfold ContainsAny, IndexAny. induction v as [|c v IH]; [split; [constructor|done]|]. cbn [index_where]. rewrite Forall_cons, <- IH. cbn [existsb].
  destruct (c =? 0) eqn:E0, (c =? 13) eqn:E1, (c =? 10) eqn:E2; bool_prop; cbn [orb]; split; try done; try lia; try (intros [[? [? ?]] ?]; lia).
  - destruct (index_where _ v); [done|]. intros _. done.
  - destruct (index_where _ v); [by intros [_ ?]|done].
Qed.
