(* ===== verification/GoJson.v ===== *)
(** * JSON as [encoding/json] writes and reads it

    Strings, values and their text: the encoder (compact or indented, with or without HTML
    escaping), the decoder for any JSON text, and the rules by which a decoded object fills a
    struct.  What one writes the other reads back, with invalid UTF-8 in strings replaced.

    A number is kept as its literal, as the decoder does until it knows the field's type; a
    string with whether it was written without escapes, which [time.Time] asks of it. *)

From S2P Require Import Prelude GoStd GoText.

(** ** Strings *)
Definition quote_byte (html : bool) (c : Z) : bytes :=
  if (c =? 34) || (c =? 92) then [92; c]
  else if c =? 8 then str "\b" else if c =? 12 then str "\f"
  else if c =? 10 then str "\n" else if c =? 13 then str "\r" else if c =? 9 then str "\t"
  else if (c <? 32) || html && ((c =? 60) || (c =? 62) || (c =? 38)) then str "\u00" ++ hex_pair c
  else [c].
Fixpoint quote_loop (html : bool) (fuel : nat) (s : bytes) : bytes :=
  match fuel, s with
  | _, [] => []
  | O, _ => []
  | S fuel, c :: rest =>
      if c <? RuneSelf then quote_byte html c ++ quote_loop html fuel rest
      else
        let '(r, size) := DecodeRune s in
        if (r =? RuneError) && (size =? 1)%nat then str "\ufffd" ++ quote_loop html fuel rest
        else if (r =? 0x2028) || (r =? 0x2029) then str "\u202" ++ [48 + Z.land r 15] ++ quote_loop html fuel (drop size s)
        else take size s ++ quote_loop html fuel (drop size s)
  end.
Definition quote (html : bool) (s : bytes) : bytes := [34] ++ quote_loop html (length s) s ++ [34].

(** The four digits of [\u]. *)
Definition hex4 (s : bytes) : option (Z * bytes) :=
  match s with
  | a :: b :: c :: d :: rest =>
      a ← hex_digit a; b ← hex_digit b; c ← hex_digit c; d ← hex_digit d;
      Some (a * 4096 + b * 256 + c * 16 + d, rest)
  | _ => None
  end.
Definition simple_escape (e : Z) : option Z :=
  if (e =? 34) || (e =? 92) || (e =? 47) then Some e
  else if e =? 98 then Some 8 else if e =? 102 then Some 12 else if e =? 110 then Some 10
  else if e =? 114 then Some 13 else if e =? 116 then Some 9 else None.
Definition is_surrogate (r : Z) : bool := in_range 0xd800 r 0xdfff.
(** [utf16.DecodeRune]. *)
Definition surrogate_pair (r1 r2 : Z) : option Z :=
  if in_range 0xd800 r1 0xdbff && in_range 0xdc00 r2 0xdfff then Some ((r1 - 0xd800) * 1024 + (r2 - 0xdc00) + 0x10000) else None.
(** An escape after [\u]: a pair of surrogates is one rune, a lone one is replaced. *)
Definition escaped_rune (s : bytes) : option (Z * bytes) :=
  '(r, rest) ← hex4 s;
  if is_surrogate r then
    match (more ← next_is 92 rest; more ← next_is 117 more; '(r2, rest2) ← hex4 more; r ← surrogate_pair r r2; Some (r, rest2)) with
    | Some decoded => Some decoded
    | None => Some (RuneError, rest)
    end
  else Some (r, rest).
(** The string whose opening quote has been read, and what follows the closing one. *)
Fixpoint unquote (fuel : nat) (s : bytes) : option (bytes * bytes) :=
  match fuel with
  | O => None
  | S fuel =>
      match s with
      | [] => None
      | c :: rest =>
          if c =? 34 then Some ([], rest)
          else if c =? 92 then
            match rest with
            | [] => None
            | e :: rest =>
                if e =? 117 then
                  '(r, rest) ← escaped_rune rest; '(t, rest) ← unquote fuel rest; Some (encode_rune r ++ t, rest)
                else c ← simple_escape e; '(t, rest) ← unquote fuel rest; Some (c :: t, rest)
            end
          else if c <? 32 then None
          else if c <? RuneSelf then '(t, rest) ← unquote fuel rest; Some (c :: t, rest)
          else
            let '(r, size) := DecodeRune s in
            '(t, rest) ← unquote fuel (drop size s); Some (encode_rune r ++ t, rest)
      end
  end.

(** Invalid UTF-8 replaced. *)
Definition sanitize (s : bytes) : bytes := string_of_runes (runes s).

(** The text read when [rest] follows it; a string literal without escapes. *)
Definition text_before (s rest : bytes) : bytes := take (length s - length rest) s.
Definition plain (text : bytes) : bool := forallb (fun c => negb (c =? 92)) text.

(** ** Values *)
#[warnings="-register-all"]
Inductive json := JNull | JBool (b : bool) | JNum (literal : bytes) | JStr (s : bytes) (plain : bool) | JArr (items : list json) | JObj (fields : list (bytes * json)).

(** A line break and the indentation of a depth, in the indented form. *)
Definition gap (indent : bool) (depth : nat) : bytes := if indent then 10 :: replicate (2 * depth) 32 else [].
Definition colon (indent : bool) : bytes := if indent then [58; 32] else [58].
Fixpoint print (html indent : bool) (depth : nat) (v : json) : bytes :=
  match v with
  | JNull => str "null"
  | JBool b => if b then str "true" else str "false"
  | JNum literal => literal
  | JStr s _ => quote html s
  | JArr [] => [91; 93]
  | JArr items =>
      [91] ++
      (fix go items := match items with
        | [] => []
        | [v] => gap indent (S depth) ++ print html indent (S depth) v
        | v :: items => gap indent (S depth) ++ print html indent (S depth) v ++ [44] ++ go items
        end) items ++ gap indent depth ++ [93]
  | JObj [] => [123; 125]
  | JObj fields =>
      [123] ++
      (fix go fields := match fields with
        | [] => []
        | [(k, v)] => gap indent (S depth) ++ quote html k ++ colon indent ++ print html indent (S depth) v
        | (k, v) :: fields => gap indent (S depth) ++ quote html k ++ colon indent ++ print html indent (S depth) v ++ [44] ++ go fields
        end) fields ++ gap indent depth ++ [125]
  end.
(** [json.Marshal], [json.MarshalIndent] with two blanks, and an [Encoder] without HTML escaping. *)
Definition Marshal (v : json) : bytes := print true false 0 v.
Definition MarshalIndent (v : json) : bytes := print true true 0 v.
Definition Encode (v : json) : bytes := print false false 0 v ++ [10].

(** Parts of values. *)
Definition jstr (s : bytes) : json := JStr s true.
Definition jint (n : Z) : json := JNum (Itoa n).
Definition jlist (items : list json) : json := match items with [] => JNull | _ => JArr items end.

(** ** Reading *)
Fixpoint span_digits (s : bytes) : bytes * bytes :=
  match s with
  | c :: rest => if is_digit c then let '(ds, rest) := span_digits rest in (c :: ds, rest) else ([], s)
  | [] => ([], [])
  end.
(** A number: an optional minus, no superfluous leading zero, fraction and exponent with digits. *)
Definition lex_fraction (s : bytes) : option (bytes * bytes) :=
  match next_is 46 s with
  | Some rest => let '(ds, rest) := span_digits rest in if len ds =? 0 then None else Some (46 :: ds, rest)
  | None => Some ([], s)
  end.
Definition lex_exponent (s : bytes) : option (bytes * bytes) :=
  match s with
  | e :: rest =>
      if (e =? 101) || (e =? 69) then
        let '(sign, rest) := match rest with d :: more => if (d =? 43) || (d =? 45) then ([d], more) else ([], rest) | [] => ([], rest) end in
        let '(ds, rest) := span_digits rest in if len ds =? 0 then None else Some (e :: sign ++ ds, rest)
      else Some ([], s)
  | [] => Some ([], s)
  end.
Definition lex_number (s : bytes) : option (bytes * bytes) :=
  let '(sign, s) := match next_is 45 s with Some rest => ([45], rest) | None => ([], s) end in
  let '(whole, s) := match next_is 48 s with Some rest => ([48], rest) | None => span_digits s end in
  if len whole =? 0 then None
  else
    '(frac, s) ← lex_fraction s;
    '(expo, s) ← lex_exponent s;
    Some (sign ++ whole ++ frac ++ expo, s).
Definition maxNestingDepth : Z := 10000.

Fixpoint parse_value (fuel : nat) (depth : Z) (s : bytes) : option (json * bytes) :=
  match fuel with
  | O => None
  | S fuel =>
      match skip_white s with
      | [] => None
      | c :: rest =>
          if c =? 34 then '(t, more) ← unquote (length rest) rest; Some (JStr t (plain (text_before rest more)), more)
          else if c =? 91 then
            if maxNestingDepth <=? depth then None
            else match next_is 93 (skip_white rest) with
                 | Some rest => Some (JArr [], rest)
                 | None => '(items, rest) ← parse_items fuel (depth + 1) rest; Some (JArr items, rest)
                 end
          else if c =? 123 then
            if maxNestingDepth <=? depth then None
            else match next_is 125 (skip_white rest) with
                 | Some rest => Some (JObj [], rest)
                 | None => '(fields, rest) ← parse_fields fuel (depth + 1) rest; Some (JObj fields, rest)
                 end
          else if (c =? 45) || is_digit c then '(literal, rest) ← lex_number (c :: rest); Some (JNum literal, rest)
          else if HasPrefix (c :: rest) (str "true") then Some (JBool true, drop 4 (c :: rest))
          else if HasPrefix (c :: rest) (str "false") then Some (JBool false, drop 5 (c :: rest))
          else if HasPrefix (c :: rest) (str "null") then Some (JNull, drop 4 (c :: rest))
          else None
      end
  end
with parse_items (fuel : nat) (depth : Z) (s : bytes) : option (list json * bytes) :=
  match fuel with
  | O => None
  | S fuel =>
      '(v, rest) ← parse_value fuel depth s;
      match next_is 44 (skip_white rest) with
      | Some rest => '(items, rest) ← parse_items fuel depth rest; Some (v :: items, rest)
      | None => rest ← next_is 93 (skip_white rest); Some ([v], rest)
      end
  end
with parse_fields (fuel : nat) (depth : Z) (s : bytes) : option (list (bytes * json) * bytes) :=
  match fuel with
  | O => None
  | S fuel =>
      rest ← next_is 34 (skip_white s);
      '(k, rest) ← unquote (length rest) rest;
      rest ← next_is 58 (skip_white rest);
      '(v, rest) ← parse_value fuel depth rest;
      match next_is 44 (skip_white rest) with
      | Some rest => '(fields, rest) ← parse_fields fuel depth rest; Some ((k, v) :: fields, rest)
      | None => rest ← next_is 125 (skip_white rest); Some ([(k, v)], rest)
      end
  end.
(** One value of a text and what follows it ([Decoder.Decode]); a text that is one value ([Unmarshal]). *)
Definition parse_one (s : bytes) : option (json * bytes) := parse_value (2 * length s + 2) 0 s.
Definition parse_json (s : bytes) : option json :=
  '(v, rest) ← parse_one s; if len (skip_white rest) =? 0 then Some v else None.

(** ** Strings read back *)
Lemma bind_Some {A B} (x : A) (f : A -> option B) : (Some x ≫= f) = f x.
Proof. done. Qed.

(** A rune that was decoded without an error is where its encoding is. *)
Lemma DecodeRune_take s r size :
  all_bytes s -> DecodeRune s = (r, size) -> (r =? RuneError) && (size =? 1)%nat = false -> s <> [] -> take size s = encode_rune r /\ valid_rune r = true.
Proof.
  intros Hb D Ne Nn. pose proof (DecodeRune_valid s Hb) as V. rewrite D in V. cbn in V. split; [|done].
  unfold encode_rune. rewrite V. clear V. destruct s as [|b0 p]; [done|]. apply Forall_cons in Hb as [H0 Hb]. unfold in_width in H0. change (2 ^ 8) with 256 in H0.
  unfold DecodeRune in D. destruct (Z.ltb_spec b0 RuneSelf) as [L|L]; unfold RuneSelf in L.
  { injection D as <- <-. by rewrite (proj2 (Z.ltb_lt _ _)). }
  destruct (lead_class b0) as [[[sz lo] hi]|] eqn:E; [|injection D as <- <-; done]. apply lead_class_inv in E.
  destruct p as [|b1 [|b2 [|b3 p]]], sz as [|[|[|[|[|sz]]]]]; try lia; try (injection D as <- <-; done);
    destruct (in_range lo b1 hi) eqn:R1; cbn [andb] in D; try (injection D as <- <-; done);
    try (destruct (cont b2) eqn:R2; cbn [andb] in D; try (injection D as <- <-; done));
    try (destruct (cont b3) eqn:R3; cbn [andb] in D; try (injection D as <- <-; done));
    injection D as <- <-; range_prop; cbn [take];
    repeat match goal with |- context [?a <? ?b] => destruct (Z.ltb_spec a b); try lia end; repeat f_equal; euclid.
Qed.

Lemma hex_digit_lower d : 0 <= d < 16 -> hex_digit (hex_lower d) = Some d.
Proof.
  intros H. unfold hex_lower, hex_digit, is_digit. destruct (Z.ltb_spec d 10).
  - rewrite in_range_true by lia. f_equal. lia.
  - rewrite in_range_false, in_range_true by lia. f_equal. lia.
Qed.

(** One step of reading: [text] is read as [out]. *)
Definition reads (text out : bytes) : Prop :=
  forall fuel more, (length text <= fuel)%nat ->
    unquote fuel (text ++ more) = '(t, rest) ← unquote (fuel - 1) more; Some (out ++ t, rest).
Lemma quote_byte_reads html c : 0 <= c < RuneSelf -> reads (quote_byte html c) [c].
Proof.
  intros Hc fuel more. unfold RuneSelf in Hc. unfold quote_byte.
  assert (forall e, simple_escape e = Some c -> e <> 117 -> (2 <= fuel)%nat -> unquote fuel ([92; e] ++ more) = '(t, rest) ← unquote (fuel - 1) more; Some ([c] ++ t, rest)) as Esc.
  { intros e Ee Ne L. destruct fuel as [|fuel]; [lia|]. cbn [unquote app]. rewrite (proj2 (Z.eqb_neq e 117)) by done. rewrite Ee.
    replace (S fuel - 1)%nat with fuel by lia. done. }
  destruct (Z.eqb_spec c 34) as [->|]; [by apply Esc|]. destruct (Z.eqb_spec c 92) as [->|]; [by apply Esc|]. cbn [orb].
  destruct (Z.eqb_spec c 8) as [->|]; [by apply Esc|]. destruct (Z.eqb_spec c 12) as [->|]; [by apply Esc|].
  destruct (Z.eqb_spec c 10) as [->|]; [by apply Esc|]. destruct (Z.eqb_spec c 13) as [->|]; [by apply Esc|].
  destruct (Z.eqb_spec c 9) as [->|]; [by apply Esc|].
  destruct ((c <? 32) || _) eqn:G.
  - intros L. destruct fuel as [|fuel]; [cbn in L; lia|]. replace (S fuel - 1)%nat with fuel by lia.
    change ((str "\u00" ++ hex_pair c) ++ more) with (92 :: 117 :: 48 :: 48 :: hex_lower (c / 16) :: hex_lower (c mod 16) :: more).
    cbn [unquote]. cbn [Z.eqb Pos.eqb]. unfold escaped_rune, hex4. rewrite !hex_digit_lower by euclid. cbn [hex_digit is_digit in_range Z.leb Z.compare Pos.compare Pos.compare_cont andb mbind option_bind].
    replace (((48 - 48) * 4096 + (48 - 48) * 256 + c / 16 * 16 + c mod 16)) with c by euclid.
    unfold is_surrogate. rewrite in_range_false by lia. cbn [mbind option_bind]. by rewrite encode_ascii by (unfold RuneSelf; lia).
  - intros L. destruct fuel as [|fuel]; [cbn in L; lia|]. replace (S fuel - 1)%nat with fuel by lia. apply orb_false_iff in G as [G _]. apply Z.ltb_ge in G.
    cbn [app unquote]. rewrite (proj2 (Z.eqb_neq c 34)), (proj2 (Z.eqb_neq c 92)), (proj2 (Z.ltb_ge c 32)), (proj2 (Z.ltb_lt c RuneSelf)) by (unfold RuneSelf; lia). done.
Qed.
Lemma high_head r : valid_rune r = true -> RuneSelf <= r -> exists b p, encode_rune r = b :: p /\ RuneSelf <= b.
Proof.
  intros V H. unfold RuneSelf in *. unfold encode_rune. rewrite V. apply valid_rune_spec in V. rewrite (proj2 (Z.ltb_ge r 128)) by lia.
  repeat case_match; bool_prop; do 2 eexists; (split; [done|]); euclid.
Qed.
Lemma encoded_reads r : valid_rune r = true -> RuneSelf <= r -> reads (encode_rune r) (encode_rune r).
Proof.
  intros V H fuel more L. pose proof (encode_rune_pos r). destruct fuel as [|fuel]; [lia|]. replace (S fuel - 1)%nat with fuel by lia.
  pose proof (DecodeRune_encode r more V) as D. destruct (high_head r V H) as (b & p & E & Hb).
  pose proof (drop_app_length (encode_rune r) more) as Dr. destruct (encode_rune r ++ more) as [|b' q] eqn:Eq; [by rewrite E in Eq|].
  assert (b' = b) as -> by (rewrite E in Eq; by injection Eq). cbn [unquote]. unfold RuneSelf in Hb.
  rewrite (proj2 (Z.eqb_neq b 34)), (proj2 (Z.eqb_neq b 92)), (proj2 (Z.ltb_ge b 32)), (proj2 (Z.ltb_ge b RuneSelf)) by (unfold RuneSelf; lia).
  by rewrite D, Dr.
Qed.
(** A rune written as [\u] and four digits, not a surrogate. *)
Lemma escape_reads a b c d r :
  hex4 [a; b; c; d] = Some (r, []) -> is_surrogate r = false -> reads [92; 117; a; b; c; d] (encode_rune r).
Proof.
  intros Hx Su fuel more L. destruct fuel as [|fuel]; [cbn in L; lia|]. replace (S fuel - 1)%nat with fuel by lia.
  cbn [app unquote]. cbn [Z.eqb Pos.eqb]. unfold escaped_rune.
  assert (hex4 (a :: b :: c :: d :: more) = Some (r, more)) as ->.
  { unfold hex4 in *. destruct (hex_digit a), (hex_digit b), (hex_digit c), (hex_digit d); try done. cbn in *. by injection Hx as ->. }
  cbn [mbind option_bind]. by rewrite Su.
Qed.
Lemma runes_step s r size : s <> [] -> all_bytes s -> DecodeRune s = (r, size) -> runes s = r :: runes (drop size s).
Proof.
  intros N B D. pose proof (DecodeRune_size s N B) as Z. rewrite D in Z. cbn in Z. unfold runes. destruct s as [|b s]; [done|]. cbn [length runes_loop].
  rewrite D. f_equal. apply runes_loop_fuel; [by apply Forall_drop|rewrite length_drop; cbn; lia|lia].
Qed.
Lemma sanitize_step s r size : s <> [] -> all_bytes s -> DecodeRune s = (r, size) -> sanitize s = encode_rune r ++ sanitize (drop size s).
Proof. intros N B D. unfold sanitize. rewrite (runes_step s r size N B D). done. Qed.

Lemma quote_loop_reads html n s fuel rest :
  all_bytes s -> (length s <= n)%nat -> (length (quote_loop html n s) < fuel)%nat ->
  unquote fuel (quote_loop html n s ++ 34 :: rest) = Some (sanitize s, rest).
Proof.
  revert s fuel. induction n as [|n IH]; intros s fuel B Ln Lf.
  { destruct s; [|cbn in Ln; lia]. destruct fuel; [cbn in Lf; lia|]. done. }
  destruct s as [|c s]; [destruct fuel; [cbn in Lf; lia|done]|]. cbn [quote_loop] in Lf |- *.
  assert (forall text out k, reads text out -> text <> [] -> (length (text ++ quote_loop html n (drop k (c :: s))) < fuel)%nat -> k <> 0%nat ->
    sanitize (c :: s) = out ++ sanitize (drop k (c :: s)) ->
    unquote fuel ((text ++ quote_loop html n (drop k (c :: s))) ++ 34 :: rest) = Some (sanitize (c :: s), rest)) as Go.
  { intros text out k Rd Nt L K Sn. rewrite length_app in L. assert (1 <= length text)%nat by (destruct text; [done|cbn; lia]).
    rewrite <- app_assoc, Rd by lia. rewrite IH; [by rewrite Sn|by apply Forall_drop|rewrite length_drop; cbn in Ln |- *; lia|lia]. }
  destruct (Z.ltb_spec c RuneSelf) as [Lc|Lc].
  - apply Forall_cons in B as B'. destruct B' as [Bc _]. unfold in_width in Bc.
    apply (Go (quote_byte html c) [c] 1%nat); [apply quote_byte_reads; lia| |done|done|].
    + unfold quote_byte. by repeat case_match.
    + rewrite (sanitize_step (c :: s) c 1); [|done|done|apply DecodeRune_ascii; lia]. by rewrite encode_ascii by lia.
  - destruct (DecodeRune (c :: s)) as [r size] eqn:D. pose proof (DecodeRune_high c s Lc) as Hh. rewrite D in Hh. cbn in Hh.
    pose proof (sanitize_step (c :: s) r size ltac:(done) B D) as Sn.
    destruct ((r =? RuneError) && (size =? 1)%nat) eqn:Er.
    + apply andb_true_iff in Er as [->%Z.eqb_eq ->%Nat.eqb_eq]. apply (Go (str "\ufffd") (encode_rune RuneError) 1%nat); try done. by apply escape_reads.
    + destruct (DecodeRune_take (c :: s) r size B D Er ltac:(done)) as [Tk V].
      destruct ((r =? 0x2028) || (r =? 0x2029)) eqn:Sp.
      * rewrite app_assoc in Lf |- *. apply (Go (str "\u202" ++ [48 + Z.land r 15]) (encode_rune r) size); try done; [|lia].
        apply orb_true_iff in Sp as [->%Z.eqb_eq | ->%Z.eqb_eq]; by apply escape_reads.
      * rewrite Tk in Lf |- *. apply (Go (encode_rune r) (encode_rune r) size); try done; [apply encoded_reads; [done|apply Hh]| |lia].
        pose proof (encode_rune_pos r). by destruct (encode_rune r); [cbn in *; lia|].
Qed.
Lemma quote_loop_length html n s : (length s <= n)%nat -> all_bytes s -> (length (quote_loop html n s) <= 6 * length s)%nat.
Proof.
  revert s. induction n as [|n IH]; intros s L B; [destruct s; [cbn; lia|cbn in L; lia]|]. destruct s as [|c s]; [cbn; lia|]. cbn [quote_loop].
  assert (forall text k, (length text <= 6 * k)%nat -> (1 <= k <= S (length s))%nat ->
    (length (text ++ quote_loop html n (drop k (c :: s))) <= 6 * length (c :: s))%nat) as Go.
  { intros text k Lt Lk. rewrite length_app. cbn in L. pose proof (IH (drop k (c :: s)) ltac:(rewrite length_drop; cbn; lia) (Forall_drop _ _ _ B)) as I.
    rewrite length_drop in I. cbn [length] in *. lia. }
  destruct (c <? RuneSelf).
  - apply (Go _ 1%nat); [|lia]. unfold quote_byte. repeat case_match; cbn; lia.
  - destruct (DecodeRune (c :: s)) as [r size] eqn:D. destruct ((r =? RuneError) && (size =? 1)%nat) eqn:Er; [apply (Go (str "\ufffd") 1%nat); [cbn; lia|lia]|].
    destruct (DecodeRune_take (c :: s) r size B D Er ltac:(done)) as [Tk V]. pose proof (encode_rune_pos r) as P. rewrite <- Tk, length_take in P. cbn [length] in P.
    destruct (Nat.le_gt_cases size (S (length s))) as [Le|Gt].
    + destruct (_ || _); [rewrite app_assoc|]; apply Go; try lia; [cbn; lia|rewrite length_take; cbn; lia].
    + rewrite drop_ge, take_ge by (cbn; lia). assert (quote_loop html n [] = []) as -> by by destruct n. rewrite !app_nil_r. destruct (_ || _); cbn; lia.
Qed.

(** ** Values read back *)
Section Induction.
Variable P : json -> Prop.
Hypothesis Hnull : P JNull.
Hypothesis Hbool : forall b, P (JBool b).
Hypothesis Hnum : forall l, P (JNum l).
Hypothesis Hstr : forall s b, P (JStr s b).
Hypothesis Harr : forall items, Forall P items -> P (JArr items).
Hypothesis Hobj : forall fields, Forall (fun kv => P kv.2) fields -> P (JObj fields).
Fixpoint json_induction (v : json) : P v :=
  match v with
  | JNull => Hnull
  | JBool b => Hbool b
  | JNum l => Hnum l
  | JStr s b => Hstr s b
  | JArr items => Harr items ((fix go items : Forall P items := match items with [] => Forall_nil_2 _ | v :: items => Forall_cons_2 _ _ _ (json_induction v) (go items) end) items)
  | JObj fields => Hobj fields ((fix go fields : Forall (fun kv => P kv.2) fields :=
      match fields with [] => Forall_nil_2 _ | kv :: fields => Forall_cons_2 _ _ _ (json_induction kv.2) (go fields) end) fields)
  end.
End Induction.

(** What reads back: integers, strings of bytes, and any nesting the decoder accepts. *)
Fixpoint readable (v : json) : Prop :=
  match v with
  | JNum l => exists n, l = Itoa n
  | JStr s _ => all_bytes s
  | JArr items => (fix go items := match items with [] => True | v :: items => readable v /\ go items end) items
  | JObj fields => (fix go fields := match fields with [] => True | kv :: fields => all_bytes kv.1 /\ readable kv.2 /\ go fields end) fields
  | _ => True
  end.
Fixpoint nesting (v : json) : nat :=
  match v with
  | JArr items => S ((fix go items := match items with [] => 0%nat | v :: items => Nat.max (nesting v) (go items) end) items)
  | JObj fields => S ((fix go fields := match fields with [] => 0%nat | kv :: fields => Nat.max (nesting kv.2) (go fields) end) fields)
  | _ => 0%nat
  end.
(** The same value with invalid UTF-8 replaced. *)
Fixpoint cleaned (html : bool) (v : json) : json :=
  match v with
  | JStr s _ => JStr (sanitize s) (plain (quote_loop html (length s) s))
  | JArr items => JArr ((fix go items := match items with [] => [] | v :: items => cleaned html v :: go items end) items)
  | JObj fields => JObj ((fix go fields := match fields with [] => [] | kv :: fields => (sanitize kv.1, cleaned html kv.2) :: go fields end) fields)
  | _ => v
  end.
(** Enough fuel for the decoder. *)
Fixpoint need (v : json) : nat :=
  match v with
  | JArr items => S ((fix go items := match items with [] => 0%nat | v :: items => S (need v + go items) end) items)
  | JObj fields => S ((fix go fields := match fields with [] => 0%nat | kv :: fields => S (need kv.2 + go fields) end) fields)
  | _ => 1%nat
  end.
Definition need_items (items : list json) : nat := foldr (fun v n => S (need v + n)) 0%nat items.
Definition need_fields (fields : list (bytes * json)) : nat := foldr (fun kv n => S (need kv.2 + n)) 0%nat fields.
Definition print_items (html indent : bool) (depth : nat) : list json -> bytes :=
  fix go items := match items with
  | [] => []
  | [v] => gap indent (S depth) ++ print html indent (S depth) v
  | v :: items => gap indent (S depth) ++ print html indent (S depth) v ++ [44] ++ go items
  end.
Definition print_fields (html indent : bool) (depth : nat) : list (bytes * json) -> bytes :=
  fix go fields := match fields with
  | [] => []
  | [(k, v)] => gap indent (S depth) ++ quote html k ++ colon indent ++ print html indent (S depth) v
  | (k, v) :: fields => gap indent (S depth) ++ quote html k ++ colon indent ++ print html indent (S depth) v ++ [44] ++ go fields
  end.
Lemma print_arr html indent depth v items :
  print html indent depth (JArr (v :: items)) = [91] ++ print_items html indent depth (v :: items) ++ gap indent depth ++ [93].
Proof. done. Qed.
Lemma print_obj html indent depth kv fields :
  print html indent depth (JObj (kv :: fields)) = [123] ++ print_fields html indent depth (kv :: fields) ++ gap indent depth ++ [125].
Proof. done. Qed.
Lemma readable_arr items : readable (JArr items) <-> Forall readable items.
Proof. induction items as [|v items IH]; cbn; [split; [constructor|done]|]. rewrite Forall_cons. by cbn in IH; rewrite IH. Qed.
Lemma readable_obj fields : readable (JObj fields) <-> Forall (fun kv => all_bytes kv.1 /\ readable kv.2) fields.
Proof. induction fields as [|kv fields IH]; cbn; [split; [constructor|done]|]. rewrite Forall_cons. cbn in IH. rewrite IH. tauto. Qed.
Lemma nesting_arr items n : (nesting (JArr items) <= S n)%nat -> Forall (fun v => nesting v <= n)%nat items.
Proof. intros L. induction items as [|v items IH]; [constructor|]. cbn in L. constructor; [lia|]. apply IH. cbn. lia. Qed.
Lemma nesting_obj fields n : (nesting (JObj fields) <= S n)%nat -> Forall (fun kv => nesting kv.2 <= n)%nat fields.
Proof. intros L. induction fields as [|kv fields IH]; [constructor|]. cbn in L. constructor; [lia|]. apply IH. cbn. lia. Qed.
Lemma cleaned_arr html items : cleaned html (JArr items) = JArr (cleaned html <$> items).
Proof. done. Qed.
Lemma cleaned_obj html fields : cleaned html (JObj fields) = JObj ((fun kv => (sanitize kv.1, cleaned html kv.2)) <$> fields).
Proof. done. Qed.
Lemma need_arr items : need (JArr items) = S (need_items items).
Proof. done. Qed.
Lemma need_obj fields : need (JObj fields) = S (need_fields fields).
Proof. done. Qed.

Lemma skip_white_gap indent depth s : skip_white (gap indent depth ++ s) = skip_white s.
Proof. destruct indent; [|done]. cbn [gap app skip_white is_white]. cbn. induction (depth + (depth + 0))%nat as [|n IH]; [done|]. cbn. apply IH. Qed.
Lemma parse_value_white fuel d s s' : skip_white s = skip_white s' -> parse_value fuel d s = parse_value fuel d s'.
Proof. intros E. destruct fuel; [done|]. cbn [parse_value]. by rewrite E. Qed.
Lemma parse_fields_white fuel d s s' : skip_white s = skip_white s' -> parse_fields fuel d s = parse_fields fuel d s'.
Proof. intros E. destruct fuel; [done|]. cbn [parse_fields]. by rewrite E. Qed.

(** Numbers. *)
Lemma decimal_loop_head fuel n acc : 0 < n < 2 ^ Z.of_nat fuel -> exists c ds, decimal_loop fuel n acc = c :: ds ++ acc /\ 49 <= c <= 57 /\ Forall (fun c => is_digit c = true) ds.
Proof.
  revert n acc. induction fuel as [|fuel IH]; intros n acc B; [change (2 ^ Z.of_nat 0) with 1 in B; lia|]. cbn [decimal_loop].
  rewrite (proj2 (Z.leb_gt n 0)) by lia. destruct (Z.lt_ge_cases (n / 10) 1) as [L|L].
  - assert (n / 10 = 0) as -> by euclid. assert (decimal_loop fuel 0 (48 + n mod 10 :: acc) = 48 + n mod 10 :: acc) as -> by by destruct fuel.
    exists (48 + n mod 10), []. split_and!; [done|euclid|euclid|constructor].
  - destruct (IH (n / 10) (48 + n mod 10 :: acc)) as (c & ds & E & Hc & F).
    { rewrite Nat2Z.inj_succ, Z.pow_succ_r in B by lia. euclid. }
    exists c, (ds ++ [48 + n mod 10]). rewrite E, <- app_assoc. split_and!; [done|lia|lia|]. apply Forall_app. split; [done|].
    apply Forall_singleton, is_digit_spec. euclid.
Qed.
Lemma decimal_head n : 0 < n -> exists c ds, decimal n = c :: ds /\ 49 <= c <= 57 /\ Forall (fun c => is_digit c = true) ds.
Proof.
  intros P. unfold decimal. rewrite (proj2 (Z.eqb_neq n 0)) by lia.
  destruct (decimal_loop_head (S (Z.to_nat (Z.log2 n))) n []) as (c & ds & E & Hc & F).
  { split; [done|]. rewrite Nat2Z.inj_succ, Z2Nat.id by apply Z.log2_nonneg. by apply Z.log2_spec. }
  exists c, ds. by rewrite E, app_nil_r.
Qed.
(** What may follow a number. *)
Definition stops (rest : bytes) : Prop := match rest with [] => True | c :: _ => is_digit c = false /\ c <> 46 /\ c <> 101 /\ c <> 69 end.
Lemma span_digits_app ds rest : Forall (fun c => is_digit c = true) ds -> stops rest -> span_digits (ds ++ rest) = (ds, rest).
Proof.
  intros F St. induction F as [|c ds Hc F IH]; [|cbn; by rewrite Hc, IH]. destruct rest as [|c rest]; [done|]. cbn. destruct St as [-> _]. done.
Qed.
Lemma lex_stops rest : stops rest -> lex_fraction rest = Some ([], rest) /\ lex_exponent rest = Some ([], rest).
Proof.
  destruct rest as [|c rest]; [done|]. intros (_ & S1 & S2 & S3). unfold lex_fraction, lex_exponent. rewrite next_is_miss by done.
  by rewrite (proj2 (Z.eqb_neq c 101)), (proj2 (Z.eqb_neq c 69)).
Qed.
Lemma lex_unsigned sign c ds rest :
  49 <= c <= 57 -> Forall (fun c => is_digit c = true) ds -> stops rest ->
  (let '(whole, s) := match next_is 48 (c :: ds ++ rest) with Some rest => ([48], rest) | None => span_digits (c :: ds ++ rest) end in
   if len whole =? 0 then None
   else '(frac, s) ← lex_fraction s; '(expo, s) ← lex_exponent s; Some (sign ++ whole ++ frac ++ expo, s)) = Some (sign ++ c :: ds, rest).
Proof.
  intros Hc F St. rewrite next_is_miss by lia. assert (is_digit c = true) as Dc by (apply is_digit_spec; lia).
  change (c :: ds ++ rest) with ((c :: ds) ++ rest). rewrite span_digits_app by (done || by constructor).
  rewrite (proj2 (Z.eqb_neq (len (c :: ds)) 0)) by done. destruct (lex_stops rest St) as [-> E]. cbn [mbind option_bind]. rewrite E. cbn [mbind option_bind]. by rewrite !app_nil_r.
Qed.
Lemma lex_number_int n rest : stops rest -> lex_number (Itoa n ++ rest) = Some (Itoa n, rest).
Proof.
  intros St. unfold Itoa, lex_number. destruct (Z.ltb_spec n 0) as [L|L].
  - destruct (decimal_head (- n)) as (c & ds & E & Hc & F); [lia|]. rewrite E. cbn [app]. rewrite next_is_hit. by apply (lex_unsigned [45]).
  - destruct (Z.eqb_spec n 0) as [->|].
    + change (decimal 0) with [48]. cbn [app]. rewrite next_is_miss, next_is_hit by done. destruct (lex_stops rest St) as [-> E]. cbn [len length Z.eqb Z.of_nat mbind option_bind]. by rewrite E.
    + destruct (decimal_head n) as (c & ds & E & Hc & F); [lia|]. rewrite E. cbn [app]. rewrite next_is_miss by lia. by apply (lex_unsigned []).
Qed.
Lemma Itoa_head n : exists c rest, Itoa n = c :: rest /\ ((c =? 45) || is_digit c = true) /\ is_white c = false /\ c <> 34 /\ c <> 91 /\ c <> 123 /\ c <> 93 /\ c <> 125.
Proof.
  unfold Itoa. destruct (Z.ltb_spec n 0); [by exists 45, (decimal (- n))|]. destruct (Z.eqb_spec n 0) as [->|]; [by exists 48, []|].
  destruct (decimal_head n) as (c & ds & E & Hc & F); [lia|]. exists c, ds. assert (is_digit c = true) as Dc by (apply is_digit_spec; lia).
  split_and!; try lia; [done|by rewrite Dc, orb_true_r|]. unfold is_white. repeat (rewrite (proj2 (Z.eqb_neq _ _)) by lia). done.
Qed.

(** Values. *)
Lemma print_head html indent dep v : readable v ->
  exists c t, print html indent dep v = c :: t /\ is_white c = false /\ c <> 93 /\ c <> 125.
Proof.
  destruct v as [|[]|l|s|[|v items]|[|kv fields]]; intros Rd; try (by do 2 eexists).
  destruct Rd as [n ->]. destruct (Itoa_head n) as (c & t & E & _ & Wh & _ & _ & _ & N1 & N2). exists c, t. by rewrite <- E.
Qed.
Lemma stops_close indent dep c rest : (c = 93 \/ c = 125) -> stops (gap indent dep ++ c :: rest).
Proof. intros Hc. destruct indent; [done|]. by destruct Hc as [-> | ->]. Qed.
Lemma next_close indent dep c c' rest : (c' = 93 \/ c' = 125) -> next_is c (skip_white (gap indent dep ++ c' :: rest)) = if c' =? c then Some rest else None.
Proof. intros Hc. rewrite skip_white_gap, skip_white_black; [done|]. by destruct Hc as [-> | ->]. Qed.
Lemma unquote_quote html s rest : all_bytes s -> unquote (length (quote_loop html (length s) s ++ 34 :: rest)) (quote_loop html (length s) s ++ 34 :: rest) = Some (sanitize s, rest).
Proof. intros B. apply quote_loop_reads; [done|done|]. rewrite length_app. cbn. lia. Qed.

(** What the induction on values says of a part. *)
Definition parses (v : json) : Prop :=
  readable v -> forall html indent dep d fuel rest, Z.of_nat (nesting v) + d <= maxNestingDepth -> (need v <= fuel)%nat -> stops rest ->
    parse_value fuel d (print html indent dep v ++ rest) = Some (cleaned html v, rest).

Lemma parse_items_print items html indent dep d fuel rest :
  Forall parses items -> Forall readable items -> Forall (fun v => Z.of_nat (nesting v) + d <= maxNestingDepth) items ->
  items <> [] -> (need_items items <= fuel)%nat ->
  parse_items fuel d (print_items html indent dep items ++ gap indent dep ++ 93 :: rest) = Some (cleaned html <$> items, rest).
Proof.
  intros F. revert fuel. induction F as [|v items Pv F IH]; intros fuel Rd De N L; [done|].
  apply Forall_cons in Rd as [Rv Rd]. apply Forall_cons in De as [Dv De]. cbn in L. destruct fuel as [|fuel]; [lia|]. cbn [parse_items].
  destruct items as [|v2 items].
  - cbn [print_items]. rewrite <- app_assoc, (parse_value_white _ _ _ _ (skip_white_gap _ _ _)), Pv by (done || lia || (apply stops_close; by left)).
    cbn [mbind option_bind]. by rewrite !next_close by (by left).
  - change (print_items html indent dep (v :: v2 :: items)) with (gap indent (S dep) ++ print html indent (S dep) v ++ [44] ++ print_items html indent dep (v2 :: items)).
    rewrite <- !app_assoc, (parse_value_white _ _ _ _ (skip_white_gap _ _ _)), Pv by (done || lia). cbn [mbind option_bind].
    cbn [app]. rewrite skip_white_black, next_is_hit by done. rewrite IH by (done || (cbn; cbn in L; lia)). done.
Qed.
Lemma parse_fields_print fields html indent dep d fuel rest :
  Forall (fun kv => parses kv.2) fields -> Forall (fun kv => all_bytes kv.1 /\ readable kv.2) fields ->
  Forall (fun kv => Z.of_nat (nesting kv.2) + d <= maxNestingDepth) fields -> fields <> [] -> (need_fields fields <= fuel)%nat ->
  parse_fields fuel d (print_fields html indent dep fields ++ gap indent dep ++ 125 :: rest) = Some ((fun kv => (sanitize kv.1, cleaned html kv.2)) <$> fields, rest).
Proof.
  intros F. revert fuel. induction F as [|[k v] fields Pv F IH]; intros fuel Rd De N L; [done|].
  apply Forall_cons in Rd as [[Rk Rv] Rd]. apply Forall_cons in De as [Dv De]. cbn [snd fst] in *. cbn in L. destruct fuel as [|fuel]; [lia|]. cbn [parse_fields].
  assert (forall more, stops more -> exists t,
    next_is 34 (skip_white (gap indent (S dep) ++ quote html k ++ colon indent ++ print html indent (S dep) v ++ more)) = Some t /\
    exists t', unquote (length t) t = Some (sanitize k, t') /\ exists t'', next_is 58 (skip_white t') = Some t'' /\ parse_value fuel d t'' = Some (cleaned html v, more)) as Go.
  { intros more St. rewrite skip_white_gap. unfold quote. rewrite <- !app_assoc. cbn [app]. rewrite skip_white_black, next_is_hit by done. eexists. split; [done|].
    rewrite unquote_quote by done. eexists. split; [done|]. assert (skip_white (colon indent ++ print html indent (S dep) v ++ more) = colon indent ++ print html indent (S dep) v ++ more) as -> by by destruct indent.
    destruct indent; cbn [colon app]; rewrite next_is_hit; eexists; (split; [done|]); [rewrite (parse_value_white _ _ (32 :: _) (print html true (S dep) v ++ more)) by done|]; apply Pv; (done || lia). }
  destruct fields as [|kv2 fields].
  - cbn [print_fields]. rewrite <- !app_assoc. destruct (Go (gap indent dep ++ 125 :: rest)) as (t & -> & t' & E1 & t'' & E2 & E3); [apply stops_close; by right|].
    cbn [mbind option_bind]. rewrite E1. cbn [mbind option_bind]. rewrite E2. cbn [mbind option_bind]. rewrite E3. cbn [mbind option_bind]. by rewrite !next_close by (by right).
  - change (print_fields html indent dep ((k, v) :: kv2 :: fields)) with
      (gap indent (S dep) ++ quote html k ++ colon indent ++ print html indent (S dep) v ++ [44] ++ print_fields html indent dep (kv2 :: fields)).
    rewrite <- !app_assoc. destruct (Go ([44] ++ print_fields html indent dep (kv2 :: fields) ++ gap indent dep ++ 125 :: rest)) as (t & -> & t' & E1 & t'' & E2 & E3); [done|].
    cbn [mbind option_bind]. rewrite E1. cbn [mbind option_bind]. rewrite E2. cbn [mbind option_bind]. rewrite E3. cbn [mbind option_bind].
    cbn [app]. rewrite skip_white_black, next_is_hit by done. rewrite IH by (done || (cbn; cbn in L; lia)). done.
Qed.

Lemma parse_num n : parses (JNum (Itoa n)).
Proof.
  intros _ html indent dep d fuel rest _ L St. destruct fuel as [|fuel]; [cbn in L; lia|]. cbn [print parse_value].
  pose proof (lex_number_int n rest St) as Lx. destruct (Itoa_head n) as (c & t & E & Hd & Wh & N1 & N2 & N3 & _). rewrite E in Lx |- *. cbn [app] in Lx |- *.
  rewrite skip_white_black by done. rewrite (proj2 (Z.eqb_neq c 34)), (proj2 (Z.eqb_neq c 91)), (proj2 (Z.eqb_neq c 123)), Hd, Lx by done. done.
Qed.
Lemma parse_str s b : parses (JStr s b).
Proof.
  intros B html indent dep d fuel rest _ L _. destruct fuel as [|fuel]; [cbn in L; lia|]. cbn [print parse_value]. unfold quote. rewrite <- !app_assoc. cbn [app].
  rewrite skip_white_black by done. cbn [Z.eqb Pos.eqb]. rewrite unquote_quote by done. cbn [mbind option_bind cleaned]. do 3 f_equal.
  unfold text_before. rewrite length_app. cbn [length]. set (q := quote_loop html (length s) s).
  replace (length q + S (length rest) - length rest)%nat with (length (q ++ [34])) by (rewrite length_app; cbn; lia).
  change (34 :: rest) with ([34] ++ rest). rewrite app_assoc, take_app_length. unfold plain. rewrite forallb_app. cbn. apply andb_true_r.
Qed.
Lemma opens_with c indent dep t more :
  (exists b u, t = b :: u /\ is_white b = false /\ b <> c) -> next_is c (skip_white ((gap indent dep ++ t) ++ more)) = None.
Proof. intros (b & u & -> & Wh & N). rewrite <- app_assoc, skip_white_gap. cbn [app]. rewrite skip_white_black by done. by apply next_is_miss. Qed.
Lemma parse_arr items : Forall parses items -> parses (JArr items).
Proof.
  intros F Rd html indent dep d fuel rest De L St. rewrite need_arr in L. destruct fuel as [|fuel]; [lia|]. apply readable_arr in Rd.
  assert (d < maxNestingDepth) as Hd by (cbn [nesting] in De; lia).
  destruct items as [|v items].
  { cbn [print parse_value app]. rewrite skip_white_black by done. cbn [Z.eqb Pos.eqb]. by rewrite (proj2 (Z.leb_gt _ _)). }
  rewrite print_arr. rewrite <- !app_assoc. cbn [app parse_value]. rewrite skip_white_black by done. cbn [Z.eqb Pos.eqb]. rewrite (proj2 (Z.leb_gt _ _)) by done.
  assert (next_is 93 (skip_white (print_items html indent dep (v :: items) ++ gap indent dep ++ 93 :: rest)) = None) as ->.
  { apply Forall_cons in Rd as [Rv _]. destruct (print_head html indent (S dep) v Rv) as (b & u & E & Wh & N & _).
    destruct items as [|v2 items]; cbn [print_items]; rewrite E; [apply opens_with; by exists b, u|].
    rewrite <- !app_assoc. rewrite (app_assoc (gap indent (S dep))). apply opens_with. by exists b, u. }
  rewrite parse_items_print; [done|done|done| |done|lia].
  assert (nesting (JArr (v :: items)) <= S (Z.to_nat (maxNestingDepth - d - 1)))%nat as De' by (unfold maxNestingDepth in *; lia).
  apply nesting_arr in De'. eapply Forall_impl; [exact De'|]. intros x Hx. cbv beta in Hx. lia.
Qed.
Lemma parse_obj fields : Forall (fun kv => parses kv.2) fields -> parses (JObj fields).
Proof.
  intros F Rd html indent dep d fuel rest De L St. rewrite need_obj in L. destruct fuel as [|fuel]; [lia|]. apply readable_obj in Rd.
  assert (d < maxNestingDepth) as Hd by (cbn [nesting] in De; lia).
  destruct fields as [|[k v] fields].
  { cbn [print parse_value app]. rewrite skip_white_black by done. cbn [Z.eqb Pos.eqb]. by rewrite (proj2 (Z.leb_gt _ _)). }
  rewrite print_obj. rewrite <- !app_assoc. cbn [app parse_value]. rewrite skip_white_black by done. cbn [Z.eqb Pos.eqb]. rewrite (proj2 (Z.leb_gt _ _)) by done.
  assert (next_is 125 (skip_white (print_fields html indent dep ((k, v) :: fields) ++ gap indent dep ++ 125 :: rest)) = None) as ->.
  { unfold quote. destruct fields as [|kv2 fields]; cbn [print_fields]; unfold quote; rewrite <- !app_assoc, skip_white_gap; done. }
  rewrite parse_fields_print; [done|done|done| |done|lia].
  assert (nesting (JObj ((k, v) :: fields)) <= S (Z.to_nat (maxNestingDepth - d - 1)))%nat as De' by (unfold maxNestingDepth in *; lia).
  apply nesting_obj in De'. eapply Forall_impl; [exact De'|]. intros x Hx. cbv beta in Hx. lia.
Qed.
Lemma parse_print v : parses v.
Proof.
  induction v as [| b | l | s b | items F | fields F] using json_induction.
  - intros _ html indent dep d [|fuel] rest _ L _; [cbn in L; lia|by destruct rest].
  - intros _ html indent dep d [|fuel] rest _ L _; [cbn in L; lia|by destruct b, rest].
  - intros [n ->]. by apply parse_num; [by exists n|..].
  - apply parse_str.
  - by apply parse_arr.
  - by apply parse_obj.
Qed.

(** The decoder's fuel is enough: a value needs at most twice the length of its text. *)
Lemma need_bound html indent v : readable v -> forall dep, (need v <= 2 * length (print html indent dep v))%nat.
Proof.
  induction v as [| b | l | s b | items F | fields F] using json_induction; intros Rd dep.
  - cbn. lia.
  - destruct b; cbn; lia.
  - destruct Rd as [n ->]. destruct (Itoa_head n) as (c & t & -> & _). cbn. lia.
  - cbn. unfold quote. rewrite !length_app. cbn. lia.
  - rewrite need_arr. apply readable_arr in Rd. destruct items as [|v items]; [cbn; lia|]. rewrite print_arr, !length_app. cbn [length].
    enough (need_items (v :: items) <= 2 * length (print_items html indent dep (v :: items)) + 2)%nat by lia.
    revert v F Rd. induction items as [|v2 items IH]; intros v F Rd; apply Forall_cons in F as [Fv F], Rd as [Rv Rd]; specialize (Fv Rv (S dep)).
    + cbn [need_items foldr print_items]. rewrite length_app. lia.
    + specialize (IH v2 F Rd). change (print_items html indent dep (v :: v2 :: items)) with (gap indent (S dep) ++ print html indent (S dep) v ++ [44] ++ print_items html indent dep (v2 :: items)).
      change (need_items (v :: v2 :: items)) with (S (need v + need_items (v2 :: items))). rewrite !length_app. cbn [length]. lia.
  - rewrite need_obj. apply readable_obj in Rd. destruct fields as [|[k v] fields]; [cbn; lia|]. rewrite print_obj, !length_app. cbn [length].
    enough (need_fields ((k, v) :: fields) <= 2 * length (print_fields html indent dep ((k, v) :: fields)) + 2)%nat by lia.
    revert k v F Rd. induction fields as [|[k2 v2] fields IH]; intros k v F Rd; apply Forall_cons in F as [Fv F], Rd as [[_ Rv] Rd]; specialize (Fv Rv (S dep)); cbn [snd] in Fv.
    + cbn [need_fields foldr print_fields snd]. rewrite !length_app. lia.
    + specialize (IH k2 v2 F Rd). change (print_fields html indent dep ((k, v) :: (k2, v2) :: fields)) with
        (gap indent (S dep) ++ quote html k ++ colon indent ++ print html indent (S dep) v ++ [44] ++ print_fields html indent dep ((k2, v2) :: fields)).
      change (need_fields ((k, v) :: (k2, v2) :: fields)) with (S (need v + need_fields ((k2, v2) :: fields))). rewrite !length_app. cbn [length]. lia.
Qed.

(** What the encoder writes the decoder reads, up to invalid UTF-8, and stops where it ends. *)
Lemma parse_one_print html indent v rest :
  readable v -> Z.of_nat (nesting v) <= maxNestingDepth -> stops rest -> parse_one (print html indent 0 v ++ rest) = Some (cleaned html v, rest).
Proof.
  intros Rd N St. unfold parse_one. apply parse_print; [done|lia| |done]. pose proof (need_bound html indent v Rd 0). rewrite length_app. lia.
Qed.

(** ** Filling a struct

    A struct is filled field by field, in the order of the text: a name is looked up exactly,
    then without regard to case; a repeated name is filled again from what is there; [null]
    leaves a field as it is; a value of the wrong kind is an error. *)
Section Fill.
Context {T : Type}.
Definition setter : Type := json -> T -> option T.

Definition find_setter (setters : list (bytes * setter)) (name : bytes) : option setter :=
  match list_find (fun s => s.1 = name) setters with
  | Some (_, s) => Some s.2
  | None => match list_find (fun s => EqualFoldText s.1 name = true) setters with Some (_, s) => Some s.2 | None => None end
  end.
Fixpoint fill_fields (disallow : bool) (setters : list (bytes * setter)) (fields : list (bytes * json)) (x : T) : option T :=
  match fields with
  | [] => Some x
  | (name, v) :: fields =>
      match find_setter setters name with
      | Some set => x ← set v x; fill_fields disallow setters fields x
      | None => if disallow then None else fill_fields disallow setters fields x
      end
  end.
Definition fill (disallow : bool) (setters : list (bytes * setter)) (v : json) (x : T) : option T :=
  match v with JNull => Some x | JObj fields => fill_fields disallow setters fields x | _ => None end.
End Fill.
#[global] Arguments setter : clear implicits.

Definition set_string : setter bytes := fun v old => match v with JNull => Some old | JStr s _ => Some s | _ => None end.
Definition set_bool : setter bool := fun v old => match v with JNull => Some old | JBool b => Some b | _ => None end.
Definition set_int : setter Z := fun v old => match v with JNull => Some old | JNum literal => Atoi literal | _ => None end.

(** A slice while it is filled: its elements, and what its array holds beyond them.  An element is
    filled from what its place in the array holds. *)
Definition backed (X : Type) : Type := list X * list X.
Section Slices.
Context {X : Type} (zero : X) (set : setter X).
Fixpoint set_items (items : list json) (array : list X) : option (backed X) :=
  match items with
  | [] => Some ([], array)
  | v :: items =>
      x ← set v (match array with x :: _ => x | [] => zero end);
      '(xs, rest) ← set_items items (tail array);
      Some (x :: xs, rest)
  end.
Definition set_slice : setter (backed X) := fun v old =>
  match v with
  | JNull | JArr [] => Some ([], [])
  | JArr items => set_items items (old.1 ++ old.2)
  | _ => None
  end.
End Slices.

(** [Unmarshal] into a struct. *)
Definition unmarshal {T X} (setters : list (bytes * setter T)) (zero : T) (out : T -> X) (raw : bytes) : option X :=
  v ← parse_json raw; t ← fill false setters v zero; Some (out t).

(** Text for examples, with single quotes in place of double quotes. *)
Definition json_text (s : string) : bytes := (fun c => if c =? 39 then 34 else c) <$> str s.

(** ** The decoder ends and gives UTF-8 *)
Fixpoint utf8_json (v : json) : Prop :=
  match v with
  | JStr s _ => utf8 s
  | JArr items => (fix go items := match items with [] => True | v :: items => utf8_json v /\ go items end) items
  | JObj fields => (fix go fields := match fields with [] => True | kv :: fields => utf8_json kv.2 /\ go fields end) fields
  | _ => True
  end.
Lemma utf8_arr items : utf8_json (JArr items) <-> Forall utf8_json items.
Proof. induction items as [|v items IH]; cbn; [split; [constructor|done]|]. rewrite Forall_cons. by cbn in IH; rewrite IH. Qed.
Lemma utf8_obj fields : utf8_json (JObj fields) <-> Forall (fun kv => utf8_json kv.2) fields.
Proof. induction fields as [|kv fields IH]; cbn; [split; [constructor|done]|]. rewrite Forall_cons. by cbn in IH; rewrite IH. Qed.


Lemma skip_white_spec s : all_bytes s -> all_bytes (skip_white s) /\ (length (skip_white s) <= length s)%nat.
Proof. induction 1 as [|c s Hc F IH]; cbn; [split; [constructor|lia]|]. destruct (is_white c); [split; [apply IH|lia]|]. split; [by constructor|cbn; lia]. Qed.

(** [rest] is a proper end of [s]. *)
Definition follows (s rest : bytes) : Prop := all_bytes rest /\ (length rest < length s)%nat.
Lemma follows_trans a b c : follows a b -> follows b c -> follows a c.
Proof. intros [_ L1] [B L2]. split; [done|lia]. Qed.
Lemma follows_cons c s : all_bytes (c :: s) -> follows (c :: s) s.
Proof. intros [_ B]%Forall_cons. split; [done|cbn; lia]. Qed.
Lemma follows_white s rest : all_bytes s -> follows (skip_white s) rest -> follows s rest.
Proof. intros B [Br L]. destruct (skip_white_spec s B). split; [done|lia]. Qed.
Lemma follows_next c s rest : all_bytes s -> next_is c (skip_white s) = Some rest -> follows s rest.
Proof.
  intros B E. apply follows_white; [done|]. destruct (skip_white_spec s B) as [B' _]. apply next_is_spec in E. rewrite E in B' |- *. by apply follows_cons.
Qed.
Lemma follows_drop k s : all_bytes s -> (0 < k)%nat -> s <> [] -> follows s (drop k s).
Proof. intros B K N. split; [by apply Forall_drop|]. rewrite length_drop. destruct s; [done|cbn; lia]. Qed.

Lemma hex4_spec s r rest : all_bytes s -> hex4 s = Some (r, rest) -> follows s rest.
Proof.
  intros B E. destruct s as [|a [|b [|c [|d s]]]]; try done. cbn in E.
  destruct (hex_digit a), (hex_digit b), (hex_digit c), (hex_digit d); try done. injection E as _ <-. apply (Forall_drop _ 4) in B. split; [done|cbn; lia].
Qed.
Lemma escaped_rune_spec s r rest : all_bytes s -> escaped_rune s = Some (r, rest) -> follows s rest.
Proof.
  intros B E. unfold escaped_rune in E. destruct (hex4 s) as [[r1 s1]|] eqn:E1; [|done]. cbn [mbind option_bind] in E. apply hex4_spec in E1 as F1; [|done].
  destruct (is_surrogate r1); [|by injection E as _ <-]. destruct (next_is 92 s1) as [s2|] eqn:N1; [|by injection E as _ <-]. cbn [mbind option_bind] in E.
  destruct (next_is 117 s2) as [s3|] eqn:N2; [|by injection E as _ <-]. cbn [mbind option_bind] in E. apply next_is_spec in N1 as ->, N2 as ->.
  destruct (hex4 s3) as [[r2 s4]|] eqn:E2; [|by injection E as _ <-]. cbn [mbind option_bind] in E.
  destruct (surrogate_pair r1 r2); [|by injection E as _ <-]. injection E as _ <-. destruct F1 as [F1 L1]. apply (Forall_drop _ 2) in F1.
  apply hex4_spec in E2 as [? L2]; [|done]. split; [done|]. cbn in L1, L2. lia.
Qed.
Lemma simple_escape_ascii e c : simple_escape e = Some c -> 0 <= c < RuneSelf.
Proof.
  unfold simple_escape, RuneSelf. repeat case_match; intros [= <-]; bool_prop; lia.
Qed.
Lemma unquote_spec fuel s t rest : all_bytes s -> unquote fuel s = Some (t, rest) -> utf8 t /\ follows s rest.
Proof.
  revert s t rest. induction fuel as [|fuel IH]; intros s t rest B E; [done|]. cbn [unquote] in E. destruct s as [|c s]; [done|].
  pose proof (follows_cons c s B) as Fc. apply Forall_cons in B as B'. destruct B' as [Bc Bs]. unfold in_width in Bc.
  assert (forall more f, follows (c :: s) more -> (forall t, utf8 t -> utf8 (f t)) ->
    ('(t, rest) ← unquote fuel more; Some (f t, rest)) = Some (t, rest) -> utf8 t /\ follows (c :: s) rest) as Go.
  { intros more f Fm Ff Em. destruct (unquote fuel more) as [[t1 rest1]|] eqn:E1; [|done]. cbn in Em. injection Em as <- <-.
    apply IH in E1 as [U1 F1]; [|apply Fm]. split; [by apply Ff|by eapply follows_trans]. }
  destruct (c =? 34); [by injection E as <- <-|]. destruct (c =? 92).
  { destruct s as [|e s]; [done|]. pose proof (follows_trans _ _ _ Fc (follows_cons e s Bs)) as Fe. destruct (e =? 117).
    - destruct (escaped_rune s) as [[r s1]|] eqn:E1; [|done]. cbn [mbind option_bind] in E. apply escaped_rune_spec in E1; [|apply Fe].
      apply (Go s1 (fun t => encode_rune r ++ t)) in E; [done|by eapply follows_trans|intros; by apply utf8_encode].
    - destruct (simple_escape e) as [c'|] eqn:E1; [|done]. cbn [mbind option_bind] in E. apply simple_escape_ascii in E1.
      apply (Go s (cons c')) in E; [done|done|intros; by apply utf8_ascii_cons]. }
  destruct (c <? 32); [done|]. destruct (Z.ltb_spec c RuneSelf).
  { apply (Go s (cons c)) in E; [done|done|intros; apply utf8_ascii_cons; [lia|done]]. }
  destruct (DecodeRune (c :: s)) as [r size] eqn:D. pose proof (DecodeRune_size (c :: s) ltac:(done) B) as Z. rewrite D in Z. cbn in Z.
  apply (Go (drop size (c :: s)) (fun t => encode_rune r ++ t)) in E; [done|apply follows_drop; [done|lia|done]|intros; by apply utf8_encode].
Qed.

Lemma span_digits_text s ds rest : span_digits s = (ds, rest) -> s = ds ++ rest.
Proof.
  revert ds. induction s as [|c s IH]; intros ds E; cbn in E; [by injection E as <- <-|]. destruct (is_digit c); [|by injection E as <- <-].
  destruct (span_digits s) as [ds' rest']. injection E as <- <-. cbn. f_equal. by apply IH.
Qed.
Lemma lex_fraction_text s t rest : lex_fraction s = Some (t, rest) -> s = t ++ rest.
Proof.
  unfold lex_fraction. destruct (next_is 46 s) as [s1|] eqn:N; [|by intros [= <- <-]]. apply next_is_spec in N as ->. destruct (span_digits s1) as [ds s2] eqn:E.
  destruct (len ds =? 0); [done|]. intros [= <- <-]. cbn. f_equal. by apply span_digits_text.
Qed.
Lemma lex_exponent_text s t rest : lex_exponent s = Some (t, rest) -> s = t ++ rest.
Proof.
  unfold lex_exponent. destruct s as [|e s]; [by intros [= <- <-]|]. destruct (_ || _); [|by intros [= <- <-]].
  destruct (match s with d :: more => if (d =? 43) || (d =? 45) then ([d], more) else ([], s) | [] => ([], s) end) as [sign s1] eqn:Es.
  assert (s = sign ++ s1) as -> by (destruct s as [|d s]; [by injection Es as <- <-|]; destruct (_ || _); by injection Es as <- <-).
  destruct (span_digits s1) as [ds s2] eqn:E. destruct (len ds =? 0); [done|]. intros [= <- <-]. cbn. rewrite <- app_assoc. do 2 f_equal. by apply span_digits_text.
Qed.
Lemma lex_number_spec s t rest : all_bytes s -> lex_number s = Some (t, rest) -> follows s rest.
Proof.
  intros B E. unfold lex_number in E.
  destruct (match next_is 45 s with Some rest => ([45], rest) | None => ([], s) end) as [sign s1] eqn:E1.
  assert (s = sign ++ s1) as -> by (destruct (next_is 45 s) eqn:N; [apply next_is_spec in N as ->|]; by injection E1 as <- <-).
  destruct (match next_is 48 s1 with Some rest => ([48], rest) | None => span_digits s1 end) as [whole s2] eqn:E2.
  assert (s1 = whole ++ s2) as -> by (destruct (next_is 48 s1) eqn:N; [apply next_is_spec in N as ->; by injection E2 as <- <-|by apply span_digits_text]).
  destruct whole as [|c whole]; [done|]. rewrite (proj2 (Z.eqb_neq (len (c :: whole)) 0)) in E by done.
  destruct (lex_fraction s2) as [[frac s3]|] eqn:E3; [|done]. cbn [mbind option_bind] in E. apply lex_fraction_text in E3 as ->.
  destruct (lex_exponent s3) as [[expo s4]|] eqn:E4; [|done]. cbn [mbind option_bind] in E. apply lex_exponent_text in E4 as ->. injection E as _ <-.
  rewrite !Forall_app in B. split; [apply B|]. rewrite !length_app. cbn. lia.
Qed.

(** One value: it is UTF-8 throughout, and reading it consumed something. *)
Definition value_ok (fuel : nat) : Prop := forall d s v rest, all_bytes s -> parse_value fuel d s = Some (v, rest) -> utf8_json v /\ follows s rest.
Definition items_ok (fuel : nat) : Prop := forall d s items rest, all_bytes s -> parse_items fuel d s = Some (items, rest) -> Forall utf8_json items /\ follows s rest.
Definition fields_ok (fuel : nat) : Prop :=
  forall d s fields rest, all_bytes s -> parse_fields fuel d s = Some (fields, rest) -> Forall (fun kv => utf8_json kv.2) fields /\ follows s rest.
Lemma value_step fuel : items_ok fuel -> fields_ok fuel -> value_ok (S fuel).
Proof.
  intros IHi IHf.
  intros d s v rest B E. cbn [parse_value] in E. destruct (skip_white_spec s B) as [Bw _].
  assert (utf8_json v /\ follows (skip_white s) rest) as [U F]; [|split; [done|by apply follows_white]].
  destruct (skip_white s) as [|c s1]; [done|]. pose proof (follows_cons c s1 Bw) as Fc. destruct Fc as [B1 _]. pose proof (follows_cons c s1 Bw) as Fc.
  destruct (c =? 34).
  { destruct (unquote (length s1) s1) as [[t more]|] eqn:Eu; [|done]. injection E as <- <-. apply unquote_spec in Eu as [U F]; [|done]. split; [done|by eapply follows_trans]. }
  destruct (c =? 91).
  { destruct (_ <=? d); [done|]. destruct (next_is 93 (skip_white s1)) eqn:N; [injection E as <- <-; split; [done|]; apply follows_next in N; [by eapply follows_trans|done]|].
    destruct (parse_items fuel (d + 1) s1) as [[items more]|] eqn:Ei; [|done]. injection E as <- <-. apply IHi in Ei as [U F]; [|done].
    split; [by apply utf8_arr|by eapply follows_trans]. }
  destruct (c =? 123).
  { destruct (_ <=? d); [done|]. destruct (next_is 125 (skip_white s1)) eqn:N; [injection E as <- <-; split; [done|]; apply follows_next in N; [by eapply follows_trans|done]|].
    destruct (parse_fields fuel (d + 1) s1) as [[items more]|] eqn:Ei; [|done]. injection E as <- <-. apply IHf in Ei as [U F]; [|done].
    split; [by apply utf8_obj|by eapply follows_trans]. }
  destruct (_ || _).
  { destruct (lex_number (c :: s1)) as [[l more]|] eqn:El; [|done]. injection E as <- <-. split; [done|by apply lex_number_spec in El]. }
  repeat (destruct (HasPrefix _ _); [injection E as <- <-; split; [done|split; [by apply Forall_drop|rewrite length_drop; cbn; lia]]|]). done.
Qed.
Lemma items_step fuel : value_ok fuel -> items_ok fuel -> items_ok (S fuel).
Proof.
  intros IHv IHi.
  intros d s items rest B E. cbn [parse_items] in E. destruct (parse_value fuel d s) as [[v s1]|] eqn:Ev; [|done]. cbn [mbind option_bind] in E.
  apply IHv in Ev as [U F]; [|done]. destruct (next_is 44 (skip_white s1)) as [s2|] eqn:N.
  + apply follows_next in N; [|apply F]. destruct (parse_items fuel d s2) as [[items' s3]|] eqn:Ei; [|done]. injection E as <- <-. apply IHi in Ei as [U' F']; [|apply N].
    split; [by constructor|]. by do 2 (eapply follows_trans; [done|]).
  + destruct (next_is 93 (skip_white s1)) as [s2|] eqn:N'; [|done]. injection E as <- <-. apply follows_next in N'; [|apply F]. split; [by constructor|by eapply follows_trans].
Qed.
Lemma fields_step fuel : value_ok fuel -> fields_ok fuel -> fields_ok (S fuel).
Proof.
  intros IHv IHf.
  intros d s fields rest B E. cbn [parse_fields] in E. destruct (next_is 34 (skip_white s)) as [s1|] eqn:N1; [|done]. apply follows_next in N1; [|done]. cbn [mbind option_bind] in E.
  destruct (unquote (length s1) s1) as [[k s2]|] eqn:Eu; [|done]. apply unquote_spec in Eu as [_ F2]; [|apply N1]. cbn [mbind option_bind] in E.
  destruct (next_is 58 (skip_white s2)) as [s3|] eqn:N3; [|done]. apply follows_next in N3; [|apply F2]. cbn [mbind option_bind] in E.
  destruct (parse_value fuel d s3) as [[v s4]|] eqn:Ev; [|done]. apply IHv in Ev as [U F4]; [|apply N3]. cbn [mbind option_bind] in E.
  assert (follows s s4) as F by by do 3 (eapply follows_trans; [done|]).
  destruct (next_is 44 (skip_white s4)) as [s5|] eqn:N.
  + apply follows_next in N; [|apply F]. destruct (parse_fields fuel d s5) as [[fields' s6]|] eqn:Ei; [|done]. injection E as <- <-. apply IHf in Ei as [U' F']; [|apply N].
    split; [by constructor|]. by do 2 (eapply follows_trans; [done|]).
  + destruct (next_is 125 (skip_white s4)) as [s5|] eqn:N'; [|done]. injection E as <- <-. apply follows_next in N'; [|apply F]. split; [by constructor|by eapply follows_trans].
Qed.
Lemma parse_spec fuel : value_ok fuel /\ items_ok fuel /\ fields_ok fuel.
Proof. induction fuel as [|fuel (IHv & IHi & IHf)]; [done|]. split_and!; [by apply value_step|by apply items_step|by apply fields_step]. Qed.

(** The decoder has fuel enough for any text: more changes nothing, so where it gives no value
    the text has none. *)
Definition value_total (n : nat) : Prop :=
  forall m d s, all_bytes s -> (2 * length s < n)%nat -> (2 * length s < m)%nat -> parse_value n d s = parse_value m d s.
Definition items_total (n : nat) : Prop :=
  forall m d s, all_bytes s -> (2 * length s + 1 < n)%nat -> (2 * length s + 1 < m)%nat -> parse_items n d s = parse_items m d s.
Definition fields_total (n : nat) : Prop :=
  forall m d s, all_bytes s -> (2 * length s + 1 < n)%nat -> (2 * length s + 1 < m)%nat -> parse_fields n d s = parse_fields m d s.
Lemma value_total_step n : items_total n -> fields_total n -> value_total (S n).
Proof.
  intros Ti Tf [|m] d s B Ln Lm; [lia|]. cbn [parse_value]. destruct (skip_white_spec s B) as [Bw Lw]. destruct (skip_white s) as [|c s1]; [done|].
  apply Forall_cons in Bw as [_ B1]. cbn in Lw. by rewrite (Ti m), (Tf m) by (done || lia).
Qed.
Lemma items_total_step n : value_total n -> items_total n -> items_total (S n).
Proof.
  intros Tv Ti [|m] d s B Ln Lm; [lia|]. cbn [parse_items]. rewrite (Tv m) by (done || lia). destruct (parse_value m d s) as [[v s1]|] eqn:Ev; [|done]. cbn [mbind option_bind].
  apply parse_spec in Ev as [_ [B1 L1]]; [|done]. destruct (next_is 44 (skip_white s1)) as [s2|] eqn:N; [|done]. apply follows_next in N as [B2 L2]; [|done].
  by rewrite (Ti m) by (done || lia).
Qed.
Lemma fields_total_step n : value_total n -> fields_total n -> fields_total (S n).
Proof.
  intros Tv Tf [|m] d s B Ln Lm; [lia|]. cbn [parse_fields]. destruct (next_is 34 (skip_white s)) as [s1|] eqn:N1; [|done]. apply follows_next in N1 as [B1 L1]; [|done]. cbn [mbind option_bind].
  destruct (unquote (length s1) s1) as [[k s2]|] eqn:Eu; [|done]. apply unquote_spec in Eu as [_ [B2 L2]]; [|done]. cbn [mbind option_bind].
  destruct (next_is 58 (skip_white s2)) as [s3|] eqn:N3; [|done]. apply follows_next in N3 as [B3 L3]; [|done]. cbn [mbind option_bind].
  rewrite (Tv m) by (done || lia). destruct (parse_value m d s3) as [[v s4]|] eqn:Ev; [|done]. apply parse_spec in Ev as [_ [B4 L4]]; [|done]. cbn [mbind option_bind].
  destruct (next_is 44 (skip_white s4)) as [s5|] eqn:N; [|done]. apply follows_next in N as [B5 L5]; [|done]. by rewrite (Tf m) by (done || lia).
Qed.
Lemma parse_total n : value_total n /\ items_total n /\ fields_total n.
Proof.
  induction n as [|n (Tv & Ti & Tf)]; [split_and!; intros m d s _ L; lia|].
  split_and!; [by apply value_total_step|by apply items_total_step|by apply fields_total_step].
Qed.
Lemma parse_one_total n s : all_bytes s -> (2 * length s < n)%nat -> parse_value n 0 s = parse_one s.
Proof. intros B L. apply (parse_total n); [done|done|lia]. Qed.
Lemma parse_one_spec s v rest : all_bytes s -> parse_one s = Some (v, rest) -> utf8_json v /\ follows s rest.
Proof. intros B E. exact (proj1 (parse_spec _) _ _ _ _ B E). Qed.
Lemma parse_json_utf8 s v : all_bytes s -> parse_json s = Some v -> utf8_json v.
Proof.
  intros B E. unfold parse_json in E. destruct (parse_one s) as [[v' rest]|] eqn:E1; [|done]. cbn [mbind option_bind] in E.
  destruct (_ =? 0); [|done]. injection E as <-. by apply parse_one_spec in E1 as [? _].
Qed.

(** What every setter keeps the struct keeps. *)
Lemma fill_keeps {T} (P : T -> Prop) disallow (setters : list (bytes * setter T)) v x y :
  Forall (fun s => forall v x y, utf8_json v -> P x -> s.2 v x = Some y -> P y) setters ->
  utf8_json v -> P x -> fill disallow setters v x = Some y -> P y.
Proof.
  intros F U Px E. destruct v as [| | | | |fields]; try done; [by injection E as <-|]. cbn [fill] in E. apply utf8_obj in U.
  revert x Px E. induction U as [|[name v] fields Uv U IH]; intros x Px E; cbn [fill_fields] in E; [by injection E as <-|].
  destruct (find_setter setters name) as [set|] eqn:Es; [|destruct disallow; [done|by eapply IH]].
  destruct (set v x) as [x1|] eqn:E1; [|done]. cbn [mbind option_bind] in E. eapply IH; [|done].
  assert (exists s, s ∈ setters /\ s.2 = set) as (s & Hs & <-).
  { unfold find_setter in Es. destruct (list_find _ setters) as [[i s]|] eqn:L.
    - injection Es as <-. exists s. split; [|done]. apply list_find_Some in L as (L & _). by eapply list_elem_of_lookup_2.
    - destruct (list_find (fun s => EqualFoldText s.1 name = true) setters) as [[i s]|] eqn:L2; [|done]. injection Es as <-. exists s. split; [|done].
      apply list_find_Some in L2 as (L2 & _). by eapply list_elem_of_lookup_2. }
  rewrite Forall_forall in F. by eapply (F s).
Qed.
Lemma set_string_keeps v x y : utf8_json v -> utf8 x -> set_string v x = Some y -> utf8 y.
Proof. intros U Ux E. destruct v; try done; by injection E as <-. Qed.
Lemma set_slice_keeps {X} (P : X -> Prop) zero (set : setter X) v x y :
  P zero -> (forall v x y, utf8_json v -> P x -> set v x = Some y -> P y) ->
  utf8_json v -> Forall P x.1 /\ Forall P x.2 -> set_slice zero set v x = Some y -> Forall P y.1 /\ Forall P y.2.
Proof.
  intros Pz Ks U [F1 F2] E. destruct v as [| | | |items|]; try done; [by injection E as <-|]. apply utf8_arr in U.
  assert (forall array y, Forall P array -> set_items zero set items array = Some y -> Forall P y.1 /\ Forall P y.2) as Go.
  { clear - Pz Ks U. induction U as [|v items Uv U IH]; intros array y Fa E; cbn [set_items] in E; [by injection E as <-|].
    destruct (set v _) as [x|] eqn:E1; [|done]. cbn [mbind option_bind] in E. destruct (set_items zero set items (tail array)) as [[xs rest]|] eqn:E2; [|done].
    injection E as <-. destruct (IH _ _ (Forall_tail _ _ Fa) E2) as [Fx Fr]. split; [|done]. constructor; [|done].
    eapply Ks; [done| |done]. by destruct Fa. }
  destruct items as [|v items]; [by injection E as <-|]. apply (Go (x.1 ++ x.2)); [|done]. by apply Forall_app.
Qed.
(** Goals of [fill_keeps], a setter at a time. *)
Ltac each_setter :=
  let E := fresh "E" in let Es := fresh "Es" in
  repeat (apply Forall_cons; split); [..|apply Forall_nil; done]; cbn [snd]; intros ? ? ? ? ? E;
  apply fmap_Some in E as (? & Es & ->); try (apply set_string_keeps in Es; [|done || (by intuition)..]); intuition done.

(** ** Filling from what was written *)
Lemma sanitize_utf8 s : utf8 s -> sanitize s = s.
Proof. apply bool_decide_eq_true. Qed.
(** Filling from an object that has every name, in order, is setting each. *)
Fixpoint set_each {T} (todo : list (bytes * setter T)) (vs : list json) (x : T) : option T :=
  match todo, vs with
  | [], [] => Some x
  | s :: todo, v :: vs => x ← s.2 v x; set_each todo vs x
  | _, _ => None
  end.
Lemma fill_all {T} disallow (setters todo : list (bytes * setter T)) (vs : list json) x y :
  Forall (fun s => find_setter setters (sanitize s.1) = Some s.2) todo -> set_each todo vs x = Some y ->
  fill_fields disallow setters (zip_with (fun s v => (sanitize s.1, v)) todo vs) x = Some y.
Proof.
  intros F. revert vs x. induction F as [|s todo Fs F IH]; intros [|v vs] x E; try done. cbn [zip_with fill_fields set_each] in E |- *. rewrite Fs.
  destruct (s.2 v x) as [x1|]; [|done]. by apply IH.
Qed.
Lemma list_read html {X} zero (set : setter X) (write : X -> json) l :
  Forall (fun x => forall old, set (cleaned html (write x)) old = Some x) l ->
  set_slice zero set (cleaned html (jlist (write <$> l))) ([], []) = Some (l, []).
Proof.
  intros F. assert (set_items zero set (cleaned html <$> (write <$> l)) [] = Some (l, [])) as E.
  { induction F as [|x l Fx F IH]; [done|]. rewrite !fmap_cons. cbn [set_items tail]. rewrite Fx. cbn [mbind option_bind]. by rewrite IH. }
  destruct l as [|x l]; [done|]. exact E.
Qed.

(** An integer within [int] reads back. *)
Lemma digits_value_loop fuel n acc : 0 < n < 2 ^ Z.of_nat fuel -> digits_value (decimal_loop fuel n acc) 0 = digits_value acc n.
Proof.
  revert n acc. induction fuel as [|fuel IH]; intros n acc B; [change (2 ^ Z.of_nat 0) with 1 in B; lia|]. cbn [decimal_loop]. rewrite (proj2 (Z.leb_gt n 0)) by lia.
  assert (forall k, digits_value (48 + n mod 10 :: acc) k = digits_value acc (10 * k + n mod 10)) as D.
  { intros k. cbn [digits_value]. assert (is_digit (48 + n mod 10) = true) as -> by (apply is_digit_spec; euclid). f_equal. lia. }
  destruct (Z.lt_ge_cases (n / 10) 1) as [L|L].
  - assert (n / 10 = 0) as E by euclid. rewrite E. assert (decimal_loop fuel 0 (48 + n mod 10 :: acc) = 48 + n mod 10 :: acc) as -> by by destruct fuel.
    rewrite D. f_equal. euclid.
  - rewrite IH, D; [f_equal; euclid|]. rewrite Nat2Z.inj_succ, Z.pow_succ_r in B by lia. euclid.
Qed.
Lemma Atoi_digits c ds : is_digit c = true -> Atoi (c :: ds) = n ← digits_value (c :: ds) 0; if (n <? - 2 ^ 63) || (2 ^ 63 - 1 <? n) then None else Some n.
Proof.
  intros H%is_digit_spec. assert (c = 48 \/ c = 49 \/ c = 50 \/ c = 51 \/ c = 52 \/ c = 53 \/ c = 54 \/ c = 55 \/ c = 56 \/ c = 57) as C by lia.
  by destruct C as [-> | [-> | [-> | [-> | [-> | [-> | [-> | [-> | [-> | ->]]]]]]]]].
Qed.
Lemma Atoi_Itoa n : 0 <= n < 2 ^ 63 -> Atoi (Itoa n) = Some n.
Proof.
  intros B. unfold Itoa. rewrite (proj2 (Z.ltb_ge n 0)) by lia. destruct (Z.eqb_spec n 0) as [->|N]; [done|].
  destruct (decimal_head n) as (c & ds & E & Hc & _); [lia|]. rewrite E, Atoi_digits by (apply is_digit_spec; lia). rewrite <- E. unfold decimal.
  rewrite (proj2 (Z.eqb_neq n 0)), digits_value_loop by (done || (split; [lia|]; rewrite Nat2Z.inj_succ, Z2Nat.id by apply Z.log2_nonneg; apply Z.log2_spec; lia)).
  cbn [digits_value mbind option_bind]. by rewrite (proj2 (Z.ltb_ge _ _)), (proj2 (Z.ltb_ge _ _)) by lia.
Qed.
