(* ===== verification/GoBase64.v ===== *)
(** * Base64

    What the code uses of [encoding/base64]: the standard alphabet with padding, and its decoder, which reads
    back what was encoded.  The bits that padding leaves over are ignored. *)

From S2P Require Import Prelude GoStd GoText.

(** ** Encoding *)
Definition base64_digit (v : Z) : Z :=
  if v <? 26 then 65 + v else if v <? 52 then 97 + (v - 26) else if v <? 62 then 48 + (v - 52) else if v =? 62 then 43 else 47.
Fixpoint EncodeToString (s : bytes) : bytes :=
  match s with
  | a :: b :: c :: s =>
      [base64_digit (Z.shiftr a 2); base64_digit (Z.lor (Z.shiftl (Z.land a 3) 4) (Z.shiftr b 4));
       base64_digit (Z.lor (Z.shiftl (Z.land b 15) 2) (Z.shiftr c 6)); base64_digit (Z.land c 63)] ++ EncodeToString s
  | [a; b] =>
      [base64_digit (Z.shiftr a 2); base64_digit (Z.lor (Z.shiftl (Z.land a 3) 4) (Z.shiftr b 4));
       base64_digit (Z.shiftl (Z.land b 15) 2); 61]
  | [a] => [base64_digit (Z.shiftr a 2); base64_digit (Z.shiftl (Z.land a 3) 4); 61; 61]
  | [] => []
  end.

(** ** Decoding *)
Definition base64_value (c : Z) : option Z :=
  if in_range 65 c 90 then Some (c - 65) else if in_range 97 c 122 then Some (c - 97 + 26)
  else if in_range 48 c 57 then Some (c - 48 + 52) else if c =? 43 then Some 62 else if c =? 47 then Some 63 else None.
(** Groups of four characters; padding only at the end. *)
Fixpoint base64_decode (s : bytes) : option bytes :=
  match s with
  | [] => Some []
  | w :: x :: y :: z :: s =>
      a ← base64_value w; b ← base64_value x;
      if (y =? 61) && (z =? 61) && (s =s? []) then Some [u8 (4 * a + b / 16)]
      else
        c ← base64_value y;
        if (z =? 61) && (s =s? []) then Some [u8 (4 * a + b / 16); u8 (16 * b + c / 4)]
        else
          d ← base64_value z;
          rest ← base64_decode s; Some (u8 (4 * a + b / 16) :: u8 (16 * b + c / 4) :: u8 (64 * c + d) :: rest)
  | _ => None
  end.

Lemma base64_digit_spec v :
  0 <= v < 64 -> base64_value (base64_digit v) = Some v /\ base64_digit v <> 61 /\ 43 <= base64_digit v <= 122.
Proof.
  intros H. assert (forallb (fun v => bool_decide (base64_value (base64_digit v) = Some v) && negb (base64_digit v =? 61) &&
    in_range 43 (base64_digit v) 122) (seqZ 0 64) = true) as C by (vm_compute; reflexivity).
  rewrite forallb_forall in C. specialize (C v ltac:(apply list_elem_of_In, elem_of_seqZ; lia)). bool_prop.
  match goal with R : in_range _ _ _ = true |- _ => apply in_range_spec in R end. done.
Qed.

(** Bits put below a shifted value. *)
Lemma lor_shift_add x y n : 0 <= n -> 0 <= y < 2 ^ n -> Z.lor (Z.shiftl x n) y = x * 2 ^ n + y.
Proof.
  intros Hn Hy. rewrite <- Z.shiftl_mul_pow2 by lia. symmetry. apply Z.add_nocarry_lor.
  apply Z.bits_inj'. intros k Hk. rewrite Z.land_spec, Z.bits_0. destruct (Z.lt_ge_cases k n).
  - by rewrite Z.shiftl_spec_low.
  - apply andb_false_iff. right. rewrite <- (Z.mod_small y (2 ^ n)) by lia. apply Z.mod_pow2_bits_high. lia.
Qed.

(** The arithmetic of the six-bit groups. *)
Lemma groups_arith a b : 
  in_width 8 a -> in_width 8 b ->
  Z.shiftr a 2 = a / 4 /\ Z.shiftl (Z.land a 3) 4 = 16 * (a mod 4) /\ Z.shiftl (Z.land a 15) 2 = 4 * (a mod 16) /\ Z.land a 63 = a mod 64 /\
  Z.lor (Z.shiftl (Z.land a 3) 4) (Z.shiftr b 4) = 16 * (a mod 4) + b / 16 /\
  Z.lor (Z.shiftl (Z.land a 15) 2) (Z.shiftr b 6) = 4 * (a mod 16) + b / 64.
Proof.
  intros Ha Hb. unfold in_width in *. change 3 with (Z.ones 2). change 15 with (Z.ones 4). change 63 with (Z.ones 6).
  rewrite !Z.land_ones, !Z.shiftr_div_pow2 by lia.
  rewrite !lor_shift_add by (try lia; change (2 ^ 4) with 16; change (2 ^ 2) with 4; change (2 ^ 6) with 64; euclid).
  rewrite !Z.shiftl_mul_pow2 by lia. change (2 ^ 2) with 4. change (2 ^ 4) with 16. change (2 ^ 6) with 64.
  split_and!; try reflexivity; lia.
Qed.

Lemma group_digits a b c :
  in_width 8 a -> in_width 8 b -> in_width 8 c ->
  0 <= a / 4 < 64 /\ 0 <= 16 * (a mod 4) + b / 16 < 64 /\ 0 <= 4 * (b mod 16) + c / 64 < 64 /\ 0 <= c mod 64 < 64 /\
  0 <= 16 * (a mod 4) < 64 /\ 0 <= 4 * (b mod 16) < 64 /\
  u8 (4 * (a / 4) + (16 * (a mod 4) + b / 16) / 16) = a /\ u8 (4 * (a / 4) + 16 * (a mod 4) / 16) = a /\
  u8 (16 * (16 * (a mod 4) + b / 16) + (4 * (b mod 16) + c / 64) / 4) = b /\
  u8 (16 * (16 * (a mod 4) + b / 16) + 4 * (b mod 16) / 4) = b /\
  u8 (64 * (4 * (b mod 16) + c / 64) + c mod 64) = c.
Proof. unfold in_width, u8. change (2 ^ 8) with 256. intros. split_and!; euclid. Qed.

(** Three at a time. *)
Lemma triples_ind (P : bytes -> Prop) :
  P [] -> (forall a, P [a]) -> (forall a b, P [a; b]) -> (forall a b c s, P s -> P (a :: b :: c :: s)) -> forall s, P s.
Proof.
  intros H0 H1 H2 H3 s. induction s as [s IH] using (induction_ltof1 _ (@length Z)). unfold ltof in IH.
  destruct s as [|a [|b [|c s]]]; auto. apply H3, IH. cbn. lia.
Qed.

Lemma base64_roundtrip body : all_bytes body -> base64_decode (EncodeToString body) = Some body.
Proof.
  induction body as [|a|a b|a b c s IH] using triples_ind; intros F; [done|..].
  - apply Forall_cons in F as [Ha _]. cbn [EncodeToString].
    destruct (groups_arith a a Ha Ha) as (-> & -> & _). destruct (group_digits a a a Ha Ha Ha) as (D1 & _ & _ & _ & D2 & _ & _ & E & _).
    destruct (base64_digit_spec _ D1) as (V1 & _), (base64_digit_spec _ D2) as (V2 & _).
    cbn [base64_decode]. rewrite V1, V2. cbn. by rewrite E.
  - apply Forall_cons in F as [Ha F]. apply Forall_cons in F as [Hb _]. cbn [EncodeToString].
    destruct (groups_arith a b Ha Hb) as (-> & _ & _ & _ & -> & _). destruct (groups_arith b b Hb Hb) as (_ & _ & -> & _).
    destruct (group_digits a b b Ha Hb Hb) as (D1 & D2 & _ & _ & _ & D3 & E1 & _ & _ & E2 & _).
    destruct (base64_digit_spec _ D1) as (V1 & _), (base64_digit_spec _ D2) as (V2 & _), (base64_digit_spec _ D3) as (V3 & N3 & _).
    cbn [base64_decode app]. rewrite V1, V2, V3, (proj2 (Z.eqb_neq _ _) N3). cbn. by rewrite E1, E2.
  - apply Forall_cons in F as [Ha F]. apply Forall_cons in F as [Hb F]. apply Forall_cons in F as [Hc F]. cbn [EncodeToString].
    destruct (groups_arith a b Ha Hb) as (-> & _ & _ & _ & -> & _). destruct (groups_arith b c Hb Hc) as (_ & _ & _ & _ & _ & ->).
    destruct (groups_arith c c Hc Hc) as (_ & _ & _ & -> & _).
    destruct (group_digits a b c Ha Hb Hc) as (D1 & D2 & D3 & D4 & _ & _ & E1 & _ & E2 & _ & E3).
    destruct (base64_digit_spec _ D1) as (V1 & _), (base64_digit_spec _ D2) as (V2 & _), (base64_digit_spec _ D3) as (V3 & N3 & _),
      (base64_digit_spec _ D4) as (V4 & N4 & _).
    cbn [base64_decode app]. rewrite V1, V2, V3, V4, (proj2 (Z.eqb_neq _ _) N3), (proj2 (Z.eqb_neq _ _) N4), (IH F).
    cbn. by rewrite E1, E2, E3.
Qed.

(** The characters of an encoded text. *)
Lemma EncodeToString_chars (P : Z -> Prop) body :
  (forall v, 0 <= v < 64 -> P (base64_digit v)) -> P 61 -> all_bytes body -> Forall P (EncodeToString body).
Proof.
  intros Hd Hp. induction body as [|a|a b|a b c s IH] using triples_ind; intros F; [constructor|..]; cbn [EncodeToString].
  - apply Forall_cons in F as [Ha _]. destruct (groups_arith a a Ha Ha) as (-> & -> & _).
    destruct (group_digits a a a Ha Ha Ha) as (D1 & _ & _ & _ & D2 & _). repeat constructor; auto.
  - apply Forall_cons in F as [Ha F]. apply Forall_cons in F as [Hb _].
    destruct (groups_arith a b Ha Hb) as (-> & _ & _ & _ & -> & _). destruct (groups_arith b b Hb Hb) as (_ & _ & -> & _).
    destruct (group_digits a b b Ha Hb Hb) as (D1 & D2 & _ & _ & _ & D3 & _). repeat constructor; auto.
  - apply Forall_cons in F as [Ha F]. apply Forall_cons in F as [Hb F]. apply Forall_cons in F as [Hc F].
    destruct (groups_arith a b Ha Hb) as (-> & _ & _ & _ & -> & _). destruct (groups_arith b c Hb Hc) as (_ & _ & _ & _ & _ & ->).
    destruct (groups_arith c c Hc Hc) as (_ & _ & _ & -> & _).
    destruct (group_digits a b c Ha Hb Hc) as (D1 & D2 & D3 & D4 & _). apply Forall_app. split; [repeat constructor; auto|by apply IH].
Qed.
