(* ===== verification/GoXml.v ===== *)
(** * XML as [encoding/xml] reads it

    [Decoder.Token] in its strict mode, as far as its callers look: the start elements of a
    document in order, each with its local name and the local names and values of its attributes,
    and whether the decoder came to the end of a well-formed input.  Text, comments, processing
    instructions and directives are checked and skipped.

    The tables of letters beyond ASCII that may appear in names are the parameter [wide]; values
    and text may have any character in any case. *)

From S2P Require Import Prelude GoStd GoText.

Module Xml.

(** Byte classes. *)
Definition isNameByte (c : Z) : bool :=
  is_upper c || is_lower c || is_digit c || (c =? 95) || (c =? 58) || (c =? 46) || (c =? 45).
Definition isInCharacterRange (r : Z) : bool :=
  (r =? 9) || (r =? 10) || (r =? 13) || in_range 0x20 r 0xD7FF || in_range 0xE000 r 0xFFFD || in_range 0x10000 r 0x10FFFF.
Fixpoint span (f : Z -> bool) (s : bytes) : bytes * bytes :=
  match s with
  | [] => ([], [])
  | c :: rest => if f c then let '(a, b) := span f rest in (c :: a, b) else ([], s)
  end.

(** ** Character data *)

(** The predefined entities, and character numbers in decimal or hexadecimal. *)
Definition entity (name : bytes) : option Z :=
  if name =s? str "lt" then Some 60 else if name =s? str "gt" then Some 62 else if name =s? str "amp" then Some 38
  else if name =s? str "apos" then Some 39 else if name =s? str "quot" then Some 34 else None.
Fixpoint hex_value (s : bytes) (n : Z) : option Z :=
  match s with [] => Some n | c :: s => d ← hex_digit c; hex_value s (16 * n + d) end.
Definition char_number (n : Z) : option bytes := if n <=? 0x10FFFF then Some (encode_rune n) else None.
(** What stands between [&] and [;]. *)
Definition reference (s : bytes) : option bytes :=
  match s with
  | [] => None
  | c :: digits =>
      if c =? 35 then
        match digits with
        | [] => None
        | d :: ds =>
            if d =? 120 then if len ds =? 0 then None else n ← hex_value ds 0; char_number n
            else n ← digits_value digits 0; char_number n
        end
      else encode_rune <$> entity s
  end.

(** [Decoder.text] up to its end: the closing quote when [quote] is one, [<] (which is left) in
    ordinary text, or the end of a CDATA section.  [b0] and [b1] are the last two bytes read, [ref]
    the reference being read, [acc] the buffer, last byte first.  The input may end in ordinary
    text; in a quoted value the caller then finds nothing left. *)
Fixpoint text_loop (quote : Z) (cdata : bool) (b0 b1 : Z) (ref : option bytes) (acc s : bytes) : option (bytes * bytes) :=
  match s with
  | [] => if cdata then None else match ref with Some _ => None | None => Some (rev acc, []) end
  | b :: rest =>
      match ref with
      | Some r =>
          if b =? 59 then x ← reference (rev r); text_loop quote cdata 0 0 None (rev x ++ acc) rest
          else text_loop quote cdata 0 0 (Some (b :: r)) acc rest
      | None =>
          if (quote <? 0) && (b0 =? 93) && (b1 =? 93) && (b =? 62) then
            if cdata then Some (rev (drop 2 acc), rest) else None
          else if (b =? 60) && negb cdata then if 0 <=? quote then None else Some (rev acc, s)
          else if (0 <=? quote) && (b =? quote) then Some (rev acc, rest)
          else if (b =? 38) && negb cdata then text_loop quote cdata 0 0 (Some []) acc rest
          else if b =? 13 then text_loop quote cdata b1 b None (10 :: acc) rest
          else if (b1 =? 13) && (b =? 10) then text_loop quote cdata b1 b None acc rest
          else text_loop quote cdata b1 b None (b :: acc) rest
      end
  end.
Definition text (quote : Z) (cdata : bool) (s : bytes) : option (bytes * bytes) :=
  '(data, rest) ← text_loop quote cdata 0 0 None [] s;
  if valid_utf8 data && forallb isInCharacterRange (runes data) then Some (data, rest) else None.

(** ** Markup other than elements *)

(** The end of a comment, in which "--" must not appear. *)
Fixpoint comment (b0 b1 : Z) (s : bytes) : option bytes :=
  match s with
  | [] => None
  | b :: s => if (b0 =? 45) && (b1 =? 45) then if b =? 62 then Some s else None else comment b1 b s
  end.
(** A directive up to its [>]: quoted text and nested brackets are passed over, comments in it skipped
    ([skip] counts the bytes of one). *)
Fixpoint directive (skip : nat) (inquote depth : Z) (s : bytes) : option bytes :=
  match s, skip with
  | [], _ => None
  | _ :: s, S skip => directive skip inquote depth s
  | b :: s, O =>
      if (inquote =? 0) && (b =? 62) && (depth =? 0) then Some s
      else if b =? inquote then directive 0 0 depth s
      else if negb (inquote =? 0) then directive 0 inquote depth s
      else if (b =? 39) || (b =? 34) then directive 0 b depth s
      else if b =? 62 then directive 0 inquote (depth - 1) s
      else if b =? 60 then
        if HasPrefix s (str "!--") then
          match Index (drop 3 s) (str "-->") with
          | Some k => directive (3 + k + 3) inquote depth s
          | None => None
          end
        else directive 0 inquote (depth + 1) s
      else directive 0 inquote depth s
  end.
(** [procInst]: the value of a parameter of the declaration, "" when there is none. *)
Fixpoint find_param (fuel : nat) (param s : bytes) : bytes :=
  match fuel with
  | O => []
  | S fuel =>
      match Index s param with
      | None => []
      | Some k =>
          match drop (length param + k) s with
          | [] => []
          | c :: rest =>
              if (c =? 39) || (c =? 34) then match IndexByte rest c with Some j => take j rest | None => [] end
              else find_param fuel param rest
          end
      end
  end.
Definition procInst (param content : bytes) : bytes := find_param (S (length content)) (param ++ [61]) content.
Definition declaration_ok (content : bytes) : bool :=
  let ver := procInst (str "version") content in
  let enc := procInst (str "encoding") content in
  ((ver =s? []) || (ver =s? str "1.0")) && ((enc =s? []) || EqualFold enc (str "utf-8")).

(** ** Names and elements *)
Section Decoder.
Variable wide : bool -> Z -> bool.

Definition first_rune (r : Z) : bool := if r <? RuneSelf then (r =? 58) || is_upper r || (r =? 95) || is_lower r else wide true r.
Definition second_rune (r : Z) : bool := if r <? RuneSelf then (r =? 45) || (r =? 46) || is_digit r else wide false r.
Definition isName (s : bytes) : bool :=
  match runes s with
  | [] => false
  | r :: rs => valid_utf8 s && first_rune r && forallb (fun r => first_rune r || second_rune r) rs
  end.
(** [Decoder.name]: the input may not end with the name. *)
Definition name (s : bytes) : option (bytes * bytes) :=
  match span (fun c => (RuneSelf <=? c) || isNameByte c) s with
  | (_, []) => None
  | (n, rest) => if isName n then Some (n, rest) else None
  end.
(** A name is a prefix, possibly empty, and a local part. *)
Record Name := mkName { nmSpace : bytes; nmLocal : bytes }.
#[export] Instance Name_eq_dec : EqDecision Name.
Proof. solve_decision. Defined.
Definition split_name (s : bytes) : option Name :=
  if 1 <? len (List.filter (Z.eqb 58) s) then None
  else match CutByte s 58 with
       | Some (space, local) => if (space =s? []) || (local =s? []) then Some (mkName [] s) else Some (mkName space local)
       | None => Some (mkName [] s)
       end.
Definition nsname (s : bytes) : option (Name * bytes) := '(n, rest) ← name s; n ← split_name n; Some (n, rest).

Definition attrval (s : bytes) : option (bytes * bytes) :=
  match s with [] => None | q :: rest => if (q =? 34) || (q =? 39) then text q false rest else None end.
(** The attributes, whether the element is empty, and what follows it. *)
Fixpoint attributes (fuel : nat) (s : bytes) : option (list (bytes * bytes) * bool * bytes) :=
  match fuel with
  | O => None
  | S fuel =>
      let s := skip_white s in
      match next_is 47 s with
      | Some s => s ← next_is 62 s; Some ([], true, s)
      | None =>
          match next_is 62 s with
          | Some s => Some ([], false, s)
          | None =>
              '(n, s) ← nsname s;
              s ← next_is 61 (skip_white s);
              '(v, s) ← attrval (skip_white s);
              '(attrs, empty, s) ← attributes fuel s;
              Some ((nmLocal n, v) :: attrs, empty, s)
          end
      end
  end.

Inductive token := StartElement (n : Name) (attrs : list (bytes * bytes)) (empty : bool) | EndElement (n : Name) | Skipped.
Definition processing (s : bytes) : option (token * bytes) :=
  '(target, s) ← name s;
  let s := skip_white s in
  k ← Index s (str "?>");
  if negb (target =s? str "xml") || declaration_ok (take k s) then Some (Skipped, drop (k + 2) s) else None.
Definition markup (s : bytes) : option (token * bytes) :=
  match s with
  | [] => None
  | b :: rest =>
      if b =? 47 then '(n, s) ← nsname rest; s ← next_is 62 (skip_white s); Some (EndElement n, s)
      else if b =? 63 then processing rest
      else if b =? 33 then
        match rest with
        | [] => None
        | c :: rest =>
            if c =? 45 then s ← next_is 45 rest; s ← comment 0 0 s; Some (Skipped, s)
            else if c =? 91 then
              if HasPrefix rest (str "CDATA[") then '(_, s) ← text (-1) true (drop 6 rest); Some (Skipped, s) else None
            else s ← directive 0 0 0 rest; Some (Skipped, s)
        end
      else '(n, s) ← nsname s; '(attrs, empty, s) ← attributes (length s) s; Some (StartElement n attrs empty, s)
  end.
Definition rawToken (s : bytes) : option (token * bytes) :=
  match s with
  | [] => None
  | b :: rest => if b =? 60 then markup rest else '(_, s) ← text (-1) false s; Some (Skipped, s)
  end.

(** The tokens, with the elements that are open. *)
Fixpoint tokens (fuel : nat) (open : list Name) (s : bytes) : list (bytes * list (bytes * bytes)) * bool :=
  match s, fuel with
  | [], _ => ([], bool_decide (open = []))
  | _, O => ([], false)
  | _, S fuel =>
      match rawToken s with
      | None => ([], false)
      | Some (StartElement n attrs empty, s) =>
          let '(l, ok) := tokens fuel (if empty then open else n :: open) s in ((nmLocal n, attrs) :: l, ok)
      | Some (EndElement n, s) =>
          match open with m :: open => if bool_decide (m = n) then tokens fuel open s else ([], false) | [] => ([], false) end
      | Some (Skipped, s) => tokens fuel open s
      end
  end.
Definition xml_tokens (s : bytes) : list (bytes * list (bytes * bytes)) * bool := tokens (length s) [] s.
End Decoder.

(** Text for examples, with single quotes in place of double quotes. *)
Definition xml_text (s : string) : bytes := (fun c => if c =? 39 then 34 else c) <$> str s.
Definition no_wide (first : bool) (r : Z) : bool := false.
Example listing_tokens :
  xml_tokens no_wide (xml_text "<?xml version='1.0' encoding='UTF-8'?><!DOCTYPE x [<!-- > -->]><l version = '1.0'><msg handle='0A' s='a&amp;&#x41;'/> text <!-- c --></l>") =
  ([(str "l", [(str "version", str "1.0")]); (str "msg", [(str "handle", str "0A"); (str "s", str "a&A")])], true).
Proof. vm_compute. reflexivity. Qed.
Example broken_tokens :
  xml_tokens no_wide (xml_text "<l><x:msg a='1'></y:msg></l>") = ([(str "l", []); (str "msg", [(str "a", str "1")])], false) /\
  xml_tokens no_wide (xml_text "<l>") = ([(str "l", [])], false) /\
  xml_tokens no_wide (xml_text "<l a=1/>") = ([], false) /\
  xml_tokens no_wide (xml_text "<l a='&nbsp;'/>") = ([], false) /\
  xml_tokens no_wide (xml_text "<?xml version='1.1'?><l/>") = ([], false) /\
  xml_tokens no_wide (xml_text "<l>]]></l>") = ([(str "l", [])], false) /\
  xml_tokens no_wide (xml_text "<l><![CDATA[ <msg/> ]]></l>") = ([(str "l", [])], true).
Proof. vm_compute. split_and!; reflexivity. Qed.

(** ** The decoder ends *)
Lemma span_spec f s a b : span f s = (a, b) -> s = a ++ b.
Proof.
  revert a b. induction s as [|c s IH]; intros a b; cbn; [by intros [= <- <-]|]. destruct (f c); [|by intros [= <- <-]].
  destruct (span f s) as [a' b'] eqn:E. intros [= <- <-]. cbn. by rewrite <- (IH a' b').
Qed.
Lemma skip_white_length s : (length (skip_white s) <= length s)%nat.
Proof. induction s as [|c s IH]; cbn; [done|]. destruct (is_white c); cbn; lia. Qed.
Lemma text_loop_length quote cdata b0 b1 ref acc s d rest :
  text_loop quote cdata b0 b1 ref acc s = Some (d, rest) -> (length rest <= length s)%nat.
Proof.
  revert b0 b1 ref acc. induction s as [|b s IH]; intros b0 b1 ref acc; cbn [text_loop length].
  { repeat case_match; intros; simplify_eq; done. }
  destruct ref as [r|].
  - case_match; [|intros E; apply IH in E; lia]. destruct (reference (rev r)); [|done]. intros E. apply IH in E. lia.
  - repeat case_match; first [done | intros E; simplify_eq; cbn [length]; lia | intros E; apply IH in E; lia].
Qed.
Lemma text_length quote cdata s d rest : text quote cdata s = Some (d, rest) -> (length rest <= length s)%nat.
Proof.
  unfold text. destruct (text_loop _ _ _ _ _ _ s) as [[d' r']|] eqn:E; [|done]. apply text_loop_length in E. cbn. case_match; [|done]. by intros [= _ <-].
Qed.
Lemma text_shorter b s d rest : b <> 60 -> text (-1) false (b :: s) = Some (d, rest) -> (length rest < length (b :: s))%nat.
Proof.
  intros N. unfold text. destruct (text_loop _ _ _ _ _ _ (b :: s)) as [[d' r']|] eqn:E; [|done]. cbn [mbind option_bind]. case_match; [|done]. intros [= _ <-].
  cbn [text_loop] in E. rewrite (proj2 (Z.eqb_neq b 60)) in E by done. cbn [Z.eqb Z.ltb Z.leb Z.compare andb] in E.
  repeat case_match; apply text_loop_length in E; cbn [length]; lia.
Qed.
Lemma comment_length b0 b1 s rest : comment b0 b1 s = Some rest -> (length rest < length s)%nat.
Proof. revert b0 b1. induction s as [|b s IH]; intros b0 b1; cbn; [done|]. repeat case_match; [intros [= <-]; lia|done|]. intros E%IH. lia. Qed.
Lemma directive_length skip inquote depth s rest : directive skip inquote depth s = Some rest -> (length rest < length s)%nat.
Proof.
  revert skip inquote depth. induction s as [|b s IH]; intros skip inquote depth; cbn [directive length]; [by destruct skip|].
  repeat case_match; try done; first [by intros [= <-]; lia | by intros E%IH; lia].
Qed.

Section Ends.
Variable wide : bool -> Z -> bool.
#[local] Abbreviation name := (name wide).
#[local] Abbreviation nsname := (nsname wide).
#[local] Abbreviation attributes := (attributes wide).
#[local] Abbreviation rawToken := (rawToken wide).
#[local] Abbreviation tokens := (tokens wide).

Lemma name_length s n rest : name s = Some (n, rest) -> (length rest < length s)%nat.
Proof.
  unfold Xml.name. destruct (span _ s) as [a [|b r]] eqn:E; [done|]. apply span_spec in E as ->. destruct (isName wide a) eqn:I; [|done]. intros [= _ <-].
  rewrite length_app. destruct a; [done|cbn; lia].
Qed.
Lemma nsname_length s n rest : nsname s = Some (n, rest) -> (length rest < length s)%nat.
Proof.
  unfold Xml.nsname. destruct (name s) as [[x r]|] eqn:E; [|done]. apply name_length in E. cbn. destruct (split_name x); [|done]. by intros [= _ <-].
Qed.
Lemma next_is_length c s rest : next_is c s = Some rest -> (length rest < length s)%nat.
Proof. intros ->%next_is_spec. cbn. lia. Qed.
Lemma attrval_length s v rest : attrval s = Some (v, rest) -> (length rest < length s)%nat.
Proof. destruct s as [|q s]; [done|]. cbn [attrval length]. case_match; [|done]. intros E%text_length. lia. Qed.
(** One attribute. *)
Lemma attribute_length s n s1 s2 v s3 :
  nsname (skip_white s) = Some (n, s1) -> next_is 61 (skip_white s1) = Some s2 -> attrval (skip_white s2) = Some (v, s3) ->
  (length s3 < length s)%nat.
Proof.
  intros E1%nsname_length E2%next_is_length E3%attrval_length.
  pose proof (skip_white_length s). pose proof (skip_white_length s1). pose proof (skip_white_length s2). lia.
Qed.
Lemma attributes_length fuel s attrs empty rest : attributes fuel s = Some (attrs, empty, rest) -> (length rest < length s)%nat.
Proof.
  revert s attrs empty rest. induction fuel as [|fuel IH]; intros s attrs empty rest; cbn [Xml.attributes]; [done|]. cbv zeta.
  pose proof (skip_white_length s). destruct (next_is 47 _) as [s1|] eqn:E1.
  { apply next_is_length in E1. destruct (next_is 62 s1) as [s2|] eqn:E2; [|done]. apply next_is_length in E2. intros [= _ _ <-]. lia. }
  destruct (next_is 62 _) as [s1|] eqn:E2; [apply next_is_length in E2; intros [= _ _ <-]; lia|].
  destruct (nsname _) as [[n s1]|] eqn:E3; [|done]. cbn [mbind option_bind]. destruct (next_is 61 _) as [s2|] eqn:E4; [|done]. cbn [mbind option_bind].
  destruct (attrval _) as [[v s3]|] eqn:E5; [|done]. cbn [mbind option_bind]. destruct (attributes fuel s3) as [[[as' e'] s4]|] eqn:E6; [|done].
  apply IH in E6. intros [= _ _ <-]. pose proof (attribute_length _ _ _ _ _ _ E3 E4 E5). lia.
Qed.
Lemma attributes_fuel n m s : (length s <= n)%nat -> (length s <= m)%nat -> attributes n s = attributes m s.
Proof.
  revert m s. induction n as [|n IH]; intros m s Ln Lm.
  { destruct s; [|cbn in Ln; lia]. by destruct m. }
  destruct m as [|m]; [destruct s; [done|cbn in Lm; lia]|]. cbn [Xml.attributes]. cbv zeta.
  destruct (next_is 47 _); [done|]. destruct (next_is 62 _); [done|].
  destruct (nsname _) as [[x s1]|] eqn:E3; [|done]. cbn [mbind option_bind]. destruct (next_is 61 _) as [s2|] eqn:E4; [|done]. cbn [mbind option_bind].
  destruct (attrval _) as [[v s3]|] eqn:E5; [|done]. cbn [mbind option_bind]. pose proof (attribute_length _ _ _ _ _ _ E3 E4 E5).
  by rewrite (IH m) by lia.
Qed.
Lemma markup_length s t rest : markup wide s = Some (t, rest) -> (length rest <= length s)%nat.
Proof.
  destruct s as [|b s]; [done|]. cbn [markup length]. case_match.
  { destruct (nsname s) as [[n s1]|] eqn:E1; [|done]. cbn [mbind option_bind]. destruct (next_is 62 _) as [s2|] eqn:E2; [|done]. intros [= _ <-].
    apply nsname_length in E1. apply next_is_length in E2. pose proof (skip_white_length s1). lia. }
  case_match.
  { unfold processing. destruct (name s) as [[n s1]|] eqn:E1; [|done]. apply name_length in E1. cbn [mbind option_bind]. cbv zeta.
    destruct (Index _ _) as [k|]; [|done]. cbn [mbind option_bind]. case_match; [|done]. intros [= _ <-]. rewrite length_drop. pose proof (skip_white_length s1). lia. }
  case_match.
  - destruct s as [|c s]; [done|]. cbn [length]. case_match; [|case_match].
    + destruct (next_is 45 s) as [s1|] eqn:E1; [|done]. cbn [mbind option_bind]. destruct (comment 0 0 s1) eqn:E2; [|done].
      apply next_is_length in E1. apply comment_length in E2. intros [= _ <-]. lia.
    + case_match; [|done]. destruct (text _ _ _) as [[d s1]|] eqn:E1; [|done]. apply text_length in E1. intros [= _ <-]. rewrite length_drop in E1. lia.
    + destruct (directive _ _ _ s) as [s1|] eqn:E1; [|done]. apply directive_length in E1. intros [= _ <-]. lia.
  - destruct (nsname _) as [[n s1]|] eqn:E1; [|done]. apply nsname_length in E1. cbn [mbind option_bind]. destruct (attributes _ s1) as [[[as' e'] s2]|] eqn:E2; [|done].
    apply attributes_length in E2. intros [= _ <-]. cbn [length] in E1. lia.
Qed.
Lemma rawToken_length s t rest : rawToken s = Some (t, rest) -> (length rest < length s)%nat.
Proof.
  destruct s as [|b s]; [done|]. cbn [Xml.rawToken]. case_match eqn:B; [intros E%markup_length; cbn; lia|]. bool_prop.
  destruct (text _ _ _) as [[d s1]|] eqn:E1; [|done]. intros [= _ <-]. by eapply text_shorter.
Qed.
Lemma tokens_fuel n m open s : (length s <= n)%nat -> (length s <= m)%nat -> tokens n open s = tokens m open s.
Proof.
  revert m open s. induction n as [|n IH]; intros m open s Ln Lm.
  { destruct s; [|cbn in Ln; lia]. by destruct m. }
  destruct s as [|b s]; [by destruct m|]. destruct m as [|m]; [cbn in Lm; lia|]. cbn [Xml.tokens].
  destruct (rawToken (b :: s)) as [[t rest]|] eqn:E; [|done]. apply rawToken_length in E.
  destruct t as [x attrs empty|x|]; [by rewrite (IH m) by lia| |apply IH; lia]. destruct open; [done|]. case_bool_decide; [apply IH; lia|done].
Qed.
(** The fuel of [xml_tokens] is enough: more changes nothing. *)
Lemma xml_tokens_total n s : (length s <= n)%nat -> tokens n [] s = xml_tokens wide s.
Proof. intros L. by apply tokens_fuel. Qed.
End Ends.

(** ** Documents

    An element tree without text, written with its attribute values escaped, gives its elements
    in the order of their start tags. *)
#[local] Unset Elimination Schemes.
Inductive element := Element (n : bytes) (attrs : list (bytes * bytes)) (children : list element).
#[local] Set Elimination Schemes.
Fixpoint element_tree_ind (P : element -> Prop) (H : forall n attrs children, Forall P children -> P (Element n attrs children)) (e : element) : P e :=
  match e with
  | Element n attrs children =>
      H n attrs children ((fix go l : Forall P l := match l with [] => Forall_nil_2 _ | e :: l => Forall_cons_2 _ _ _ (element_tree_ind P H e) (go l) end) children)
  end.

Definition escape_byte (c : Z) : bytes :=
  if c =? 38 then str "&amp;" else if c =? 60 then str "&lt;" else if c =? 34 then str "&quot;" else if c =? 13 then str "&#13;" else [c].
Definition escape (v : bytes) : bytes := v ≫= escape_byte.
Definition print_attr (a : bytes * bytes) : bytes := [32] ++ a.1 ++ [61; 34] ++ escape a.2 ++ [34].
Fixpoint print (e : element) : bytes :=
  match e with
  | Element n attrs children =>
      [60] ++ n ++ (attrs ≫= print_attr) ++
      match children with
      | [] => [47; 62]
      | _ => [62] ++ (children ≫= print) ++ [60; 47] ++ n ++ [62]
      end
  end.
Fixpoint preorder (e : element) : list (bytes * list (bytes * bytes)) :=
  match e with Element n attrs children => (n, attrs) :: (children ≫= preorder) end.

(** Names of letters, digits and marks; values of valid characters. *)
Definition plain_name (n : bytes) : bool :=
  match n with
  | c :: n => (is_upper c || is_lower c || (c =? 95)) && forallb (fun c => isNameByte c && negb (c =? 58)) n
  | [] => false
  end.
Definition fine_value (v : bytes) : bool := valid_utf8 v && forallb isInCharacterRange (runes v).
Fixpoint fine (e : element) : bool :=
  match e with
  | Element n attrs children => plain_name n && forallb (fun a => plain_name a.1 && fine_value a.2) attrs && forallb fine children
  end.

Lemma escape_read v b0 b1 acc rest :
  b1 <> 13 -> text_loop 34 false b0 b1 None acc (escape v ++ 34 :: rest) = Some (rev acc ++ v, rest).
Proof.
  revert b0 b1 acc. induction v as [|c v IH]; intros b0 b1 acc N; [cbn; by rewrite app_nil_r|].
  unfold escape. cbn [mbind list_bind]. fold (escape v). rewrite <- app_assoc. unfold escape_byte at 1.
  assert (forall b0 b1, b1 <> 13 -> text_loop 34 false b0 b1 None (c :: acc) (escape v ++ 34 :: rest) = Some (rev acc ++ c :: v, rest)) as Go.
  { intros b0' b1' N'. rewrite IH by done. cbn [rev]. by rewrite <- app_assoc. }
  destruct (Z.eqb_spec c 38) as [->|N1]; [apply (Go 0 0); done|]. destruct (Z.eqb_spec c 60) as [->|N2]; [apply (Go 0 0); done|].
  destruct (Z.eqb_spec c 34) as [->|N3]; [apply (Go 0 0); done|]. destruct (Z.eqb_spec c 13) as [->|N4]; [apply (Go 0 0); done|].
  cbn [app text_loop]. cbn [Z.ltb Z.leb Z.compare andb]. rewrite (proj2 (Z.eqb_neq c 60)), (proj2 (Z.eqb_neq c 34)), (proj2 (Z.eqb_neq c 38)), (proj2 (Z.eqb_neq c 13)), (proj2 (Z.eqb_neq b1 13)) by done.
  cbn [andb]. apply (Go b1 c). done.
Qed.
Lemma text_escape v rest : fine_value v = true -> text 34 false (escape v ++ 34 :: rest) = Some (v, rest).
Proof. intros F. unfold text. rewrite escape_read by done. cbn [mbind option_bind rev app]. unfold fine_value in F. by rewrite F. Qed.

Lemma span_stop f a c rest : forallb f a = true -> f c = false -> span f (a ++ c :: rest) = (a, c :: rest).
Proof. induction a as [|x a IH]; cbn; intros F N; [by rewrite N|]. bool_prop. rewrite H, IH by done. done. Qed.

Section Reads.
Variable wide : bool -> Z -> bool.
#[local] Abbreviation nsname := (nsname wide).
#[local] Abbreviation attributes := (attributes wide).
#[local] Abbreviation rawToken := (rawToken wide).
(** The tokens from a point of the document on. *)
#[local] Abbreviation from open s := (tokens wide (length s) open s).

Lemma name_byte_ascii c : isNameByte c = true -> 0 <= c < RuneSelf.
Proof. unfold isNameByte, is_upper, is_lower, is_digit, in_range, RuneSelf. rewrite !orb_true_iff, !andb_true_iff. lia. Qed.
Lemma name_start_byte c : is_upper c || is_lower c || (c =? 95) = true -> isNameByte c = true /\ c <> 58 /\ first_rune wide c = true.
Proof.
  intros E. assert (isNameByte c = true) as I by (unfold isNameByte; apply orb_true_iff in E as [-> | ->]; by rewrite ?orb_true_r).
  apply name_byte_ascii in I as A. split_and!; [done| |].
  - intros ->. done.
  - unfold first_rune. rewrite (proj2 (Z.ltb_lt _ _)) by lia. destruct (is_upper c); [by rewrite orb_true_r|]. destruct (is_lower c); [by rewrite orb_true_r|].
    cbn in E. rewrite E. by rewrite orb_true_r.
Qed.
Lemma name_part c : isNameByte c = true -> c <> 58 -> first_rune wide c || second_rune wide c = true.
Proof.
  intros I N. apply name_byte_ascii in I as A. unfold first_rune, second_rune. rewrite (proj2 (Z.ltb_lt _ _)) by lia.
  unfold isNameByte in I. destruct (is_upper c), (is_lower c), (is_digit c), (c =? 95), (c =? 45), (c =? 46); cbn in *; rewrite ?orb_true_r; try done.
  by rewrite (proj2 (Z.eqb_neq c 58)) in I.
Qed.
Lemma plain_name_bytes n : plain_name n = true -> Forall (fun c => isNameByte c = true /\ c <> 58) n.
Proof.
  destruct n as [|c n]; [done|]. cbn [plain_name]. intros [Hc F]%andb_true_iff. apply name_start_byte in Hc as (I & N & _). constructor; [done|].
  apply forallb_Forall_true in F. eapply Forall_impl; [exact F|]. intros x [Hx Nx%negb_true_iff%Z.eqb_neq]%andb_true_iff. done.
Qed.
Lemma filter_none c s : Forall (fun x => x <> c) s -> List.filter (Z.eqb c) s = [].
Proof. induction 1 as [|x s Hx F IH]; [done|]. cbn. by rewrite (proj2 (Z.eqb_neq c x)). Qed.
Lemma nsname_plain n c rest : plain_name n = true -> 0 <= c < RuneSelf -> isNameByte c = false -> nsname (n ++ c :: rest) = Some (mkName [] n, c :: rest).
Proof.
  intros P A N. pose proof (plain_name_bytes n P) as F. unfold Xml.nsname, name. rewrite span_stop.
  - assert (runes n = n) as R.
    { apply runes_ascii. eapply Forall_impl; [exact F|]. intros x [Hx _]. by apply name_byte_ascii. }
    assert (isName wide n = true) as ->.
    { unfold isName. rewrite R. destruct n as [|x n]; [done|]. apply Forall_cons in F as [[I _] F]. cbn [plain_name] in P. apply andb_true_iff in P as [Px Pn].
      apply name_start_byte in Px as (_ & _ & Fx). rewrite Fx, !andb_true_iff. split_and!; [|done|].
      - apply utf8_ascii. constructor; [by apply name_byte_ascii|]. eapply Forall_impl; [exact F|]. intros y [Hy _]. by apply name_byte_ascii.
      - apply forallb_Forall_true. eapply Forall_impl; [exact F|]. intros y [Hy Ny]. by apply name_part. }
    cbn [mbind option_bind]. unfold split_name, CutByte. rewrite filter_none by (eapply Forall_impl; [exact F|]; intros x [_ Hx]; done).
    unfold IndexByte. rewrite index_where_None; [done|]. apply forallb_Forall_true. eapply Forall_impl; [exact F|]. intros x [_ Hx]. apply negb_true_iff, Z.eqb_neq. done.
  - apply forallb_Forall_true. eapply Forall_impl; [exact F|]. intros x [Hx _]. by rewrite Hx, orb_true_r.
  - rewrite N. apply orb_false_iff. split; [apply Z.leb_gt; lia|done].
Qed.
Lemma nsname_head n rest : plain_name n = true -> exists c, head (n ++ rest) = Some c /\ isNameByte c = true.
Proof. intros P. pose proof (plain_name_bytes n P) as F. destruct n as [|c n]; [done|]. apply Forall_cons in F as [[I _] _]. by exists c. Qed.

Lemma attributes_step fuel a s attrs empty rest :
  plain_name a.1 = true -> fine_value a.2 = true -> attributes fuel s = Some (attrs, empty, rest) ->
  attributes (S fuel) (print_attr a ++ s) = Some (a :: attrs, empty, rest).
Proof.
  destruct a as [n v]. cbn [fst snd]. intros Pn Fv E. unfold print_attr. cbn [fst snd]. rewrite <- !app_assoc. cbn [app Xml.attributes]. cbv zeta.
  assert (skip_white (32 :: n ++ 61 :: 34 :: escape v ++ 34 :: s) = n ++ 61 :: 34 :: escape v ++ 34 :: s) as ->.
  { pose proof (plain_name_bytes n Pn) as F. destruct n as [|c n]; [done|]. apply Forall_cons in F as [[I _] _]. cbn [skip_white app]. cbn.
    assert (is_white c = false) as ->; [|done]. unfold is_white. unfold isNameByte, is_upper, is_lower, is_digit, in_range in I. lia. }
  assert (forall c, isNameByte c = false -> next_is c (n ++ 61 :: 34 :: escape v ++ 34 :: s) = None) as Nx.
  { intros c Hc. destruct (nsname_head n (61 :: 34 :: escape v ++ 34 :: s) Pn) as (d & Hd & Id). destruct (n ++ _) as [|x l]; [done|]. injection Hd as ->.
    apply next_is_miss. congruence. }
  rewrite !Nx by done. rewrite nsname_plain by done. cbn [mbind option_bind]. rewrite skip_white_black, next_is_hit by done. cbn [mbind option_bind].
  rewrite skip_white_black by done. cbn [attrval Z.eqb Pos.eqb orb]. rewrite text_escape by done. cbn [mbind option_bind]. by rewrite E.
Qed.
Lemma attributes_print attrs close (empty : bool) rest fuel :
  forallb (fun a => plain_name a.1 && fine_value a.2) attrs = true ->
  (forall fuel, attributes (S fuel) (close ++ rest) = Some ([], empty, rest)) -> close <> [] ->
  (length ((attrs ≫= print_attr) ++ close ++ rest) <= fuel)%nat ->
  attributes fuel ((attrs ≫= print_attr) ++ close ++ rest) = Some (attrs, empty, rest).
Proof.
  intros F C N. revert fuel. induction attrs as [|a attrs IH]; intros fuel L.
  { destruct fuel; [|apply C]. destruct close; [done|cbn in L; lia]. }
  cbn [forallb] in F. apply andb_true_iff in F as [[Pa Fa]%andb_true_iff F]. cbn [mbind list_bind] in *. rewrite <- app_assoc in *.
  assert (length ((attrs ≫= print_attr) ++ close ++ rest) < fuel)%nat as L'.
  { rewrite length_app in L. unfold print_attr at 1 in L. cbn [length app] in L. lia. }
  destruct fuel as [|fuel]; [lia|]. apply attributes_step; [done|done|]. apply IH; [done|lia].
Qed.

(** The tag of an element. *)
Definition tag_end (empty : bool) : bytes := if empty then [47; 62] else [62].
Lemma start_tag n attrs empty rest :
  plain_name n = true -> forallb (fun a => plain_name a.1 && fine_value a.2) attrs = true ->
  rawToken ([60] ++ n ++ (attrs ≫= print_attr) ++ tag_end empty ++ rest) = Some (StartElement (mkName [] n) attrs empty, rest).
Proof.
  intros Pn F. cbn [app Xml.rawToken]. cbn [Z.eqb Pos.eqb].
  assert (exists c tl, (attrs ≫= print_attr) ++ tag_end empty ++ rest = c :: tl /\ 0 <= c < RuneSelf /\ isNameByte c = false) as (c & tl & Ec & A & I).
  { destruct attrs as [|a attrs]; [destruct empty; by eexists _, _|]. eexists 32, _. done. }
  destruct (nsname_head n (c :: tl) Pn) as (d & Hd & Id). unfold markup. rewrite Ec.
  destruct (n ++ c :: tl) as [|x l] eqn:El; [done|]. injection Hd as ->.
  rewrite (proj2 (Z.eqb_neq d 47)), (proj2 (Z.eqb_neq d 63)), (proj2 (Z.eqb_neq d 33)) by (intros ->; done).
  rewrite <- El, nsname_plain by done. cbn [mbind option_bind]. rewrite <- Ec.
  rewrite (attributes_print attrs (tag_end empty) empty rest) by (done || by destruct empty). done.
Qed.
Lemma end_tag n rest : plain_name n = true -> rawToken ([60; 47] ++ n ++ [62] ++ rest) = Some (EndElement (mkName [] n), rest).
Proof. intros P. cbn. by rewrite nsname_plain. Qed.

Lemma tokens_step open s t rest :
  rawToken s = Some (t, rest) ->
  from open s =
    match t with
    | StartElement n attrs empty => let '(l, ok) := from (if empty then open else n :: open) rest in ((nmLocal n, attrs) :: l, ok)
    | EndElement n => match open with m :: open => if bool_decide (m = n) then from open rest else ([], false) | [] => ([], false) end
    | Skipped => from open rest
    end.
Proof.
  intros E. pose proof (rawToken_length wide _ _ _ E) as L. destruct s as [|b s]; [done|]. cbn [tokens length]. rewrite E. cbn [length] in L.
  assert (forall open, tokens wide (length s) open rest = from open rest) as G by (intros; apply tokens_fuel; lia).
  destruct t; rewrite ?G; [done| |done]. destruct open; [done|]. by rewrite G.
Qed.
(** An element is read as its own start tags, and what follows it is read with the same elements open. *)
Definition adds (seen : list (bytes * list (bytes * bytes))) (r : list (bytes * list (bytes * bytes)) * bool) := (seen ++ r.1, r.2).
Lemma tokens_print e : fine e = true -> forall open rest, from open (print e ++ rest) = adds (preorder e) (from open rest).
Proof.
  induction e as [n attrs children IH] using element_tree_ind. cbn [fine]. intros [[Pn Fa]%andb_true_iff Fc]%andb_true_iff open rest.
  assert (forall open rest, from open ((children ≫= print) ++ rest) = adds (children ≫= preorder) (from open rest)) as Cs.
  { clear -IH Fc. induction IH as [|e children He _ IHc]; intros open rest; [apply surjective_pairing|]. cbn [forallb] in Fc. apply andb_true_iff in Fc as [Fe Fc].
    cbn [mbind list_bind]. rewrite <- app_assoc, He, IHc by done. unfold adds. cbn [fst snd]. by rewrite app_assoc. }
  cbn [print preorder]. rewrite <- !app_assoc. destruct children as [|e children].
  - rewrite (tokens_step _ _ _ _ (start_tag n attrs true rest Pn Fa)). by destruct (from open rest).
  - rewrite <- !app_assoc. rewrite (tokens_step _ _ _ _ (start_tag n attrs false _ Pn Fa)). rewrite Cs.
    rewrite (tokens_step _ _ _ _ (end_tag n rest Pn)). rewrite bool_decide_eq_true_2 by done. done.
Qed.
Lemma xml_tokens_print e : fine e = true -> xml_tokens wide (print e) = (preorder e, true).
Proof. intros F. unfold xml_tokens. rewrite <- (app_nil_r (print e)). rewrite tokens_print by done. unfold adds. cbn. by rewrite app_nil_r. Qed.
(** A declaration may come first. *)
Definition xml_declaration : bytes := xml_text "<?xml version='1.0' encoding='utf-8' standalone='yes'?>".
Lemma xml_tokens_declared s : xml_tokens wide (xml_declaration ++ s) = xml_tokens wide s.
Proof.
  unfold xml_tokens. apply (tokens_step [] (xml_declaration ++ s) Skipped s). destruct s; vm_compute; reflexivity.
Qed.
End Reads.
End Xml.
