(* ===== verification/GoUrl.v ===== *)
(** * URLs as [net/url] reads them

    [Parse], [EscapedPath] and, for a URL without fragment, [String].  Bytes from 128 on stand for
    parts of characters; they are never letters. *)

From S2P Require Import Prelude GoStd GoText.

Module Url.

(** What is escaped depends on the part of the URL. *)
Inductive encoding := encodePath | encodeUserPassword | encodeFragment | encodeHost | encodeZone.
#[export] Instance encoding_eq_dec : EqDecision encoding.
Proof. solve_decision. Defined.
Definition one_of (set : string) (c : Z) : bool := existsb (Z.eqb c) (str set).
Definition alphanumeric (c : Z) : bool := is_lower c || is_upper c || is_digit c.
Definition host_mode (mode : encoding) : bool := match mode with encodeHost | encodeZone => true | _ => false end.
Definition shouldEscape (c : Z) (mode : encoding) : bool :=
  if alphanumeric c then false
  else if host_mode mode && (one_of "!$&'()*+,;=:[]<>" c || (c =? 34)) then false
  else if one_of "-_.~" c then false
  else if one_of "$&+,/:;=?@" c && negb (host_mode mode) then
    match mode with
    | encodePath => c =? 63
    | encodeUserPassword => one_of "@/?:" c
    | _ => false
    end
  else if bool_decide (mode = encodeFragment) && one_of "!()*" c then false
  else true.

Definition hex_upper (d : Z) : Z := if d <? 10 then 48 + d else 55 + d.
Definition escape (mode : encoding) (s : bytes) : bytes :=
  s ≫= fun c => if shouldEscape c mode then [37; hex_upper (c / 16); hex_upper (c mod 16)] else [c].
(** [unescape]; in a host only bytes beyond ASCII and the percent sign may be escaped. *)
Definition escape_allowed (mode : encoding) (v : Z) : bool :=
  match mode with
  | encodeHost => (8 <=? v / 16) || (v =? 37)
  | encodeZone => (v =? 37) || (v =? 32) || negb (shouldEscape v encodeHost)
  | _ => true
  end.
Fixpoint unescape (mode : encoding) (s : bytes) : option bytes :=
  match s with
  | [] => Some []
  | c :: s =>
      if c =? 37 then
        match s with
        | a :: b :: s =>
            x ← hex_digit a; y ← hex_digit b;
            if escape_allowed mode (16 * x + y) then rest ← unescape mode s; Some (16 * x + y :: rest) else None
        | _ => None
        end
      else if host_mode mode && (c <? 128) && shouldEscape c mode then None
      else rest ← unescape mode s; Some (c :: rest)
  end.

Record URL := mkURL {
  urScheme : bytes; urOpaque : bytes; urUser : option (bytes * option bytes); urHost : bytes; urPath : bytes; urRawPath : bytes;
  urOmitHost : bool; urForceQuery : bool; urRawQuery : bytes; urFragment : bytes
}.
#[export] Instance URL_fields : Fields URL := {|
  fields x := mkURL (urScheme x) (urOpaque x) (urUser x) (urHost x) (urPath x) (urRawPath x) (urOmitHost x) (urForceQuery x) (urRawQuery x) (urFragment x) |}.

(** ** Parsing *)
Fixpoint scheme_end (first : bool) (s : bytes) : result (option nat) :=
  match s with
  | [] => Ok None
  | c :: s =>
      if is_lower c || is_upper c then let! n := scheme_end false s in Ok (S <$> n)
      else if is_digit c || one_of "+-." c then if first then Ok None else let! n := scheme_end false s in Ok (S <$> n)
      else if c =? 58 then if first then fail! "missing protocol scheme" else Ok (Some 0%nat)
      else Ok None
  end.
Definition getScheme (s : bytes) : result (bytes * bytes) :=
  let! n := scheme_end true s in
  match n with Some i => Ok (take i s, drop (S i) s) | None => Ok ([], s) end.

(** [strings.LastIndex] of a byte: the text before and after its last occurrence. *)
Definition CutLast (s : bytes) (c : Z) : option (bytes * bytes) :=
  match CutByte (rev s) c with Some (a, b) => Some (rev b, rev a) | None => None end.
Definition validOptionalPort (port : bytes) : bool :=
  match port with [] => true | c :: digits => (c =? 58) && forallb is_digit digits end.
Definition parseHost (host : bytes) : option bytes :=
  if HasPrefix host [91] then
    '(inside, colonPort) ← CutLast host 93;
    if negb (validOptionalPort colonPort) then None
    else match Index inside (str "%25") with
         | Some zone =>
             host1 ← unescape encodeHost (take zone inside);
             host2 ← unescape encodeZone (drop zone inside);
             host3 ← unescape encodeHost (93 :: colonPort);
             Some (host1 ++ host2 ++ host3)
         | None => unescape encodeHost host
         end
  else match CutLast host 58 with
       | Some (_, port) => if validOptionalPort (58 :: port) then unescape encodeHost host else None
       | None => unescape encodeHost host
       end.
Definition validUserinfo (s : bytes) : bool := forallb (fun c => alphanumeric c || one_of "-._:~!$&'()*+,;=%@" c) (runes s).
Definition parseAuthority (authority : bytes) : option (option (bytes * option bytes) * bytes) :=
  match CutLast authority 64 with
  | None => host ← parseHost authority; Some (None, host)
  | Some (userinfo, host) =>
      host ← parseHost host;
      if negb (validUserinfo userinfo) then None
      else match CutByte userinfo 58 with
           | None => user ← unescape encodeUserPassword userinfo; Some (Some (user, None), host)
           | Some (name, password) =>
               name ← unescape encodeUserPassword name; password ← unescape encodeUserPassword password;
               Some (Some (name, Some password), host)
           end
  end.
Definition setPath (u : URL) (p : bytes) : option URL :=
  path ← unescape encodePath p;
  Some (u <| urPath := path |> <| urRawPath := if p =s? escape encodePath path then [] else p |>).

Definition control_byte (c : Z) : bool := (c <? 32) || (c =? 127).
Definition empty_url : URL := mkURL [] [] None [] [] [] false false [] [].
(** The query, and whether there is an empty one. *)
Definition cut_query (rest : bytes) : bytes * bytes * bool :=
  match CutByte rest 63 with
  | None => (rest, [], false)
  | Some (before, query) => (before, query, query =s? [])
  end.
(** After the scheme: authority and path. *)
Definition parse_rest (u : URL) (rest : bytes) : option URL :=
  let no_scheme := urScheme u =s? [] in
  if negb (HasPrefix rest [47]) && negb no_scheme then Some (u <| urOpaque := rest |>)
  else if negb (HasPrefix rest [47]) && Contains (take (default (length rest) (IndexByte rest 47)) rest) [58] then None
  else if (negb no_scheme || negb (HasPrefix rest (str "///"))) && HasPrefix rest (str "//") then
    let authority := drop 2 rest in
    let i := default (length authority) (IndexByte authority 47) in
    '(user, host) ← parseAuthority (take i authority);
    setPath (u <| urUser := user |> <| urHost := host |>) (drop i authority)
  else setPath (if negb no_scheme && HasPrefix rest [47] then u <| urOmitHost := true |> else u) rest.
Definition parse (raw : bytes) : option URL :=
  if existsb control_byte raw then None
  else if raw =s? [42] then Some (empty_url <| urPath := [42] |>)
  else match getScheme raw with
       | Error _ => None
       | Ok (scheme, rest) =>
           let '(rest, query, force) := cut_query rest in
           parse_rest (empty_url <| urScheme := ToLower scheme |> <| urRawQuery := query |> <| urForceQuery := force |>) rest
       end.
Definition Parse (raw : bytes) : option URL :=
  match CutByte raw 35 with
  | None => parse raw
  | Some (before, fragment) =>
      u ← parse before;
      if fragment =s? [] then Some u else fragment ← unescape encodeFragment fragment; Some (u <| urFragment := fragment |>)
  end.

(** ** Printing *)
Definition validEncoded (s : bytes) : bool :=
  forallb (fun c => one_of "!$&'()*+,;=:@[]%" c || negb (shouldEscape c encodePath)) s.
Definition EscapedPath (u : URL) : bytes :=
  if negb (urRawPath u =s? []) && validEncoded (urRawPath u) && bool_decide (unescape encodePath (urRawPath u) = Some (urPath u)) then urRawPath u
  else if urPath u =s? [42] then [42]
  else escape encodePath (urPath u).
Definition user_text (user : bytes * option bytes) : bytes :=
  escape encodeUserPassword user.1 ++ match user.2 with Some password => 58 :: escape encodeUserPassword password | None => [] end.
(** What stands before the path. *)
Definition authority_text (u : URL) : bytes :=
  let anonymous := bool_decide (urUser u = None) in
  if (urScheme u =s? []) && (urHost u =s? []) && anonymous then []
  else if urOmitHost u && (urHost u =s? []) && anonymous then []
  else (if negb (urHost u =s? []) || negb (urPath u =s? []) || negb anonymous then str "//" else []) ++
       match urUser u with Some user => user_text user ++ [64] | None => [] end ++ escape encodeHost (urHost u).
Definition URL_String (u : URL) : bytes :=
  let start := if urScheme u =s? [] then [] else urScheme u ++ [58] in
  start ++
  (if negb (urOpaque u =s? []) then urOpaque u
   else
     let path := EscapedPath u in
     let before := authority_text u ++ (if negb (path =s? []) && negb (HasPrefix path [47]) && negb (urHost u =s? []) then [47] else []) in
     before ++
     (if (start ++ before =s? []) && Contains (take (default (length path) (IndexByte path 47)) path) [58] then str "./" else []) ++ path) ++
  (if urForceQuery u || negb (urRawQuery u =s? []) then 63 :: urRawQuery u else []).

Example parse_service : Parse (str "https://mmmsg.acrobits.net/") =
  Some (mkURL (str "https") [] None (str "mmmsg.acrobits.net") (str "/") [] false false [] []).
Proof. vm_compute. reflexivity. Qed.
Example parse_all : Parse (str "HTTPS://a:b@h%C3%A9:80/x%2Fy?q=1#f%20") =
  Some (mkURL (str "https") [] (Some (str "a", Some (str "b"))) (str "h" ++ [195; 169] ++ str ":80") (str "/x/y") (str "/x%2Fy") false false (str "q=1") (str "f ")).
Proof. vm_compute. reflexivity. Qed.
Example parse_errors :
  Parse (str "https://h:x/") = None /\ Parse (str ":a") = None /\ Parse (str "a b:c") = None /\ Parse (str "https://a%41/") = None /\
  Parse (str "https://h/%zz") = None /\ Parse [104; 10] = None /\ Parse (str "https://[::1/") = None.
Proof. vm_compute. split_and!; reflexivity. Qed.
Example url_strings :
  URL_String <$> Parse (str "https://u@h/a%2Fb c?") = Some (str "https://u@h/a/b%20c?") /\
  URL_String <$> Parse (str "mailto:x") = Some (str "mailto:x") /\ URL_String <$> Parse (str "a/b:c") = Some (str "a/b:c").
Proof. vm_compute. split_and!; reflexivity. Qed.

(** ** What the text of a URL must have been *)
Lemma index_where_Some f s i : index_where f s = Some i -> exists a c b, s = a ++ c :: b /\ length a = i /\ f c = true.
Proof.
  revert i. induction s as [|x s IH]; intros i E; [done|]. cbn [index_where] in E. destruct (f x) eqn:Fx; [injection E as <-; by exists [], x, s|].
  destruct (index_where f s) as [j|]; [|done]. injection E as <-. destruct (IH j eq_refl) as (a & c & b & -> & <- & Fc). by exists (x :: a), c, b.
Qed.
Lemma CutByte_spec s c a b : CutByte s c = Some (a, b) -> s = a ++ c :: b.
Proof.
  unfold CutByte, IndexByte. destruct (index_where _ s) as [i|] eqn:E; [|done]. intros [= <- <-].
  apply index_where_Some in E as (x & d & y & -> & <- & ->%Z.eqb_eq). rewrite take_app_length. do 2 f_equal. replace (S (length x)) with (length x + 1)%nat by lia. by rewrite <- drop_drop, drop_app_length.
Qed.

Lemma hex_digit_alphanumeric c d : hex_digit c = Some d -> alphanumeric c = true /\ 0 <= d < 16.
Proof. unfold hex_digit, alphanumeric, is_lower, is_upper, is_digit, in_range. repeat case_match; intros [= <-]; lia. Qed.
(** A text is shorter than its escapes. *)
Lemma unescape_ind mode (P : bytes -> bytes -> Prop) :
  P [] [] ->
  (forall c s t, c <> 37 -> (host_mode mode && (c <? 128) && shouldEscape c mode = false) -> P s t -> P (c :: s) (c :: t)) ->
  (forall a b x y s t, hex_digit a = Some x -> hex_digit b = Some y -> escape_allowed mode (16 * x + y) = true -> P s t -> P (37 :: a :: b :: s) (16 * x + y :: t)) ->
  forall s t, unescape mode s = Some t -> P s t.
Proof.
  intros H0 H1 H2 s. induction s as [s IH] using (induction_ltof1 _ (@length Z)). unfold ltof in IH. intros t. destruct s as [|c s]; [by intros [= <-]|].
  cbn [unescape]. destruct (Z.eqb_spec c 37) as [->|N].
  - destruct s as [|a [|b s]]; try done. destruct (hex_digit a) as [x|] eqn:Ha; [|done]. cbn [mbind option_bind]. destruct (hex_digit b) as [y|] eqn:Hb; [|done].
    cbn [mbind option_bind]. destruct (escape_allowed _ _) eqn:Al; [|done]. destruct (unescape mode s) as [t'|] eqn:Es; [|done]. intros [= <-].
    apply H2; [done|done|done|]. apply IH; [cbn; lia|done].
  - destruct (host_mode mode && _ && _) eqn:Hm; [done|]. destruct (unescape mode s) as [t'|] eqn:Es; [|done]. intros [= <-]. apply H1; [done|done|]. apply IH; [cbn; lia|done].
Qed.
Lemma unescape_host s t : unescape encodeHost s = Some t -> Forall (fun c => c < 128 /\ c <> 37) t -> s = t.
Proof.
  intros E. revert s t E. apply (unescape_ind encodeHost (fun s t => Forall (fun c => c < 128 /\ c <> 37) t -> s = t)); [done| |].
  - intros c s t N _ IH [_ F]%Forall_cons. by rewrite IH.
  - intros a b x y s t Ha Hb Al IH [[L N] _]%Forall_cons. apply hex_digit_alphanumeric in Ha as [_ Bx], Hb as [_ By]. cbn in Al.
    apply orb_true_iff in Al as [Al%Z.leb_le | Al%Z.eqb_eq]; [|lia]. assert ((16 * x + y) / 16 = x) by euclid. lia.
Qed.
Lemma unescape_nil mode s : unescape mode s = Some [] -> s = [].
Proof. intros E. by apply (unescape_ind mode (fun s t => t = [] -> s = [])) in E. Qed.
Lemma unescape_keeps mode s t c : unescape mode s = Some t -> c <> 37 -> alphanumeric c = false -> c ∈ s -> c ∈ t.
Proof.
  intros E N A. revert s t E. apply (unescape_ind mode (fun s t => c ∈ s -> c ∈ t)); [done| |].
  - intros d s t _ _ IH [-> | H]%elem_of_cons; [by left|]. right. by apply IH.
  - intros a b x y s t Ha Hb _ IH H. apply hex_digit_alphanumeric in Ha as [Ha _], Hb as [Hb _]. right. apply IH.
    rewrite !elem_of_cons in H. destruct H as [-> | [-> | [-> | H]]]; [done|congruence|congruence|done].
Qed.
Lemma escape_percent mode s c : c ∈ s -> shouldEscape c mode = true -> 37 ∈ escape mode s.
Proof. intros H E. apply list_elem_of_bind. exists c. rewrite E. split; [by left|done]. Qed.

(** A path of plain characters was written that way. *)
Lemma plain_path u p u' token :
  setPath u p = Some u' -> EscapedPath u' = 47 :: token -> Forall (fun c => c <> 37) token -> p = 47 :: token.
Proof.
  unfold setPath. destruct (unescape encodePath p) as [path|] eqn:E; [|done]. cbn [mbind option_bind]. intros [= <-]. unfold EscapedPath.
  cbn [urRawPath urPath update]. cbn. intros Ep F. unfold str_eqb in *. destruct (bool_decide_reflect (p = escape encodePath path)) as [->|N].
  - change (bool_decide (([] : bytes) = [])) with true in Ep. cbn [negb andb] in Ep. by destruct (bool_decide (path = [42])).
  - rewrite (bool_decide_eq_true_2 (unescape _ _ = _)) in Ep by done. destruct (validEncoded p) eqn:V; [|exfalso].
    + rewrite bool_decide_eq_false_2 in Ep by (intros ->; cbn in E; by injection E as <-). done.
    + rewrite andb_false_r in Ep. cbn [andb] in Ep. destruct (bool_decide (path = [42])); [done|]. unfold validEncoded in V.
      assert (exists c, c ∈ p /\ c <> 37 /\ shouldEscape c encodePath = true) as (c & Hc & N37 & Sc).
      { clear -V. induction p as [|c p IH]; [done|]. cbn [forallb] in V. apply andb_false_iff in V as [V | V].
        - apply orb_false_iff in V as [V1 V2%negb_false_iff]. exists c. split_and!; [by left| |done]. intros ->. done.
        - destruct (IH V) as (d & Hd & X). exists d. split; [by right|done]. }
      assert (alphanumeric c = false) as A by (unfold shouldEscape in Sc; by destruct (alphanumeric c)).
      pose proof (escape_percent _ _ _ (unescape_keeps _ _ _ _ E N37 A Hc) Sc) as P. rewrite Ep in P.
      apply elem_of_cons in P as [? | P]; [done|]. by apply (proj1 (Forall_forall _ _) F) in P.
Qed.
Lemma setPath_frame u p u' : setPath u p = Some u' ->
  urScheme u' = urScheme u /\ urUser u' = urUser u /\ urHost u' = urHost u /\ urRawQuery u' = urRawQuery u /\ urFragment u' = urFragment u.
Proof. unfold setPath. destruct (unescape encodePath p); [|done]. by intros [= <-]. Qed.

Lemma scheme_end_spec first s i : scheme_end first s = Ok (Some i) -> exists a b, s = a ++ 58 :: b /\ length a = i.
Proof.
  revert first i. induction s as [|c s IH]; intros first i E; [done|]. cbn [scheme_end] in E.
  assert (forall i, (let! n := scheme_end false s in Ok (S <$> n)) = Ok (Some i) -> exists a b, c :: s = a ++ 58 :: b /\ length a = i) as Go.
  { intros j Ej. destruct (scheme_end false s) as [[k|]|] eqn:Es; try done. cbn in Ej. injection Ej as <-. destruct (IH _ _ Es) as (a & b & -> & <-). by exists (c :: a), b. }
  destruct (is_lower c || is_upper c); [by apply Go|]. destruct (is_digit c || one_of "+-." c); [destruct first; [done|by apply Go]|].
  destruct (Z.eqb_spec c 58) as [->|]; [|done]. destruct first; [done|]. injection E as <-. by exists [], s.
Qed.
Lemma getScheme_spec s scheme rest : getScheme s = Ok (scheme, rest) -> scheme <> [] -> s = scheme ++ 58 :: rest.
Proof.
  unfold getScheme. destruct (scheme_end true s) as [[i|]|] eqn:E; [|by intros [= <- _]|done]. cbn [result_bind].
  apply scheme_end_spec in E as (a & b & -> & <-). rewrite take_app_length. replace (S (length a)) with (length a + 1)%nat by lia.
  rewrite <- drop_drop, drop_app_length. by intros [= <- <-].
Qed.
Lemma parseHost_plain s host : parseHost s = Some host -> Forall (fun c => c < 128 /\ c <> 37) host -> s = host.
Proof.
  intros E F. unfold parseHost in E. destruct (HasPrefix s [91]).
  - destruct (CutLast s 93) as [[inside port]|]; [|done]. cbn [mbind option_bind] in E. destruct (negb _); [done|].
    destruct (Index inside _) as [zone|] eqn:Z; [exfalso|by apply unescape_host].
    destruct (unescape encodeHost (take zone inside)) as [h1|]; [|done]. cbn [mbind option_bind] in E.
    destruct (unescape encodeZone (drop zone inside)) as [h2|] eqn:E2; [|done]. cbn [mbind option_bind] in E.
    destruct (unescape encodeHost (93 :: port)) as [h3|]; [|done]. injection E as <-.
    assert (exists t, drop zone inside = str "%25" ++ t) as (t & Et).
    { clear -Z. revert zone Z. induction inside as [|c inside IH]; intros zone Z; [done|]. cbn [Index] in Z. destruct (HasPrefix (c :: inside) (str "%25")) eqn:P.
      - injection Z as <-. destruct inside as [|d [|e inside]]; cbn in P; rewrite ?andb_false_r in P; try done.
        bool_prop. subst. by exists inside.
      - destruct (Index inside (str "%25")) as [k|]; [|done]. injection Z as <-. apply (IH k eq_refl). }
    rewrite Et in E2. cbn in E2. destruct (unescape encodeZone t); [|done]. injection E2 as <-.
    apply Forall_app in F as [_ [F _]%Forall_app]. apply Forall_cons in F as [[_ F] _]. done.
  - destruct (CutLast s 58) as [[x port]|]; [|by apply unescape_host]. destruct (validOptionalPort _); [by apply unescape_host|done].
Qed.

(** A URL of a host, without user, query and fragment, and with a plain path, is written in one way, apart from the
    case of its scheme and from an empty query or fragment. *)
Lemma parse_rest_plain u rest u' host token :
  parse_rest u rest = Some u' -> urScheme u <> [] -> urHost u = [] -> urHost u' = host -> host <> [] -> Forall (fun c => c < 128 /\ c <> 37) host ->
  urUser u' = None -> EscapedPath u' = 47 :: token -> Forall (fun c => c <> 37) token ->
  rest = str "//" ++ host ++ 47 :: token /\ urScheme u' = urScheme u /\ urRawQuery u' = urRawQuery u /\ urFragment u' = urFragment u.
Proof.
  intros E S0 H0 Hh Nh Fh U P Fp. unfold parse_rest in E. unfold str_eqb in E. rewrite (bool_decide_eq_false_2 (urScheme u = [])) in E by done. cbn [negb] in E.
  destruct (HasPrefix rest [47]) eqn:P1; cbn [negb andb] in E; [|injection E as <-; cbn in Hh; congruence].
  cbn [orb andb] in E. destruct (HasPrefix rest (str "//")) eqn:P2; cbn [andb] in E.
  2: { apply setPath_frame in E as (_ & _ & E & _). cbn in E. congruence. }
  change (str "//") with [47; 47] in *. destruct rest as [|c1 [|c2 rest]]; [done|cbn in P2; by rewrite andb_false_r in P2|]. cbn [HasPrefix] in P2.
  apply andb_true_iff in P2 as [<-%Z.eqb_eq [<-%Z.eqb_eq _]%andb_true_iff]. change (drop 2 (47 :: 47 :: rest)) with rest in E. cbv zeta in E.
  set (i := default _ _) in E. destruct (parseAuthority (take i rest)) as [[user h]|] eqn:A; [|done]. cbn [mbind option_bind] in E.
  apply setPath_frame in E as Fr. cbn in Fr. destruct Fr as (E1 & E2 & E3 & E4 & E5). rewrite U in E2. rewrite Hh in E3. subst user h.
  unfold parseAuthority in A. destruct (CutLast (take i rest) 64) as [[ui h]|].
  { destruct (parseHost h); [|done]. cbn in A. destruct (negb _); [done|]. destruct (CutByte ui 58) as [[a b]|].
    - destruct (unescape _ a); [|done]. cbn in A. by destruct (unescape _ b).
    - by destruct (unescape _ ui). }
  destruct (parseHost (take i rest)) as [h|] eqn:Eh; [|done]. injection A as ->. apply parseHost_plain in Eh; [|done].
  eapply plain_path in E; [|done..]. split_and!; [|done..]. by rewrite <- Eh, <- E, take_drop.
Qed.
Lemma cut_query_spec rest before force : cut_query rest = (before, [], force) -> exists tail, rest = before ++ tail /\ (tail = [] \/ tail = [63]).
Proof.
  unfold cut_query. destruct (CutByte rest 63) as [[a b]|] eqn:E; [|by intros [= <-]; exists []; rewrite app_nil_r; auto].
  intros [= <- -> _]. apply CutByte_spec in E as ->. exists [63]. auto.
Qed.
Lemma Parse_plain raw u host token :
  Parse raw = Some u -> urScheme u <> [] -> urHost u = host -> host <> [] -> Forall (fun c => c < 128 /\ c <> 37) host ->
  urUser u = None -> urRawQuery u = [] -> urFragment u = [] -> EscapedPath u = 47 :: token -> Forall (fun c => c <> 37) token ->
  exists scheme query hash, raw = scheme ++ str "://" ++ host ++ 47 :: token ++ query ++ hash /\ ToLower scheme = urScheme u /\
    (query = [] \/ query = [63]) /\ (hash = [] \/ hash = [35]).
Proof.
  intros E S0 Hh Nh Fh U Q Fg P Fp.
  assert (forall raw u, parse raw = Some u -> urScheme u <> [] -> urHost u = host -> urUser u = None -> urRawQuery u = [] -> EscapedPath u = 47 :: token ->
    urFragment u = [] /\ exists scheme query, raw = scheme ++ str "://" ++ host ++ 47 :: token ++ query /\ ToLower scheme = urScheme u /\ (query = [] \/ query = [63])) as Go.
  { clear -Nh Fh Fp. intros raw u E S0 Hh U Q P. unfold parse in E. destruct (existsb _ raw); [done|]. destruct (raw =s? [42]); [by injection E as <-|].
    destruct (getScheme raw) as [[scheme rest]|] eqn:G; [|done]. destruct (cut_query rest) as [[rest' q] force] eqn:C.
    assert (scheme <> []) as Ns.
    { intros ->. apply S0. clear -E. unfold parse_rest in E. repeat first [by injection E as <- | apply setPath_frame in E as (E & _); done | case_match; try done].
      destruct (parseAuthority _) as [[us h]|]; [|done]. by apply setPath_frame in E as (E & _). }
    apply parse_rest_plain with (host := host) (token := token) in E as (-> & E1 & E2 & E3); try done.
    2: { cbn. by destruct scheme. }
    cbn in E1, E2, E3. rewrite Q in E2. subst q. apply cut_query_spec in C as (tail & -> & T). apply getScheme_spec in G; [|done].
    split; [done|]. exists scheme, tail. split_and!; [|done|done]. rewrite G. cbn. by rewrite <- !app_assoc. }
  unfold Parse in E. destruct (CutByte raw 35) as [[before fragment]|] eqn:C.
  - apply CutByte_spec in C as ->. destruct (parse before) as [u0|] eqn:Ep; [|done]. cbn [mbind option_bind] in E. unfold str_eqb in E. case_bool_decide as Hf.
    + injection E as <-. subst fragment. destruct (Go _ _ Ep) as (_ & scheme & query & -> & T & Qy); try done.
      exists scheme, query, [35]. split_and!; [|done|done|by right]. rewrite <- !app_assoc. cbn. by rewrite <- !app_assoc.
    + destruct (unescape encodeFragment fragment) as [f|] eqn:Ef; [|done]. injection E as <-. cbn in Fg. subst f. by apply unescape_nil in Ef.
  - destruct (Go _ _ E) as (_ & scheme & query & -> & T & Qy); try done. exists scheme, query, []. split_and!; [by rewrite app_nil_r|done|done|by left].
Qed.
End Url.
