(* ===== verification/GoTime.v ===== *)
(** * Times as [time.Time] is written and read in JSON

    A time is its nanoseconds since 1970 in UTC.  The text is that of RFC 3339 with as many
    digits of the fraction as there are; reading checks the ranges of the fields and accepts an
    offset from UTC. *)

From S2P Require Import Prelude GoStd GoText GoJson.

(** ** Days and dates of the Gregorian calendar *)

(** Years begin in March here, so that a leap day is the last of its year; a cycle has 400 years. *)
Definition civil_of_days (days : Z) : Z * Z * Z :=
  let z := days + 719468 in
  let doe := z mod 146097 in
  let yoe := (doe - doe / 1460 + doe / 36524 - doe / 146096) / 365 in
  let doy := doe - (365 * yoe + yoe / 4 - yoe / 100) in
  let mp := (5 * doy + 2) / 153 in
  let month := if mp <? 10 then mp + 3 else mp - 9 in
  let year := yoe + z / 146097 * 400 in
  (if month <=? 2 then year + 1 else year, month, doy - (153 * mp + 2) / 5 + 1).
Definition days_of_civil (year month day : Z) : Z :=
  let y := if month <=? 2 then year - 1 else year in
  let mp := if 2 <? month then month - 3 else month + 9 in
  let yoe := y mod 400 in
  let doe := yoe * 365 + yoe / 4 - yoe / 100 + ((153 * mp + 2) / 5 + day - 1) in
  y / 400 * 146097 + doe - 719468.
Definition is_leap (year : Z) : bool := (year mod 4 =? 0) && (negb (year mod 100 =? 0) || (year mod 400 =? 0)).
Definition days_in (month year : Z) : Z :=
  if month =? 2 then if is_leap year then 29 else 28
  else if (month =? 4) || (month =? 6) || (month =? 9) || (month =? 11) then 30 else 31.

(** ** Writing *)
Definition pad2 (n : Z) : bytes := [48 + n / 10; 48 + n mod 10].
Definition pad4 (n : Z) : bytes := [48 + n / 1000; 48 + n / 100 mod 10; 48 + n / 10 mod 10; 48 + n mod 10].
(** Digits after the point, trailing zeros left out: [width] digits of [n]. *)
Fixpoint fraction (width : nat) (n : Z) : bytes :=
  match width with
  | O => []
  | S width => if n =? 0 then [] else 48 + n / 10 ^ Z.of_nat width :: fraction width (n mod 10 ^ Z.of_nat width)
  end.
Definition nanos : Z := 10 ^ 9.
Definition format_time (t : Z) : bytes :=
  let '(year, month, day) := civil_of_days (t / (86400 * nanos)) in
  let seconds := t / nanos mod 86400 in
  let nano := t mod nanos in
  pad4 year ++ [45] ++ pad2 month ++ [45] ++ pad2 day ++ [84] ++
  pad2 (seconds / 3600) ++ [58] ++ pad2 (seconds / 60 mod 60) ++ [58] ++ pad2 (seconds mod 60) ++
  (if nano =? 0 then [] else 46 :: fraction 9 nano) ++ [90].
(** [MarshalJSON] accepts four-digit years. *)
Definition year_of (t : Z) : Z := (civil_of_days (t / (86400 * nanos))).1.1.
Definition time_ok (t : Z) : bool := (0 <=? year_of t) && (year_of t <=? 9999).

(** ** Reading *)
Fixpoint read_digits (width : nat) (n : Z) (s : bytes) : option (Z * bytes) :=
  match width with
  | O => Some (n, s)
  | S width => match s with c :: rest => if is_digit c then read_digits width (10 * n + (c - 48)) rest else None | [] => None end
  end.
(** The value of a fraction: nine digits count, missing ones are zeros. *)
Fixpoint fraction_value (width : nat) (ds : bytes) : Z :=
  match width, ds with
  | S width, c :: ds => (c - 48) * 10 ^ Z.of_nat width + fraction_value width ds
  | _, _ => 0
  end.
Definition read_fraction (s : bytes) : option (Z * bytes) :=
  match next_is 46 s with
  | Some rest => let '(ds, rest) := span_digits rest in if len ds =? 0 then None else Some (fraction_value 9 ds, rest)
  | None => Some (0, s)
  end.
(** Seconds east of UTC. *)
Definition read_zone (s : bytes) : option (Z * bytes) :=
  match s with
  | c :: rest =>
      if c =? 90 then Some (0, rest)
      else if (c =? 43) || (c =? 45) then
        '(hours, rest) ← read_digits 2 0 rest; rest ← next_is 58 rest; '(minutes, rest) ← read_digits 2 0 rest;
        if (23 <? hours) || (59 <? minutes) then None else Some ((if c =? 43 then 1 else -1) * (hours * 3600 + minutes * 60), rest)
      else None
  | [] => None
  end.
Definition parse_time (s : bytes) : option Z :=
  '(year, s) ← read_digits 4 0 s; s ← next_is 45 s;
  '(month, s) ← read_digits 2 0 s; s ← next_is 45 s;
  '(day, s) ← read_digits 2 0 s; s ← next_is 84 s;
  '(hour, s) ← read_digits 2 0 s; s ← next_is 58 s;
  '(minute, s) ← read_digits 2 0 s; s ← next_is 58 s;
  '(second, s) ← read_digits 2 0 s;
  '(nano, s) ← read_fraction s;
  '(offset, s) ← read_zone s;
  if (month <? 1) || (12 <? month) || (day <? 1) || (days_in month year <? day) || (23 <? hour) || (59 <? minute) || (59 <? second) || negb (len s =? 0)
  then None
  else Some ((days_of_civil year month day * 86400 + hour * 3600 + minute * 60 + second - offset) * nanos + nano).

(** ** Reading what was written *)

(** The day of a date, by the month it falls in. *)
Lemma leap_day doe yoe year :
  0 <= doe < 146097 -> yoe = (doe - doe / 1460 + doe / 36524 - doe / 146096) / 365 -> doe - (365 * yoe + yoe / 4 - yoe / 100) = 365 ->
  (year - yoe) mod 400 = 0 -> is_leap (year + 1) = true.
Proof.
  intros Hd Hy H365 Hm. unfold is_leap.
  assert ((year + 1) mod 4 = (yoe + 1) mod 4 /\ (year + 1) mod 100 = (yoe + 1) mod 100 /\ (year + 1) mod 400 = (yoe + 1) mod 400) as (-> & -> & ->).
  { assert (exists k, year = yoe + 400 * k) as [k ->] by (exists ((year - yoe) / 400); clear Hy; euclid). clear. split_and!; euclid. }
  assert ((yoe + 1) mod 4 = 0) as -> by (subst yoe; euclid). cbn [Z.eqb andb].
  destruct (Z.eqb_spec ((yoe + 1) mod 100) 0) as [E|E]; [|done]. cbn [negb orb]. apply Z.eqb_eq. subst yoe. euclid.
Qed.
Lemma day_bound doe yoe year doy mp month :
  0 <= doe < 146097 -> yoe = (doe - doe / 1460 + doe / 36524 - doe / 146096) / 365 -> doy = doe - (365 * yoe + yoe / 4 - yoe / 100) ->
  0 <= doy <= 365 -> mp = (5 * doy + 2) / 153 -> month = (if mp <? 10 then mp + 3 else mp - 9) -> (year - yoe) mod 400 = 0 ->
  doy - (153 * mp + 2) / 5 + 1 <= days_in month (if negb (mp <? 10) then year + 1 else year).
Proof.
  intros Hd Hy Hdoy B Hmp Hmonth Hm. assert (0 <= mp <= 11) as Bm by (clear - B Hmp; euclid). unfold days_in. destruct (Z.eqb_spec month 2) as [E2|N2].
  - assert (mp = 11) as -> by (destruct (Z.ltb_spec mp 10); lia). cbn [Z.ltb Z.compare Pos.compare Pos.compare_cont negb].
    destruct (Z.eqb_spec doy 365) as [E|E].
    + rewrite (leap_day doe yoe year) by (done || lia). subst doy. rewrite E. done.
    + destruct (is_leap _); change ((153 * 11 + 2) / 5) with 337; lia.
  - destruct (_ || _) eqn:E30.
    + assert (mp = 1 \/ mp = 3 \/ mp = 6 \/ mp = 8) as Hc by (destruct (Z.ltb_spec mp 10); bool_prop; lia). clear - B Hmp Hc. euclid.
    + clear - B Hmp. euclid.
Qed.
Lemma civil_spec days :
  let '(y, m, d) := civil_of_days days in days_of_civil y m d = days /\ 1 <= m <= 12 /\ 1 <= d <= days_in m y.
Proof.
  unfold civil_of_days. set (z := days + 719468). set (doe := z mod 146097).
  assert (0 <= doe < 146097) as Hd by (apply Z.mod_pos_bound; lia). set (yoe := (doe - doe / 1460 + doe / 36524 - doe / 146096) / 365).
  assert (0 <= yoe < 400) as Hy by (subst yoe; clearbody doe; euclid).
  set (doy := doe - (365 * yoe + yoe / 4 - yoe / 100)). assert (0 <= doy <= 365) as Hdoy by (subst doy yoe; clearbody doe; euclid).
  set (mp := (5 * doy + 2) / 153). assert (0 <= mp <= 11) as Hm by (subst mp; clearbody doy; euclid).
  set (month := if mp <? 10 then mp + 3 else mp - 9).
  assert (1 <= month <= 12 /\ (if 2 <? month then month - 3 else month + 9) = mp /\ (month <=? 2) = negb (mp <? 10)) as (M1 & M2 & M3).
  { subst month. destruct (Z.ltb_spec mp 10); [rewrite (proj2 (Z.ltb_lt _ _)), (proj2 (Z.leb_gt _ _)) by lia; lia|].
    rewrite (proj2 (Z.ltb_ge _ _)), (proj2 (Z.leb_le _ _)) by lia. lia. }
  set (year := yoe + z / 146097 * 400). rewrite M3.
  assert ((if negb (mp <? 10) then (if negb (mp <? 10) then year + 1 else year) - 1 else (if negb (mp <? 10) then year + 1 else year)) = year) as Y
    by (destruct (mp <? 10); cbn; lia).
  assert (year mod 400 = yoe /\ year / 400 = z / 146097) as [Ym Yd].
  { subst year. rewrite Z.mod_add, Z.div_add by lia. rewrite Z.mod_small, Z.div_small by lia. lia. }
  split_and!; [|lia|lia| |].
  - unfold days_of_civil. rewrite M3, Y, M2, Ym, Yd. assert (z = 146097 * (z / 146097) + doe) by (apply Z.div_mod; lia).
    clearbody doe yoe year mp. subst doy z. lia.
  - clearbody doe yoe year. subst mp. clearbody doy. euclid.
  - apply (day_bound doe yoe year doy mp month); try done. subst year. replace (_ - _) with (z / 146097 * 400) by lia. apply Z.mod_mul. lia.
Qed.

Lemma is_digit_of d : 0 <= d <= 9 -> is_digit (48 + d) = true.
Proof. intros. apply is_digit_spec. lia. Qed.
Lemma read_pad2 n rest : 0 <= n < 100 -> read_digits 2 0 (pad2 n ++ rest) = Some (n, rest).
Proof.
  intros H. unfold pad2. cbn [app read_digits]. rewrite !is_digit_of by euclid. do 2 f_equal. euclid.
Qed.
Lemma read_pad4 n rest : 0 <= n <= 9999 -> read_digits 4 0 (pad4 n ++ rest) = Some (n, rest).
Proof.
  intros H. unfold pad4. cbn [app read_digits]. rewrite !is_digit_of by euclid. do 2 f_equal. euclid.
Qed.
Lemma fraction_spec width n : 0 <= n < 10 ^ Z.of_nat width -> Forall (fun c => is_digit c = true) (fraction width n) /\ fraction_value width (fraction width n) = n.
Proof.
  revert n. induction width as [|width IH]; intros n B; cbn [fraction fraction_value]; [change (10 ^ Z.of_nat 0) with 1 in B; split; [constructor|lia]|].
  destruct (Z.eqb_spec n 0) as [->|N]; [by split|]. rewrite Nat2Z.inj_succ, Z.pow_succ_r in B by lia. assert (0 < 10 ^ Z.of_nat width) as P by (apply Z.pow_pos_nonneg; lia).
  set (p := 10 ^ Z.of_nat width) in *. destruct (IH (n mod p)) as [F V]; [by apply Z.mod_pos_bound|]. split.
  - constructor; [|done]. apply is_digit_of. split; [by apply Z.div_pos; lia|]. assert (n / p < 10); [|lia]. apply Z.div_lt_upper_bound; lia.
  - cbn [fraction_value]. fold p. rewrite V. pose proof (Z.div_mod n p). lia.
Qed.
Lemma read_fraction_format nano rest :
  0 <= nano < nanos -> stops rest -> read_fraction ((if nano =? 0 then [] else 46 :: fraction 9 nano) ++ rest) = Some (nano, rest).
Proof.
  intros B St. unfold read_fraction. destruct (Z.eqb_spec nano 0) as [->|N].
  - cbn [app]. destruct rest as [|c rest]; [done|]. destruct St as (_ & S1 & _). by rewrite next_is_miss.
  - cbn [app]. rewrite next_is_hit. destruct (fraction_spec 9 nano B) as [F V]. rewrite span_digits_app by done.
    rewrite (proj2 (Z.eqb_neq _ _)); [by rewrite V|]. cbn [fraction]. rewrite (proj2 (Z.eqb_neq nano 0)) by done. done.
Qed.

(** A time with a four-digit year reads back. *)
Lemma parse_format_time t : time_ok t = true -> parse_time (format_time t) = Some t.
Proof.
  intros K. unfold time_ok, year_of in K. unfold format_time. pose proof (civil_spec (t / (86400 * nanos))) as C.
  destruct (civil_of_days (t / (86400 * nanos))) as [[y m] d]. cbn [fst] in K. bool_prop. destruct C as (C & M & D).
  assert (days_in m y <= 31) as D31 by (unfold days_in; repeat case_match; lia).
  set (sec := t / nanos mod 86400). assert (0 <= sec < 86400) as Bs by (apply Z.mod_pos_bound; lia).
  assert (0 <= t mod nanos < nanos) as Bn by (apply Z.mod_pos_bound; done).
  assert (t = ((t / (86400 * nanos)) * 86400 + sec) * nanos + t mod nanos) as Et.
  { subst sec. rewrite (Z.mul_comm 86400), <- Z.div_div by done. pose proof (Z.div_mod t nanos). pose proof (Z.div_mod (t / nanos) 86400). unfold nanos in *. lia. }
  unfold parse_time. rewrite read_pad4 by lia. cbn [mbind option_bind app]. rewrite next_is_hit. cbn [mbind option_bind].
  rewrite read_pad2 by lia. cbn [mbind option_bind app]. rewrite next_is_hit. cbn [mbind option_bind].
  rewrite read_pad2 by lia. cbn [mbind option_bind app]. rewrite next_is_hit. cbn [mbind option_bind].
  rewrite read_pad2 by euclid. cbn [mbind option_bind app]. rewrite next_is_hit. cbn [mbind option_bind].
  rewrite read_pad2 by euclid. cbn [mbind option_bind app]. rewrite next_is_hit. cbn [mbind option_bind].
  rewrite read_pad2 by euclid. cbn [mbind option_bind]. rewrite read_fraction_format by done. cbn [mbind option_bind app].
  cbn [read_zone]. cbn [Z.eqb Pos.eqb mbind option_bind]. rewrite C.
  repeat (rewrite (proj2 (Z.ltb_ge _ _)) by euclid). cbn [orb negb len length Z.of_nat Z.eqb]. f_equal. clear - Et Bs.
  set (dd := t / (86400 * nanos)) in *. clearbody dd. set (nn := t mod nanos) in *. clearbody nn. rewrite Et. f_equal. f_equal. euclid.
Qed.
(** A time is written without anything JSON escapes, in at most thirty characters. *)
Lemma fraction_length width n : (length (fraction width n) <= width)%nat.
Proof. revert n. induction width as [|width IH]; intros n; cbn [fraction]; [cbn; lia|]. case_match; cbn [length]; [lia|]. specialize (IH (n mod 10 ^ Z.of_nat width)). lia. Qed.
Lemma format_time_length t : (length (format_time t) <= 30)%nat.
Proof.
  unfold format_time. destruct (civil_of_days _) as [[y m] d]. rewrite !length_app. cbn [pad4 pad2 length].
  pose proof (fraction_length 9 (t mod nanos)). case_match; cbn [length]; lia.
Qed.
Lemma format_time_plain t : time_ok t = true -> Forall (fun c => 45 <= c <= 90) (format_time t).
Proof.
  intros K. unfold time_ok, year_of in K. unfold format_time. pose proof (civil_spec (t / (86400 * nanos))) as C.
  destruct (civil_of_days (t / (86400 * nanos))) as [[y m] d]. cbn [fst] in K. bool_prop. destruct C as (C & M & D).
  assert (days_in m y <= 31) as D31 by (unfold days_in; repeat case_match; lia).
  set (sec := t / nanos mod 86400). assert (0 <= sec < 86400) as Bs by (apply Z.mod_pos_bound; lia).
  assert (0 <= t mod nanos < nanos) as Bn by (apply Z.mod_pos_bound; done).
  assert (forall n, 0 <= n < 100 -> Forall (fun c => 45 <= c <= 90) (pad2 n)) as P2 by (intros n Hn; unfold pad2; repeat (constructor; [euclid|]); constructor).
  assert (Forall (fun c => 45 <= c <= 90) (pad4 y)) as P4 by (unfold pad4; repeat (constructor; [euclid|]); constructor).
  repeat (apply Forall_app; split); try (by repeat constructor); try done; try (apply P2; euclid).
  destruct (t mod nanos =? 0); [constructor|]. constructor; [lia|]. destruct (fraction_spec 9 (t mod nanos) Bn) as [F _].
  eapply Forall_impl; [exact F|]. intros c Hc%is_digit_spec. lia.
Qed.

Example epoch : format_time 0 = str "1970-01-01T00:00:00Z".
Proof. vm_compute. reflexivity. Qed.
Example leap_time : parse_time (str "2024-02-29T09:00:00.25+09:00") = Some 1709164800250000000.
Proof. vm_compute. reflexivity. Qed.
Example no_leap : parse_time (str "2023-02-29T00:00:00Z") = None.
Proof. vm_compute. reflexivity. Qed.
