(* ===== verification/GoSha.v ===== *)
(** * SHA-256

    What the state store and the service use of [crypto/sha256]: the digest of FIPS 180-4, on bytes. *)

From S2P Require Import Prelude GoStd.

(** The constants are the first 32 bits of the fractional parts of roots of the first primes: cube roots for
    the rounds, square roots for the initial state. *)
Definition is_prime (n : nat) : bool := forallb (fun d => negb (n mod d =? 0)%nat) (seq 2 (n - 2)).
Definition primes : list Z := Z.of_nat <$> List.filter is_prime (seq 2 310).
(** The integer part of a cube root below [2 ^ k], bit by bit. *)
Fixpoint cube_root (k : nat) (n r : Z) : Z :=
  match k with
  | O => r
  | S k => let r' := r + 2 ^ Z.of_nat k in cube_root k n (if r' * r' * r' <=? n then r' else r)
  end.
Definition round_constants : list Z := Eval vm_compute in (fun p => u32 (cube_root 36 (Z.shiftl p 96) 0)) <$> primes.
Definition initial_state : list Z := Eval vm_compute in (fun p => u32 (Z.sqrt (Z.shiftl p 64))) <$> take 8 primes.

Definition rotate_right (x n : Z) : Z := Z.lor (Z.shiftr x n) (u32 (Z.shiftl x (32 - n))).
Definition small0 (x : Z) : Z := Z.lxor (Z.lxor (rotate_right x 7) (rotate_right x 18)) (Z.shiftr x 3).
Definition small1 (x : Z) : Z := Z.lxor (Z.lxor (rotate_right x 17) (rotate_right x 19)) (Z.shiftr x 10).
Definition big0 (x : Z) : Z := Z.lxor (Z.lxor (rotate_right x 2) (rotate_right x 13)) (rotate_right x 22).
Definition big1 (x : Z) : Z := Z.lxor (Z.lxor (rotate_right x 6) (rotate_right x 11)) (rotate_right x 25).
Definition choose (e f g : Z) : Z := Z.lxor (Z.land e f) (Z.land (u32 (Z.lnot e)) g).
Definition majority (a b c : Z) : Z := Z.lxor (Z.lxor (Z.land a b) (Z.land a c)) (Z.land b c).

(** The message, a one bit, zeros, and the length in bits on eight bytes: blocks of 64 bytes. *)
Definition padded (s : bytes) : bytes :=
  s ++ [128] ++ replicate (Z.to_nat ((55 - len s) mod 64)) 0 ++ be_bytes 8 (8 * len s).
Fixpoint words (s : bytes) : list Z :=
  match s with
  | a :: b :: c :: d :: s => be_value [a; b; c; d] :: words s
  | _ => []
  end.
(** The 64 words of a block, the latest first while they are made. *)
Fixpoint extend (n : nat) (ws : list Z) : list Z :=
  match n with
  | O => ws
  | S n => extend n (u32 (small1 (nth 1 ws 0) + nth 6 ws 0 + small0 (nth 14 ws 0) + nth 15 ws 0) :: ws)
  end.
Definition round (state : list Z) (kw : Z * Z) : list Z :=
  match state with
  | [a; b; c; d; e; f; g; h] =>
      let t1 := u32 (h + big1 e + choose e f g + kw.1 + kw.2) in
      let t2 := u32 (big0 a + majority a b c) in
      [u32 (t1 + t2); a; b; c; u32 (d + t1); e; f; g]
  | _ => state
  end.
Definition compress (state block : list Z) : list Z :=
  let ws := rev (extend 48 (rev block)) in
  zip_with (fun x y => u32 (x + y)) state (foldl round state (zip round_constants ws)).
Fixpoint blocks (n : nat) (ws : list Z) (state : list Z) : list Z :=
  match n with O => state | S n => blocks n (drop 16 ws) (compress state (take 16 ws)) end.
Definition Sum256 (s : bytes) : bytes :=
  let ws := words (padded s) in
  blocks (length ws / 16) ws initial_state ≫= be_bytes 4.

(** The published digests of the empty message, of a short one and of one of two blocks. *)
Example digest_empty : take 8 (Sum256 []) = [0xe3; 0xb0; 0xc4; 0x42; 0x98; 0xfc; 0x1c; 0x14].
Proof. vm_compute. reflexivity. Qed.
Example digest_abc : take 8 (Sum256 (str "abc")) = [0xba; 0x78; 0x16; 0xbf; 0x8f; 0x01; 0xcf; 0xea].
Proof. vm_compute. reflexivity. Qed.
Example digest_two_blocks :
  take 8 (Sum256 (str "abcdbcdecdefdefgefghfghighijhijkijkljklmklmnlmnomnopnopq")) = [0x24; 0x8d; 0x6a; 0x61; 0xd2; 0x06; 0x38; 0xb8].
Proof. vm_compute. reflexivity. Qed.

#[global] Arguments Sum256 : simpl never.
Lemma Sum256_bytes s : all_bytes (Sum256 s).
Proof. apply Forall_bind, Forall_forall. intros x _. apply Forall_rev, le_bytes_bytes. Qed.
