(* ===== verification/GoAes.v ===== *)
(** * AES-128 in counter mode

    What the media client uses of [crypto/aes] and [crypto/cipher]: the block cipher of FIPS 197 with a
    key of 16 bytes, and the key stream of [NewCTR] from a counter block of zeros. *)

From S2P Require Import Prelude GoStd.

(** Multiplication in the field of 256 elements; the inverse of [b] is its 254th power. *)
Definition xtime (b : Z) : Z := let d := 2 * b in if 256 <=? d then Z.lxor d 0x11b else d.
Fixpoint field_mul (k : nat) (a b : Z) : Z :=
  match k with O => 0 | S k => Z.lxor (if Z.odd b then a else 0) (field_mul k (xtime a) (Z.div2 b)) end.
Definition inverse (b : Z) : Z := Nat.iter 254 (field_mul 8 b) 1.
(** The substitution: the inverse, then an affine map. *)
Definition rotate_byte (b : Z) (n : Z) : Z := Z.lor (Z.land (Z.shiftl b n) 255) (Z.shiftr b (8 - n)).
Definition affine (b : Z) : Z := foldl (fun acc n => Z.lxor acc (rotate_byte b n)) 0x63 [0; 1; 2; 3; 4].
Definition sbox_table : list Z := Eval vm_compute in (fun i => affine (inverse (Z.of_nat i))) <$> seq 0 256.
Definition sbox (b : Z) : Z := nth (Z.to_nat b) sbox_table 0.

(** A block is 16 bytes, column by column. *)
Definition shift_rows (s : bytes) : bytes := (fun i => nth i s 0) <$> [0; 5; 10; 15; 4; 9; 14; 3; 8; 13; 2; 7; 12; 1; 6; 11]%nat.
Definition xor_bytes (a b : bytes) : bytes := zip_with Z.lxor a b.
Fixpoint mix_columns (s : bytes) : bytes :=
  match s with
  | a :: b :: c :: d :: s =>
      let t := Z.lxor (Z.lxor a b) (Z.lxor c d) in
      let mix x y := Z.lxor x (Z.lxor t (xtime (Z.lxor x y))) in
      mix a b :: mix b c :: mix c d :: mix d a :: mix_columns s
  | _ => []
  end.

(** The next round key. *)
Definition next_key (rcon : Z) (key : bytes) : bytes :=
  match key with
  | [a0; a1; a2; a3; b0; b1; b2; b3; c0; c1; c2; c3; d0; d1; d2; d3] =>
      let a := xor_bytes [a0; a1; a2; a3] [Z.lxor (sbox d1) rcon; sbox d2; sbox d3; sbox d0] in
      let b := xor_bytes [b0; b1; b2; b3] a in
      let c := xor_bytes [c0; c1; c2; c3] b in
      a ++ b ++ c ++ xor_bytes [d0; d1; d2; d3] c
  | _ => key
  end.
Fixpoint rounds (rcons : list Z) (key state : bytes) : bytes :=
  match rcons with
  | [] => state
  | [rcon] => xor_bytes (shift_rows (sbox <$> state)) (next_key rcon key)
  | rcon :: rcons => let key := next_key rcon key in rounds rcons key (xor_bytes (mix_columns (shift_rows (sbox <$> state))) key)
  end.
Definition aes_encrypt (key block : bytes) : bytes :=
  rounds [1; 2; 4; 8; 16; 32; 64; 128; 27; 54] key (xor_bytes block key).

(** Byte [i] of the key stream, and the data it is added to. *)
Definition key_stream (key : bytes) (i : nat) : Z := nth (i mod 16) (aes_encrypt key (be_bytes 16 (Z.of_nat (i / 16)))) 0.
Definition ctr (key data : bytes) : bytes := imap (fun i b => Z.lxor b (key_stream key i)) data.

Lemma ctr_length key data : length (ctr key data) = length data.
Proof. apply length_imap. Qed.
Lemma ctr_involutive key data : ctr key (ctr key data) = data.
Proof.
  apply list_eq. intros i. unfold ctr. rewrite !list_lookup_imap. generalize (key_stream key i) as k. intros k.
  destruct (data !! i) as [b|]; [|reflexivity]. cbn [fmap option_fmap option_map]. by rewrite Z.lxor_assoc, Z.lxor_nilpotent, Z.lxor_0_r.
Qed.

(** The example of FIPS 197, appendix C. *)
Example fips_197 :
  aes_encrypt (Z.of_nat <$> seq 0 16) ((fun i => 17 * Z.of_nat i) <$> seq 0 16) =
  [0x69; 0xc4; 0xe0; 0xd8; 0x6a; 0x7b; 0x04; 0x30; 0xd8; 0xcd; 0xb7; 0x80; 0x70; 0xb4; 0xc5; 0x5a].
Proof. vm_compute. reflexivity. Qed.
