(* ===== verification/Obex.v ===== *)
(** * OBEX packets and headers

    Models src/callbridge-sms-go/internal/obex/obex.go: the length-prefixed packet, the
    four kinds of headers, Unicode names and bodies.  The source's [Transport]
    interface is the class [Transport]: what [ReadFull] and [WriteAll] do to a
    connection.  Its instance [stream] is a reliable byte stream; RFCOMM sockets and
    scripted peers are others. *)

From S2P Require Import Prelude GoStd GoText.

(** ** Packets *)
Definition ResponseContinue : Z := 0x90.
Definition ResponseOK : Z := 0xA0.
Definition ResponseBadRequest : Z := 0xC0.
Definition ResponseNotImplemented : Z := 0xD1.

Class Transport (T : Type) := {
  ReadFull : T -> nat -> T * result bytes;
  WriteAll : T -> bytes -> T * result unit
}.

Record Packet := mkPacket { pkCode : Z; pkPayload : bytes }.
Record Header := mkHeader { hdID : Z; hdValue : bytes }.

Definition ReadPacket {T} `{Transport T} (conn : T) (maximum : Z) : T * result Packet :=
  if (maximum <? 3) || (0xffff <? maximum) then (conn, fail! "invalid OBEX packet bound")
  else
    match ReadFull conn 3 with
    | (conn, Error e) => (conn, Error e)
    | (conn, Ok header) =>
        let length := be_value (slice header 1 3) in
        if (length <? 3) || (maximum <? length) then (conn, fail! "OBEX packet length outside bound")
        else
          match ReadFull conn (Z.to_nat (length - 3)) with
          | (conn, Error e) => (conn, Error e)
          | (conn, Ok payload) => (conn, Ok (mkPacket (at_ header 0) payload))
          end
    end.

(** The bytes of a packet, as [WritePacket] lays them out. *)
Definition packet_bytes (code : Z) (payload : bytes) : bytes :=
  code :: be_bytes 2 (len payload + 3) ++ payload.

Definition WritePacket {T} `{Transport T} (conn : T) (code : Z) (payload : bytes) : T * result unit :=
  if 0xffff <? len payload + 3 then (conn, fail! "OBEX packet too large")
  else WriteAll conn (packet_bytes code payload).

(** A reliable byte stream: what is still to be read, and what was written. *)
Definition ErrUnexpectedEOF : error := Sentinel "io.ErrUnexpectedEOF" "unexpected EOF".
Record stream := mkStream { incoming : bytes; outgoing : bytes }.
#[export] Instance stream_transport : Transport stream := {|
  ReadFull s n :=
    if (length (incoming s) <? n)%nat then (mkStream [] (outgoing s), Error ErrUnexpectedEOF)
    else (mkStream (drop n (incoming s)) (outgoing s), Ok (take n (incoming s)));
  WriteAll s p := (mkStream (incoming s) (outgoing s ++ p), Ok tt)
|}.

(** ** Headers *)
Definition header_kind (id : Z) : Z := Z.land id 0xc0.

(** The loop of [ParseHeaders] on the bytes left; each header takes at least one. *)
Fixpoint headers_loop (fuel : nat) (rest : bytes) : result (list Header) :=
  match fuel, rest with
  | _, [] => Ok []
  | O, _ => fail! "unreachable"
  | S fuel, id :: rest =>
      let kind := header_kind id in
      if (kind =? 0x00) || (kind =? 0x40) then
        if len rest <? 2 then fail! "truncated OBEX length header"
        else
          let length := be_value (slice rest 0 2) in
          if (length <? 3) || (len rest <? length - 1) then fail! "invalid OBEX header length"
          else
            let! headers := headers_loop fuel (drop (Z.to_nat (length - 1)) rest) in
            Ok (mkHeader id (slice rest 2 (Z.to_nat (length - 1))) :: headers)
      else if kind =? 0x80 then
        match rest with
        | [] => fail! "truncated OBEX byte header"
        | v :: rest => let! headers := headers_loop fuel rest in Ok (mkHeader id [v] :: headers)
        end
      else
        if len rest <? 4 then fail! "truncated OBEX uint32 header"
        else let! headers := headers_loop fuel (drop 4 rest) in Ok (mkHeader id (take 4 rest) :: headers)
  end.

Definition ParseHeaders (data : bytes) (offset : Z) : result (list Header) :=
  if (offset <? 0) || (len data <? offset) then fail! "invalid OBEX header offset"
  else headers_loop (length data) (drop (Z.to_nat offset) data).

Definition BuildHeader (id : Z) (value : bytes) : result bytes :=
  let kind := header_kind id in
  if (kind =? 0x00) || (kind =? 0x40) then
    if 0xffff <? len value + 3 then fail! "OBEX header too large"
    else Ok (id :: be_bytes 2 (len value + 3) ++ value)
  else if kind =? 0x80 then
    match value with [v] => Ok [id; v] | _ => fail! "OBEX byte header requires one byte" end
  else if kind =? 0xc0 then
    if len value =? 4 then Ok (id :: value) else fail! "OBEX uint32 header requires four bytes"
  else fail! "unknown OBEX header kind".

(** [MustHeader] panics where [BuildHeader] fails: [None]. *)
Definition MustHeader (id : Z) (value : bytes) : option bytes :=
  match BuildHeader id value with Ok raw => Some raw | Error _ => None end.
Definition Uint32Header (id value : Z) : option bytes := MustHeader id (be_bytes 4 value).

(** ** Names *)

(** [utf16.Encode] of one rune. *)
Definition utf16_encode_rune (r : Z) : list Z :=
  if (0 <=? r) && (r <? 0xd800) || (0xe000 <=? r) && (r <? 0x10000) then [r]
  else if (0x10000 <=? r) && (r <=? 0x10ffff)
  then let r := r - 0x10000 in [0xd800 + Z.land (Z.shiftr r 10) 0x3ff; 0xdc00 + Z.land r 0x3ff]
  else [RuneError].
Definition utf16_encode (rs : list Z) : list Z := rs ≫= utf16_encode_rune.

(** [utf16.Decode]. *)
Fixpoint utf16_decode (units : list Z) : list Z :=
  match units with
  | [] => []
  | u :: rest =>
      if (u <? 0xd800) || (0xe000 <=? u) then u :: utf16_decode rest
      else match rest with
           | v :: rest' =>
               if (u <? 0xdc00) && (0xdc00 <=? v) && (v <? 0xe000)
               then Z.lor (Z.shiftl (u - 0xd800) 10) (v - 0xdc00) + 0x10000 :: utf16_decode rest'
               else RuneError :: utf16_decode rest
           | [] => [RuneError]
           end
  end.

Definition units_bytes (units : list Z) : bytes := units ≫= be_bytes 2.
Fixpoint bytes_units (raw : bytes) : list Z :=
  match raw with
  | hi :: lo :: raw => be_value [hi; lo] :: bytes_units raw
  | _ => []
  end.

Definition NameHeader (id : Z) (value : bytes) : option bytes :=
  MustHeader id (units_bytes (utf16_encode (runes (value ++ [0])))).

Definition DecodeName (value : bytes) : result bytes :=
  if negb (len value mod 2 =? 0) then fail! "invalid OBEX Unicode header"
  else
    let units := bytes_units value in
    let units := if (0 <? len units) && (List.last units 1 =? 0) then removelast units else units in
    Ok (string_of_runes (utf16_decode units)).

(** ** Reading headers *)
Fixpoint Find (headers : list Header) (id : Z) : option bytes :=
  match headers with
  | [] => None
  | h :: headers => if hdID h =? id then Some (hdValue h) else Find headers id
  end.
Definition Uint32 (value : bytes) : result Z :=
  if len value =? 4 then Ok (be_value value) else fail! "invalid uint32 header length".
Definition CollectBody (headers : list Header) (bodyID endID : Z) : bytes :=
  headers ≫= fun h => if (hdID h =? bodyID) || (hdID h =? endID) then hdValue h else [].

(** ** Headers: the parser inverts the builder *)
Fixpoint build_all (headers : list Header) : result bytes :=
  match headers with
  | [] => Ok []
  | h :: headers =>
      let! raw := BuildHeader (hdID h) (hdValue h) in
      let! rest := build_all headers in
      Ok (raw ++ rest)
  end.

Lemma header_kind_cases id :
  header_kind id = 0 \/ header_kind id = 0x40 \/ header_kind id = 0x80 \/ header_kind id = 0xc0.
Proof.
  assert (header_kind id = Z.shiftl (Z.shiftr id 6 mod 4) 6) as ->.
  { unfold header_kind. change 0xc0 with (Z.land (Z.lnot (Z.ones 6)) (Z.shiftl (Z.ones 2) 6)).
    rewrite Z.land_assoc, <- Z.ldiff_land, Z.ldiff_ones_r by done.
    by rewrite <- Z.shiftl_land, Z.land_ones by done. }
  pose proof (Z.mod_pos_bound (Z.shiftr id 6) 4 ltac:(done)) as H.
  assert (Z.shiftr id 6 mod 4 = 0 \/ Z.shiftr id 6 mod 4 = 1 \/ Z.shiftr id 6 mod 4 = 2 \/ Z.shiftr id 6 mod 4 = 3)
    as [E|[E|[E|E]]] by lia; rewrite E; auto.
Qed.

(** A header is never shorter than two bytes, and what it leaves is read next. *)
Lemma headers_loop_cons id value raw rest fuel :
  BuildHeader id value = Ok raw -> (length rest < fuel)%nat ->
  headers_loop fuel (raw ++ rest) = let! hs := headers_loop (pred fuel) rest in Ok (mkHeader id value :: hs).
Proof.
  intros H Hf. destruct fuel as [|fuel]; [lia|]. unfold BuildHeader in H.
  destruct (header_kind_cases id) as [K|[K|[K|K]]]; rewrite K in H; cbn [Z.eqb orb Pos.eqb] in H.
  1, 2: (split_if_in H; [done|]; apply Ok_inj in H; subst raw; bool_prop; cbn [app headers_loop];
    rewrite K; cbn [Z.eqb orb Pos.eqb];
    assert (length (be_bytes 2 (len value + 3)) = 2%nat) as L2 by apply length_be_bytes;
    assert (len ((be_bytes 2 (len value + 3) ++ value) ++ rest) = 2 + len value + len rest) as L
      by (rewrite !len_app; unfold len at 1; rewrite L2; lia);
    pose proof (len_nonneg value); pose proof (len_nonneg rest);
    rewrite L, (proj2 (Z.ltb_ge _ _)) by lia;
    assert (be_value (slice ((be_bytes 2 (len value + 3) ++ value) ++ rest) 0 2) = len value + 3) as ->
      by (rewrite <- app_assoc, slice_app_l by lia; rewrite slice_whole by done;
          apply be_value_bytes_id; cbn; lia);
    rewrite (proj2 (Z.ltb_ge _ 3)), (proj2 (Z.ltb_ge _ _)) by lia; cbn [orb];
    replace (Z.to_nat (len value + 3 - 1)) with (length (be_bytes 2 (len value + 3) ++ value))
      by (rewrite length_app, L2; unfold len; lia);
    rewrite drop_app_length; f_equal;
    assert (slice ((be_bytes 2 (len value + 3) ++ value) ++ rest) 2 (length (be_bytes 2 (len value + 3) ++ value)) = value) as ->
      by (unfold slice; rewrite <- app_assoc, drop_app_length' by done;
          rewrite length_app, L2; replace (2 + length value - 2)%nat with (length value) by lia; apply take_app_length);
    done).
  - destruct value as [|v [|? ?]]; try discriminate H. apply Ok_inj in H. subst raw. cbn [app headers_loop]. by rewrite K.
  - split_if_in H; [|done]. apply Ok_inj in H. subst raw. bool_prop. cbn [app headers_loop]. rewrite K.
    cbn [Z.eqb orb Pos.eqb]. assert (length value = 4%nat) as L4 by (unfold len in *; lia).
    rewrite len_app, (proj2 (Z.ltb_ge _ _)) by (pose proof (len_nonneg rest); lia).
    by rewrite drop_app_length', take_app_length' by done.
Qed.

Lemma headers_loop_build hs raw fuel :
  build_all hs = Ok raw -> (length raw <= fuel)%nat -> headers_loop fuel raw = Ok hs.
Proof.
  revert raw fuel. induction hs as [|[id value] hs IH]; intros raw fuel H Hf.
  { injection H as <-. by destruct fuel. }
  cbn [build_all hdID hdValue] in H. apply result_bind_ok in H as (raw1 & E1 & H).
  apply result_bind_ok in H as (rest & E2 & H). apply Ok_inj in H. subst raw. rewrite length_app in Hf.
  assert (0 < length raw1)%nat as Hpos.
  { unfold BuildHeader in E1. repeat split_match; simplify_eq; cbn; lia. }
  rewrite (headers_loop_cons _ _ _ _ _ E1) by lia. rewrite (IH rest) by (done || lia). done.
Qed.

(** A length-prefixed header is rebuilt from what was read of it. *)
Lemma length_header_rebuilt id rest n :
  all_bytes rest -> header_kind id = 0 \/ header_kind id = 0x40 ->
  n = be_value (slice rest 0 2) -> 2 <= len rest -> 3 <= n -> n - 1 <= len rest ->
  BuildHeader id (slice rest 2 (Z.to_nat (n - 1))) = Ok (id :: take (Z.to_nat (n - 1)) rest).
Proof.
  intros HB HK Hn H2 H3 HL. unfold len in H2, HL.
  assert (all_bytes (slice rest 0 2)) as HB2 by by apply all_bytes_slice.
  assert (be_bytes 2 n = slice rest 0 2) as EB.
  { subst n. unfold be_bytes, be_value. replace 2%nat with (length (rev (slice rest 0 2))) at 1
      by (rewrite length_rev, length_slice; lia).
    rewrite le_bytes_value by (by apply Forall_rev). apply rev_involutive. }
  assert (n < 0x10000) as Hn2.
  { subst n. pose proof (be_value_bound _ HB2) as Hb. unfold len in Hb. rewrite length_slice in Hb by lia.
    change (2 ^ (8 * Z.of_nat (2 - 0))) with 0x10000 in Hb. lia. }
  assert (len (slice rest 2 (Z.to_nat (n - 1))) + 3 = n) as L by (unfold len; rewrite length_slice; lia).
  unfold BuildHeader. rewrite L, EB, (proj2 (Z.ltb_ge _ _)) by lia.
  replace ((header_kind id =? 0) || (header_kind id =? 64)) with true by (destruct HK as [HK | HK]; by rewrite HK).
  do 2 f_equal. unfold slice. rewrite Nat.sub_0_r, drop_0.
  replace (Z.to_nat (n - 1)) with (2 + (Z.to_nat (n - 1) - 2))%nat at 2 by lia.
  by rewrite <- take_take_drop.
Qed.

(** One header read is one header built. *)
Lemma headers_loop_inv fuel rest hs :
  all_bytes rest -> headers_loop fuel rest = Ok hs -> build_all hs = Ok rest.
Proof.
  revert rest hs. induction fuel as [|fuel IH]; intros rest hs HB H.
  { destruct rest; [by injection H as <-|discriminate H]. }
  destruct rest as [|id rest]; [by injection H as <-|]. cbn [headers_loop] in H.
  apply Forall_cons in HB as [_ HB].
  destruct ((header_kind id =? 0) || (header_kind id =? 64)) eqn:HK.
  { split_if_in H; [done|]. split_if_in H; [done|]. bool_prop.
    apply result_bind_ok in H as (hs1 & E & H). apply Ok_inj in H. subst hs.
    cbn [build_all hdID hdValue].
    rewrite (length_header_rebuilt id rest (be_value (slice rest 0 2))) by (done || lia). cbn [result_bind].
    rewrite (IH _ _ (Forall_drop _ _ _ HB) E). cbn [result_bind app]. by rewrite take_drop. }
  destruct (header_kind_cases id) as [K|[K|[K|K]]]; rewrite K in H, HK; try discriminate HK;
    cbn [Z.eqb orb Pos.eqb] in H.
  - destruct rest as [|v rest]; [done|]. apply result_bind_ok in H as (hs1 & E & H). apply Ok_inj in H. subst hs.
    apply Forall_cons in HB as [_ HB]. cbn [build_all hdID hdValue]. unfold BuildHeader. rewrite K. cbn.
    by rewrite (IH _ _ HB E).
  - split_if_in H; [done|]. bool_prop. apply result_bind_ok in H as (hs1 & E & H). apply Ok_inj in H. subst hs.
    cbn [build_all hdID hdValue]. unfold BuildHeader. rewrite K. cbn [Z.eqb orb Pos.eqb].
    assert (len (take 4 rest) = 4) as -> by (unfold len in *; rewrite length_take; lia).
    cbn [Z.eqb Pos.eqb result_bind]. rewrite (IH _ _ (Forall_drop _ _ _ HB) E). cbn [result_bind app].
    by rewrite take_drop.
Qed.

(** OBEX headers: [ParseHeaders] accepts a byte string exactly when it is the
    concatenation of headers [BuildHeader] can build, and returns those headers in
    order: nothing is skipped, merged or read past the end. *)
Theorem headers_parse_build data hs :
  all_bytes data -> (ParseHeaders data 0 = Ok hs <-> build_all hs = Ok data).
Proof.
  intros HB. unfold ParseHeaders. rewrite (proj2 (Z.ltb_ge (len data) 0)) by apply len_nonneg.
  change (Z.to_nat 0) with 0%nat. cbn [Z.ltb Z.compare orb]. rewrite drop_0. split.
  - by apply headers_loop_inv.
  - intros H. by apply headers_loop_build.
Qed.

Lemma headers_parse_build_witness :
  ParseHeaders [0xcb; 0; 0; 0; 1; 0x4c; 0; 5; 7; 8; 0x97; 1] 0 =
    Ok [mkHeader 0xcb [0; 0; 0; 1]; mkHeader 0x4c [7; 8]; mkHeader 0x97 [1]].
Proof.
  apply headers_parse_build.
  - apply (bool_decide_unpack (all_bytes [0xcb; 0; 0; 0; 1; 0x4c; 0; 5; 7; 8; 0x97; 1])). vm_compute. exact I.
  - vm_compute. reflexivity.
Defined.

(** ** Packets: the reader inverts the writer *)

Lemma packet_bytes_head code payload more :
  len payload + 3 <= 0xffff ->
  exists hi lo, packet_bytes code payload ++ more = code :: hi :: lo :: payload ++ more /\
    be_value [hi; lo] = len payload + 3.
Proof.
  intros H. pose proof (len_nonneg payload).
  assert (exists hi lo, be_bytes 2 (len payload + 3) = [hi; lo]) as (hi & lo & E) by (do 2 eexists; reflexivity).
  exists hi, lo. unfold packet_bytes. rewrite E. split; [done|].
  rewrite <- E. apply be_value_bytes_id. cbn. lia.
Qed.

(** A packet written on a stream is the next one read, and nothing after it is. *)
Lemma read_packet_bytes code payload more out maximum :
  len payload + 3 <= maximum -> maximum <= 0xffff ->
  ReadPacket (mkStream (packet_bytes code payload ++ more) out) maximum =
    (mkStream more out, Ok (mkPacket code payload)).
Proof.
  intros H1 H2. pose proof (len_nonneg payload).
  destruct (packet_bytes_head code payload more) as (hi & lo & -> & E); [lia|].
  unfold ReadPacket. rewrite (proj2 (Z.ltb_ge maximum 3)), (proj2 (Z.ltb_ge 0xffff maximum)) by lia.
  cbn [orb ReadFull stream_transport incoming outgoing length Nat.ltb Nat.leb].
  change (take 3 (code :: hi :: lo :: payload ++ more)) with [code; hi; lo].
  change (drop 3 (code :: hi :: lo :: payload ++ more)) with (payload ++ more).
  change (slice [code; hi; lo] 1 3) with [hi; lo]. change (at_ [code; hi; lo] 0) with code. rewrite E.
  rewrite (proj2 (Z.ltb_ge _ 3)), (proj2 (Z.ltb_ge maximum _)) by lia. cbn [orb].
  replace (Z.to_nat (len payload + 3 - 3)) with (length payload) by (unfold len; lia).
  rewrite length_app.
  change (match length payload with 0%nat => _ | S m' => _ end)
    with (length payload + length more <? length payload)%nat.
  rewrite (proj2 (Nat.ltb_ge _ _)) by lia. by rewrite take_app_length, drop_app_length.
Qed.

(** What was read is what the writer lays out, and it fits the bound. *)
Lemma read_packet_inv s s' maximum p :
  all_bytes (incoming s) -> ReadPacket s maximum = (s', Ok p) ->
  incoming s = packet_bytes (pkCode p) (pkPayload p) ++ incoming s' /\ outgoing s' = outgoing s /\
  len (pkPayload p) + 3 <= maximum <= 0xffff.
Proof.
  destruct s as [inp out]. cbn [incoming outgoing]. intros HB H. unfold ReadPacket in H.
  split_if_in H; [done|]. bool_prop. cbn [ReadFull stream_transport incoming outgoing] in H.
  destruct (length inp <? 3)%nat eqn:L3; [done|]. apply Nat.ltb_ge in L3.
  destruct inp as [|code [|hi [|lo inp]]]; cbn in L3; try lia.
  change (take 3 (code :: hi :: lo :: inp)) with [code; hi; lo] in H.
  change (drop 3 (code :: hi :: lo :: inp)) with inp in H.
  change (slice [code; hi; lo] 1 3) with [hi; lo] in H. change (at_ [code; hi; lo] 0) with code in H.
  set (n := be_value [hi; lo]) in *. split_if_in H; [done|]. bool_prop. cbn [incoming outgoing] in H.
  destruct (length inp <? Z.to_nat (n - 3))%nat eqn:L; [done|]. apply Nat.ltb_ge in L.
  injection H as <- <-. cbn [pkCode pkPayload incoming outgoing].
  assert (all_bytes [hi; lo]) as HB2 by exact (Forall_take _ 2 _ (Forall_inv_tail HB)).
  assert (len (take (Z.to_nat (n - 3)) inp) + 3 = n) as E by (unfold len; rewrite length_take; lia).
  assert (be_bytes 2 n = [hi; lo]) as EB.
  { unfold be_bytes, n, be_value. change 2%nat with (length (rev [hi; lo])).
    rewrite le_bytes_value by (by apply Forall_rev). apply rev_involutive. }
  unfold packet_bytes. rewrite E, EB. cbn [app]. rewrite take_drop. split_and!; [done..|lia|lia].
Qed.

(** OBEX packets: on a byte stream, [ReadPacket] with bound [maximum] returns a
    packet and the rest of the stream exactly when the stream starts with what
    [WritePacket] writes for it and that is no longer than the bound; so a reader
    stays in step with the writer and never consumes bytes of the next packet. *)
Theorem packet_read_write inp more out maximum p :
  all_bytes inp ->
  (ReadPacket (mkStream inp out) maximum = (mkStream more out, Ok p) <->
   exists raw, WritePacket (mkStream more []) (pkCode p) (pkPayload p) = (mkStream more raw, Ok tt) /\
     inp = raw ++ more /\ len raw <= maximum <= 0xffff).
Proof.
  intros HB. assert (forall q, len (packet_bytes (pkCode q) (pkPayload q)) = len (pkPayload q) + 3) as LP.
  { intros q. unfold packet_bytes, len. cbn [length]. rewrite length_app, length_be_bytes. lia. }
  split.
  - intros H. apply read_packet_inv in H as (E & _ & HM); [|done]. cbn [incoming] in E.
    exists (packet_bytes (pkCode p) (pkPayload p)). unfold WritePacket.
    rewrite (proj2 (Z.ltb_ge _ _)), LP by lia. done.
  - intros (raw & H & -> & HM). unfold WritePacket in H. split_if_in H; [done|].
    cbn [WriteAll stream_transport incoming outgoing app] in H. injection H as <-. rewrite LP in HM.
    destruct p as [code payload]. cbn [pkCode pkPayload] in *. apply read_packet_bytes; lia.
Qed.

Lemma packet_read_write_witness :
  ReadPacket (mkStream [0x90; 0; 5; 1; 2; 0xa0; 0; 3] []) 0xffff =
    (mkStream [0xa0; 0; 3] [], Ok (mkPacket 0x90 [1; 2])).
Proof.
  apply packet_read_write.
  - apply (bool_decide_unpack (all_bytes [0x90; 0; 5; 1; 2; 0xa0; 0; 3])). vm_compute. exact I.
  - exists [0x90; 0; 5; 1; 2]. split; [vm_compute; reflexivity|]. split; [reflexivity|].
    vm_compute. split; discriminate.
Defined.

(** ** Names: decoding inverts encoding *)

Lemma utf16_decode_rune r rest :
  valid_rune r = true -> utf16_decode (utf16_encode_rune r ++ rest) = r :: utf16_decode rest.
Proof.
  intros Hv. apply valid_rune_spec in Hv. unfold utf16_encode_rune.
  destruct ((0 <=? r) && (r <? 0xd800) || (0xe000 <=? r) && (r <? 0x10000)) eqn:E.
  - cbn [app utf16_decode]. apply orb_true_iff in E.
    replace ((r <? 0xd800) || (0xe000 <=? r)) with true; [done|]. symmetry. apply orb_true_iff.
    destruct E as [E | E]; bool_prop; [left; by apply Z.ltb_lt|right; by apply Z.leb_le].
  - apply orb_false_iff in E as [E1 E2]. apply andb_false_iff in E1, E2. rewrite !Z.leb_gt, !Z.ltb_ge in E1, E2.
    rewrite (proj2 (Z.leb_le _ _)), (proj2 (Z.leb_le _ _)) by lia. cbn [andb app utf16_decode].
    rewrite !(Z.land_ones _ 10), Z.shiftr_div_pow2 by done. change (2 ^ 10) with 1024.
    rewrite (proj2 (Z.ltb_ge _ 0xd800)), (proj2 (Z.leb_gt 0xe000 _)) by euclid. cbn [orb].
    rewrite (proj2 (Z.ltb_lt _ 0xdc00)), (proj2 (Z.leb_le 0xdc00 _)), (proj2 (Z.ltb_lt _ 0xe000)) by euclid. cbn [andb].
    f_equal. rewrite <- Z.add_nocarry_lor.
    + rewrite Z.shiftl_mul_pow2 by done. change (2 ^ 10) with 1024. euclid.
    + apply Z.bits_inj'. intros n Hn. rewrite Z.land_spec, Z.bits_0.
      destruct (Z.lt_ge_cases n 10); [by rewrite Z.shiftl_spec_low|].
      apply andb_false_iff. right.
      replace (0xdc00 + (r - 0x10000) mod 1024 - 0xdc00) with ((r - 0x10000) mod 1024) by lia.
      change 1024 with (2 ^ 10). apply Z.mod_pow2_bits_high. lia.
Qed.

Lemma utf16_decode_encode rs :
  Forall (fun r => valid_rune r = true) rs -> utf16_decode (utf16_encode rs) = rs.
Proof.
  induction 1 as [|r rs Hr H IH]; [done|].
  change (utf16_encode (r :: rs)) with (utf16_encode_rune r ++ utf16_encode rs).
  by rewrite utf16_decode_rune, IH.
Qed.

Lemma utf16_encode_units rs :
  Forall (fun r => valid_rune r = true) rs -> Forall (in_width 16) (utf16_encode rs).
Proof.
  induction 1 as [|r rs Hr H IH]; [constructor|].
  change (utf16_encode (r :: rs)) with (utf16_encode_rune r ++ utf16_encode rs).
  apply Forall_app. split; [|done]. apply valid_rune_spec in Hr. unfold utf16_encode_rune.
  destruct ((0 <=? r) && (r <? 0xd800) || (0xe000 <=? r) && (r <? 0x10000)) eqn:E.
  { apply Forall_singleton. unfold in_width. apply orb_true_iff in E as [E | E]; bool_prop; lia. }
  case_match; [|by apply Forall_singleton]. cbv zeta. bool_prop. repeat (apply Forall_cons; split); try done;
    unfold in_width; rewrite (Z.land_ones _ 10) by done; change (2 ^ 10) with 1024; change (2 ^ 16) with 65536; euclid.
Qed.

Lemma bytes_units_bytes units :
  Forall (in_width 16) units -> bytes_units (units_bytes units) = units.
Proof.
  induction 1 as [|u units Hu H IH]; [done|].
  change (units_bytes (u :: units)) with (be_bytes 2 u ++ units_bytes units).
  assert (exists hi lo, be_bytes 2 u = [hi; lo]) as (hi & lo & E) by (do 2 eexists; reflexivity).
  rewrite E. cbn [app bytes_units]. rewrite IH, <- E. f_equal. apply be_value_bytes_id. exact Hu.
Qed.

Lemma len_units_bytes units : len (units_bytes units) = 2 * len units.
Proof.
  induction units as [|u units IH]; [done|].
  change (units_bytes (u :: units)) with (be_bytes 2 u ++ units_bytes units). rewrite len_app, IH.
  unfold len. rewrite length_be_bytes. cbn [length]. lia.
Qed.

(** OBEX names: for every valid UTF-8 name the value that [NameHeader] puts in
    the header, UTF-16 with a terminating zero, decodes to the name; characters
    outside the basic plane (surrogate pairs) included. *)
Theorem name_roundtrip value :
  all_bytes value -> valid_utf8 value = true ->
  DecodeName (units_bytes (utf16_encode (runes (value ++ [0])))) = Ok value.
Proof.
  intros HB HV. apply bool_decide_eq_true in HV. pose proof (runes_valid value HB) as Hr.
  assert (runes (value ++ [0]) = runes value ++ [0]) as ->.
  { rewrite <- HV at 1. by rewrite runes_string_app by (done || by repeat constructor). }
  unfold DecodeName. rewrite len_units_bytes, Z.mul_comm, Z_mod_mult. cbn [Z.eqb negb].
  assert (utf16_encode (runes value ++ [0]) = utf16_encode (runes value) ++ [0]) as E
    by (unfold utf16_encode; rewrite bind_app; reflexivity).
  rewrite bytes_units_bytes, E
    by (rewrite E; apply Forall_app; split; [by apply utf16_encode_units|by repeat constructor]).
  rewrite len_app, last_last, removelast_last.
  rewrite (proj2 (Z.ltb_lt _ _)) by (pose proof (len_nonneg (utf16_encode (runes value))); change (len [0]) with 1; lia).
  cbn [andb Z.eqb]. by rewrite utf16_decode_encode, HV.
Qed.

Lemma name_roundtrip_witness :
  DecodeName (units_bytes (utf16_encode (runes ([0xec; 0x88; 0x98; 0xf0; 0x9f; 0x98; 0x80; 0x41] ++ [0])))) =
    Ok [0xec; 0x88; 0x98; 0xf0; 0x9f; 0x98; 0x80; 0x41].
Proof.
  apply name_roundtrip; [|vm_compute; reflexivity].
  apply (bool_decide_unpack (all_bytes [0xec; 0x88; 0x98; 0xf0; 0x9f; 0x98; 0x80; 0x41])). vm_compute. exact I.
Defined.
