(* ===== verification/SmsStore.v ===== *)
(** * The SMS bridge's state store

    Models src/callbridge-sms-go/internal/state/store.go: the handles of messages
    already handled, the outbound queue, and the file that holds both.  Every
    method runs under the store's mutex and is one transition here.

    The file system is part of the state: the file at the store's path and the
    temporary files [saveLocked] made.  Each step of a save may fail, or the process
    may be killed right after it; [fault] says which.  The encoding is any that
    keeps the laws of [StateFileLaws]: [File] is the type of a file's contents; [StateJson] has the one of the program. *)

From S2P Require Import Prelude GoStd GoText GoJson GoTime.

(** ** Data *)
Definition stateVersion : Z := 1.
Definition maximumSeenHandles : Z := 4096.
Definition maximumOutbound : Z := 128.
Definition maximumLegacyBytes : Z := Z.shiftl 32 20.

Record Outbound := mkOutbound { obID : bytes; obTo : bytes; obText : bytes; obQueuedAt : Z }.
#[export] Instance Outbound_eq_dec : EqDecision Outbound.
Proof. solve_decision. Defined.

Record diskState := mkDiskState {
  dsVersion : Z;
  dsInitialized : bool;
  dsSeenHandles : list bytes;
  dsOutbound : list Outbound
}.
#[export] Instance diskState_fields : Fields diskState := {|
  fields x := mkDiskState (dsVersion x) (dsInitialized x) (dsSeenHandles x) (dsOutbound x) |}.

Record Store := mkStore { stData : diskState; stSeen : gset bytes }.

(** ** Validation *)
Definition hex_char (c : Z) : bool := in_range 48 c 57 || in_range 97 c 102 || in_range 65 c 70.
Definition validHandle (value : bytes) : bool :=
  if (len value =? 0) || (64 <? len value) then false else forallb hex_char (runes value).

Definition validOutbound (item : Outbound) : bool :=
  if (len (obID item) =? 0) || (128 <? len (obID item)) || ContainsAny (obID item) [0; 13; 10] then false
  else if (len (obText item) =? 0) || (Z.shiftl 16 10 <? len (obText item)) then false
  else
    let digits := TrimPrefix (obTo item) [43] in
    if (len digits <? 3) || (20 <? len digits) then false
    else if negb (forallb is_digit (runes digits)) then false
    else bool_decide (obTo item = digits) || bool_decide (obTo item = 43 :: digits).

(** ** Files *)
Inductive save_step := MkdirAll | CreateTemp | ChmodTemp | EncodeTemp | SyncTemp | CloseTemp | RenameTemp.
#[export] Instance save_step_eq_dec : EqDecision save_step.
Proof. solve_decision. Defined.

(** A step that returns an error, or the last one the process completes. *)
Inductive fault := Fails (step : save_step) | Dies (step : save_step).
#[export] Instance fault_eq_dec : EqDecision fault.
Proof. solve_decision. Defined.

Inductive outcome := Saved | Failed (e : error) | Died.

(** What [os.Open] and [Stat] say about a file. *)
Record file_info := mkInfo { fiSize : Z; fiRegular : bool; fiPerm : Z }.

(** What a store in memory satisfies. *)
Record store_ok (s : Store) : Prop := {
  ok_version : dsVersion (stData s) = stateVersion;
  ok_distinct : NoDup (dsSeenHandles (stData s));
  ok_handles : Forall (fun h => validHandle h = true) (dsSeenHandles (stData s));
  ok_seen_bound : len (dsSeenHandles (stData s)) <= maximumSeenHandles;
  ok_index : stSeen s = list_to_set (dsSeenHandles (stData s));
  ok_queue_bound : len (dsOutbound (stData s)) <= maximumOutbound;
  ok_items : Forall (fun i => validOutbound i = true) (dsOutbound (stData s))
}.

(** What JSON can hold: text in UTF-8, and a time with a four-digit year. *)
Definition storable (item : Outbound) : bool :=
  valid_utf8 (obID item) && valid_utf8 (obTo item) && valid_utf8 (obText item) && time_ok (obQueuedAt item).
(** A store that survives being written and read. *)
Definition kept (s : Store) : Prop := store_ok s /\ Forall (fun i => storable i = true) (dsOutbound (stData s)).

(** State files: [encoding/json] and the file attributes [saveLocked] sets.  The laws
    say that such a store reads back as written, that the file is a regular one only
    its owner can read, and that it is within the bound; [StateJson] proves them for JSON. *)
Class StateFile (File : Type) := {
  encode : diskState -> File;
  decode : File -> result diskState;
  trailing : File -> bool;
  stat : File -> file_info;
  empty_file : File
}.
Class StateFileLaws (File : Type) `{StateFile File} := {
  decode_encode : forall s, kept s -> decode (encode (stData s)) = Ok (stData s);
  encode_whole : forall s, kept s -> trailing (encode (stData s)) = false;
  encode_private : forall d, fiRegular (stat (encode d)) = true /\ fiPerm (stat (encode d)) = 0x180;
  encode_bounded : forall s, kept s -> fiSize (stat (encode (stData s))) <= maximumLegacyBytes
}.

(** The JSON shapes looked for in legacy files, and the digest of an item. *)
Class LegacyJSON := {
  unmarshal_envelope : bytes -> option (list bytes);
  unmarshal_handles : bytes -> option (list bytes);
  unmarshal_event : bytes -> option bytes;
  unmarshal_outbound : bytes -> option (bytes * bytes);
  sha256 : bytes -> bytes
}.

Section Files.
Context {File : Type} `{StateFile File}.

Record disk := mkDisk { dkState : option File; dkTemps : list File }.

Definition fails (f : option fault) (s : save_step) : bool := bool_decide (f = Some (Fails s)).
Definition dies (f : option fault) (s : save_step) : bool := bool_decide (f = Some (Dies s)).

(** [saveLocked]: write a temporary file, then rename it over the state file.  The
    deferred function removes the temporary file on every error. *)
Definition saveLocked (f : option fault) (dk : disk) (data : diskState) : disk * outcome :=
  let temp content := mkDisk (dkState dk) (content :: dkTemps dk) in
  if fails f MkdirAll then (dk, Failed (New "mkdir"))
  else if dies f MkdirAll then (dk, Died)
  else if fails f CreateTemp then (dk, Failed (New "create temp"))
  else if dies f CreateTemp then (temp empty_file, Died)
  else if fails f ChmodTemp then (dk, Failed (New "chmod"))
  else if dies f ChmodTemp then (temp empty_file, Died)
  else if fails f EncodeTemp then (dk, Failed (New "encode"))
  else if dies f EncodeTemp then (temp (encode data), Died)
  else if fails f SyncTemp then (dk, Failed (New "sync"))
  else if dies f SyncTemp then (temp (encode data), Died)
  else if fails f CloseTemp then (dk, Failed (New "close"))
  else if dies f CloseTemp then (temp (encode data), Died)
  else if fails f RenameTemp then (dk, Failed (New "rename"))
  else
    let dk := mkDisk (Some (encode data)) (dkTemps dk) in
    if dies f RenameTemp then (dk, Died) else (dk, Saved).

(** ** Loading *)

(** [rebuildSeen]: keep the first of each valid handle. *)
Fixpoint clean_handles (handles : list bytes) (seen : gset bytes) : list bytes * gset bytes :=
  match handles with
  | [] => ([], seen)
  | h :: handles =>
      if negb (validHandle h) || bool_decide (h ∈ seen) then clean_handles handles seen
      else let '(clean, seen) := clean_handles handles ({[h]} ∪ seen) in (h :: clean, seen)
  end.
Definition rebuildSeen (data : diskState) : Store :=
  let '(clean, seen) := clean_handles (dsSeenHandles data) ∅ in
  mkStore (data <| dsSeenHandles := clean |>) seen.

Definition ErrNotExist : error := Sentinel "os.ErrNotExist" "file does not exist".

(** [load], with the file the path names. *)
Definition load (file : option File) : result Store :=
  match file with
  | None => Error ErrNotExist
  | Some file =>
      let info := stat file in
      if maximumLegacyBytes <? fiSize info then fail! "state file exceeds bound"
      else if negb (fiRegular info) || negb (Z.land (fiPerm info) 0x3f =? 0)
      then fail! "state file permissions invalid"
      else
        match decode file with
        | Error e => Error (Wrap "decode state" e)
        | Ok data =>
            if trailing file then fail! "state file has trailing data"
            else if negb (dsVersion data =? stateVersion) || (maximumSeenHandles <? len (dsSeenHandles data))
                    || (maximumOutbound <? len (dsOutbound data))
            then fail! "state schema or bounds invalid"
            else if negb (forallb validOutbound (dsOutbound data))
            then fail! "state contains invalid outbound item"
            else Ok (rebuildSeen data)
        end
  end.

(** ** Operations

    Each returns the store left in memory, the disk, and what the caller gets;
    [None] in memory when the process died. *)
Definition IsInitialized (s : Store) : bool := dsInitialized (stData s).
Definition HasSeen (s : Store) (handle : bytes) : bool := bool_decide (handle ∈ stSeen s).
Definition Counts (s : Store) : Z * Z := (Z.of_nat (size (stSeen s)), len (dsOutbound (stData s))).

Definition SetInitialized (f : option fault) (s : Store) (dk : disk) : option Store * disk * result unit :=
  if dsInitialized (stData s) then (Some s, dk, Ok tt)
  else
    let s := mkStore ((stData s) <| dsInitialized := true |>) (stSeen s) in
    match saveLocked f dk (stData s) with
    | (dk, Saved) => (Some s, dk, Ok tt)
    | (dk, Failed e) => (Some s, dk, Error e)
    | (dk, Died) => (None, dk, fail! "killed")
    end.

(** The loop that adds the handles not yet seen, and the eviction of the oldest. *)
Fixpoint add_handles (handles : list bytes) (order : list bytes) (seen : gset bytes) (changed : bool) :
    list bytes * gset bytes * bool :=
  match handles with
  | [] => (order, seen, changed)
  | h :: handles => if bool_decide (h ∈ seen) then add_handles handles order seen changed
                    else add_handles handles (order ++ [h]) ({[h]} ∪ seen) true
  end.
Definition evict (order : list bytes) (seen : gset bytes) : list bytes * gset bytes :=
  let extra := Z.to_nat (len order - maximumSeenHandles) in
  (drop extra order, seen ∖ list_to_set (take extra order)).

Definition MarkSeenMany (f : option fault) (s : Store) (dk : disk) (handles : list bytes) :
    option Store * disk * result unit :=
  match handles with
  | [] => (Some s, dk, Ok tt)
  | _ =>
      if negb (forallb validHandle handles) then (Some s, dk, fail! "invalid message handle")
      else
        let '(order, seen, changed) := add_handles handles (dsSeenHandles (stData s)) (stSeen s) false in
        if negb changed then (Some (mkStore (stData s) seen), dk, Ok tt)
        else
          let '(order, seen) := evict order seen in
          let s' := mkStore ((stData s) <| dsSeenHandles := order |>) seen in
          match saveLocked f dk (stData s') with
          | (dk, Saved) => (Some s', dk, Ok tt)
          | (dk, Failed e) => (Some s, dk, Error e)
          | (dk, Died) => (None, dk, fail! "killed")
          end
  end.
Definition MarkSeen (f : option fault) (s : Store) (dk : disk) (handle : bytes) := MarkSeenMany f s dk [handle].

Definition AddOutbound (f : option fault) (s : Store) (dk : disk) (item : Outbound) :
    option Store * disk * result unit :=
  if negb (validOutbound item) then (Some s, dk, fail! "invalid outbound item")
  else if maximumOutbound <=? len (dsOutbound (stData s)) then (Some s, dk, fail! "outbound queue is full")
  else if existsb (fun existing => obID existing =s? obID item)%go (dsOutbound (stData s)) then (Some s, dk, Ok tt)
  else
    let s' := mkStore ((stData s) <| dsOutbound := dsOutbound (stData s) ++ [item] |>) (stSeen s) in
    match saveLocked f dk (stData s') with
    | (dk, Saved) => (Some s', dk, Ok tt)
    | (dk, Failed e) => (Some s, dk, Error e)
    | (dk, Died) => (None, dk, fail! "killed")
    end.

Definition TakeOutbound (f : option fault) (s : Store) (dk : disk) : option Store * disk * result (option Outbound) :=
  match dsOutbound (stData s) with
  | [] => (Some s, dk, Ok None)
  | item :: rest =>
      let s' := mkStore ((stData s) <| dsOutbound := rest |>) (stSeen s) in
      match saveLocked f dk (stData s') with
      | (dk, Saved) => (Some s', dk, Ok (Some item))
      | (dk, Failed e) => (Some s, dk, Error e)
      | (dk, Died) => (None, dk, fail! "killed")
      end
  end.

(** ** Legacy files

    What reading a legacy file gives: it is missing, it cannot be read, or its
    bytes. *)
Inductive source := Missing | Broken (e : error) | Content (data : bytes).

Record legacy := mkLegacy { lgSeen : source; lgLog : source; lgForward : source; lgQueue : source }.

Context `{LegacyJSON}.

(** [readBounded]. *)
Definition readBounded (src : source) : result (option bytes) :=
  match src with
  | Missing => Ok None
  | Broken e => Error e
  | Content raw => if maximumLegacyBytes <? len raw then fail! "legacy state exceeds bound" else Ok (Some raw)
  end.

(** The closure [add]: the set and the order it keeps. *)
Definition add_legacy (acc : list bytes * gset bytes) (handle : bytes) : list bytes * gset bytes :=
  let '(order, seen) := acc in
  if negb (validHandle handle) then acc
  else if bool_decide (handle ∈ seen) then acc
  else
    let order := order ++ [handle] in
    let seen := {[handle]} ∪ seen in
    if maximumSeenHandles <? len order
    then match order with old :: rest => (rest, seen ∖ {[old]}) | [] => (order, seen) end
    else (order, seen).

Definition legacy_seen_handles (raw : bytes) : list bytes :=
  match unmarshal_envelope raw with
  | Some handles => handles
  | None => match unmarshal_handles raw with Some values => values | None => [] end
  end.

(** The lines of a file read through [io.LimitReader] and a scanner, and whether
    the scanner reached the end without an error. *)
Definition scan_source (src : source) (maximum : Z) : result (option (list bytes * bool)) :=
  match src with
  | Missing => Ok None
  | Broken e => Error e
  | Content raw => Ok (Some (ScanLines (take (Z.to_nat maximumLegacyBytes) raw) maximum))
  end.
Definition ErrTooLong : error := Sentinel "bufio.ErrTooLong" "bufio.Scanner: token too long".

(** The loop over the message log. *)
Definition legacy_log (acc : list bytes * gset bytes) (lines : list bytes) : list bytes * gset bytes :=
  foldl (fun acc line => match unmarshal_event line with Some handle => add_legacy acc handle | None => acc end)
    acc lines.

Definition legacy_item (now : Z) (index : Z) (line : bytes) : option Outbound :=
  row ← unmarshal_outbound line;
  let digest := sha256 (line ++ [u8 index]) in
  let item := mkOutbound (str "legacy-" ++ hex_string (take 8 digest)) row.1 row.2 now in
  if validOutbound item then Some item else None.

(** The scan of the queue stops when the outbound list is full; lines after that are
    not looked at, not even for the scanner's error. *)
Fixpoint legacy_queue (now : Z) (index : Z) (lines : list bytes) (ok : bool) (acc : list Outbound) : result (list Outbound) :=
  match lines with
  | [] => if ok then Ok acc else Error ErrTooLong
  | line :: lines =>
      if maximumOutbound <=? len acc then Ok acc
      else legacy_queue now (index + 1) lines ok
             (match legacy_item now index line with Some item => acc ++ [item] | None => acc end)
  end.

Definition is_some {A} (o : option A) : bool := match o with Some _ => true | None => false end.

Definition importLegacy (now : Z) (paths : legacy) : result diskState :=
  let! raw := readBounded (lgSeen paths) in
  let found1 := is_some raw in
  let acc := match raw with Some raw => foldl add_legacy ([], ∅) (legacy_seen_handles raw) | None => ([], ∅) end in
  let! lines := scan_source (lgLog paths) (Z.shiftl 2 20) in
  let found2 := found1 || is_some lines in
  let! acc := match lines with
              | Some (lines, ok) => if ok then Ok (legacy_log acc lines) else Error ErrTooLong
              | None => Ok acc
              end in
  let! raw := readBounded (lgForward paths) in
  let found3 := found2 || is_some raw in
  let acc := match raw with Some raw => add_legacy acc (TrimSpace raw) | None => acc end in
  let! lines := scan_source (lgQueue paths) (Z.shiftl 64 10) in
  let! outbound := match lines with Some (lines, ok) => legacy_queue now 0 lines ok [] | None => Ok [] end in
  Ok (mkDiskState stateVersion (found3 || is_some lines) acc.1 outbound).

Definition OpenStore (f : option fault) (dk : disk) (now : Z) (paths : legacy) :
    option Store * disk * result bool :=
  match load (dkState dk) with
  | Ok s => (Some s, dk, Ok false)
  | Error e =>
      if negb (errors_is e ErrNotExist) then (None, dk, Error e)
      else
        match importLegacy now paths with
        | Error e => (None, dk, Error e)
        | Ok imported =>
            let s := rebuildSeen imported in
            match saveLocked f dk (stData s) with
            | (dk, Saved) => (Some s, dk, Ok true)
            | (dk, Failed e) => (None, dk, Error e)
            | (dk, Died) => (None, dk, fail! "killed")
            end
        end
  end.

End Files.
Arguments disk : clear implicits.

(** ** Handles kept: the reference behaviour *)

(** The handles of [hs] that are new, in the order they first appear. *)
Fixpoint fresh (hs seen : list bytes) : list bytes :=
  match hs with
  | [] => []
  | h :: hs => if bool_decide (h ∈ seen) then fresh hs seen else h :: fresh hs (h :: seen)
  end.

(** The last [n] elements. *)
Definition newest {A} (n : Z) (l : list A) : list A := drop (Z.to_nat (len l - n)) l.

Lemma fresh_ext hs seen seen' :
  (forall h, h ∈ seen <-> h ∈ seen') -> fresh hs seen = fresh hs seen'.
Proof.
  revert seen seen'. induction hs as [|h hs IH]; intros seen seen' E; [done|]. cbn [fresh].
  rewrite (bool_decide_ext _ _ (E h)). case_bool_decide; [by apply IH|]. f_equal. apply IH.
  intros x. rewrite !elem_of_cons. by rewrite E.
Qed.

Lemma add_handles_fresh hs order seen changed :
  seen = list_to_set order ->
  add_handles hs order seen changed =
    (order ++ fresh hs order, list_to_set (order ++ fresh hs order),
     changed || negb (bool_decide (fresh hs order = []))).
Proof.
  revert order seen changed. induction hs as [|h hs IH]; intros order seen changed ->; cbn [add_handles fresh].
  { rewrite app_nil_r. by rewrite orb_false_r. }
  rewrite (bool_decide_ext (h ∈ list_to_set order) (h ∈ order)) by apply elem_of_list_to_set.
  case_bool_decide as Hin; [by apply IH|]. rewrite IH by set_solver.
  rewrite (fresh_ext hs (h :: order) (order ++ [h])) by set_solver.
  rewrite <- app_assoc. cbn [app]. by rewrite orb_true_r.
Qed.

Lemma fresh_spec hs seen :
  NoDup (fresh hs seen) /\ (forall h, h ∈ fresh hs seen <-> h ∈ hs /\ h ∉ seen).
Proof.
  revert seen. induction hs as [|h hs IH]; intros seen; cbn [fresh]; [split; [constructor|set_solver]|].
  case_bool_decide as Hin.
  - destruct (IH seen) as [N E]. split; [done|]. intros x. rewrite E, elem_of_cons. naive_solver.
  - destruct (IH (h :: seen)) as [N E]. split.
    + constructor; [|done]. rewrite E. set_solver.
    + intros x. rewrite !elem_of_cons, E, elem_of_cons. destruct (decide (x = h)); naive_solver.
Qed.

Lemma NoDup_fresh order hs : NoDup order -> NoDup (order ++ fresh hs order).
Proof.
  intros N. destruct (fresh_spec hs order) as [N' E]. apply NoDup_app. split_and!; [done| |done].
  intros x Hx Hf. by apply E in Hf as [_ ?].
Qed.

(** Eviction keeps the newest handles and the set that indexes them. *)
Lemma evict_newest order :
  NoDup order ->
  evict order (list_to_set order) = (newest maximumSeenHandles order, list_to_set (newest maximumSeenHandles order)).
Proof.
  intros N. unfold evict, newest. f_equal. set (k := Z.to_nat _). rewrite <- (take_drop k order) in N.
  apply NoDup_app in N as (_ & D & _). apply set_eq. intros x. rewrite elem_of_difference, !elem_of_list_to_set.
  rewrite <- (take_drop k order) at 1. rewrite elem_of_app. specialize (D x). tauto.
Qed.

Lemma newest_length {A} n (l : list A) : 0 <= n -> len (newest n l) <= n.
Proof. intros. unfold newest, len. rewrite length_drop. lia. Qed.
Lemma newest_all {A} n (l : list A) : len l <= n -> newest n l = l.
Proof. intros. unfold newest. replace (Z.to_nat (len l - n)) with 0%nat by lia. apply drop_0. Qed.
Lemma newest_NoDup {A} n (l : list A) : NoDup l -> NoDup (newest n l).
Proof. intros N. unfold newest. rewrite <- (take_drop (Z.to_nat (len l - n)) l) in N. by apply NoDup_app in N as (_ & _ & ?). Qed.

(** Cleaning valid, distinct handles keeps them all. *)
Lemma clean_handles_id hs seen :
  NoDup hs -> Forall (fun h => validHandle h = true) hs -> (forall h, h ∈ hs -> h ∉ seen) ->
  clean_handles hs seen = (hs, list_to_set hs ∪ seen).
Proof.
  revert seen. induction hs as [|h hs IH]; intros seen N V D; cbn [clean_handles].
  { f_equal. set_solver. }
  apply NoDup_cons in N as [N1 N2]. apply Forall_cons in V as [V1 V2].
  rewrite V1, bool_decide_eq_false_2 by set_solver. cbn [negb orb].
  rewrite IH; [|done..|]; [f_equal; set_solver|]. intros x Hx. rewrite elem_of_union, elem_of_singleton.
  intros [-> | Hs]; [done|]. revert Hs. apply D. set_solver.
Qed.

(** Cleaning always gives valid, distinct handles and their set. *)
Lemma clean_handles_ok hs seen :
  let '(clean, seen') := clean_handles hs seen in
  NoDup clean /\ Forall (fun h => validHandle h = true) clean /\ (forall h, h ∈ clean -> h ∉ seen) /\
  seen' = list_to_set clean ∪ seen /\ (length clean <= length hs)%nat.
Proof.
  revert seen. induction hs as [|h hs IH]; intros seen; cbn [clean_handles].
  { split_and!; [constructor|constructor|set_solver|set_solver|done]. }
  destruct (validHandle h) eqn:V; cbn [negb orb].
  - case_bool_decide as Hin.
    + specialize (IH seen). destruct (clean_handles hs seen) as [clean seen']. cbn [length]. naive_solver lia.
    + specialize (IH ({[h]} ∪ seen)). destruct (clean_handles hs ({[h]} ∪ seen)) as [clean seen'].
      destruct IH as (N & F & D & -> & L). split_and!.
      * constructor; [|done]. intros Hc. apply D in Hc. set_solver.
      * by constructor.
      * intros x Hx. apply elem_of_cons in Hx as [-> | Hx]; [done|]. apply D in Hx. set_solver.
      * set_solver.
      * cbn. lia.
  - specialize (IH seen). destruct (clean_handles hs seen) as [clean seen']. cbn [length]. naive_solver lia.
Qed.

(** ** Saving is atomic *)
Section Durable.
Context {File : Type} `{StateFileLaws File} `{LegacyJSON}.
Implicit Types (dk : disk File) (s : Store) (f : option fault).

Lemma saveLocked_cases f dk data :
  match saveLocked f dk data with
  | (dk', Saved) => dkState dk' = Some (encode data) /\ dkTemps dk' = dkTemps dk
  | (dk', Failed _) => dk' = dk
  | (dk', Died) => dkState dk' = dkState dk \/ dkState dk' = Some (encode data)
  end.
Proof.
  unfold saveLocked.
  repeat match goal with
  | |- context [if ?b then _ else _] => destruct b; [by auto|]
  end. done.
Qed.

(** A store that is kept reads back exactly as it was saved. *)
Lemma load_encode s : kept s -> load (Some (encode (stData s))) = Ok s.
Proof.
  intros Kp. destruct (encode_private (stData s)) as [R P]. pose proof (encode_bounded s Kp) as B. destruct (Kp) as [K _]. unfold load.
  rewrite (proj2 (Z.ltb_ge _ _)) by done. rewrite R, P. change (Z.land 0x180 0x3f =? 0) with true. cbn [negb orb].
  rewrite decode_encode, encode_whole by done.
  rewrite (ok_version _ K), (proj2 (Z.ltb_ge _ _)), (proj2 (Z.ltb_ge _ _)) by apply K.
  rewrite (proj2 (forallb_forall _ _)) by (intros x Hx; apply (proj1 (Forall_forall _ _) (ok_items _ K)), list_elem_of_In, Hx).
  cbn [Z.eqb stateVersion Pos.eqb negb orb]. f_equal. unfold rebuildSeen.
  rewrite clean_handles_id by (apply K || set_solver). rewrite union_empty_r_L, <- (ok_index _ K).
  by destruct s as [[]].
Qed.

(** Whatever a state file holds, a store loaded from it is well formed. *)
Lemma load_ok file s : load file = Ok s -> store_ok s.
Proof.
  unfold load. destruct file as [file|]; [|done]. intros E. repeat (split_if_in E; [done|]).
  destruct (decode file) as [data|]; [|done]. repeat (split_if_in E; [done|]). apply Ok_inj in E. subst s.
  bool_prop. unfold rebuildSeen. pose proof (clean_handles_ok (dsSeenHandles data) ∅) as C.
  destruct (clean_handles (dsSeenHandles data) ∅) as [clean seen]. destruct C as (N & F & _ & -> & L).
  constructor; cbn; try done.
  - unfold len in *. lia.
  - by rewrite union_empty_r_L.
  - apply Forall_forall. intros x Hx. by apply (proj1 (forallb_forall _ _) ltac:(done)), list_elem_of_In.
Qed.

(** Memory agrees with the file, up to the initialisation flag: reopening gives the
    same handles and the same queue. *)
Definition same_lists s s' : Prop :=
  dsSeenHandles (stData s) = dsSeenHandles (stData s') /\ dsOutbound (stData s) = dsOutbound (stData s').
Definition persisted dk s : Prop := exists s', load (dkState dk) = Ok s' /\ same_lists s' s.

(** ** Calls

    A run of the bridge is a sequence of calls, each with the fault it meets.  After
    a call in which the process dies only a restart does anything. *)
Inductive call :=
  | CSetInitialized
  | CMarkSeenMany (handles : list bytes)
  | CAddOutbound (item : Outbound)
  | CTakeOutbound
  | CRestart (now : Z) (paths : legacy).

Inductive reply := RDone | RTaken (item : option Outbound) | RError (e : error) | RKilled.

Record machine := mkMachine { mcStore : option Store; mcDisk : disk File }.

Definition reply_of {A} (s : option Store) (done : A -> reply) (r : result A) : reply :=
  match s, r with None, _ => RKilled | Some _, Ok a => done a | Some _, Error e => RError e end.

Definition perform (c : call) f (m : machine) : machine * reply :=
  match c, mcStore m with
  | CSetInitialized, Some s =>
      let '(s, dk, r) := SetInitialized f s (mcDisk m) in (mkMachine s dk, reply_of s (fun _ => RDone) r)
  | CMarkSeenMany hs, Some s =>
      let '(s, dk, r) := MarkSeenMany f s (mcDisk m) hs in (mkMachine s dk, reply_of s (fun _ => RDone) r)
  | CAddOutbound item, Some s =>
      let '(s, dk, r) := AddOutbound f s (mcDisk m) item in (mkMachine s dk, reply_of s (fun _ => RDone) r)
  | CTakeOutbound, Some s =>
      let '(s, dk, r) := TakeOutbound f s (mcDisk m) in (mkMachine s dk, reply_of s RTaken r)
  | CRestart now paths, _ =>
      let '(s, dk, r) := OpenStore f (mcDisk m) now paths in (mkMachine s dk, reply_of s (fun _ => RDone) r)
  | _, None => (m, RKilled)
  end.

(** ** The abstract store

    The handles, the queue and the flag on disk, and the flag as the running process has it: [SetInitialized] leaves it set in memory when its
    save fails, whatever is saved next takes it to disk, and a process that dies forgets it. *)
Record contents := mkContents { coSeen : list bytes; coQueue : list Outbound; coInitialized : bool; coBelieved : bool }.
#[local] Instance contents_fields : Fields contents := {|
  fields x := mkContents (coSeen x) (coQueue x) (coInitialized x) (coBelieved x) |}.

(** What a store that has just been read or saved stands for. *)
Definition contents_of s : contents :=
  mkContents (dsSeenHandles (stData s)) (dsOutbound (stData s)) (dsInitialized (stData s)) (dsInitialized (stData s)).
(** What the disk holds, and the flag of the process, if it is there. *)
Definition image (o : option Store) dk : contents :=
  match load (dkState dk) with
  | Ok s => match o with Some s' => (contents_of s) <| coBelieved := dsInitialized (stData s') |> | None => contents_of s end
  | Error _ => mkContents [] [] false false
  end.
Definition durable dk : contents := image None dk.
Definition held (m : machine) : contents := image (mcStore m) (mcDisk m).

(** The process starts again. *)
Definition restarted (a : contents) : contents := a <| coBelieved := coInitialized a |>.
(** A call that succeeds: the lists change as they should, and a save takes the flag with it. *)
Definition effect (c : call) (a : contents) : contents :=
  match c with
  | CSetInitialized => if coBelieved a then a else a <| coInitialized := true |> <| coBelieved := true |>
  | CMarkSeenMany hs =>
      mkContents (newest maximumSeenHandles (coSeen a ++ fresh hs (coSeen a))) (coQueue a)
        (if bool_decide (fresh hs (coSeen a) = []) then coInitialized a else coBelieved a) (coBelieved a)
  | CAddOutbound item => if existsb (fun x => obID x =s? obID item)%go (coQueue a) then a
                         else mkContents (coSeen a) (coQueue a ++ [item]) (coBelieved a) (coBelieved a)
  | CTakeOutbound => mkContents (coSeen a) (tail (coQueue a)) (match coQueue a with [] => coInitialized a | _ => coBelieved a end) (coBelieved a)
  | CRestart _ _ => restarted a
  end.
(** A call that returns an error. *)
Definition refused (c : call) (a : contents) : contents :=
  match c with CSetInitialized => a <| coBelieved := true |> | _ => a end.

(** What a reply says about the contents before and after. *)
Definition spec (c : call) (r : reply) (a a' : contents) : Prop :=
  match r with
  | RDone => c <> CTakeOutbound /\ a' = effect c a
  | RTaken item => c = CTakeOutbound /\ a' = effect c a /\ item = head (coQueue a)
  | RError _ => a' = refused c a
  | RKilled => a' = restarted a \/ a' = restarted (effect c a)
  end.

(** A machine whose disk holds a valid state, and whose memory agrees with it. *)
Definition sound dk : Prop := is_ok (load (dkState dk)) = true /\ Forall (fun i => storable i = true) (coQueue (durable dk)).
Definition machine_ok (m : machine) : Prop :=
  sound (mcDisk m) /\
  match mcStore m with Some s => kept s /\ persisted (mcDisk m) s | None => True end.

Lemma image_persisted dk s :
  persisted dk s ->
  image (Some s) dk = mkContents (dsSeenHandles (stData s)) (dsOutbound (stData s)) (coInitialized (durable dk)) (dsInitialized (stData s)).
Proof. intros (s' & E & S & Q). unfold durable, image. rewrite E. cbn. by rewrite S, Q. Qed.
Lemma image_queue o dk : coQueue (image o dk) = coQueue (durable dk).
Proof. unfold durable, image. by destruct (load _), o. Qed.
Lemma image_dead o dk : restarted (image o dk) = durable dk.
Proof. unfold durable, image. by destruct (load _), o. Qed.
Lemma persisted_sound dk s : kept s -> persisted dk s -> sound dk.
Proof.
  intros [_ F] P. split; [by destruct P as (s' & -> & _)|]. rewrite <- (image_queue (Some s)), (image_persisted _ _ P). done.
Qed.
Lemma persisted_saved dk s : kept s -> dkState dk = Some (encode (stData s)) -> persisted dk s.
Proof. intros K E. exists s. rewrite E. by rewrite load_encode. Qed.
Lemma image_saved dk s : kept s -> dkState dk = Some (encode (stData s)) -> image (Some s) dk = contents_of s.
Proof. intros K E. unfold image. by rewrite E, load_encode. Qed.
Lemma image_same dk dk' o : dkState dk' = dkState dk -> image o dk' = image o dk.
Proof. intros E. unfold image. by rewrite E. Qed.

(** Saving [s'], and [back] in memory when that fails. *)
Definition committed {A} (back s' : Store) dk (r : option Store * disk File * result A) (x : A) : Prop :=
  match r with
  | (Some s1, dk1, Ok y) => s1 = s' /\ y = x /\ dkState dk1 = Some (encode (stData s'))
  | (Some s1, dk1, Error _) => s1 = back /\ dk1 = dk
  | (None, dk1, _) => dkState dk1 = dkState dk \/ dkState dk1 = Some (encode (stData s'))
  end.

Lemma commit_spec {A} f dk back s' (x : A) :
  committed back s' dk
    (match saveLocked f dk (stData s') with
     | (dk, Saved) => (Some s', dk, Ok x)
     | (dk, Failed e) => (Some back, dk, Error e)
     | (dk, Died) => (None, dk, fail! "killed")
     end) x.
Proof.
  pose proof (saveLocked_cases f dk (stData s')) as C. destruct (saveLocked f dk (stData s')) as [dk' []]; cbn; [|done|done].
  by destruct C as [C _].
Qed.

(** A call left the machine well formed and was atomic on what it holds. *)
Definition atomic {A} c (o : option Store) dk (r : option Store * disk File * result A) (k : A -> reply) : Prop :=
  machine_ok (mkMachine r.1.1 r.1.2) /\ spec c (reply_of r.1.1 k r.2) (image o dk) (image r.1.1 r.1.2).

Lemma committed_atomic {A} c s back s' dk r (x : A) (k : A -> reply) :
  kept s -> kept back -> kept s' -> persisted dk s -> persisted dk back -> contents_of s' = effect c (image (Some s) dk) ->
  image (Some back) dk = refused c (image (Some s) dk) -> spec c (k x) (image (Some s) dk) (contents_of s') ->
  committed back s' dk r x -> atomic c (Some s) dk r k.
Proof.
  intros K Kb K' P Pb E Eb Hk C. destruct r as [[s1 dk1] r]. unfold atomic. cbn [fst snd mcDisk].
  assert (forall r', committed (A := A) back s' dk (None, dk1, r') x -> machine_ok (mkMachine None dk1) /\ spec c RKilled (image (Some s) dk) (image None dk1)) as Dead.
  { intros _ [D | D].
    - assert (persisted dk1 s) as P1 by (unfold persisted; rewrite D; exact P). split; [split; [by apply (persisted_sound _ s)|done]|].
      left. by rewrite image_dead, (image_same dk).
    - split; [split; [apply (persisted_sound _ s'); [done|by apply persisted_saved]|done]|]. right.
      rewrite <- E, <- (image_saved dk1 s') by done. by rewrite image_dead. }
  destruct s1 as [s1|], r as [y|e]; cbn in C |- *; [| |by apply (Dead (Ok x))..].
  - destruct C as (-> & -> & D). split; [split; [apply (persisted_sound _ s'); [done|]|split; [done|]]; by apply persisted_saved|].
    by rewrite (image_saved dk1 s').
  - destruct C as (-> & ->). split; [split; [by apply (persisted_sound _ s)|done]|done].
Qed.

Lemma unchanged_atomic {A} c s dk (r : result A) (k : A -> reply) :
  kept s -> persisted dk s -> spec c (reply_of (Some s) k r) (image (Some s) dk) (image (Some s) dk) ->
  atomic c (Some s) dk (Some s, dk, r) k.
Proof. intros K P S. split; [split; [by eapply persisted_sound|done]|done]. Qed.

Lemma newest_Forall {A} (P : A -> Prop) n l : Forall P l -> Forall P (newest n l).
Proof. apply Forall_drop. Qed.

Definition marked s (hs : list bytes) : Store :=
  let order := newest maximumSeenHandles (dsSeenHandles (stData s) ++ fresh hs (dsSeenHandles (stData s))) in
  mkStore ((stData s) <| dsSeenHandles := order |>) (list_to_set order).

Lemma marked_ok s hs : store_ok s -> forallb validHandle hs = true -> store_ok (marked s hs).
Proof.
  intros K V. constructor; cbn; try apply K; try done.
  - by apply newest_NoDup, NoDup_fresh, K.
  - apply newest_Forall, Forall_app. split; [apply K|]. apply Forall_forall. intros h Hh.
    apply (proj2 (fresh_spec hs _)) in Hh as [Hh _]. by apply (proj1 (forallb_forall _ _) V), list_elem_of_In.
  - by apply newest_length.
Qed.

Lemma MarkSeenMany_unfold f s dk hs :
  store_ok s ->
  MarkSeenMany f s dk hs =
    match hs with
    | [] => (Some s, dk, Ok tt)
    | _ =>
        if negb (forallb validHandle hs) then (Some s, dk, fail! "invalid message handle")
        else if bool_decide (fresh hs (dsSeenHandles (stData s)) = []) then (Some s, dk, Ok tt)
        else match saveLocked f dk (stData (marked s hs)) with
             | (dk, Saved) => (Some (marked s hs), dk, Ok tt)
             | (dk, Failed e) => (Some s, dk, Error e)
             | (dk, Died) => (None, dk, fail! "killed")
             end
    end.
Proof.
  intros K. unfold MarkSeenMany. destruct hs as [|h hs]; [done|]. case_match; [done|].
  rewrite add_handles_fresh by apply K. cbn [orb]. rewrite negb_involutive.
  case_bool_decide as E.
  - rewrite E, app_nil_r, <- (ok_index _ K). by destruct s.
  - rewrite evict_newest by (apply NoDup_fresh, K). done.
Qed.

Lemma effect_mark_none s dk hs :
  store_ok s -> persisted dk s -> fresh hs (dsSeenHandles (stData s)) = [] -> effect (CMarkSeenMany hs) (image (Some s) dk) = image (Some s) dk.
Proof.
  intros K P E. rewrite image_persisted by done. cbn. rewrite E, app_nil_r, newest_all by apply K. done.
Qed.

Lemma with_outbound_ok s q :
  store_ok s -> len q <= maximumOutbound -> Forall (fun i => validOutbound i = true) q ->
  store_ok (mkStore ((stData s) <| dsOutbound := q |>) (stSeen s)).
Proof. intros K L F. constructor; cbn; try apply K; done. Qed.

Lemma SetInitialized_atomic f s dk :
  kept s -> persisted dk s -> atomic CSetInitialized (Some s) dk (SetInitialized f s dk) (fun _ => RDone).
Proof.
  intros K P. pose proof (image_persisted _ _ P) as I. unfold SetInitialized. destruct (dsInitialized (stData s)) eqn:B.
  { apply (unchanged_atomic _ s); [done..|]. rewrite I. by split. }
  cbv zeta. set (s' := mkStore _ (stSeen s)).
  assert (kept s') as K' by (destruct K as [K F]; split; [constructor; cbn; apply K|done]).
  assert (persisted dk s') as P' by (destruct P as (s0 & E0 & S0); by exists s0).
  apply (committed_atomic _ s s' s' dk _ tt); try done; [by rewrite I|by rewrite I, (image_persisted _ _ P')|by rewrite I|apply commit_spec].
Qed.

Lemma MarkSeenMany_atomic f s dk hs :
  kept s -> persisted dk s -> atomic (CMarkSeenMany hs) (Some s) dk (MarkSeenMany f s dk hs) (fun _ => RDone).
Proof.
  intros Kp P. destruct (Kp) as [K _]. rewrite MarkSeenMany_unfold by done. destruct hs as [|h hs].
  { apply (unchanged_atomic _ s); [done..|]. split; [done|]. symmetry. by apply effect_mark_none. }
  destruct (forallb validHandle (h :: hs)) eqn:V; cbn [negb]; [|by apply (unchanged_atomic _ s)].
  case_bool_decide as F.
  { apply (unchanged_atomic _ s); [done..|]. split; [done|]. symmetry. by apply effect_mark_none. }
  assert (kept (marked s (h :: hs))) as Km by (split; [by apply marked_ok|apply Kp]).
  assert (contents_of (marked s (h :: hs)) = effect (CMarkSeenMany (h :: hs)) (image (Some s) dk)) as E
    by (rewrite (image_persisted _ _ P); cbn -[fresh]; by rewrite bool_decide_eq_false_2).
  apply (committed_atomic _ s s (marked s (h :: hs)) dk _ tt); try done. apply commit_spec.
Qed.

Lemma AddOutbound_atomic f s dk item :
  kept s -> storable item = true -> persisted dk s -> atomic (CAddOutbound item) (Some s) dk (AddOutbound f s dk item) (fun _ => RDone).
Proof.
  intros Kp Si P. pose proof (image_persisted _ _ P) as I.
  destruct (Kp) as [K Ks]. unfold AddOutbound. destruct (validOutbound item) eqn:V; cbn [negb]; [|by apply (unchanged_atomic _ s)].
  destruct (maximumOutbound <=? len (dsOutbound (stData s))) eqn:F; [by apply (unchanged_atomic _ s)|].
  destruct (existsb _ _) eqn:X.
  { apply (unchanged_atomic _ s); [done..|]. split; [done|]. rewrite I. cbn. by rewrite X. }
  set (s' := mkStore _ (stSeen s)). assert (kept s') as K'.
  { split; [|apply Forall_app; split; [done|by constructor]]. apply with_outbound_ok; [done| |apply Forall_app; split; [apply K|by constructor]].
    rewrite len_app. change (len [item]) with 1. bool_prop. lia. }
  assert (contents_of s' = effect (CAddOutbound item) (image (Some s) dk)) as E by (rewrite I; cbn; by rewrite X).
  apply (committed_atomic _ s s s' dk _ tt); try done. apply commit_spec.
Qed.

Lemma TakeOutbound_atomic f s dk :
  kept s -> persisted dk s -> atomic CTakeOutbound (Some s) dk (TakeOutbound f s dk) RTaken.
Proof.
  intros Kp P. pose proof (image_persisted _ _ P) as I. destruct (Kp) as [K Ks]. unfold TakeOutbound. destruct (dsOutbound (stData s)) as [|item rest] eqn:Q.
  { apply (unchanged_atomic _ s); [done..|]. by rewrite I. }
  set (s' := mkStore _ (stSeen s)). assert (kept s') as K'.
  { pose proof (ok_queue_bound _ K) as B. pose proof (ok_items _ K) as F. rewrite Q in B, F.
    split; [|by apply Forall_cons in Ks as [_ ?]]. apply with_outbound_ok; [done| |by apply Forall_cons in F as [_ ?]]. unfold len in *. cbn in B. lia. }
  assert (contents_of s' = effect CTakeOutbound (image (Some s) dk)) as E by by rewrite I.
  apply (committed_atomic _ s s s' dk _ (Some item)); try done; [by rewrite E, I|apply commit_spec].
Qed.

Lemma Restart_atomic f o dk now paths :
  sound dk -> atomic (CRestart now paths) o dk (OpenStore f dk now paths) (fun _ => RDone).
Proof.
  intros So. unfold OpenStore. destruct (So) as [L F]. unfold durable, image in F. destruct (load (dkState dk)) as [s|] eqn:E; [|done].
  split.
  - split; cbn; [done|]. split; [split; [by eapply load_ok|done]|]. by exists s.
  - cbn [fst snd reply_of spec]. split; [done|]. cbn [effect]. rewrite image_dead. unfold durable, image. by rewrite E.
Qed.

(** The items given to [AddOutbound]. *)
Definition offered (cs : list call) : list Outbound :=
  cs ≫= fun c => match c with CAddOutbound item => [item] | _ => [] end.

(** Each call keeps the machine well formed and is atomic on what it holds. *)
Lemma perform_spec c f m m' r :
  machine_ok m -> Forall (fun i => storable i = true) (offered [c]) -> perform c f m = (m', r) ->
  machine_ok m' /\ spec c r (held m) (held m').
Proof.
  destruct m as [[s|] dk]; intros [L I] So E; cbn [mcStore mcDisk] in L, I; destruct c as [|hs|item| |now paths];
    cbn [perform mcStore mcDisk] in E; try (injection E as <- <-; split; [done|left; symmetry; apply image_dead]).
  - pose proof (SetInitialized_atomic f s dk (proj1 I) (proj2 I)) as A. destruct (SetInitialized f s dk) as [[? ?] ?]. by injection E as <- <-.
  - pose proof (MarkSeenMany_atomic f s dk hs (proj1 I) (proj2 I)) as A. destruct (MarkSeenMany f s dk hs) as [[? ?] ?]. by injection E as <- <-.
  - pose proof (AddOutbound_atomic f s dk item (proj1 I) (proj1 (proj1 (Forall_cons _ _ _) So)) (proj2 I)) as A. destruct (AddOutbound f s dk item) as [[? ?] ?]. by injection E as <- <-.
  - pose proof (TakeOutbound_atomic f s dk (proj1 I) (proj2 I)) as A. destruct (TakeOutbound f s dk) as [[? ?] ?]. by injection E as <- <-.
  - pose proof (Restart_atomic f (Some s) dk now paths L) as A. destruct (OpenStore f dk now paths) as [[? ?] ?]. by injection E as <- <-.
  - pose proof (Restart_atomic f None dk now paths L) as A. destruct (OpenStore f dk now paths) as [[? ?] ?]. by injection E as <- <-.
Qed.

(** ** Opening *)

Lemma add_legacy_bound acc h : len acc.1 <= maximumSeenHandles -> len (add_legacy acc h).1 <= maximumSeenHandles.
Proof.
  destruct acc as [order seen]. cbn [fst]. intros B. unfold add_legacy.
  destruct (negb _); [done|]. destruct (bool_decide _); [done|].
  destruct (Z.ltb_spec maximumSeenHandles (len (order ++ [h]))); [|done].
  destruct order as [|old order]; cbn [app fst]; [done|]. rewrite len_app. unfold len in *. cbn in *. lia.
Qed.

Lemma foldl_bound {A} (g : list bytes * gset bytes -> A -> list bytes * gset bytes) l acc :
  (forall acc x, len acc.1 <= maximumSeenHandles -> len (g acc x).1 <= maximumSeenHandles) ->
  len acc.1 <= maximumSeenHandles -> len (foldl g acc l).1 <= maximumSeenHandles.
Proof. intros Hg. revert acc. induction l as [|x l IH]; intros acc B; [done|]. apply IH, Hg, B. Qed.

Lemma legacy_item_valid now index line item : legacy_item now index line = Some item -> validOutbound item = true.
Proof.
  unfold legacy_item. destruct (unmarshal_outbound line) as [row|]; [|done]. cbn. intros E.
  split_if_in E; [|done]. by injection E as <-.
Qed.

Lemma legacy_queue_ok now index lines ok acc q :
  legacy_queue now index lines ok acc = Ok q ->
  len acc <= maximumOutbound -> Forall (fun i => validOutbound i = true) acc ->
  len q <= maximumOutbound /\ Forall (fun i => validOutbound i = true) q.
Proof.
  revert index acc. induction lines as [|line lines IH]; intros index acc E B F; cbn [legacy_queue] in E.
  { split_if_in E; [|done]. by apply Ok_inj in E as <-. }
  split_if_in E; [by apply Ok_inj in E as <-|]. bool_prop.
  destruct (legacy_item now index line) as [item|] eqn:L; [|by apply IH in E]. apply legacy_item_valid in L.
  apply IH in E; [done|rewrite len_app; change (len [item]) with 1; lia|]. apply Forall_app. split; [done|by constructor].
Qed.

Lemma importLegacy_ok now paths d : importLegacy now paths = Ok d -> store_ok (rebuildSeen d).
Proof.
  unfold importLegacy. intros E. apply result_bind_ok in E as (raw & _ & E). apply result_bind_ok in E as (lines & _ & E).
  apply result_bind_ok in E as (acc & E1 & E). apply result_bind_ok in E as (fwd & _ & E).
  apply result_bind_ok in E as (q & _ & E). apply result_bind_ok in E as (outbound & E2 & E). apply Ok_inj in E. subst d.
  assert (len acc.1 <= maximumSeenHandles) as B.
  { assert (len (match raw with Some raw => foldl add_legacy ([], ∅) (legacy_seen_handles raw) | None => ([], ∅) end).1 <= maximumSeenHandles) as B0.
    { destruct raw; [|done]. apply foldl_bound; [apply add_legacy_bound|done]. }
    destruct lines as [[lines ok]|]; [|by apply Ok_inj in E1 as <-]. split_if_in E1; [|done]. apply Ok_inj in E1 as <-.
    apply foldl_bound; [|done]. intros a x Ha. destruct (unmarshal_event x); [by apply add_legacy_bound|done]. }
  assert (len outbound <= maximumOutbound /\ Forall (fun i => validOutbound i = true) outbound) as [B2 F2].
  { destruct q as [[lines' ok]|]; [by eapply legacy_queue_ok in E2|]. by apply Ok_inj in E2 as <-. }
  unfold rebuildSeen. cbn [dsSeenHandles]. set (order := (match fwd with Some _ => _ | None => _ end).1).
  assert (len order <= maximumSeenHandles) as B3 by (unfold order; destruct fwd; [by apply add_legacy_bound|done]).
  clearbody order. pose proof (clean_handles_ok order ∅) as C. destruct (clean_handles order ∅) as [clean seen].
  destruct C as (N & F & _ & -> & L). constructor; cbn; try done; [unfold len in *; lia|by rewrite union_empty_r_L].
Qed.

Lemma OpenStore_ok f dk now paths s dk' r :
  OpenStore f dk now paths = (Some s, dk', r) -> Forall (fun i => storable i = true) (dsOutbound (stData s)) ->
  machine_ok (mkMachine (Some s) dk') /\ image (Some s) dk' = contents_of s.
Proof.
  unfold OpenStore. intros E So.
  assert (store_ok s /\ persisted dk' s /\ image (Some s) dk' = contents_of s) as (K & P & I).
  { destruct (load (dkState dk)) as [s0|e] eqn:L.
    - injection E as <- <- _. split_and!; [by eapply load_ok|by exists s0|]. unfold image. by rewrite L.
    - split_if_in E; [done|]. destruct (importLegacy now paths) as [d|] eqn:I; [|done].
      pose proof (importLegacy_ok _ _ _ I) as K. pose proof (saveLocked_cases f dk (stData (rebuildSeen d))) as C.
      destruct (saveLocked f dk _) as [dk1 []]; [|done..]. injection E as <- <- _. split; [done|].
      split; [apply persisted_saved|apply image_saved]; try apply C; by split. }
  assert (kept s) as Kp by by split. split; [|done]. split; [by eapply persisted_sound|done].
Qed.

(** ** Runs *)
Fixpoint perform_all (cs : list (call * option fault)) (m : machine) : machine * list reply :=
  match cs with
  | [] => (m, [])
  | (c, f) :: cs =>
      let '(m, r) := perform c f m in
      let '(m, rs) := perform_all cs m in
      (m, r :: rs)
  end.

(** A sequence of atomic calls on the abstract store. *)
Inductive spec_run : list call -> list reply -> contents -> contents -> Prop :=
  | spec_nil a : spec_run [] [] a a
  | spec_cons c r cs rs a a1 a2 : spec c r a a1 -> spec_run cs rs a1 a2 -> spec_run (c :: cs) (r :: rs) a a2.

Lemma perform_all_spec cs m m' rs :
  machine_ok m -> Forall (fun i => storable i = true) (offered cs.*1) -> perform_all cs m = (m', rs) ->
  machine_ok m' /\ spec_run cs.*1 rs (held m) (held m').
Proof.
  revert m rs. induction cs as [|[c f] cs IH]; intros m rs K So E; cbn in E |- *.
  { injection E as <- <-. split; [done|constructor]. }
  destruct (perform c f m) as [m1 r] eqn:E1. destruct (perform_all cs m1) as [m2 rs'] eqn:E2.
  change (Forall (fun i => storable i = true) (offered ([c] ++ cs.*1))) in So. unfold offered in So. rewrite bind_app in So.
  fold (offered [c]) (offered cs.*1) in So. apply Forall_app in So as [So1 So2].
  injection E as <- <-. apply perform_spec in E1 as [K1 S1]; [|done..].
  destruct (IH _ _ K1 So2 E2) as [K2 S2]. split; [done|]. by econstructor.
Qed.

(** C3.  The SMS store refines an atomic persistent store: from whatever file the
    bridge opens, over any sequence of calls and restarts, with any step of any save
    failing or the process killed in the middle of one, and for queued texts that are UTF-8 with
    times JSON can write, a call that succeeds has its
    whole effect on disk, one that returns an error has none, and one that is killed
    has all of it or none; memory and disk stay well formed throughout.  The initialized flag is the exception, and as the specification
    has it: a [SetInitialized] that fails leaves it set in memory, so that a second one succeeds without saving; the next call that saves
    anything writes it, and a restart before that loses it. *)
Theorem sms_store_atomic f dk now paths s dk1 r cs m rs :
  OpenStore f dk now paths = (Some s, dk1, r) -> Forall (fun i => storable i = true) (dsOutbound (stData s) ++ offered cs.*1) ->
  perform_all cs (mkMachine (Some s) dk1) = (m, rs) ->
  machine_ok m /\ spec_run cs.*1 rs (contents_of s) (held m).
Proof.
  intros O [So1 So2]%Forall_app E. apply OpenStore_ok in O as [K <-]; [|done]. by apply perform_all_spec in E.
Qed.

(** ** The outbound queue *)
Definition taken (rs : list reply) : list Outbound :=
  rs ≫= fun r => match r with RTaken (Some item) => [item] | _ => [] end.
(** The items whose [AddOutbound] succeeded. *)
Definition accepted (cs : list call) (rs : list reply) : list Outbound :=
  zip cs rs ≫= fun cr => match cr with (CAddOutbound item, RDone) => [item] | _ => [] end.

Lemma effect_queue c a :
  coQueue (effect c a) = coQueue a \/
  (exists item, c = CAddOutbound item /\ coQueue (effect c a) = coQueue a ++ [item]) \/
  (c = CTakeOutbound /\ coQueue (effect c a) = tail (coQueue a)).
Proof.
  destruct c as [|hs|item| |now paths]; cbn; auto; [destruct (coBelieved a); by left|].
  destruct (existsb _ _); [by left|]. right. left. by exists item.
Qed.
Lemma refused_lists c a : coQueue (refused c a) = coQueue a /\ coSeen (refused c a) = coSeen a.
Proof. by destruct c. Qed.

(** What one call does to the queue and to the items handed out. *)
Lemma spec_queue c r a a1 :
  spec c r a a1 -> taken [r] ++ coQueue a1 `sublist_of` coQueue a ++ offered [c].
Proof.
  assert (coQueue (effect c a) `sublist_of` coQueue a ++ offered [c]) as Eff.
  { destruct (effect_queue c a) as [-> | [(item & -> & ->) | (-> & ->)]]; cbn.
    - by apply sublist_inserts_r.
    - done.
    - rewrite app_nil_r. destruct (coQueue a); [done|by apply sublist_cons]. }
  assert (coQueue a `sublist_of` coQueue a ++ offered [c]) as Same by by apply sublist_inserts_r.
  destruct r as [|item|e|]; cbn [spec].
  - by intros [_ ->].
  - intros (-> & -> & ->). unfold taken, offered. cbn. rewrite !app_nil_r. by destruct (coQueue a).
  - intros ->. by rewrite (proj1 (refused_lists c a)).
  - intros [-> | ->]; done.
Qed.

Lemma spec_run_queue cs rs a a' :
  spec_run cs rs a a' -> taken rs ++ coQueue a' `sublist_of` coQueue a ++ offered cs.
Proof.
  induction 1 as [a|c r cs rs a a1 a2 S R IH]; [cbn; by rewrite app_nil_r|].
  apply spec_queue in S. change (c :: cs) with ([c] ++ cs). change (r :: rs) with ([r] ++ rs).
  unfold taken, offered. rewrite !bind_app. fold (taken [r]) (taken rs) (offered [c]) (offered cs).
  rewrite <- app_assoc. transitivity (taken [r] ++ coQueue a1 ++ offered cs); [by apply sublist_app|].
  rewrite !(app_assoc _ _ (offered cs)). by apply sublist_app.
Qed.

Lemma fresh_id_not_queued item q :
  obID item ∉ obID <$> q -> existsb (fun x => obID x =s? obID item)%go q = false.
Proof.
  intros Hn. apply not_true_iff_false. intros E. apply existsb_exists in E as (x & Hx & E).
  apply bool_decide_eq_true in E. apply Hn. rewrite <- E. apply list_elem_of_fmap_2, list_elem_of_In, Hx.
Qed.

(** Without kills and with distinct identifiers the queue is exactly first in, first out. *)
Lemma spec_run_exact cs rs a a' :
  spec_run cs rs a a' -> RKilled ∉ rs -> NoDup (obID <$> coQueue a ++ offered cs) ->
  taken rs ++ coQueue a' = coQueue a ++ accepted cs rs.
Proof.
  induction 1 as [a|c r cs rs a a1 a2 S R IH]; intros K N; [cbn; by rewrite app_nil_r|].
  apply not_elem_of_cons in K as [K1 K2]. specialize (IH K2).
  change (c :: cs) with ([c] ++ cs) in *. change (r :: rs) with ([r] ++ rs).
  unfold accepted. rewrite zip_with_app by done. unfold taken, offered in *. rewrite !bind_app in *.
  fold (taken rs) (offered cs) (accepted cs rs) in *.
  destruct r as [|x|e|]; cbn in S; [| | |done].
  - destruct S as [Hc ->]. destruct c as [|hs|item| |now paths]; cbn in IH, N |- *; try (by apply IH); [by destruct (coBelieved a); apply IH| |done].
    rewrite fresh_id_not_queued in IH.
    + cbn in IH. rewrite <- !app_assoc in IH. by apply IH.
    + rewrite fmap_app in N. apply NoDup_app in N as (_ & N & _). intros Hin. apply N in Hin. set_solver.
  - destruct S as (-> & -> & ->). cbn in IH, N |- *. destruct (coQueue a) as [|x q]; cbn in IH, N |- *; [by apply IH|].
    f_equal. apply IH. by apply NoDup_cons in N as [_ N].
  - rewrite S in IH. rewrite (proj1 (refused_lists c a)) in IH. cbn. destruct c as [|hs|item| |now paths]; cbn in N |- *; try (by apply IH).
    apply IH. rewrite fmap_app in N |- *. cbn in N. apply NoDup_app in N as (N1 & N2 & N3).
    apply NoDup_cons in N3 as [_ N3]. apply NoDup_app. split_and!; [done| |done]. intros y Hy Hy'. apply (N2 y Hy). by right.
Qed.

(** C9.  The outbound queue hands out each message at most once, in order: over any
    run with failures, kills and restarts, the items [TakeOutbound] returned followed by
    those still queued on disk form a subsequence of the initial queue followed by the
    items given to [AddOutbound]; and when nothing was killed and the identifiers are
    distinct they are exactly the initial queue followed by the accepted items. *)
Theorem outbox_at_most_once f dk now paths s dk1 r cs m rs :
  OpenStore f dk now paths = (Some s, dk1, r) -> Forall (fun i => storable i = true) (dsOutbound (stData s) ++ offered cs.*1) ->
  perform_all cs (mkMachine (Some s) dk1) = (m, rs) ->
  taken rs ++ coQueue (durable (mcDisk m)) `sublist_of` dsOutbound (stData s) ++ offered cs.*1 /\
  (RKilled ∉ rs -> NoDup (obID <$> dsOutbound (stData s) ++ offered cs.*1) ->
   taken rs ++ coQueue (durable (mcDisk m)) = dsOutbound (stData s) ++ accepted cs.*1 rs).
Proof.
  intros O [So1 So2]%Forall_app E. apply OpenStore_ok in O as [K D]; [|done]. apply perform_all_spec in E as [_ R]; [|done..]. cbn [mcDisk] in R.
  unfold held at 1 in R. cbn [mcStore mcDisk] in R. rewrite D in R. rewrite <- (image_queue (mcStore m)). fold (held m).
  split; [by apply spec_run_queue in R|]. intros HK HN. by apply spec_run_exact in R.
Qed.

(** ** Handles stay seen *)
Definition marks (cs : list call) : Z :=
  len (cs ≫= fun c => match c with CMarkSeenMany hs => hs | _ => [] end).

Lemma fresh_length hs seen : (length (fresh hs seen) <= length hs)%nat.
Proof.
  revert seen. induction hs as [|h hs IH]; intros seen; cbn; [done|]. case_bool_decide; cbn;
    [specialize (IH seen)|specialize (IH (h :: seen))]; lia.
Qed.

Lemma newest_app {A} k (l fr : list A) : 0 <= k -> newest (k + len fr) (l ++ fr) = newest k l ++ fr.
Proof.
  intros Hk. unfold newest. rewrite len_app. replace (len l + len fr - (k + len fr)) with (len l - k) by lia.
  rewrite drop_app_le; [done|]. unfold len. lia.
Qed.
Lemma newest_newest {A} k n (l : list A) : 0 <= k <= n -> newest k (newest n l) = newest k l.
Proof.
  intros Hk. unfold newest. rewrite drop_drop. f_equal. unfold len. rewrite length_drop. lia.
Qed.
Lemma newest_mono {A} k n (l : list A) x : 0 <= k <= n -> x ∈ newest k l -> x ∈ newest n l.
Proof.
  intros Hk. rewrite <- (newest_newest k n l) by done. unfold newest at 1.
  intros Hx. rewrite <- (take_drop (Z.to_nat (len (newest n l) - k)) (newest n l)). apply elem_of_app. by right.
Qed.

Lemma spec_seen c r a a1 : spec c r a a1 -> coSeen a1 = coSeen a \/
  exists hs, c = CMarkSeenMany hs /\ coSeen a1 = newest maximumSeenHandles (coSeen a ++ fresh hs (coSeen a)).
Proof.
  assert (coSeen (effect c a) = coSeen a \/ exists hs, c = CMarkSeenMany hs /\
    coSeen (effect c a) = newest maximumSeenHandles (coSeen a ++ fresh hs (coSeen a))) as E.
  { destruct c as [|hs|item| |now paths]; cbn; [case_match; by left|right; by exists hs|case_match; by left|by left|by left]. }
  destruct r; cbn; [intros [_ ->]|intros (_ & -> & _)|intros ->; rewrite (proj2 (refused_lists c a))|intros [-> | ->]]; auto.
Qed.

Lemma spec_run_seen cs rs a a' h k :
  spec_run cs rs a a' -> 0 <= k -> k + marks cs <= maximumSeenHandles ->
  h ∈ newest k (coSeen a) -> h ∈ newest (k + marks cs) (coSeen a').
Proof.
  intros R. revert k. induction R as [a|c r cs rs a a1 a2 S R IH]; intros k Hk Hb Hin.
  { eapply newest_mono; [|done]. change (marks []) with 0. lia. }
  change (c :: cs) with ([c] ++ cs) in *. unfold marks in *. rewrite bind_app, len_app in *. fold (marks cs) in *.
  set (n := len ([c] ≫= _)) in *. pose proof (len_nonneg ([c] ≫= fun c => match c with CMarkSeenMany hs => hs | _ => [] end)) as Hn.
  fold n in Hn. pose proof (len_nonneg (cs ≫= fun c => match c with CMarkSeenMany hs => hs | _ => [] end)) as Hm. fold (marks cs) in Hm.
  replace (k + (n + marks cs)) with ((k + n) + marks cs) by lia. apply IH; [lia..|].
  destruct (spec_seen _ _ _ _ S) as [-> | (hs & -> & ->)]; [eapply newest_mono; [|done]; lia|].
  assert (n = len hs) as -> by (unfold n; cbn; by rewrite app_nil_r).
  pose proof (fresh_length hs (coSeen a)) as L. rewrite newest_newest by lia.
  apply (newest_mono (k + len (fresh hs (coSeen a)))); [unfold len in *; lia|]. rewrite newest_app by done.
  apply elem_of_app. by left.
Qed.

(** A message is not handled twice: once a new handle has been marked with
    success, [HasSeen] answers true through any later calls, failures, kills and
    restarts, as long as no more than 4096 handles have been marked since (counting
    those of the same call). *)
Theorem seen_handle_kept f dk now paths s dk1 r h hs f1 m1 cs m2 rs s2 :
  OpenStore f dk now paths = (Some s, dk1, r) -> Forall (fun i => storable i = true) (dsOutbound (stData s) ++ offered cs.*1) ->
  HasSeen s h = false -> h ∈ hs ->
  perform (CMarkSeenMany hs) f1 (mkMachine (Some s) dk1) = (m1, RDone) ->
  perform_all cs m1 = (m2, rs) -> mcStore m2 = Some s2 ->
  len hs + marks cs.*1 <= maximumSeenHandles ->
  HasSeen s2 h = true.
Proof.
  intros O [So1 So2]%Forall_app U Hin P E E2 B. apply OpenStore_ok in O as [K D]; [|done]. destruct (K) as [L [[Ks _] Ps]].
  apply perform_spec in P as [K1 [_ S1]]; [|done|constructor]. unfold held at 2 in S1. cbn [mcStore mcDisk] in S1. rewrite D in S1.
  apply perform_all_spec in E as [K2 R]; [|done..]. destruct K2 as [_ K2]. rewrite E2 in K2. destruct K2 as [[Ks2 _] Ps2].
  unfold held at 2 in R. rewrite E2, (image_persisted _ _ Ps2), S1 in R. apply (spec_run_seen _ _ _ _ h (len hs)) in R; [|apply len_nonneg|done|].
  - unfold HasSeen. rewrite (ok_index _ Ks2). apply bool_decide_eq_true_2, elem_of_list_to_set.
    unfold newest in R. cbn [coSeen contents_of] in R.
    rewrite <- (take_drop (Z.to_nat (len (dsSeenHandles (stData s2)) - (len hs + marks cs.*1))) (dsSeenHandles (stData s2))).
    apply elem_of_app. by right.
  - cbn [effect coSeen contents_of]. pose proof (len_nonneg (cs.*1 ≫= fun c => match c with CMarkSeenMany hs => hs | _ => [] end)) as Hm.
    fold (marks cs.*1) in Hm. pose proof (len_nonneg hs). rewrite newest_newest by lia. pose proof (fresh_length hs (dsSeenHandles (stData s))) as F.
    apply (newest_mono (0 + len (fresh hs (dsSeenHandles (stData s))))); [unfold len; lia|]. rewrite newest_app by done.
    apply elem_of_app. right. apply fresh_spec. split; [done|]. unfold HasSeen in U. rewrite (ok_index _ Ks) in U.
    apply bool_decide_eq_false in U. by rewrite elem_of_list_to_set in U.
Qed.

(** [SetInitialized] is not rolled back when its save fails: the flag stays set
    in memory, so the next call returns success without saving, and after a restart
    the store is uninitialised again. *)
Theorem initialized_flag_not_saved f dk now paths s dk1 r step :
  OpenStore f dk now paths = (Some s, dk1, r) -> Forall (fun i => storable i = true) (dsOutbound (stData s)) -> dsInitialized (stData s) = false ->
  exists s1 e,
    SetInitialized (Some (Fails step)) s dk1 = (Some s1, dk1, Error e) /\ IsInitialized s1 = true /\
    SetInitialized None s1 dk1 = (Some s1, dk1, Ok tt) /\
    exists s2, OpenStore None dk1 now paths = (Some s2, dk1, Ok false) /\ IsInitialized s2 = false.
Proof.
  intros O So U. pose proof O as O'. apply OpenStore_ok in O' as [[_ [K (s0 & L & _)]] _]; [|done]. cbn [mcDisk] in L.
  assert (dsInitialized (stData s0) = false) as U0.
  { unfold OpenStore in O. destruct (load (dkState dk)) as [s'|e'] eqn:L'; [injection O as <- <- _; congruence|].
    split_if_in O; [done|]. destruct (importLegacy now paths) as [d|] eqn:I; [|done].
    pose proof (saveLocked_cases f dk (stData (rebuildSeen d))) as C. apply importLegacy_ok in I.
    destruct (saveLocked f dk _) as [dk2 []]; [|done..]. injection O as <- <- _. destruct C as [C _].
    rewrite C, load_encode in L by by split. by apply Ok_inj in L as <-. }
  unfold SetInitialized. rewrite U.
  assert (exists e, saveLocked (Some (Fails step)) dk1 (stData (mkStore ((stData s) <| dsInitialized := true |>) (stSeen s))) = (dk1, Failed e)) as [e ->]
    by (destruct step; by eexists).
  do 2 eexists. split_and!; [done..|]. exists s0. unfold OpenStore. by rewrite L.
Qed.

End Durable.

(** ** A concrete file format, for the witnesses

    Files that hold the state itself. *)
Module Plain.
#[export] Instance plain_file : StateFile diskState := {|
  encode d := d; decode d := Ok d; trailing _ := false; stat _ := mkInfo 0 true 0x180;
  empty_file := mkDiskState 0 false [] [] |}.
#[export] Instance plain_laws : StateFileLaws diskState.
Proof. split; done. Qed.
#[export] Instance plain_json : LegacyJSON := {|
  unmarshal_envelope _ := None; unmarshal_handles _ := None; unmarshal_event _ := None;
  unmarshal_outbound _ := None; sha256 s := s |}.

Definition none : legacy := mkLegacy Missing Missing Missing Missing.
Definition new_disk : disk diskState := mkDisk None [].
Definition new_store : Store := mkStore (mkDiskState 1 false [] []) ∅.
Definition new_saved : disk diskState := mkDisk (Some (stData new_store)) [].
Definition item (n : Z) : Outbound := mkOutbound [n] (str "+821012345678") (str "hi") 0.

(** Two messages are queued, the save of a third fails, the process dies taking the
    first, and after the restart the second is handed out. *)
Definition calls : list (call * option fault) :=
  [(CAddOutbound (item 65), None); (CAddOutbound (item 66), None);
   (CAddOutbound (item 67), Some (Fails SyncTemp)); (CTakeOutbound, Some (Dies RenameTemp));
   (CTakeOutbound, None); (CRestart 0 none, None); (CTakeOutbound, None)].
End Plain.
Import Plain.

Lemma outbox_at_most_once_witness :
  let run := perform_all Plain.calls (mkMachine (Some new_store) new_saved) in
  taken run.2 = [item 66] /\
  taken run.2 ++ coQueue (durable (mcDisk run.1)) `sublist_of` [] ++ offered Plain.calls.*1.
Proof.
  cbv zeta. split; [vm_compute; reflexivity|].
  apply (outbox_at_most_once None new_disk 0 none new_store new_saved (Ok true) Plain.calls
           (perform_all Plain.calls (mkMachine (Some new_store) new_saved)).1
           (perform_all Plain.calls (mkMachine (Some new_store) new_saved)).2).
  - vm_compute. reflexivity.
  - repeat constructor.
  - apply surjective_pairing.
Defined.

Lemma seen_handle_kept_witness :
  let m1 := (perform (CMarkSeenMany [str "0a"; str "0b"]) None (mkMachine (Some new_store) new_saved)).1 in
  let m2 := (perform_all [(CMarkSeenMany [str "0c"], Some (Dies EncodeTemp)); (CRestart 0 none, None)] m1).1 in
  (fun s => HasSeen s (str "0a")) <$> mcStore m2 = Some true.
Proof.
  cbv zeta.
  destruct (mcStore (perform_all [(CMarkSeenMany [str "0c"], Some (Dies EncodeTemp)); (CRestart 0 none, None)]
    (perform (CMarkSeenMany [str "0a"; str "0b"]) None (mkMachine (Some new_store) new_saved)).1).1) as [s2|] eqn:E.
  - cbn [fmap option_fmap option_map]. f_equal.
    eapply (seen_handle_kept None new_disk 0 none new_store new_saved (Ok true) (str "0a") [str "0a"; str "0b"] None _
      [(CMarkSeenMany [str "0c"], Some (Dies EncodeTemp)); (CRestart 0 none, None)]).
    + vm_compute. reflexivity.
    + repeat constructor.
    + vm_compute. reflexivity.
    + left.
    + vm_compute. reflexivity.
    + apply surjective_pairing.
    + exact E.
    + vm_compute. discriminate.
  - vm_compute in E. discriminate E.
Defined.

Lemma initialized_flag_witness :
  exists s1 e, SetInitialized (Some (Fails RenameTemp)) new_store new_saved = (Some s1, new_saved, Error e) /\
    IsInitialized s1 = true.
Proof.
  destruct (initialized_flag_not_saved None new_disk 0 none new_store new_saved (Ok true) RenameTemp) as (s1 & e & A & B & _).
  - vm_compute. reflexivity.
  - constructor.
  - reflexivity.
  - exists s1, e. split; [exact A|exact B].
Defined.
