(* ===== verification/StateJson.v ===== *)
(** * The state file and the legacy files as JSON

    Models the JSON side of src/callbridge-sms-go/internal/state/store.go: the text [saveLocked]
    writes and [load] reads, with the names and types of [diskState] and [model.Outbound], and
    the shapes [importLegacy] looks for.  A file is its bytes and what [Stat] says of it.

    A time is written in UTC, as the bridge makes it; reading accepts any offset and keeps the
    instant.  An empty list is written as [null], as a nil slice is; the [[]] of an empty slice
    that is not nil reads back the same. *)

From S2P Require Import Prelude GoStd GoText GoJson GoTime GoSha SmsStore.

(** ** Writing *)
Definition outbound_json (item : Outbound) : json :=
  JObj [(str "id", jstr (obID item)); (str "to", jstr (obTo item)); (str "text", jstr (obText item));
        (str "queued_at", jstr (format_time (obQueuedAt item)))].
Definition state_json (d : diskState) : json :=
  JObj [(str "version", jint (dsVersion d)); (str "initialized", JBool (dsInitialized d));
        (str "seen_handles", jlist (jstr <$> dsSeenHandles d)); (str "outbound", jlist (outbound_json <$> dsOutbound d))].

(** ** Reading *)
Definition zero_time : Z := -62135596800 * nanos.
(** [Time.UnmarshalJSON] looks at the literal, which must have no escapes. *)
Definition set_time : setter Z := fun v old =>
  match v with JNull => Some old | JStr s plain => if plain then parse_time s else None | _ => None end.

#[export] Instance Outbound_fields : Fields Outbound := {|
  fields x := mkOutbound (obID x) (obTo x) (obText x) (obQueuedAt x) |}.
Definition zero_outbound : Outbound := mkOutbound [] [] [] zero_time.
Definition outbound_setters : list (bytes * setter Outbound) :=
  [(str "id", fun v x => (fun s => x <| obID := s |>) <$> set_string v (obID x));
   (str "to", fun v x => (fun s => x <| obTo := s |>) <$> set_string v (obTo x));
   (str "text", fun v x => (fun s => x <| obText := s |>) <$> set_string v (obText x));
   (str "queued_at", fun v x => (fun t => x <| obQueuedAt := t |>) <$> set_time v (obQueuedAt x))].

(** [diskState] while it is filled. *)
Record target := mkTarget { tgVersion : Z; tgInitialized : bool; tgSeen : backed bytes; tgOutbound : backed Outbound }.
#[export] Instance target_fields : Fields target := {|
  fields x := mkTarget (tgVersion x) (tgInitialized x) (tgSeen x) (tgOutbound x) |}.
Definition state_setters : list (bytes * setter target) :=
  [(str "version", fun v x => (fun n => x <| tgVersion := n |>) <$> set_int v (tgVersion x));
   (str "initialized", fun v x => (fun b => x <| tgInitialized := b |>) <$> set_bool v (tgInitialized x));
   (str "seen_handles", fun v x => (fun l => x <| tgSeen := l |>) <$> set_slice [] set_string v (tgSeen x));
   (str "outbound", fun v x => (fun l => x <| tgOutbound := l |>) <$> set_slice zero_outbound (fill false outbound_setters) v (tgOutbound x))].
Definition target_state (t : target) : diskState := mkDiskState (tgVersion t) (tgInitialized t) (tgSeen t).1 (tgOutbound t).1.
Definition decode_state (text : bytes) : result diskState :=
  match parse_one text with
  | None => fail! "invalid JSON"
  | Some (v, _) =>
      match fill false state_setters v (mkTarget 0 false ([], []) ([], [])) with
      | None => fail! "cannot unmarshal"
      | Some t => Ok (target_state t)
      end
  end.
(** A second value, or anything else that is not blank, after the first. *)
Definition trailing_data (text : bytes) : bool :=
  match parse_one text with Some (_, rest) => negb (len (skip_white rest) =? 0) | None => true end.

(** ** Files *)
Record stored := mkStored { sdBytes : bytes; sdRegular : bool; sdPerm : Z }.
#[export] Instance json_file : StateFile stored := {|
  encode d := mkStored (Encode (state_json d)) true 0x180;
  decode f := decode_state (sdBytes f);
  trailing f := trailing_data (sdBytes f);
  stat f := mkInfo (len (sdBytes f)) (sdRegular f) (sdPerm f);
  empty_file := mkStored [] true 0x180 |}.

(** ** Legacy shapes *)
Definition legacy_envelope : bytes -> option (list bytes) :=
  unmarshal [(str "handles", set_slice [] set_string)] ([], []) fst.
Definition legacy_handles (raw : bytes) : option (list bytes) :=
  v ← parse_json raw; '(handles, _) ← set_slice [] set_string v ([], []); Some handles.
Definition legacy_event : bytes -> option bytes :=
  unmarshal [(str "event", fill false [(str "handle", set_string)])] [] id.
Definition legacy_outbound : bytes -> option (bytes * bytes) :=
  unmarshal [(str "To", fun v x => (fun s => (s, x.2)) <$> set_string v x.1);
             (str "Text", fun v x => (fun s => (x.1, s)) <$> set_string v x.2)] ([], []) id.
#[export] Instance json_legacy : LegacyJSON := {|
  unmarshal_envelope := legacy_envelope; unmarshal_handles := legacy_handles; unmarshal_event := legacy_event;
  unmarshal_outbound := legacy_outbound; sha256 := Sum256 |}.

(** Names in another case, a repeated name, [null] and unknown names. *)
Example legacy_line :
  legacy_outbound (json_text "{'to': '+821012345678', 'TEXT': 'a', 'text': 'hi\u0021', 'x': [1, {}], 'To': null}") = Some (str "+821012345678", str "hi!").
Proof. vm_compute. reflexivity. Qed.

(** ** What the bridge writes it reads *)

(** Handles and digits are ASCII. *)
Lemma runes_low s : Forall (fun r => 0 <= r < RuneSelf) (runes s) -> Forall (fun c => 0 <= c < RuneSelf) s.
Proof.
  unfold runes. generalize (le_n (length s)). generalize (length s) at 2 3. intros n. revert s. induction n as [|n IH]; intros s L F; [destruct s; [constructor|cbn in L; lia]|].
  destruct s as [|c s]; [constructor|]. cbn [runes_loop] in F. destruct (Z.ltb_spec c RuneSelf) as [Lc|Lc].
  - assert (DecodeRune (c :: s) = (c, 1%nat)) as D by (unfold DecodeRune; by rewrite (proj2 (Z.ltb_lt _ _))).
    rewrite D in F. cbn [drop] in F. rewrite drop_0 in F. apply Forall_cons in F as [Fc F]. constructor; [done|]. apply IH; [cbn in L; lia|done].
  - pose proof (DecodeRune_high c s Lc) as Hh. destruct (DecodeRune (c :: s)) as [r size]. cbn in Hh. apply Forall_cons in F as [Fc _]. lia.
Qed.
Lemma validHandle_ascii h : validHandle h = true -> Forall (fun c => 0 <= c < RuneSelf) h /\ (length h <= 64)%nat.
Proof.
  unfold validHandle. case_match; [done|]. intros V. bool_prop. split; [|unfold len in *; lia]. apply runes_low, Forall_forall. intros r Hr.
  apply list_elem_of_In, (proj1 (forallb_forall _ _) V r) in Hr. unfold hex_char in Hr. unfold RuneSelf.
  repeat (apply orb_true_iff in Hr as [Hr | Hr]); apply in_range_spec in Hr; lia.
Qed.
Lemma quote_time s : Forall (fun c => 45 <= c <= 90) s -> quote_loop false (length s) s = s.
Proof.
  induction 1 as [|c s Hc F IH]; [done|]. cbn [length quote_loop]. rewrite (proj2 (Z.ltb_lt c RuneSelf)) by (unfold RuneSelf; lia). rewrite IH.
  unfold quote_byte. repeat (rewrite (proj2 (Z.eqb_neq _ _)) by lia). by rewrite (proj2 (Z.ltb_ge _ _)) by lia.
Qed.
Lemma time_text t : time_ok t = true -> cleaned false (jstr (format_time t)) = JStr (format_time t) true.
Proof.
  intros K. apply format_time_plain in K. cbn [cleaned jstr]. rewrite quote_time by done. f_equal.
  - apply sanitize_utf8, utf8_ascii. eapply Forall_impl; [exact K|]. unfold RuneSelf. intros; cbv beta in *; lia.
  - unfold plain. apply forallb_Forall_true. eapply Forall_impl; [exact K|]. intros c Hc. cbv beta in *. by rewrite (proj2 (Z.eqb_neq _ _)) by lia.
Qed.

Lemma find_outbound : Forall (fun s => find_setter outbound_setters (sanitize s.1) = Some s.2) outbound_setters.
Proof. repeat constructor. Qed.
Lemma find_state : Forall (fun s => find_setter state_setters (sanitize s.1) = Some s.2) state_setters.
Proof. repeat constructor. Qed.

Lemma outbound_read item x : storable item = true -> fill false outbound_setters (cleaned false (outbound_json item)) x = Some item.
Proof.
  intros K. unfold storable in K. bool_prop. unfold outbound_json. rewrite cleaned_obj. cbn [fill fmap list_fmap fst snd].
  rewrite time_text by done. cbn [cleaned jstr].
  rewrite (sanitize_utf8 (obID item)), (sanitize_utf8 (obTo item)), (sanitize_utf8 (obText item)) by done.
  apply (fill_all false outbound_setters outbound_setters [_; _; _; _] x item find_outbound).
  cbn [set_each outbound_setters fst snd set_string set_time fmap option_fmap option_map mbind option_bind]. rewrite parse_format_time by done. by destruct item.
Qed.
Lemma state_read s :
  kept s -> exists t, fill false state_setters (cleaned false (state_json (stData s))) (mkTarget 0 false ([], []) ([], [])) = Some t /\ target_state t = stData s.
Proof.
  intros [K Ks]. destruct s as [[ver init handles queue] seen]. pose proof (ok_version _ K) as V. cbn in V, Ks. subst ver. eexists (mkTarget stateVersion init (handles, []) (queue, [])).
  split; [|done]. unfold state_json. rewrite cleaned_obj. cbn [fill fmap list_fmap fst snd dsVersion dsInitialized dsSeenHandles dsOutbound stData].
  apply (fill_all false state_setters state_setters [_; _; _; _] _ _ find_state).
  cbn [set_each state_setters fst snd tgVersion tgInitialized tgSeen tgOutbound]. cbn [jint cleaned set_int set_bool].
  change (Atoi (Itoa stateVersion)) with (Some stateVersion). cbn [fmap option_fmap option_map mbind option_bind].
  match goal with |- context [tgSeen ?t] => change (tgSeen t) with (@nil bytes, @nil bytes) end. rewrite list_read.
  2: { eapply Forall_impl; [apply (ok_handles _ K)|]. intros h V old. cbn [jstr cleaned set_string]. f_equal. by apply sanitize_utf8, utf8_ascii, validHandle_ascii. }
  cbn [fmap option_fmap option_map mbind option_bind].
  match goal with |- context [tgOutbound ?t] => change (tgOutbound t) with (@nil Outbound, @nil Outbound) end. rewrite list_read; [done|].
  eapply Forall_impl; [exact Ks|]. intros i Hi old. by apply outbound_read.
Qed.

Lemma list_shape {X} (write : X -> json) l n :
  Forall (fun x => readable (write x) /\ (nesting (write x) <= n)%nat) l -> readable (jlist (write <$> l)) /\ (nesting (jlist (write <$> l)) <= S n)%nat.
Proof.
  intros F. assert (readable (JArr (write <$> l)) /\ (nesting (JArr (write <$> l)) <= S n)%nat) as Sh.
  { split; [apply readable_arr, Forall_fmap; eapply Forall_impl; [exact F|]; by intros x [? _]|].
    induction F as [|x l [_ N] F IH]; [cbn; lia|]. rewrite fmap_cons. cbn [nesting] in *. lia. }
  destruct l; [|exact Sh]. cbn. split; [done|lia].
Qed.
Lemma state_shape s : kept s -> readable (state_json (stData s)) /\ (nesting (state_json (stData s)) <= 3)%nat.
Proof.
  intros [K Ks]. assert (readable (jlist (jstr <$> dsSeenHandles (stData s))) /\ (nesting (jlist (jstr <$> dsSeenHandles (stData s))) <= 1)%nat) as [R1 N1].
  { apply list_shape. eapply Forall_impl; [apply (ok_handles _ K)|]. intros h V. split; [|cbn; lia]. by apply utf8_bytes, utf8_ascii, validHandle_ascii. }
  assert (readable (jlist (outbound_json <$> dsOutbound (stData s))) /\ (nesting (jlist (outbound_json <$> dsOutbound (stData s))) <= 2)%nat) as [R2 N2].
  { apply list_shape. eapply Forall_impl; [exact Ks|]. intros i Hi. unfold storable in Hi. bool_prop. split; [|cbn; lia]. apply readable_obj.
    repeat (constructor; [split; [apply utf8_bytes; by vm_compute|]|]); [by apply utf8_bytes..| |constructor].
    apply utf8_bytes, utf8_ascii. eapply Forall_impl; [by apply format_time_plain|]. unfold RuneSelf. intros; cbv beta in *; lia. }
  split.
  - apply readable_obj. repeat (constructor; [split; [apply utf8_bytes; by vm_compute|]|]); [by eexists|done|done|done|constructor].
  - cbn [state_json nesting snd jint]. lia.
Qed.

Lemma state_text s : kept s -> parse_one (Encode (state_json (stData s))) = Some (cleaned false (state_json (stData s)), [10]).
Proof. intros K. destruct (state_shape s K) as [R N]. apply (parse_one_print false false); [done|unfold maxNestingDepth; lia|done]. Qed.

(** ** The file is within its bound *)
Lemma quote_len html s : all_bytes s -> len (quote html s) <= 6 * len s + 2.
Proof. intros B. pose proof (quote_loop_length html (length s) s ltac:(lia) B). unfold quote, len. rewrite !length_app. cbn [length]. lia. Qed.
Lemma list_len {X} (write : X -> json) l k :
  Forall (fun x => len (print false false 2 (write x)) <= k) l -> len (print false false 1 (jlist (write <$> l))) <= 4 + len l * (k + 1).
Proof.
  intros F. assert (l <> [] -> len (print_items false false 1 (write <$> l)) <= len l * (k + 1)) as E.
  { induction F as [|x l Fx F IH]; [done|]. intros _. destruct l as [|y l].
    - cbn [fmap list_fmap print_items gap app]. change (len [x]) with 1. lia.
    - rewrite (fmap_cons _ y) in IH. rewrite (fmap_cons _ x), (fmap_cons _ y). assert (print_items false false 1 (write x :: write y :: (write <$> l)) =
        print false false 2 (write x) ++ [44] ++ print_items false false 1 (write y :: (write <$> l))) as -> by done.
      rewrite !len_app. specialize (IH ltac:(done)). change (len [44]) with 1. rewrite (len_cons x). lia. }
  destruct l as [|x l]; [change (4 <= 4 + 0 * (k + 1)); lia|]. specialize (E ltac:(done)). rewrite fmap_cons in E |- *. cbn [jlist]. rewrite print_arr, !len_app. cbn [gap]. change (len [91]) with 1. change (len [93]) with 1. change (len []) with 0. lia.
Qed.
Lemma item_len item : validOutbound item = true -> storable item = true -> len (print false false 2 (outbound_json item)) <= 100000.
Proof.
  intros V St. unfold storable in St. bool_prop. unfold outbound_json. rewrite print_obj. cbn [print_fields gap colon print jstr]. rewrite !len_app.
  assert (len (obID item) <= 128 /\ len (obTo item) <= 21 /\ len (obText item) <= 16384) as (L1 & L2 & L3).
  { unfold validOutbound in V. repeat (split_if_in V; [done|]). apply orb_true_iff in V. rewrite !bool_decide_eq_true in V. bool_prop.
    change (Z.shiftl 16 10) with 16384 in *. split_and!; [done| |done]. destruct V as [-> | ->]; [lia|]. rewrite len_cons. lia. }
  assert (len (quote false (obID item)) <= 6 * len (obID item) + 2) as Q1 by by apply quote_len, utf8_bytes.
  assert (len (quote false (obTo item)) <= 6 * len (obTo item) + 2) as Q2 by by apply quote_len, utf8_bytes.
  assert (len (quote false (obText item)) <= 6 * len (obText item) + 2) as Q3 by by apply quote_len, utf8_bytes.
  assert (all_bytes (format_time (obQueuedAt item))) as B.
  { eapply Forall_impl; [by apply format_time_plain|]. unfold in_width. intros; cbv beta in *; lia. }
  pose proof (quote_len false _ B) as Q4. assert (len (format_time (obQueuedAt item)) <= 30) as L4 by (pose proof (format_time_length (obQueuedAt item)); unfold len; lia).
  repeat match goal with |- context [len ?t] => match t with quote _ (str _) => let n := eval vm_compute in (len t) in change (len t) with n | [?c] => change (len t) with 1 | @nil _ => change (len t) with 0 end end.
  lia.
Qed.
Lemma state_len s : kept s -> len (Encode (state_json (stData s))) <= maximumLegacyBytes.
Proof.
  intros [K Ks]. unfold Encode, state_json. rewrite print_obj, (ok_version _ K). cbn [print_fields gap colon]. rewrite !len_app.
  assert (len (print false false 1 (jlist (jstr <$> dsSeenHandles (stData s)))) <= 4 + len (dsSeenHandles (stData s)) * (386 + 1)) as L1.
  { apply list_len. eapply Forall_impl; [apply (ok_handles _ K)|]. intros h V. destruct (validHandle_ascii h V) as [Ha Hl]. cbn [print jstr].
    pose proof (quote_len false h (utf8_bytes _ (utf8_ascii _ Ha))). unfold len in *. lia. }
  assert (len (print false false 1 (jlist (outbound_json <$> dsOutbound (stData s)))) <= 4 + len (dsOutbound (stData s)) * (100000 + 1)) as L2.
  { apply list_len. apply Forall_forall. intros i Hi. apply item_len; [by apply (proj1 (Forall_forall _ _) (ok_items _ K))|by apply (proj1 (Forall_forall _ _) Ks)]. }
  pose proof (ok_seen_bound _ K) as B1. pose proof (ok_queue_bound _ K) as B2. unfold maximumSeenHandles in B1. unfold maximumOutbound in B2.
  assert (len (print false false 1 (JBool (dsInitialized (stData s)))) <= 5) as L3 by by destruct (dsInitialized (stData s)).
  change (len (print false false 1 (jint stateVersion))) with 1. change maximumLegacyBytes with 33554432.
  repeat match goal with |- context [len ?t] => match t with quote _ (str _) => let n := eval vm_compute in (len t) in change (len t) with n | [?c] => change (len t) with 1 | @nil _ => change (len t) with 0 end end.
  lia.
Qed.

#[export] Instance json_file_laws : StateFileLaws stored.
Proof.
  constructor.
  - intros s K. cbn [encode decode json_file sdBytes]. unfold decode_state. rewrite state_text by done. destruct (state_read s K) as (t & -> & E). by rewrite E.
  - intros s K. cbn [encode trailing json_file sdBytes]. unfold trailing_data. by rewrite state_text by done.
  - done.
  - apply state_len.
Qed.

(** ** What opens can be saved

    Whatever bytes the files hold, the texts of a store that opens are UTF-8. *)
Lemma SplitByte_Forall (P : Z -> Prop) s c : Forall P s -> Forall (Forall P) (SplitByte s c).
Proof.
  induction 1 as [|b s Hb F IH]; cbn [SplitByte]; [repeat constructor|]. destruct (b =? c); [by constructor|].
  destruct (SplitByte s c) as [|line lines]; [by repeat constructor|]. apply Forall_cons in IH as [? ?]. by repeat constructor.
Qed.
Lemma drop_cr_Forall (P : Z -> Prop) s : Forall P s -> Forall P (drop_cr s).
Proof.
  intros F. unfold drop_cr. destruct (rev s) as [|c r] eqn:E; [done|]. pose proof (Forall_rev F) as R. rewrite E in R. apply Forall_cons in R as [_ R].
  repeat (case_match; try done); by apply Forall_rev.
Qed.
Lemma ScanLines_Forall (P : Z -> Prop) data maximum : Forall P data -> Forall (Forall P) (ScanLines data maximum).1.
Proof.
  intros F. apply (SplitByte_Forall _ _ 10) in F. unfold ScanLines. revert F. generalize (SplitByte data 10). intros lines F.
  induction F as [|line lines Fl F IH]; [constructor|]. cbn [scan_lines]. destruct lines as [|line2 lines].
  - case_match; [|constructor]. case_match; [constructor|]. constructor; [by apply drop_cr_Forall|constructor].
  - case_match; [|constructor]. destruct (scan_lines (line2 :: lines) maximum). constructor; [by apply drop_cr_Forall|done].
Qed.

Definition text_ok (item : Outbound) : Prop := utf8 (obID item) /\ utf8 (obTo item) /\ utf8 (obText item).
Lemma outbound_text v x y : utf8_json v -> text_ok x -> fill false outbound_setters v x = Some y -> text_ok y.
Proof. apply fill_keeps. unfold outbound_setters, text_ok. each_setter. Qed.
Lemma decode_text text d : all_bytes text -> decode_state text = Ok d -> Forall text_ok (dsOutbound d).
Proof.
  intros B E. unfold decode_state in E. destruct (parse_one text) as [[v rest]|] eqn:Ep; [|done]. apply parse_one_spec in Ep as [U _]; [|done].
  destruct (fill false state_setters v _) as [t|] eqn:Ef; [|done]. apply Ok_inj in E. subst d.
  apply (fill_keeps (fun t => Forall text_ok (tgOutbound t).1 /\ Forall text_ok (tgOutbound t).2)) in Ef; [apply Ef| |done|done].
  unfold state_setters. repeat (apply Forall_cons; split); [..|apply Forall_nil; done]; cbn [snd]; intros v0 x0 y0 U0 K E; apply fmap_Some in E as (l & Es & ->); try done.
  apply (set_slice_keeps text_ok) in Es; [done|done|apply outbound_text|done|done].
Qed.

Lemma legacy_outbound_text raw row : all_bytes raw -> legacy_outbound raw = Some row -> utf8 row.1 /\ utf8 row.2.
Proof.
  intros B E. unfold legacy_outbound, unmarshal in E. destruct (parse_json raw) as [v|] eqn:Ep; [|done]. apply parse_json_utf8 in Ep; [|done]. cbn [mbind option_bind] in E.
  destruct (fill false _ v _) as [t|] eqn:Ef; [|done]. injection E as <-.
  apply (fill_keeps (fun t => utf8 t.1 /\ utf8 t.2)) in Ef; [done| |done|done]. each_setter.
Qed.
Lemma hex_string_utf8 s : all_bytes s -> utf8 (hex_string s).
Proof.
  intros B. apply utf8_ascii. unfold hex_string. apply Forall_bind. eapply Forall_impl; [exact B|]. intros c Hc. unfold in_width in Hc. change (2 ^ 8) with 256 in Hc.
  assert (forall d, 0 <= d < 16 -> 0 <= hex_lower d < RuneSelf) as D by (intros d Hd; unfold hex_lower, RuneSelf; case_match; lia).
  repeat (constructor; [apply D; euclid|]). constructor.
Qed.
Lemma legacy_item_text now index line item : all_bytes line -> legacy_item now index line = Some item -> text_ok item /\ obQueuedAt item = now.
Proof.
  intros B E. unfold legacy_item in E. destruct (unmarshal_outbound line) as [row|] eqn:Er; [|done]. cbn [mbind option_bind] in E. split_if_in E; [|done]. injection E as <-.
  split; [|done]. apply legacy_outbound_text in Er as [U1 U2]; [|done]. split_and!; [|done|done]. cbn [obID].
  apply (utf8_encode 108), (utf8_encode 101), (utf8_encode 103), (utf8_encode 97), (utf8_encode 99), (utf8_encode 121), (utf8_encode 45).
  apply hex_string_utf8, Forall_take, Sum256_bytes.
Qed.
Lemma legacy_queue_text now index lines ok acc q :
  Forall (Forall (in_width 8)) lines -> legacy_queue now index lines ok acc = Ok q -> Forall (fun i => text_ok i /\ obQueuedAt i = now) acc -> Forall (fun i => text_ok i /\ obQueuedAt i = now) q.
Proof.
  intros Fl. revert index acc. induction Fl as [|line lines Bl Fl IH]; intros index acc E F; cbn [legacy_queue] in E.
  { split_if_in E; [|done]. by apply Ok_inj in E as <-. }
  split_if_in E; [by apply Ok_inj in E as <-|]. apply IH in E; [done|]. destruct (legacy_item now index line) as [item|] eqn:L; [|done].
  apply Forall_app. split; [done|]. constructor; [|constructor]. by eapply legacy_item_text.
Qed.

(** The bytes of the files are bytes. *)
Definition source_bytes (src : source) : Prop := match src with Content raw => all_bytes raw | _ => True end.
Definition files_ok (dk : disk stored) (paths : legacy) : Prop :=
  match dkState dk with Some f => all_bytes (sdBytes f) | None => True end /\ source_bytes (lgQueue paths).

Lemma scan_source_bytes src maximum lines ok : source_bytes src -> scan_source src maximum = Ok (Some (lines, ok)) -> Forall (Forall (in_width 8)) lines.
Proof.
  unfold scan_source. generalize (Z.to_nat maximumLegacyBytes) as n. intros n B E. destruct src as [| |raw]; try done. apply Ok_inj in E. injection E as E.
  pose proof (ScanLines_Forall _ (take n raw) maximum (Forall_take _ _ _ B)) as F. by rewrite E in F.
Qed.
Lemma import_text now paths d : source_bytes (lgQueue paths) -> importLegacy now paths = Ok d -> Forall (fun i => text_ok i /\ obQueuedAt i = now) (dsOutbound d).
Proof.
  intros Bs E. unfold importLegacy in E. apply result_bind_ok in E as (raw & _ & E). apply result_bind_ok in E as (lines & _ & E).
  apply result_bind_ok in E as (acc & _ & E). apply result_bind_ok in E as (fwd & _ & E).
  apply result_bind_ok in E as (q & Eq & E). apply result_bind_ok in E as (outbound & E2 & E). apply Ok_inj in E. subst d. cbn [dsOutbound].
  destruct q as [[lines' ok]|]; [|apply Ok_inj in E2 as <-; constructor].
  eapply legacy_queue_text; [|exact E2|constructor]. by eapply scan_source_bytes.
Qed.
Lemma rebuild_outbound d : dsOutbound (stData (rebuildSeen d)) = dsOutbound d.
Proof. unfold rebuildSeen. by destruct (clean_handles _ _). Qed.
Lemma load_text file s : match file with Some f => all_bytes (sdBytes f) | None => True end -> load file = Ok s -> Forall text_ok (dsOutbound (stData s)).
Proof.
  intros B E. unfold load in E. destruct file as [file|]; [|done]. repeat (split_if_in E; [done|]). destruct (decode file) as [d|] eqn:D; [|done].
  repeat (split_if_in E; [done|]). apply Ok_inj in E. subst s. rewrite rebuild_outbound. by eapply decode_text.
Qed.
Lemma opened_text f dk now paths s dk' r :
  files_ok dk paths -> OpenStore f dk now paths = (Some s, dk', r) -> Forall text_ok (dsOutbound (stData s)).
Proof.
  intros [B1 B2] E. unfold OpenStore in E. destruct (load (dkState dk)) as [s0|e] eqn:L; [injection E as <- _ _; by eapply load_text|].
  split_if_in E; [done|]. destruct (importLegacy now paths) as [d|] eqn:I; [|done]. destruct (saveLocked f dk _) as [dk1 []]; [|done..]. injection E as <- _ _.
  rewrite rebuild_outbound. apply import_text in I; [|done]. eapply Forall_impl; [exact I|]. by intros i [? _].
Qed.

(** C10.  What the bridge saves it reads back: the JSON text of any store it keeps, with strings in
    UTF-8 and times of four-digit years, loads as exactly that store, nothing follows it, and
    it is never over the 32 MiB that [load] accepts. *)
Theorem state_file_roundtrip s :
  kept s -> load (Some (encode (stData s) : stored)) = Ok s /\ len (Encode (state_json (stData s))) <= maximumLegacyBytes.
Proof. intros K. split; [by apply load_encode|by apply state_len]. Qed.

(** The store on real files: whatever bytes the state file and the legacy files hold, a store
    that opens and the calls made on it are atomic on what the JSON file holds, as long as the
    items offered are text with a four-digit year. *)
Theorem json_store_atomic f dk now paths s dk1 r cs m rs :
  files_ok dk paths -> OpenStore f dk now paths = (Some s, dk1, r) ->
  Forall (fun i => time_ok (obQueuedAt i) = true) (dsOutbound (stData s)) -> Forall (fun i => storable i = true) (offered cs.*1) ->
  perform_all cs (mkMachine (Some s) dk1) = (m, rs) ->
  machine_ok m /\ spec_run cs.*1 rs (contents_of s) (held m).
Proof.
  intros B O T So E. pose proof (opened_text _ _ _ _ _ _ _ B O) as X. apply OpenStore_ok in O as [K <-]; [by apply perform_all_spec in E|].
  apply Forall_forall. intros i Hi. rewrite Forall_forall in T, X. destruct (X i Hi) as (U1 & U2 & U3). unfold storable. rewrite (T i Hi), U1, U2, U3. done.
Qed.

(** ** Instances *)
Definition sample_item : Outbound := mkOutbound (str "a1") (str "+821012345678") (str "say " ++ [34; 60; 0xed; 0x95; 0x9c; 10]) 1700000000250000000.
Definition sample : Store := mkStore (mkDiskState 1 true [str "0a"; str "FF"] [sample_item]) (list_to_set [str "0a"; str "FF"]).
Example sample_text : Encode (state_json (stData sample)) =
  json_text "{'version':1,'initialized':true,'seen_handles':['0a','FF'],'outbound':[{'id':'a1','to':'+821012345678','text':'say \'<" ++
  [0xed; 0x95; 0x9c] ++ json_text "\n','queued_at':'2023-11-14T22:13:20.25Z'}]}" ++ [10].
Proof. vm_compute. reflexivity. Qed.
(** A file written by hand: other cases, blanks, an offset; and files that are refused. *)
Example hand_written :
  decode_state (json_text " {'Version' : 1, 'outbound': [ {'ID':'a','to':'123','text':'\ud83d\ude00','queued_at':'2024-02-29T09:00:00+09:00'} ], 'note': {} } ") =
  Ok (mkDiskState 1 false [] [mkOutbound (str "a") (str "123") [0xf0; 0x9f; 0x98; 0x80] 1709164800000000000]).
Proof. vm_compute. reflexivity. Qed.
Example refused : is_ok (decode_state (json_text "{'version': 1.0}")) = false /\ trailing_data (json_text "{} {}") = true.
Proof. vm_compute. done. Qed.

Lemma sample_kept : kept sample.
Proof.
  split; [constructor; cbn|repeat constructor]; [done|apply (bool_decide_eq_true _); reflexivity|repeat constructor|done|done|done|repeat constructor].
Defined.
Lemma state_file_roundtrip_witness : load (Some (encode (stData sample) : stored)) = Ok sample.
Proof. exact (proj1 (state_file_roundtrip sample sample_kept)). Defined.

Definition new_disk : disk stored := mkDisk None [].
Definition new_store : Store := mkStore (mkDiskState 1 false [] []) ∅.
Definition new_saved : disk stored := mkDisk (Some (encode (stData new_store))) [].
(** The save of the flag fails; the first message queued takes it to disk. *)
Definition flagged_calls : list (call * option fault) := (CSetInitialized, Some (Fails SyncTemp)) :: (CSetInitialized, None) :: Plain.calls.
Lemma sms_store_atomic_witness :
  let run := perform_all flagged_calls (mkMachine (Some new_store) new_saved) in
  coInitialized (held run.1) = true /\ head run.2 <> Some RDone /\ run.2 !! 1%nat = Some RDone /\
  machine_ok run.1 /\ spec_run flagged_calls.*1 run.2 (contents_of new_store) (held run.1).
Proof.
  intros run. split; [vm_compute; reflexivity|]. split; [vm_compute; discriminate|]. split; [vm_compute; reflexivity|].
  apply (sms_store_atomic None new_disk 0 Plain.none new_store new_saved (Ok true) flagged_calls).
  - vm_compute. reflexivity.
  - repeat constructor.
  - apply surjective_pairing.
Defined.
