(* ===== verification/Message.v ===== *)
(** * Message formats of the SMS bridge

    Models src/callbridge-sms-go/internal/message/message.go: reading bMessages and MMS
    MIME bodies, cutting text into SIP messages, normalising telephone numbers, and
    the [bMessage] the MAP client builds.  The parsers of [net/mail], [mime],
    [mime/multipart] and the content sniffer of [net/http] are the class [MimeLib], whose
    instance is in [GoMime]. *)

From S2P Require Import Prelude GoStd GoText.

Definition MaxSIPPartBytes : Z := 600.
Definition MaxSIPParts : Z := 16.
Definition MaxMMSAttachments : Z := 4.
Definition maxMIMEParts : Z := 32.
Definition maxMMSTextBytes : Z := Z.shiftl 64 10.
Definition maxMMSTotalBytes : Z := Z.shiftl 2 20.

(** ** Data (internal/model/model.go) *)
Record Attachment := mkAttachment { atContentType : bytes; atFilename : bytes; atData : bytes }.
Record Message := mkMessage {
  msBody : bytes; msSenderName : bytes; msSenderNumber : bytes; msAttachments : list Attachment
}.
Record Event := mkEvent {
  evEventType : bytes; evHandle : bytes; evFolder : bytes; evMessageType : bytes;
  evDateTime : bytes; evSource : bytes
}.
Record ListingMessage := mkListing { lmHandle : bytes; lmType : bytes; lmDateTime : bytes; lmAttrs : list (bytes * bytes) }.

#[export] Instance Message_fields : Fields Message := {|
  fields x := mkMessage (msBody x) (msSenderName x) (msSenderNumber x) (msAttachments x) |}.

(** ** bMessage *)
Definition extractBlock (text startMarker endMarker : bytes) : bytes :=
  match Index text startMarker with
  | None => []
  | Some start =>
      let rest := drop (start + length startMarker) text in
      match Index rest endMarker with None => [] | Some stop => take stop rest end
  end.

(** The loop over the lines of the vCard. *)
Definition vcard_line (acc : bytes * bytes) (line : bytes) : bytes * bytes :=
  let '(name, number) := acc in
  let name := if HasPrefix line (str "FN:") && (len name =? 0) then TrimSpace (TrimPrefix line (str "FN:")) else name in
  let upper := ToUpper line in
  let number :=
    if HasPrefix upper (str "TEL:") || HasPrefix upper (str "TEL;")
    then match IndexByte line 58 with
         | Some index => if len number =? 0 then TrimSpace (drop (S index) line) else number
         | None => number
         end
    else number in
  (name, number).

Definition lf (s : string) : bytes := str s ++ [10].

Definition ParseBMessage (raw : bytes) : Message :=
  let text := unix_lines raw in
  let body := extractBlock text (lf "BEGIN:MSG") (10 :: str "END:MSG") in
  let body := if len body =? 0 then TrimSpace text else TrimSpace body in
  let vcard := extractBlock text (lf "BEGIN:VCARD") (10 :: str "END:VCARD") in
  let '(name, number) := if len vcard =? 0 then ([], []) else foldl vcard_line ([], []) (SplitByte vcard 10) in
  mkMessage body name number [].

(** ** MMS envelope *)
Definition mmsEnvelopeHeaders : list bytes :=
  str <$> ["date"; "subject"; "from"; "to"; "cc"; "reply-to"; "message-id"; "mime-version"; "content-type";
           "content-transfer-encoding"]%string.

(** The loop over the header lines: the names found, or [None] to give up. *)
Fixpoint envelope_names (lines : list bytes) (names : list bytes) (haveHeader : bool) : option (list bytes) :=
  match lines with
  | [] => Some names
  | line :: lines =>
      if (0 <? len line) && IsSpace (at_ line 0) && haveHeader then envelope_names lines names haveHeader
      else match CutByte line 58 with
           | None => None
           | Some (name, _) =>
               let name := ToLowerText (TrimSpace name) in
               if negb (bool_decide (name ∈ mmsEnvelopeHeaders)) && negb (HasPrefix name (str "x-")) then None
               else envelope_names lines (name :: names) true
           end
  end.

Definition StripMMSEnvelope (body messageType : bytes) : bytes :=
  if negb (EqualFoldText (TrimSpace messageType) (str "MMS")) then body
  else
    let lines := SplitByte (unix_lines body) 10 in
    match list_find (fun line => line = []) lines with
    | None => body
    | Some (blank, _) =>
        if (blank <? 2)%nat || (20 <? blank)%nat then body
        else match envelope_names (take blank lines) [] false with
             | None => body
             | Some names =>
                 let core := length (filter (fun n => n ∈ names) (str <$> ["date"; "subject"; "from"; "to"]%string)) in
                 if (core <? 2)%nat then body
                 else
                   let payload := TrimLeftSet (Z.eqb 10) (Join (drop (S blank) lines) [10]) in
                   if len (TrimSpace payload) =? 0 then body else payload
             end
    end.

(** ** MIME *)
Record headers := mkHeaders { hContentType : bytes; hTransferEncoding : bytes; hDisposition : bytes }.

(** What a reader of a part gives: bytes, then its end or an error. *)
Record Body := mkBody { boData : bytes; boFails : bool }.

(** [ReadMessage] splits a message into its headers and body; [ParseMediaType] gives a
    media type and its parameters; [multipart] the parts between boundaries and whether
    [NextPart] ended with [io.EOF]; [base64_decode] and [quoted_decode] what their
    readers return; [DetectContentType] the sniffed type. *)
Class MimeLib := {
  ReadMessage : bytes -> option (headers * bytes);
  ParseMediaType : bytes -> option (bytes * (bytes -> bytes));
  multipart : bytes -> Body -> list (headers * Body) * bool;
  base64_decode : Body -> Body;
  quoted_decode : Body -> Body;
  DetectContentType : bytes -> bytes
}.

Record mimeCollector := mkCollector {
  mcParts : Z; mcTotal : Z; mcText : list bytes; mcAttachments : list Attachment
}.
#[export] Instance mimeCollector_fields : Fields mimeCollector := {|
  fields x := mkCollector (mcParts x) (mcTotal x) (mcText x) (mcAttachments x) |}.

(** [filepath.Base]. *)
Definition Base (path : bytes) : bytes :=
  match path with
  | [] => [46]
  | _ => match TrimRightSet (Z.eqb 47) path with
         | [] => [47]
         | trimmed => List.last (SplitByte trimmed 47) []
         end
  end.
Definition safeFilename (value : bytes) : bytes :=
  let value := TrimSpace (Base value) in
  if (value =s? [46]) || (len value =? 0) || (120 <? len value) || ContainsAny value [0; 13; 10] then [] else value.

Definition isHEIF (data : bytes) : bool :=
  if (len data <? 12) || negb (slice data 4 8 =s? str "ftyp") then false
  else existsb (fun b => slice data 8 12 =s? str b)
         ["heic"; "heix"; "hevc"; "hevx"; "heim"; "heis"; "mif1"; "msf1"]%string.

Definition allowed_images : list bytes :=
  str <$> ["image/jpeg"; "image/png"; "image/gif"; "image/webp"; "image/heic"; "image/heif"]%string.

Section Mime.
Context `{MimeLib}.

Definition transferDecoded (encoding : bytes) (body : Body) : result Body :=
  let encoding := ToLowerText (TrimSpace encoding) in
  if existsb (fun e => encoding =s? str e) [""; "7bit"; "8bit"; "binary"]%string then Ok body
  else if encoding =s? str "base64" then Ok (base64_decode body)
  else if encoding =s? str "quoted-printable" then Ok (quoted_decode body)
  else fail! "unsupported MMS transfer encoding".

(** [readBounded] stops one byte beyond the bound. *)
Definition readBounded (decoded : Body) (maximum : Z) : result bytes :=
  if maximum <? len (boData decoded) then fail! "decoded MIME part exceeds bound"
  else if boFails decoded then fail! "unexpected EOF" else Ok (boData decoded).

Definition supportedImageType (declared data : bytes) : option bytes :=
  let detected := match SplitByte (DetectContentType data) 59 with first :: _ => ToLowerText (TrimSpace first) | [] => [] end in
  let detected := if (detected =s? str "application/octet-stream") && isHEIF data then str "image/heic" else detected in
  if negb (bool_decide (detected ∈ allowed_images)) then None
  else
    let declared := ToLowerText (TrimSpace declared) in
    let declared := if declared =s? str "image/jpg" then str "image/jpeg" else declared in
    if negb (len declared =? 0) && negb (declared =s? str "application/octet-stream") && negb (declared =s? detected)
       && negb ((declared =s? str "image/heif") && (detected =s? str "image/heic"))
    then None else Some detected.

(** A part that is not multipart. *)
Definition walk_leaf (maximumAttachmentBytes : Z) (c : mimeCollector) (h : headers) (mediaType : bytes)
    (params : bytes -> bytes) (body : Body) : result mimeCollector :=
  match transferDecoded (hTransferEncoding h) body with
  | Error e => Error e
  | Ok decoded =>
    if mediaType =s? str "text/plain" then
      match readBounded decoded maxMMSTextBytes with
      | Error _ => fail! "MMS text exceeds bound"
      | Ok data =>
          if negb (valid_utf8 data) then fail! "MMS text is not UTF-8"
          else match TrimSpace data with
               | [] => Ok c
               | value => Ok (c <| mcText := mcText c ++ [value] |>)
               end
      end
    else if negb (HasPrefix mediaType (str "image/")) && negb (mediaType =s? str "application/octet-stream") then Ok c
    else
      match readBounded decoded maximumAttachmentBytes with
      | Error _ => fail! "MMS image exceeds bound"
      | Ok [] => Ok c
      | Ok data =>
          match supportedImageType mediaType data with
          | None => Ok c
          | Some detected =>
              if MaxMMSAttachments <=? len (mcAttachments c) then fail! "MMS image count exceeds bound"
              else
                let c := c <| mcTotal := mcTotal c + len data |> in
                if maxMMSTotalBytes <? mcTotal c then fail! "MMS image total exceeds bound"
                else
                  let filename := safeFilename (params (str "name")) in
                  let filename :=
                    match ParseMediaType (hDisposition h) with
                    | Some (_, disposition) => match safeFilename (disposition (str "filename")) with
                                               | [] => filename | value => value end
                    | None => filename
                    end in
                  Ok (c <| mcAttachments := mcAttachments c ++ [mkAttachment detected filename data] |>)
          end
      end
  end.

(** [walk] with the nesting still allowed: [depth > 5] is [0]. *)
Fixpoint walk (allowed : nat) (maximumAttachmentBytes : Z) (c : mimeCollector) (h : headers) (body : Body) :
    result mimeCollector :=
  match allowed with
  | O => fail! "MMS MIME nesting exceeds bound"
  | S allowed =>
      let c := c <| mcParts := mcParts c + 1 |> in
      if maxMIMEParts <? mcParts c then fail! "MMS MIME part count exceeds bound"
      else match ParseMediaType (hContentType h) with
           | None => fail! "MMS MIME content type invalid"
           | Some (mediaType, params) =>
               let mediaType := ToLowerText mediaType in
               if HasPrefix mediaType (str "multipart/") then
                 let boundary := params (str "boundary") in
                 if (len boundary =? 0) || (200 <? len boundary) then fail! "MMS MIME boundary invalid"
                 else
                   let '(parts, closed) := multipart boundary body in
                   let! c := foldl (fun rc part => let! c := rc in walk allowed maximumAttachmentBytes c part.1 part.2) (Ok c) parts in
                   if closed : bool then Ok c else fail! "MMS MIME multipart invalid"
               else walk_leaf maximumAttachmentBytes c h mediaType params body
           end
  end.

Definition ParseMMS (parsed : Message) (maximumAttachmentBytes : Z) : result Message :=
  if (maximumAttachmentBytes <? 1) || (maxMMSTotalBytes <? maximumAttachmentBytes) then fail! "MMS attachment bound invalid"
  else
    match TrimSpace (msBody parsed) with
    | [] => Ok parsed
    | body =>
        match ReadMessage body with
        | Some (h, rest) =>
            if len (TrimSpace (hContentType h)) =? 0
            then Ok (parsed <| msBody := StripMMSEnvelope (msBody parsed) (str "MMS") |>)
            else
              let! c := walk 6 maximumAttachmentBytes (mkCollector 0 0 [] []) h (mkBody rest false) in
              Ok (parsed <| msBody := TrimSpace (Join (mcText c) [10]) |> <| msAttachments := mcAttachments c |>)
        | None => Ok (parsed <| msBody := StripMMSEnvelope (msBody parsed) (str "MMS") |>)
        end
    end.
End Mime.

(** ** Cutting text *)

(** The inner loop of [SplitUTF8]: how many runes fit in [maximum] bytes, and the last
    cut after a space. *)
Fixpoint fit (rs : list Z) (maximum size : Z) (taken : nat) (boundary : option nat) : nat * option nat :=
  match rs with
  | [] => (taken, boundary)
  | r :: rs =>
      let width := RuneLen r in
      if maximum <? size + width then (taken, boundary)
      else fit rs maximum (size + width) (S taken) (if IsSpace r then Some (S taken) else boundary)
  end.

(** Where the next part ends. *)
Definition part_end (rs : list Z) (maximum : Z) : nat :=
  let '(stop, boundary) := fit rs maximum 0 0 None in
  let stop := match boundary with Some b => if (stop <? length rs)%nat then b else stop | None => stop end in
  if (stop =? 0)%nat then 1%nat else stop.

Fixpoint split_runes (fuel : nat) (rs : list Z) (maximum : Z) : list bytes :=
  match fuel, rs with
  | S fuel, _ :: _ =>
      let stop := part_end rs maximum in
      string_of_runes (take stop rs) :: split_runes fuel (drop stop rs) maximum
  | _, _ => []
  end.

Definition SplitUTF8 (text : bytes) (maximum : Z) : list bytes :=
  let maximum := if maximum <? 4 then 4 else maximum in
  if (len text <=? maximum) || (len text =? 0) then [text]
  else split_runes (length (runes text)) (runes text) maximum.

(** ** Received time *)

(** A wall-clock time in Korea, to the minute shown. *)
Record wall := mkWall { wMonth : Z; wDay : Z; wHour : Z; wMinute : Z }.

Definition leap (y : Z) : bool := (y mod 4 =? 0) && (negb (y mod 100 =? 0) || (y mod 400 =? 0)).
Definition daysIn (m y : Z) : Z :=
  if m =? 2 then if leap y then 29 else 28
  else if (m =? 4) || (m =? 6) || (m =? 9) || (m =? 11) then 30 else 31.

(** Days since 1970-01-01, and back, in the proleptic Gregorian calendar. *)
Definition days_of_civil (y m d : Z) : Z :=
  let y := if m <=? 2 then y - 1 else y in
  let era := y / 400 in
  let yoe := y - era * 400 in
  let doy := (153 * (if m <=? 2 then m + 9 else m - 3) + 2) / 5 + d - 1 in
  let doe := yoe * 365 + yoe / 4 - yoe / 100 + doy in
  era * 146097 + doe - 719468.
Definition civil_of_days (z : Z) : Z * Z :=
  let z := z + 719468 in
  let era := z / 146097 in
  let doe := z - era * 146097 in
  let yoe := (doe - doe / 1460 + doe / 36524 - doe / 146096) / 365 in
  let doy := doe - (365 * yoe + yoe / 4 - yoe / 100) in
  let mp := (5 * doy + 2) / 153 in
  (if mp <? 10 then mp + 3 else mp - 9, doy - (153 * mp + 2) / 5 + 1).

Definition digit_at (s : bytes) : option Z :=
  match s with c :: _ => if is_digit c then Some (c - 48) else None | [] => None end.
(** [getnum] with [fixed], and without: one or two digits. *)
Definition num2 (s : bytes) : option (Z * bytes) :=
  a ← digit_at s; b ← digit_at (drop 1 s); Some (10 * a + b, drop 2 s).
Definition num12 (s : bytes) : option (Z * bytes) :=
  a ← digit_at s;
  match digit_at (drop 1 s) with Some b => Some (10 * a + b, drop 2 s) | None => Some (a, drop 1 s) end.
Definition num4 (s : bytes) : option (Z * bytes) :=
  '(a, s) ← num2 s; '(b, s) ← num2 s; Some (100 * a + b, s).
Definition literal (c : Z) (s : bytes) : option bytes :=
  match s with c' :: s => if c' =? c then Some s else None | [] => None end.
Definition check (b : bool) : option unit := if b then Some tt else None.

(** [time.ParseInLocation("20060102T150405", s, kst)]. *)
Definition parse_compact (s : bytes) : option wall :=
  '(y, s) ← num4 s; '(mo, s) ← num2 s; _ ← check (in_range 1 mo 12);
  '(d, s) ← num2 s; s ← literal 84 s;
  '(h, s) ← num12 s; _ ← check (h <? 24);
  '(mi, s) ← num2 s; _ ← check (mi <? 60);
  '(se, s) ← num2 s; _ ← check (se <? 60); _ ← check (len s =? 0);
  _ ← check (in_range 1 d (daysIn mo y));
  Some (mkWall mo d h mi).

(** The offset of a zone, "Z" or "+hh:mm", in seconds. *)
Definition parse_zone (s : bytes) : option (Z * bytes) :=
  match s with
  | 90 :: s => Some (0, s)
  | sign :: rest =>
      '(h, _) ← num2 rest; s ← literal 58 (drop 2 rest); '(m, s) ← num2 s;
      _ ← check ((h <=? 24) && (m <=? 60));
      if sign =? 43 then Some ((h * 60 + m) * 60, s)
      else if sign =? 45 then Some (- ((h * 60 + m) * 60), s) else None
  | [] => None
  end.

(** An optional fraction of a second. *)
Definition skip_fraction (s : bytes) : bytes :=
  match s with
  | c :: d :: rest => if ((c =? 46) || (c =? 44)) && is_digit d then TrimLeftSet is_digit rest else s
  | _ => s
  end.

(** [time.Parse(time.RFC3339Nano, s)] and [.In(kst)]. *)
Definition parse_rfc3339 (s : bytes) : option wall :=
  '(y, s) ← num4 s; s ← literal 45 s; '(mo, s) ← num2 s; _ ← check (in_range 1 mo 12); s ← literal 45 s;
  '(d, s) ← num2 s; s ← literal 84 s;
  '(h, s) ← num12 s; _ ← check (h <? 24); s ← literal 58 s;
  '(mi, s) ← num2 s; _ ← check (mi <? 60); s ← literal 58 s;
  '(se, s) ← num2 s; _ ← check (se <? 60);
  '(offset, s) ← parse_zone (skip_fraction s); _ ← check (len s =? 0);
  _ ← check (in_range 1 d (daysIn mo y));
  let t := days_of_civil y mo d * 86400 + h * 3600 + mi * 60 + se - offset + 9 * 3600 in
  let '(month, day) := civil_of_days (t / 86400) in
  Some (mkWall month day (t mod 86400 / 3600) (t mod 3600 / 60)).

Definition ReceivedTime (raw : bytes) : option wall :=
  let raw := TrimSpace raw in
  match (if 15 <=? len raw then parse_compact (take 15 raw) else None) with
  | Some w => Some w
  | None => parse_rfc3339 raw
  end.

Definition two_digits (n : Z) : bytes := [48 + n / 10 mod 10; 48 + n mod 10].
(** [Format("01/02 15:04")]. *)
Definition format_wall (w : wall) : bytes :=
  two_digits (wMonth w) ++ [47] ++ two_digits (wDay w) ++ [32] ++ two_digits (wHour w) ++ [58] ++ two_digits (wMinute w).

(** ** Parts shown on the phone *)

(** The source's own [itoa]: digits are put in front while the value is positive, which a
    value below 2^k is for at most k divisions. *)
Definition itoa (value : Z) : bytes :=
  if value =? 0 then [48] else decimal_loop (S (Z.to_nat (Z.log2 value))) value [].
Lemma itoa_decimal value : itoa value = decimal value.
Proof. done. Qed.

Definition multipartPrefix (received : option wall) (index total : Z) : bytes :=
  if 0 <? index then [91] ++ itoa (index + 1) ++ [47] ++ itoa total ++ [93]
  else match received with
       | Some w => [91] ++ format_wall w ++ str " 수신 1/" ++ itoa total ++ [93]
       | None => str "[MMS 1/" ++ itoa total ++ [93]
       end.

(** The loop of [splitWithPrefixes]; every turn consumes at least one byte. *)
Fixpoint split_prefixed (fuel : nat) (remaining : bytes) (received : option wall) (index total : Z) : list bytes :=
  match fuel, remaining with
  | S fuel, _ :: _ =>
      let prefixBytes := len (multipartPrefix received index total ++ [10]) in
      let chunk := hd [] (SplitUTF8 remaining (MaxSIPPartBytes - prefixBytes)) in
      chunk :: split_prefixed fuel (drop (length chunk) remaining) received (index + 1) total
  | _, _ => []
  end.
Definition splitWithPrefixes (body : bytes) (received : option wall) (total : Z) : list bytes :=
  split_prefixed (length body) body received 0 total.

Definition label (received : option wall) (total : Z) (chunks : list bytes) : list bytes :=
  imap (fun index chunk => multipartPrefix received (Z.of_nat index) total ++ [10] ++ chunk) chunks.

Fixpoint visible_attempts (attempts : nat) (body : bytes) (received : option wall) (total : Z) : option (list bytes) :=
  match attempts with
  | O => None
  | S attempts =>
      let chunks := splitWithPrefixes body received total in
      if len chunks =? total then Some (label received total chunks)
      else visible_attempts attempts body received (len chunks)
  end.

(** What is put before a message that is not split. *)
Definition singlePrefix (received : option wall) : bytes :=
  match received with Some w => [91] ++ format_wall w ++ str " 수신]" ++ [10] | None => [] end.
Definition VisibleParts (body mapDateTime : bytes) : list bytes :=
  let received := ReceivedTime mapDateTime in
  if len (singlePrefix received ++ body) <=? MaxSIPPartBytes then [singlePrefix received ++ body]
  else match visible_attempts 8 body received 2 with
       | Some parts => parts
       | None => let chunks := SplitUTF8 body (MaxSIPPartBytes - 64) in label received (len chunks) chunks
       end.

(** ** Telephone numbers *)
Definition NormalizeSender (value : bytes) : bytes :=
  let raw := TrimSpace value in
  let value := filter (fun r => is_digit r = true) (runes raw) in
  if len value <? 3 then str "000"
  else if HasPrefix raw [43] then 43 :: value
  else if HasPrefix value (str "010") then str "+82" ++ drop 1 value
  else if HasPrefix value (str "82") then 43 :: value
  else value.

(** The loop over the characters of the destination. *)
Fixpoint destination_loop (rs : list Z) (first : bool) : option bytes :=
  match rs with
  | [] => Some []
  | r :: rs =>
      if is_digit r || (r =? 43) && first then cons r <$> destination_loop rs false
      else if existsb (Z.eqb r) [45; 40; 41; 46; 32] then destination_loop rs false
      else None
  end.
Definition NormalizeDestination (value : bytes) : result bytes :=
  match destination_loop (runes (TrimSpace value)) true with
  | None => fail! "destination contains unsupported characters"
  | Some normalized =>
      let digits := TrimPrefix normalized [43] in
      if (len digits <? 3) || (20 <? len digits) then fail! "destination length invalid"
      else if HasPrefix digits (str "010") && negb (HasPrefix normalized [43]) then Ok (str "+82" ++ drop 1 digits)
      else Ok normalized
  end.

Example received_compact : ReceivedTime (str " 20240131T235907 ") = Some (mkWall 1 31 23 59).
Proof. vm_compute. reflexivity. Qed.
Example received_rfc3339 : ReceivedTime (str "2024-02-28T16:30:05.25Z") = Some (mkWall 2 29 1 30).
Proof. vm_compute. reflexivity. Qed.
Example received_invalid : ReceivedTime (str "20230229T000000") = None.
Proof. vm_compute. reflexivity. Qed.

(** ** Cutting text: what the parts hold *)

Definition all_valid (rs : list Z) : Prop := Forall (fun r => valid_rune r = true) rs.

Lemma string_of_runes_cons r rs : string_of_runes (r :: rs) = encode_rune r ++ string_of_runes rs.
Proof. done. Qed.

Lemma fit_spec rs maximum size taken boundary stop b :
  all_valid rs -> fit rs maximum size taken boundary = (stop, b) -> size <= maximum ->
  (taken <= stop)%nat /\ (stop - taken <= length rs)%nat /\
  size + len (string_of_runes (take (stop - taken) rs)) <= maximum /\
  (b = boundary \/ exists k, b = Some k /\ (taken < k <= stop)%nat).
Proof.
  intros V. revert size taken boundary. induction V as [|r rs Hr V IH]; intros size taken boundary E Hs; cbn [fit] in E.
  { injection E as <- <-. rewrite Nat.sub_diag. cbn. split_and!; [lia..| |by left]. change (len []) with 0. lia. }
  destruct (Z.ltb_spec maximum (size + RuneLen r)).
  { injection E as <- <-. rewrite Nat.sub_diag. cbn. split_and!; [lia..| |by left]. change (len []) with 0. lia. }
  apply IH in E as (L1 & L2 & L3 & L4); [|done].
  replace (stop - taken)%nat with (S (stop - S taken)) by lia. cbn [take length]. rewrite string_of_runes_cons, len_app.
  rewrite encode_rune_width by done. split_and!; [lia..|]. destruct L4 as [-> | (k & -> & Hk)].
  - destruct (IsSpace r); [right; eexists; split; [done|lia]|by left].
  - right. eexists. split; [done|lia].
Qed.

(** A part takes at least one rune and at most [maximum] bytes. *)
Lemma part_end_spec rs maximum :
  all_valid rs -> rs <> [] -> 4 <= maximum ->
  (1 <= part_end rs maximum <= length rs)%nat /\ len (string_of_runes (take (part_end rs maximum) rs)) <= maximum.
Proof.
  intros V N M. unfold part_end. destruct (fit rs maximum 0 0 None) as [stop b] eqn:E.
  pose proof (fit_spec _ _ _ _ _ _ _ V E ltac:(lia)) as (_ & L2 & L3 & L4). rewrite Nat.sub_0_r in L2, L3.
  assert (1 <= stop)%nat as L1.
  { destruct rs as [|r rs]; [done|]. cbn [fit] in E. apply Forall_cons in V as [Vr V].
    pose proof (encode_rune_pos r) as W. pose proof (encode_rune_width r Vr) as W'. unfold len in W'.
    rewrite (proj2 (Z.ltb_ge _ _)) in E by lia. apply fit_spec in E; [lia|done|lia]. }
  assert (forall k, (k <= stop)%nat -> len (string_of_runes (take k rs)) <= maximum) as Hk.
  { intros k Hk. rewrite <- (take_drop k (take stop rs)), string_of_runes_app, len_app, take_take in L3.
    replace (k `min` stop)%nat with k in L3 by lia. pose proof (len_nonneg (string_of_runes (drop k (take stop rs)))). lia. }
  destruct b as [k|]; [destruct (stop <? length rs)%nat eqn:F|].
  - destruct L4 as [? | (k' & [= <-] & Hk')]; [done|]. rewrite (proj2 (Nat.eqb_neq _ _)) by lia. split; [lia|]. apply Hk. lia.
  - rewrite (proj2 (Nat.eqb_neq _ _)) by lia. split; [lia|]. by apply Hk.
  - rewrite (proj2 (Nat.eqb_neq _ _)) by lia. split; [lia|]. by apply Hk.
Qed.

Lemma split_runes_spec fuel rs maximum :
  all_valid rs -> 4 <= maximum -> (length rs <= fuel)%nat ->
  concat (split_runes fuel rs maximum) = string_of_runes rs /\
  Forall (fun p => 1 <= len p <= maximum) (split_runes fuel rs maximum).
Proof.
  revert rs. induction fuel as [|fuel IH]; intros rs V M L.
  { destruct rs; [by split|cbn in L; lia]. }
  destruct rs as [|r rs]; [by split|]. cbn [split_runes].
  destruct (part_end_spec (r :: rs) maximum V ltac:(done) M) as [B S]. set (n := part_end _ _) in *.
  destruct (IH (drop n (r :: rs))) as [C F]; [by apply Forall_drop|done|rewrite length_drop; cbn in *; lia|].
  split.
  - cbn [concat]. by rewrite C, <- string_of_runes_app, take_drop.
  - constructor; [|done]. split; [|done]. destruct n as [|n]; [lia|]. cbn [take].
    rewrite string_of_runes_cons, len_app. pose proof (encode_rune_pos r). pose proof (len_nonneg (string_of_runes (take n rs))).
    unfold len at 1. lia.
Qed.

(** Cutting text loses and reorders nothing: for valid UTF-8 text of any length,
    the parts of [SplitUTF8] concatenate to the text, none exceeds the bound (never
    taken below four bytes, the longest character), and no part of a non-empty text is
    empty, so the loop makes progress. *)
Theorem SplitUTF8_spec text maximum :
  all_bytes text -> valid_utf8 text = true ->
  concat (SplitUTF8 text maximum) = text /\
  Forall (fun p => len p <= Z.max maximum 4) (SplitUTF8 text maximum) /\
  (text <> [] -> Forall (fun p => p <> []) (SplitUTF8 text maximum)).
Proof.
  intros B V. apply bool_decide_eq_true in V. unfold SplitUTF8.
  assert ((if maximum <? 4 then 4 else maximum) = Z.max maximum 4) as -> by (destruct (Z.ltb_spec maximum 4); lia).
  destruct ((len text <=? Z.max maximum 4) || (len text =? 0)) eqn:E.
  - split; [by cbn; rewrite app_nil_r|]. split; [|intros; by repeat constructor]. apply Forall_singleton.
    apply orb_true_iff in E as [E | E]; bool_prop; lia.
  - destruct (split_runes_spec (length (runes text)) (runes text) (Z.max maximum 4)) as [C F];
      [by apply runes_valid|lia|lia|]. rewrite C. split; [done|]. split.
    + eapply Forall_impl; [done|]. cbn. lia.
    + intros _. eapply Forall_impl; [done|]. cbn. intros p Hp ->. change (len []) with 0 in Hp. lia.
Qed.

Lemma SplitUTF8_spec_witness :
  concat (SplitUTF8 (str "ab 수신") 5) = str "ab 수신".
Proof.
  apply SplitUTF8_spec; [|vm_compute; reflexivity].
  apply (bool_decide_unpack (all_bytes (str "ab 수신"))). vm_compute. exact I.
Defined.

(** ** Visible parts: bounds and content *)

Lemma decimal_loop_length fuel n acc (k : nat) :
  n < 10 ^ Z.of_nat k -> (length (decimal_loop fuel n acc) <= k + length acc)%nat.
Proof.
  revert n acc k. induction fuel as [|fuel IH]; intros n acc k H; cbn [decimal_loop]; [lia|].
  destruct (Z.leb_spec n 0); [lia|]. destruct k as [|k]; [cbn in H; lia|].
  specialize (IH (n / 10) (48 + n mod 10 :: acc) k). cbn [length] in IH. rewrite Nat2Z.inj_succ, Z.pow_succ_r in H by lia.
  assert (n / 10 < 10 ^ Z.of_nat k) by (apply Z.div_lt_upper_bound; lia). specialize (IH ltac:(done)). lia.
Qed.

Lemma itoa_length n : n < 10 ^ 19 -> len (itoa n) <= 19.
Proof.
  intros H. unfold itoa. destruct (n =? 0); [done|].
  pose proof (decimal_loop_length (S (Z.to_nat (Z.log2 n))) n [] 19 H) as L. cbn [length] in L. unfold len. lia.
Qed.

Lemma format_wall_length w : len (format_wall w) = 11.
Proof. done. Qed.

(** The label of a part, with its newline, takes at most 64 bytes. *)
Lemma multipartPrefix_length received index total :
  index + 1 < 10 ^ 19 -> total < 10 ^ 19 -> len (multipartPrefix received index total ++ [10]) <= 64.
Proof.
  intros Hi Ht. pose proof (itoa_length _ Hi) as Li. pose proof (itoa_length _ Ht) as Lt.
  unfold multipartPrefix. destruct (0 <? index); [|destruct received as [w|]]; rewrite !len_app, ?format_wall_length.
  - change (len [91]) with 1. change (len [47]) with 1. change (len [93]) with 1. change (len [10]) with 1. lia.
  - change (len [91]) with 1. change (len (str " 수신 1/")) with 10. change (len [93]) with 1. change (len [10]) with 1. lia.
  - change (len (str "[MMS 1/")) with 7. change (len [93]) with 1. change (len [10]) with 1. lia.
Qed.

(** The first part of a text is a prefix of it, cut between characters. *)
Lemma first_part rs maximum :
  all_valid rs -> rs <> [] -> exists k, (1 <= k <= length rs)%nat /\
    hd [] (SplitUTF8 (string_of_runes rs) maximum) = string_of_runes (take k rs) /\
    len (string_of_runes (take k rs)) <= Z.max maximum 4.
Proof.
  intros V N. unfold SplitUTF8. rewrite runes_string by done.
  assert ((if maximum <? 4 then 4 else maximum) = Z.max maximum 4) as -> by (destruct (Z.ltb_spec maximum 4); lia).
  destruct ((len (string_of_runes rs) <=? Z.max maximum 4) || (len (string_of_runes rs) =? 0)) eqn:E.
  - exists (length rs). rewrite firstn_all. split_and!; [destruct rs; cbn; [done|lia]|lia|done|].
    apply orb_true_iff in E as [E | E]; bool_prop; lia.
  - destruct rs as [|r rs]; [done|]. cbn [length split_runes hd].
    destruct (part_end_spec (r :: rs) (Z.max maximum 4) V N) as [B S]; [lia|]. by exists (part_end (r :: rs) (Z.max maximum 4)).
Qed.

(** The labelled chunks fit, and together they are the text. *)
Lemma split_prefixed_spec fuel rs received index total :
  all_valid rs -> (length (string_of_runes rs) <= fuel)%nat -> 0 <= index ->
  index + Z.of_nat fuel < 10 ^ 19 -> total < 10 ^ 19 ->
  let chunks := split_prefixed fuel (string_of_runes rs) received index total in
  concat chunks = string_of_runes rs /\ (length chunks <= fuel)%nat /\
  Forall (fun p => len p <= MaxSIPPartBytes)
    (imap (fun i chunk => multipartPrefix received (index + Z.of_nat i) total ++ [10] ++ chunk) chunks).
Proof.
  revert rs index. induction fuel as [|fuel IH]; intros rs index V L I F T.
  { destruct (string_of_runes rs) as [|b s]; [done|cbn in L; lia]. }
  destruct rs as [|r rs]; [cbn; split_and!; [done|lia|constructor]|].
  destruct (string_of_runes (r :: rs)) as [|b s] eqn:E.
  { cbn. split_and!; [done|lia|constructor]. }
  cbn [split_prefixed]. rewrite <- E in *.
  destruct (first_part (r :: rs) (MaxSIPPartBytes - len (multipartPrefix received index total ++ [10])) V ltac:(done))
    as (k & K & -> & KB).
  pose proof (multipartPrefix_length received index total ltac:(lia) T) as P.
  assert (drop (length (string_of_runes (take k (r :: rs)))) (string_of_runes (r :: rs)) = string_of_runes (drop k (r :: rs))) as ->.
  { rewrite <- (take_drop k (r :: rs)) at 2. by rewrite string_of_runes_app, drop_app_length. }
  assert (1 <= length (string_of_runes (take k (r :: rs))))%nat as Hpos.
  { destruct k as [|k]; [lia|]. cbn [take]. rewrite string_of_runes_cons, length_app. pose proof (encode_rune_pos r). lia. }
  destruct (IH (drop k (r :: rs)) (index + 1)) as (C & Lc & Fc); [by apply Forall_drop| |lia|lia|done|].
  { rewrite <- (take_drop k (r :: rs)), string_of_runes_app, length_app in L. lia. }
  split_and!.
  - cbn [concat]. by rewrite C, <- string_of_runes_app, take_drop.
  - cbn [length]. lia.
  - cbn [imap]. constructor.
    + change (Z.of_nat 0) with 0. rewrite Z.add_0_r, app_assoc, len_app. unfold MaxSIPPartBytes in *. lia.
    + erewrite imap_ext; [exact Fc|]. intros i x _. cbn. do 2 f_equal. lia.
Qed.

Lemma label_fits received total chunks :
  total < 10 ^ 19 -> len chunks < 10 ^ 19 -> Forall (fun p => len p <= MaxSIPPartBytes - 64) chunks ->
  Forall (fun p => len p <= MaxSIPPartBytes) (label received total chunks).
Proof.
  intros T L F. apply Forall_lookup. intros i p Hp. unfold label in Hp. rewrite list_lookup_imap in Hp.
  destruct (chunks !! i) as [chunk|] eqn:E; [|done]. injection Hp as <-.
  pose proof (lookup_lt_Some _ _ _ E). apply (Forall_lookup_1 _ _ _ _ F) in E.
  pose proof (multipartPrefix_length received (Z.of_nat i) total ltac:(unfold len in L; lia) T).
  rewrite (cons_middle 10), app_assoc, len_app. lia.
Qed.

Lemma concat_length_nonempty (parts : list bytes) :
  Forall (fun p => p <> []) parts -> len parts <= len (concat parts).
Proof.
  induction 1 as [|p parts Hp F IH]; [done|]. cbn [concat]. rewrite len_app. unfold len in *. destruct p; [done|]. cbn in *. lia.
Qed.

Lemma visible_attempts_spec attempts body received total parts :
  all_bytes body -> valid_utf8 body = true -> len body < 10 ^ 18 -> total < 10 ^ 18 ->
  visible_attempts attempts body received total = Some parts ->
  exists chunks, concat chunks = body /\ parts = label received (len chunks) chunks /\
    Forall (fun p => len p <= MaxSIPPartBytes) parts.
Proof.
  intros B V L. pose proof V as V'. apply bool_decide_eq_true in V'. revert total.
  induction attempts as [|attempts IH]; intros total T E; [done|]. cbn [visible_attempts] in E.
  destruct (split_prefixed_spec (length body) (runes body) received 0 total) as (C & Lc & F);
    [by apply runes_valid|by rewrite V'|done|unfold len in L; lia|lia|]. rewrite V' in C, Lc, F.
  fold (splitWithPrefixes body received total) in C, Lc, F.
  destruct (Z.eqb_spec (len (splitWithPrefixes body received total)) total) as [Eq|Ne].
  - injection E as <-. exists (splitWithPrefixes body received total). rewrite Eq. split_and!; [done..|].
    unfold label. erewrite imap_ext; [exact F|]. done.
  - apply IH in E; [done|]. unfold len in *. lia.
Qed.

(** A message that is too long for one part: labelled chunks of the text, nothing lost. *)
Lemma VisibleParts_split body mapDateTime :
  all_bytes body -> valid_utf8 body = true -> len body < 10 ^ 18 -> MaxSIPPartBytes < len (singlePrefix (ReceivedTime mapDateTime) ++ body) ->
  exists chunks, concat chunks = body /\ VisibleParts body mapDateTime = label (ReceivedTime mapDateTime) (len chunks) chunks.
Proof.
  intros B V L H. unfold VisibleParts. rewrite (proj2 (Z.leb_gt _ _)) by done.
  destruct (visible_attempts 8 body (ReceivedTime mapDateTime) 2) as [parts|] eqn:E.
  { apply visible_attempts_spec in E as (chunks & C & -> & F); [|done..]. by exists chunks. }
  destruct (SplitUTF8_spec body (MaxSIPPartBytes - 64) B V) as (C & F & N). by exists (SplitUTF8 body (MaxSIPPartBytes - 64)).
Qed.

(** The bounds hold for any bytes: the parts are cut by characters, with bad bytes replaced. *)
Lemma SplitUTF8_bound text maximum :
  all_bytes text -> text <> [] -> Forall (fun p => 1 <= len p <= Z.max maximum 4) (SplitUTF8 text maximum).
Proof.
  intros B N. unfold SplitUTF8.
  assert ((if maximum <? 4 then 4 else maximum) = Z.max maximum 4) as -> by (destruct (Z.ltb_spec maximum 4); lia).
  assert (1 <= len text) by (destruct text; [done|unfold len; cbn [length]; lia]).
  destruct ((len text <=? Z.max maximum 4) || (len text =? 0)) eqn:E.
  - apply Forall_singleton. apply orb_true_iff in E as [E | E]; bool_prop; lia.
  - apply split_runes_spec; [by apply runes_valid|lia|lia].
Qed.
Lemma SplitUTF8_count text maximum : text <> [] -> len (SplitUTF8 text maximum) <= len text.
Proof.
  intros N. unfold SplitUTF8. assert (1 <= len text) by (destruct text; [done|unfold len; cbn [length]; lia]). case_match; [done|].
  assert (forall fuel rs m, (length (split_runes fuel rs m) <= fuel)%nat) as C.
  { induction fuel as [|fuel IH]; intros rs m; [done|]. destruct rs; cbn [split_runes length]; [lia|]. specialize (IH (drop (part_end (z :: rs) m) (z :: rs)) m). lia. }
  assert (forall fuel s, (length (runes_loop fuel s) <= fuel)%nat) as R.
  { induction fuel as [|fuel IH]; intros s; [by destruct s|]. destruct s as [|b s]; cbn [runes_loop length]; [lia|].
    destruct (DecodeRune (b :: s)) as [r size]. cbn [length]. specialize (IH (drop size (b :: s))). lia. }
  unfold len. pose proof (R (length text) text) as R1. fold (runes text) in R1.
  etrans; [apply inj_le, C|]. lia.
Qed.
Lemma split_prefixed_bound fuel text received index total :
  all_bytes text -> 0 <= index -> index + Z.of_nat fuel < 10 ^ 19 -> total < 10 ^ 19 ->
  let chunks := split_prefixed fuel text received index total in
  (length chunks <= fuel)%nat /\
  Forall (fun p => 1 <= len p <= MaxSIPPartBytes)
    (imap (fun i chunk => multipartPrefix received (index + Z.of_nat i) total ++ [10] ++ chunk) chunks).
Proof.
  revert text index. induction fuel as [|fuel IH]; intros text index B I F T; [split; [done|constructor]|].
  destruct text as [|b text]; [split; [cbn; lia|constructor]|]. cbn [split_prefixed].
  pose proof (multipartPrefix_length received index total ltac:(lia) T) as P.
  pose proof (SplitUTF8_bound (b :: text) (MaxSIPPartBytes - len (multipartPrefix received index total ++ [10])) B ltac:(done)) as S.
  set (chunk := hd [] _) in *. assert (len chunk <= MaxSIPPartBytes - len (multipartPrefix received index total ++ [10])) as L.
  { unfold chunk. destruct S as [|p ps Hp S]; cbn [hd]; [change (len []) with 0|]; unfold MaxSIPPartBytes in *; lia. }
  destruct (IH (drop (length chunk) (b :: text)) (index + 1)) as [Lc Fc]; [by apply Forall_drop|lia|lia|done|].
  split; [cbn [length]; lia|]. cbn [imap]. constructor.
  - change (Z.of_nat 0) with 0. rewrite Z.add_0_r, app_assoc, len_app. pose proof (len_nonneg chunk).
    assert (1 <= len (multipartPrefix received index total ++ [10])) by (rewrite len_app; change (len [10]) with 1; pose proof (len_nonneg (multipartPrefix received index total)); lia).
    unfold MaxSIPPartBytes in *. lia.
  - erewrite imap_ext; [exact Fc|]. intros i x _. cbn. do 2 f_equal. lia.
Qed.
Lemma visible_attempts_bound attempts body received total parts :
  all_bytes body -> len body < 10 ^ 18 -> total < 10 ^ 18 -> visible_attempts attempts body received total = Some parts ->
  Forall (fun p => 1 <= len p <= MaxSIPPartBytes) parts.
Proof.
  intros B L. revert total. induction attempts as [|attempts IH]; intros total T E; [done|]. cbn [visible_attempts] in E.
  destruct (split_prefixed_bound (length body) body received 0 total) as (Lc & F); [done|done|unfold len in L; lia|lia|].
  fold (splitWithPrefixes body received total) in Lc, F.
  destruct (Z.eqb_spec (len (splitWithPrefixes body received total)) total) as [Eq|Ne].
  - injection E as <-. unfold label. erewrite imap_ext; [exact F|]. done.
  - apply IH in E; [done|]. unfold len in *. lia.
Qed.
Lemma VisibleParts_bound body mapDateTime :
  all_bytes body -> body <> [] -> len body < 10 ^ 18 ->
  Forall (fun p => 1 <= len p <= MaxSIPPartBytes) (VisibleParts body mapDateTime).
Proof.
  intros B N L. unfold VisibleParts. set (prefix := singlePrefix (ReceivedTime mapDateTime)).
  destruct (Z.leb_spec (len (prefix ++ body)) MaxSIPPartBytes).
  { apply Forall_singleton. split; [|done]. rewrite len_app. pose proof (len_nonneg prefix). destruct body; [done|]. unfold len in *. cbn [length]. lia. }
  destruct (visible_attempts 8 body (ReceivedTime mapDateTime) 2) as [parts|] eqn:E; [by eapply visible_attempts_bound in E|].
  pose proof (SplitUTF8_bound body (MaxSIPPartBytes - 64) B N) as F.
  pose proof (SplitUTF8_count body (MaxSIPPartBytes - 64) N) as Lc.
  assert (Forall (fun p => len p <= MaxSIPPartBytes) (label (ReceivedTime mapDateTime) (len (SplitUTF8 body (MaxSIPPartBytes - 64))) (SplitUTF8 body (MaxSIPPartBytes - 64)))) as Fl.
  { apply label_fits; [lia|lia|]. eapply Forall_impl; [done|]. cbn. unfold MaxSIPPartBytes. lia. }
  apply Forall_lookup. intros i p Hp. split; [|exact (Forall_lookup_1 _ _ _ _ Fl Hp)].
  unfold label in Hp. rewrite list_lookup_imap in Hp. destruct (_ !! i) as [chunk|]; [|done]. injection Hp as <-.
  unfold len. rewrite length_app. cbn [app length]. lia.
Qed.

Lemma singlePrefix_short received : len (singlePrefix received) <= 64.
Proof. destruct received as [w|]; [|done]. unfold singlePrefix. rewrite !len_app, format_wall_length. vm_compute. discriminate. Qed.

(** C29.  What the phone is shown of a message.  Whatever the bytes of the body, every SIP message is at most 600
    bytes long.  A body that fits is sent as it is behind the time of arrival.  A longer body, when it is valid UTF-8, is
    cut into chunks that together are the body, whole and in order, each behind its number and the number of
    chunks.  (Bodies are taken to be shorter than 10^18 bytes, so that the numbers fit their labels; the search for a consistent
    number of parts may fail, and the fallback keeps the same promises.) *)
Theorem VisibleParts_spec body mapDateTime :
  all_bytes body -> len body < 10 ^ 18 ->
  let received := ReceivedTime mapDateTime in
  Forall (fun p => len p <= MaxSIPPartBytes) (VisibleParts body mapDateTime) /\
  (len (singlePrefix received ++ body) <= MaxSIPPartBytes -> VisibleParts body mapDateTime = [singlePrefix received ++ body]) /\
  (valid_utf8 body = true -> MaxSIPPartBytes < len (singlePrefix received ++ body) ->
   exists chunks, concat chunks = body /\ VisibleParts body mapDateTime = label received (len chunks) chunks).
Proof.
  intros B L received. split_and!.
  - destruct (decide (body = [])) as [-> | N]; [|eapply Forall_impl; [by apply VisibleParts_bound|]; by intros p [_ ?]].
    unfold VisibleParts. destruct (Z.leb_spec (len (singlePrefix (ReceivedTime mapDateTime) ++ [])) MaxSIPPartBytes); [by apply Forall_singleton|].
    exfalso. rewrite app_nil_r in *. pose proof (singlePrefix_short (ReceivedTime mapDateTime)). unfold MaxSIPPartBytes in *. lia.
  - intros F. unfold VisibleParts. fold received. cbv zeta. by rewrite (proj2 (Z.leb_le _ _) F).
  - intros V H. by apply VisibleParts_split.
Qed.

Lemma VisibleParts_witness :
  Forall (fun p => len p <= MaxSIPPartBytes) (VisibleParts (replicate 700 97) (str "20260723T102719")) /\
  exists chunks, concat chunks = replicate 700 97 /\
    VisibleParts (replicate 700 97) (str "20260723T102719") = label (ReceivedTime (str "20260723T102719")) (len chunks) chunks.
Proof.
  destruct (VisibleParts_spec (replicate 700 97) (str "20260723T102719")) as (F & _ & W).
  - apply (bool_decide_unpack (all_bytes (replicate 700 97))). vm_compute. exact I.
  - vm_compute. reflexivity.
  - split; [exact F|]. apply W; vm_compute; reflexivity.
Defined.

(** A long message that is not valid UTF-8 loses text: the chunk is measured after
    replacing each bad byte by a three-byte character, and that many bytes of the
    original are skipped. *)
Theorem invalid_text_truncated :
  len (runes (concat (VisibleParts (replicate 700 0xff) []))) < len (runes (replicate 700 0xff)).
Proof. vm_compute. reflexivity. Qed.

(** A message whose text is empty is not read as empty: [extractBlock] returns the
    empty string both for a missing and for an empty block, and the body becomes the
    whole bMessage, envelope included. *)
Theorem empty_message_shows_envelope :
  let raw := str "BEGIN:BMSG" ++ [10] ++ str "BEGIN:MSG" ++ [10; 10] ++ str "END:MSG" ++ [10] ++ str "END:BMSG" in
  extractBlock raw (lf "BEGIN:MSG") (10 :: str "END:MSG") = [] /\ msBody (ParseBMessage raw) = raw.
Proof. vm_compute. split; reflexivity. Qed.

(** A block is found when its markers do not come before it and inside it. *)
Lemma extract_read pre sub text tail t rest :
  clear_of pre sub = true -> Contains text (10 :: tail) = false -> Forall (fun c => c <> 10) tail -> rest = (10 :: tail) ++ t ->
  extractBlock (pre ++ sub ++ text ++ rest) sub (10 :: tail) = text.
Proof.
  intros C N T ->. unfold extractBlock. rewrite Index_clear, Index_here by done. cbn [fmap option_fmap option_map].
  rewrite Nat.add_0_r, (app_assoc pre sub), <- length_app, drop_app_length, (Index_first text 10 tail t N T). apply take_app_length.
Qed.

(** ** MMS: bounds of what is collected *)
Section MimeFacts.
Context `{MimeLib}.

Definition attachment_bytes (l : list Attachment) : Z := foldr (fun a n => len (atData a) + n) 0 l.

(** What the collector holds at any moment. *)
Record collector_ok (maximum : Z) (c : mimeCollector) : Prop := {
  co_parts : 0 <= mcParts c <= maxMIMEParts;
  co_count : len (mcAttachments c) <= MaxMMSAttachments;
  co_total : mcTotal c = attachment_bytes (mcAttachments c);
  co_bytes : attachment_bytes (mcAttachments c) <= maxMMSTotalBytes;
  co_each : Forall (fun a => 1 <= len (atData a) <= maximum /\ atContentType a ∈ allowed_images) (mcAttachments c);
  co_text : Forall (fun t => t <> []) (mcText c)
}.

Lemma attachment_bytes_app l1 l2 : attachment_bytes (l1 ++ l2) = attachment_bytes l1 + attachment_bytes l2.
Proof. unfold attachment_bytes. induction l1 as [|a l1 IH]; cbn in *; lia. Qed.

Lemma supportedImageType_allowed declared data t : supportedImageType declared data = Some t -> t ∈ allowed_images.
Proof.
  unfold supportedImageType. cbv zeta. set (detected := if _ && isHEIF data then _ else _). clearbody detected.
  destruct (bool_decide (detected ∈ allowed_images)) eqn:D; cbn [negb]; [|done]. intros E.
  bool_prop. by repeat (split_if_in E; [try done|]); injection E as <-.
Qed.

Lemma readBounded_ok d maximum data : readBounded d maximum = Ok data -> len data <= maximum.
Proof.
  unfold readBounded. intros E. split_if_in E; [done|]. split_if_in E; [done|].
  apply Ok_inj in E as <-. bool_prop. done.
Qed.

Lemma walk_leaf_ok maximum c h mediaType params body c' :
  collector_ok maximum c -> walk_leaf maximum c h mediaType params body = Ok c' -> collector_ok maximum c'.
Proof.
  intros K E. unfold walk_leaf in E. destruct (transferDecoded _ _) as [decoded|]; [|done]. split_if_in E.
  { destruct (readBounded _ _) as [data|] eqn:R; [|done]. split_if_in E; [done|].
    destruct (TrimSpace data) as [|x t]; apply Ok_inj in E as <-; [done|]. destruct K. constructor; cbn; try done.
    apply Forall_app. split; [done|by repeat constructor]. }
  split_if_in E; [by apply Ok_inj in E as <-|].
  destruct (readBounded _ _) as [[|x data]|] eqn:R; [by apply Ok_inj in E as <-| |done].
  apply readBounded_ok in R. destruct (supportedImageType mediaType (x :: data)) as [detected|] eqn:S; [|by apply Ok_inj in E as <-].
  apply supportedImageType_allowed in S. split_if_in E; [done|]. cbn [mcTotal update] in E. split_if_in E; [done|].
  apply Ok_inj in E as <-. bool_prop. destruct K. constructor; cbn -[len attachment_bytes]; try done.
  - rewrite len_app. change (len [_]) with 1. lia.
  - rewrite attachment_bytes_app. cbn [attachment_bytes foldr atData]. lia.
  - rewrite attachment_bytes_app. cbn [attachment_bytes foldr atData]. cbn in *. lia.
  - apply Forall_app. split; [done|]. apply Forall_singleton. cbn [atData atContentType]. split; [|done].
    split; [unfold len; cbn; lia|done].
Qed.

Lemma walk_ok allowed maximum c h body c' :
  collector_ok maximum c -> walk allowed maximum c h body = Ok c' -> collector_ok maximum c'.
Proof.
  revert c h body c'. induction allowed as [|allowed IH]; intros c h body c' K E; [done|]. cbn [walk] in E.
  split_if_in E; [done|]. bool_prop. set (c1 := c <| mcParts := _ |>) in *.
  assert (collector_ok maximum c1) as K1 by (destruct K; constructor; cbn in *; try done; lia).
  destruct (ParseMediaType (hContentType h)) as [[mediaType params]|]; [|done]. split_if_in E; [|by eapply walk_leaf_ok].
  split_if_in E; [done|]. destruct (multipart _ body) as [parts closed]. apply result_bind_ok in E as (c2 & E & E').
  assert (c2 = c') as -> by (destruct closed; [by apply Ok_inj in E'|done]). clear E'.
  clear -IH K1 E. clearbody c1. revert c1 K1 E. induction parts as [|p parts IHp]; intros c1 K1 E; [by apply Ok_inj in E as <-|].
  cbn [foldl] in E. cbn [result_bind] in E. destruct (walk allowed maximum c1 p.1 p.2) as [c3|e] eqn:W.
  - eapply IHp; [|done]. by eapply IH.
  - exfalso. clear -E. induction parts as [|q parts IHq]; [done|]. by apply IHq.
Qed.

(** Bounds of an MMS: whatever the MIME structure (any nesting, number and size of
    parts), when [ParseMMS] succeeds the message has at most four attachments, each a
    non-empty image of a supported type within the configured size, together at most
    2 MiB; the recursion visits at most 32 parts and six levels. *)
Theorem ParseMMS_bounds parsed maximum m :
  msAttachments parsed = [] -> ParseMMS parsed maximum = Ok m ->
  len (msAttachments m) <= MaxMMSAttachments /\ attachment_bytes (msAttachments m) <= maxMMSTotalBytes /\
  Forall (fun a => 1 <= len (atData a) <= maximum /\ atContentType a ∈ allowed_images) (msAttachments m).
Proof.
  intros N E. unfold ParseMMS in E. split_if_in E; [done|].
  assert (forall m0, msAttachments m0 = [] -> Ok m0 = Ok m -> len (msAttachments m) <= MaxMMSAttachments /\
    attachment_bytes (msAttachments m) <= maxMMSTotalBytes /\
    Forall (fun a => 1 <= len (atData a) <= maximum /\ atContentType a ∈ allowed_images) (msAttachments m)) as Same.
  { intros m0 E0 E1. apply Ok_inj in E1 as <-. rewrite E0. split_and!; [done..|constructor]. }
  destruct (TrimSpace (msBody parsed)) as [|b body]; [by eapply Same|].
  destruct (ReadMessage (b :: body)) as [[h rest]|]; [|by eapply Same; [|done]].
  split_if_in E; [by eapply Same; [|done]|]. apply result_bind_ok in E as (c & W & E). apply Ok_inj in E as <-.
  assert (collector_ok maximum (mkCollector 0 0 [] [])) as K0 by (by constructor; try constructor).
  apply walk_ok in W; [|done]. cbn. by destruct W.
Qed.
End MimeFacts.

(** A reader without multipart support: one JPEG with its type. *)
Module OneImage.
#[export] Instance one_image : MimeLib := {|
  ReadMessage b := Some (mkHeaders (str "image/jpeg") [] [], b);
  ParseMediaType t := Some (t, fun _ => []);
  multipart _ _ := ([], true);
  base64_decode b := b; quoted_decode b := b;
  DetectContentType _ := str "image/jpeg" |}.
End OneImage.

Lemma ParseMMS_bounds_witness :
  let m := @ParseMMS OneImage.one_image (mkMessage [0xff; 0xd8; 0xff] [] [] []) 1024 in
  m = Ok (mkMessage [] [] [] [mkAttachment (str "image/jpeg") [] [0xff; 0xd8; 0xff]]) /\
  len [mkAttachment (str "image/jpeg") [] [0xff; 0xd8; 0xff]] <= MaxMMSAttachments.
Proof.
  cbv zeta. split; [vm_compute; reflexivity|].
  apply (@ParseMMS_bounds OneImage.one_image (mkMessage [0xff; 0xd8; 0xff] [] [] []) 1024
    (mkMessage [] [] [] [mkAttachment (str "image/jpeg") [] [0xff; 0xd8; 0xff]])); [reflexivity|vm_compute; reflexivity].
Defined.

(** ** Telephone numbers *)

(** Digits, with or without a plus sign. *)
Definition phone (ds n : bytes) : Prop :=
  Forall (fun c => is_digit c = true) ds /\ (n = ds \/ n = 43 :: ds).

Lemma destination_loop_shape rs first n :
  destination_loop rs first = Some n ->
  (first = false -> Forall (fun c => is_digit c = true) n) /\ exists ds, phone ds n.
Proof.
  revert first n. induction rs as [|r rs IH]; intros first n E; cbn [destination_loop] in E.
  { injection E as <-. split; [constructor|]. exists []. split; [constructor|by left]. }
  destruct (is_digit r || (r =? 43) && first) eqn:D.
  - destruct (destination_loop rs false) as [n'|] eqn:E'; [|done]. injection E as <-.
    destruct (IH _ _ E') as [F _]. specialize (F eq_refl). destruct (is_digit r) eqn:R.
    + split; [by constructor|]. exists (r :: n'). split; [by constructor|by left].
    + cbn in D. bool_prop. subst r. split; [by intros ->|]. exists n'. split; [done|by right].
  - split_if_in E; [|done]. destruct (IH _ _ E) as [F G]. split; [by intros _; apply F|done].
Qed.

Lemma destination_loop_digits ds : Forall (fun c => is_digit c = true) ds -> destination_loop ds false = Some ds.
Proof. induction 1 as [|d ds Hd H IH]; [done|]. cbn [destination_loop]. rewrite Hd, IH. done. Qed.
Lemma destination_loop_phone ds n : phone ds n -> destination_loop n true = Some n.
Proof.
  intros [F [-> | ->]].
  - destruct F as [|d ds Hd F]; [done|]. cbn [destination_loop]. by rewrite Hd, destination_loop_digits.
  - cbn [destination_loop]. by rewrite destination_loop_digits.
Qed.

Lemma phone_visible ds n : phone ds n -> Forall (fun c => 0 <= c < RuneSelf /\ IsSpace c = false) n.
Proof.
  intros [F H]. assert (Forall (fun c => 0 <= c < RuneSelf /\ IsSpace c = false) ds) as V
    by (eapply Forall_impl; [done|apply digit_visible]).
  destruct H as [-> | ->]; [done|]. by constructor.
Qed.
Lemma phone_runes ds n : phone ds n -> runes n = n.
Proof. intros H. apply runes_ascii. eapply Forall_impl; [by eapply phone_visible|]. by intros ? []. Qed.
Lemma HasPrefix_plus ds : HasPrefix (43 :: ds) [43] = true.
Proof. by destruct ds. Qed.
Lemma phone_digits ds n : phone ds n -> TrimPrefix n [43] = ds \/ (exists ds', ds = 43 :: ds').
Proof.
  intros [F [-> | ->]]; unfold TrimPrefix; cbn [HasPrefix].
  - destruct F as [|d ds Hd F]; [by left|]. cbn [HasPrefix]. apply is_digit_spec in Hd. rewrite (proj2 (Z.eqb_neq 43 d)) by lia. by left.
  - left. by destruct ds.
Qed.

(** Destinations: what [NormalizeDestination] returns is 3 to 21 digits with an
    optional plus sign, whatever the caller typed; a national mobile number (010...)
    always becomes an international one; and up to 20 digits the result is a fixed
    point, so normalising again changes nothing. *)
Theorem NormalizeDestination_spec value n :
  NormalizeDestination value = Ok n ->
  exists ds, phone ds n /\ 3 <= len ds <= 21 /\ (n = ds -> HasPrefix ds (str "010") = false) /\
    (len ds <= 20 -> NormalizeDestination n = Ok n).
Proof.
  intros E. unfold NormalizeDestination in E.
  destruct (destination_loop (runes (TrimSpace value)) true) as [m|] eqn:D; [|done].
  apply destination_loop_shape in D as [_ (ds & P)].
  assert (TrimPrefix m [43] = ds) as Tm.
  { destruct (phone_digits _ _ P) as [? | (ds' & ->)]; [done|]. destruct P as [F _]. apply Forall_cons in F as [F _]. discriminate. }
  rewrite Tm in E. split_if_in E; [done|]. bool_prop.
  assert (forall ds' k, phone ds' k -> 3 <= len ds' -> (k = ds' -> HasPrefix ds' (str "010") = false) ->
    len ds' <= 20 -> NormalizeDestination k = Ok k) as Fix.
  { intros ds' k Pk L1 N L2. unfold NormalizeDestination. rewrite TrimSpace_visible_id by (by eapply phone_visible).
    rewrite (phone_runes _ _ Pk), (destination_loop_phone _ _ Pk).
    assert (TrimPrefix k [43] = ds') as ->.
    { destruct (phone_digits _ _ Pk) as [? | (d & ->)]; [done|]. destruct Pk as [F _]. apply Forall_cons in F as [F _]. discriminate. }
    rewrite (proj2 (Z.ltb_ge _ _)), (proj2 (Z.ltb_ge _ _)) by done. cbn [orb].
    destruct Pk as [F [-> | ->]]; [by rewrite N|]. by rewrite HasPrefix_plus, andb_false_r. }
  destruct (HasPrefix ds (str "010") && negb (HasPrefix m [43])) eqn:H010; apply Ok_inj in E as <-.
  - bool_prop. destruct P as [F _]. destruct ds as [|d ds]; [done|]. apply Forall_cons in F as [_ F].
    assert (phone (str "82" ++ ds) (str "+82" ++ drop 1 (d :: ds))) as P.
    { split; [apply Forall_app; split; [by repeat constructor|done]|by right]. }
    exists (str "82" ++ ds). assert (len (str "82" ++ ds) = 2 + len ds) as L by (rewrite len_app; done).
    assert (len (d :: ds) = 1 + len ds) as L' by (unfold len; cbn; lia).
    split_and!; [done|lia|lia|done|]. intros Hl. by apply (Fix _ _ P); [lia|..].
  - assert (m = ds -> HasPrefix ds (str "010") = false) as N.
    { intros ->. apply andb_false_iff in H010 as [? | H010]; [done|]. bool_prop.
      destruct ds as [|d ds]; [done|]. destruct P as [F _]. apply Forall_cons in F as [Fd _]. cbn [HasPrefix] in H010. bool_prop. subst d. discriminate. }
    exists ds. split_and!; [done|lia|lia|done|]. intros Hl. by eapply Fix.
Qed.

Lemma NormalizeDestination_witness :
  exists ds, phone ds (str "+821012345678") /\ 3 <= len ds <= 21.
Proof.
  destruct (NormalizeDestination_spec (str " 010-1234-5678") (str "+821012345678")) as (ds & P & L & _).
  - vm_compute. reflexivity.
  - exists ds. split; [exact P|exact L].
Defined.

(** Senders: [NormalizeSender] always returns at least three digits with an optional
    plus sign, so the header it goes into cannot be broken by what the phone sent. *)
Theorem NormalizeSender_spec value : exists ds, phone ds (NormalizeSender value) /\ 3 <= len ds.
Proof.
  unfold NormalizeSender. set (raw := TrimSpace value). set (ds := filter _ (runes raw)).
  assert (Forall (fun c => is_digit c = true) ds) as F by (apply Forall_forall; intros c Hc; by apply list_elem_of_filter in Hc as [? _]).
  clearbody ds. destruct (Z.ltb_spec (len ds) 3); [exists (str "000"); by repeat constructor|].
  destruct (HasPrefix raw [43]); [exists ds; by repeat split; [|right|]|].
  destruct (HasPrefix ds (str "010")).
  { destruct ds as [|d ds]; [done|]. apply Forall_cons in F as [_ F]. exists (str "82" ++ ds). split; [split|].
    - apply Forall_app. split; [by repeat constructor|done].
    - by right.
    - rewrite len_app. unfold len in *. cbn in *. lia. }
  destruct (HasPrefix ds (str "82")); exists ds; repeat split; auto.
Qed.

(** Taking an envelope away leaves bytes of the message, and no more of them. *)
Lemma StripMMSEnvelope_keeps body messageType :
  all_bytes body -> all_bytes (StripMMSEnvelope body messageType) /\ len (StripMMSEnvelope body messageType) <= len body.
Proof.
  intros B. unfold StripMMSEnvelope. case_match; [done|]. destruct (list_find _ _) as [[blank ?]|]; [|done]. case_match; [done|].
  destruct (envelope_names _ _ _); [|done]. case_match; [done|]. case_match; [done|].
  destruct (unix_lines_keeps (in_width 8) body ltac:(done) B) as [F L].
  destruct (Join_drop_SplitByte (unix_lines body) 10 (S blank)) as [j ->]. destruct (TrimLeftSet_suffix (Z.eqb 10) (drop j (unix_lines body))) as [k ->].
  split; [by apply Forall_drop, Forall_drop|]. unfold len. rewrite !length_drop. lia.
Qed.
