(* ===== verification/GoMime.v ===== *)
(** * MIME as Go's library reads it

    An instance of the class [MimeLib] of [Message]: the header and message readers of [net/mail] and
    [net/textproto], media types with parameters and their RFC 2231 continuations ([mime]), multipart
    bodies ([mime/multipart]), base64 and quoted-printable, and the content sniffer of [net/http].
    [MmsRead] shows that picture messages are read back with it.

    A base64 reader that meets padding before the end refuses what follows; Go's does so too unless the
    padding happens to end a read of its own buffer. *)

From S2P Require Import Prelude GoStd GoText GoBase64 Message.

Module Mime.

(** ** Lines and headers *)
Definition is_blank (c : Z) : bool := (c =? 32) || (c =? 9).
Definition trim (s : bytes) : bytes := TrimRightSet is_blank (TrimLeftSet is_blank s).
(** A line without its end, and what follows; [None] at the end of the input. *)
Definition read_line (s : bytes) : option (bytes * bytes) :=
  match s with
  | [] => None
  | _ => match CutByte s 10 with
         | Some (line, rest) => Some (drop_cr line, rest)
         | None => Some (s, [])
         end
  end.
(** The continuation lines of a header line. *)
Fixpoint continued (fuel : nat) (line s : bytes) : bytes * bytes :=
  match fuel with
  | O => (line, s)
  | S fuel =>
      match s with
      | c :: _ =>
          if is_blank c then
            match read_line (TrimLeftSet is_blank s) with
            | Some (more, rest) => continued fuel (line ++ [32] ++ trim more) rest
            | None => (line ++ [32], [])
            end
          else (line, s)
      | [] => (line, s)
      end
  end.
(** [ReadContinuedLine]: the text of a header line, empty for the blank line; its first line; what follows. *)
Definition read_continued (s : bytes) : option (bytes * bytes * bytes) :=
  '(line, rest) ← read_line s;
  if len line =? 0 then Some ([], [], rest)
  else let '(text, rest) := continued (length rest) (trim line) rest in Some (text, line, rest).

Definition header := (bytes * bytes)%type.
(** [Get]: the first value of a name. *)
Definition get (name : string) (hs : list header) : bytes :=
  match list_find (fun h => ToLower h.1 = str name) hs with Some (_, h) => h.2 | None => [] end.
Definition headers_of (hs : list header) : headers :=
  mkHeaders (get "content-type" hs) (get "content-transfer-encoding" hs) (get "content-disposition" hs).

(** The loop of [readHeader] of [net/mail]: headers, the rest, and whether the blank line was found. *)
Fixpoint mail_headers (fuel : nat) (s : bytes) : option (list header * bytes * bool) :=
  match fuel with
  | O => None
  | S fuel =>
      match read_continued s with
      | None => Some ([], [], false)
      | Some (text, _, rest) =>
          if len text =? 0 then Some ([], rest, true)
          else match CutByte text 58 with
               | None => None
               | Some (k, v) =>
                   '(hs, rest, found) ← mail_headers fuel rest;
                   Some (if len k =? 0 then hs else (k, TrimLeftSet is_blank v) :: hs, rest, found)
               end
      end
  end.
Definition read_message (s : bytes) : option (headers * bytes) :=
  match s with
  | c :: _ =>
      if is_blank c then None
      else '(hs, rest, found) ← mail_headers (S (length s)) s;
           if negb found && (len hs =? 0) then None else Some (headers_of hs, rest)
  | [] => None
  end.

(** [ReadMIMEHeader], which is stricter: names of token bytes, values without control bytes, at most 10000. *)
Definition token_byte (c : Z) : bool :=
  is_upper c || is_lower c || is_digit c || existsb (Z.eqb c) (str "!#$%&'*+-.^_`|~").
Definition value_byte (c : Z) : bool := (c =? 9) || in_range 32 c 126 || (128 <=? c).
Definition maximumHeaders : Z := 10000.
Inductive header_block := Block (hs : list header) (rest : bytes) | Ended | Malformed.
Definition add_header (h : header) (b : header_block) : header_block := match b with Block hs rest => Block (h :: hs) rest | _ => b end.
Fixpoint part_headers (fuel : nat) (allowed : Z) (s : bytes) : header_block :=
  match fuel with
  | O => Malformed
  | S fuel =>
      match read_continued s with
      | None => Ended
      | Some (text, line, rest) =>
          if len text =? 0 then Block [] rest
          else match CutByte text 58, CutByte line 58 with
               | Some (k, v), Some _ =>
                   if (len k =? 0) || negb (forallb (fun c => token_byte c || (c =? 32)) k) || negb (forallb value_byte v) || (allowed <? 1) then Malformed
                   else add_header (k, TrimLeftSet is_blank v) (part_headers fuel (allowed - 1) rest)
               | _, _ => Malformed
               end
      end
  end.
Definition read_part_headers (s : bytes) : header_block :=
  match s with
  | c :: _ => if is_blank c then Malformed else part_headers (S (length s)) maximumHeaders s
  | [] => Ended
  end.

(** ** Media types *)
Definition special (c : Z) : bool := existsb (Z.eqb c) (34 :: str "()<>@,;:\/[]?=").
Definition token_char (c : Z) : bool := in_range 33 c 126 && negb (special c).
Fixpoint token (s : bytes) : bytes * bytes :=
  match s with
  | c :: rest => if token_char c then let '(a, b) := token rest in (c :: a, b) else ([], s)
  | [] => ([], [])
  end.
(** A quoted string after its opening quote; a backslash escapes special characters only. *)
Fixpoint quoted (s : bytes) : option (bytes * bytes) :=
  match s with
  | [] => None
  | c :: rest =>
      if c =? 34 then Some ([], rest)
      else if (c =? 13) || (c =? 10) then None
      else if c =? 92 then
        match rest with
        | d :: rest' => if special d then '(v, r) ← quoted rest'; Some (d :: v, r) else '(v, r) ← quoted rest; Some (c :: v, r)
        | [] => None
        end
      else '(v, r) ← quoted rest; Some (c :: v, r)
  end.
Definition TrimLeftSpace (s : bytes) : bytes := trim_left_loop (length s) s.
(** [consumeMediaParam]: a parameter and what follows. *)
Definition media_param (s : bytes) : option (bytes * bytes * bytes) :=
  rest ← next_is 59 (TrimLeftSpace s);
  let '(param, rest) := token (TrimLeftSpace rest) in
  if len param =? 0 then None
  else
    rest ← next_is 61 (TrimLeftSpace rest);
    let rest := TrimLeftSpace rest in
    '(value, rest) ← match next_is 34 rest with
                     | Some inside => quoted inside
                     | None => let '(v, r) := token rest in if len v =? 0 then None else Some (v, r)
                     end;
    Some (ToLowerText param, value, rest).
(** All parameters, as written; the same name twice only with the same value. *)
Fixpoint media_params (fuel : nat) (seen : list header) (s : bytes) : option (list header) :=
  match fuel with
  | O => None
  | S fuel =>
      let s := TrimLeftSpace s in
      if len s =? 0 then Some seen
      else match media_param s with
           | None => if TrimSpace s =s? [59] then Some seen else None
           | Some (k, v, rest) =>
               match list_find (fun h => h.1 = k) seen with
               | Some (_, h) => if h.2 =s? v then media_params fuel seen rest else None
               | None => media_params fuel (seen ++ [(k, v)]) rest
               end
           end
  end.
Definition value_of (k : bytes) (params : list header) : option bytes := snd <$> (snd <$> list_find (fun h => h.1 = k) params).
(** RFC 2231: a value with a character set, and percent escapes. *)
Fixpoint percent (s : bytes) : option bytes :=
  match s with
  | [] => Some []
  | c :: rest =>
      if c =? 37 then
        match rest with
        | a :: b :: rest => x ← hex_digit a; y ← hex_digit b; t ← percent rest; Some (16 * x + y :: t)
        | _ => None
        end
      else t ← percent rest; Some (c :: t)
  end.
Definition decode2231 (v : bytes) : option bytes :=
  '(charset, rest) ← CutByte v 39; '(_, text) ← CutByte rest 39;
  let charset := ToLowerText charset in
  if (charset =s? str "us-ascii") || (charset =s? str "utf-8") then percent text else None.
(** The pieces [k*0], [k*1], ... of a parameter. *)
Fixpoint pieces (fuel : nat) (k : bytes) (n : Z) (params : list header) : list bytes :=
  match fuel with
  | O => []
  | S fuel =>
      match value_of (k ++ [42] ++ Itoa n) params with
      | Some v => v :: pieces fuel k (n + 1) params
      | None =>
          match value_of (k ++ [42] ++ Itoa n ++ [42]) params with
          | Some v => (if n =? 0 then default [] (decode2231 v) else default [] (percent v)) :: pieces fuel k (n + 1) params
          | None => []
          end
      end
  end.
(** A parameter by name: continuations override a plain value. *)
Definition lookup_param (params : list header) (k : bytes) : bytes :=
  let plain := default [] (value_of k params) in
  match value_of (k ++ [42]) params with
  | Some v => default plain (decode2231 v)
  | None => match pieces (S (length params)) k 0 params with [] => plain | ps => concat ps end
  end.
Definition media_type_ok (s : bytes) : bool :=
  match token s with
  | ([], _) => false
  | (_, []) => true
  | (_, c :: rest) => (c =? 47) && match token rest with ([], _) => false | (_, rest) => len rest =? 0 end
  end.
Definition parse_media_type (v : bytes) : option (bytes * (bytes -> bytes)) :=
  let base := match CutByte v 59 with Some (base, _) => base | None => v end in
  let mediatype := TrimSpace (ToLowerText base) in
  if negb (media_type_ok mediatype) then None
  else params ← media_params (S (length v)) [] (drop (length base) v); Some (mediatype, lookup_param params).

(** ** Transfer encodings *)
Definition line_end (c : Z) : bool := (c =? 10) || (c =? 13).
Definition decode_base64 (b : Body) : Body :=
  match GoBase64.base64_decode (List.filter (fun c => negb (line_end c)) (boData b)) with
  | Some data => mkBody data (boFails b)
  | None => mkBody [] true
  end.

(** [ReadSlice] of a reader with the default buffer: a line with its end, the last bytes, or a line that does not fit. *)
Definition bufferSize : Z := 4096.
Inductive slice := Line (line rest : bytes) | Last (line : bytes) | TooLong.
Definition read_slice (s : bytes) : slice :=
  match CutByte s 10 with
  | Some (line, rest) => if len line <? bufferSize then Line (line ++ [10]) rest else TooLong
  | None => if len s <? bufferSize then Last s else TooLong
  end.
(** Quoted-printable text of one line, trailing blanks removed. *)
Fixpoint quoted_line (s : bytes) : bytes * bool :=
  match s with
  | [] => ([], false)
  | c :: rest =>
      if c =? 61 then
        match rest with
        | a :: b :: rest' =>
            match hex_digit a, hex_digit b with
            | Some x, Some y => let '(more, bad) := quoted_line rest' in (16 * x + y :: more, bad)
            | _, _ => if line_end a then ([], true) else let '(more, bad) := quoted_line rest in (c :: more, bad)
            end
        | [a] => if line_end a then ([], true) else let '(more, bad) := quoted_line rest in (c :: more, bad)
        | [] => ([], true)
        end
      else if (c <? 32) && negb (is_blank c) && negb (line_end c) || (c =? 127) then ([], true)
      else let '(more, bad) := quoted_line rest in (c :: more, bad)
  end.
(** The text a line stands for before its escapes are read, and whether what follows a final [=] is wrong; [at_end] when
    the input ends with the line. *)
Definition soft_line (line : bytes) (at_end : bool) : bytes * bool :=
  let kept := TrimRightSet (fun c => is_blank c || line_end c) line in
  let stripped := drop (length kept) line in
  match rev kept with
  | c :: front =>
      if c =? 61 then (rev front, negb (HasPrefix stripped [10] || HasPrefix stripped [13; 10] || (len stripped =? 0) && negb (len front =? 0) && at_end))
      else (kept ++ if at_end then [] else if HasPrefix (rev line) [10; 13] then [13; 10] else [10], false)
  | [] => (if at_end then [] else if HasPrefix (rev line) [10; 13] then [13; 10] else [10], false)
  end.
Fixpoint quoted_lines (fuel : nat) (s : bytes) : bytes * bool :=
  match fuel with
  | O => ([], true)
  | S fuel =>
      match read_slice s with
      | TooLong => ([], true)
      | Last line => let '(text, wrong) := soft_line line true in let '(data, bad) := quoted_line text in (data, bad || wrong)
      | Line line rest =>
          let '(text, wrong) := soft_line line false in
          let '(data, bad) := quoted_line text in
          if bad || wrong then (data, true) else let '(more, bad) := quoted_lines fuel rest in (data ++ more, bad)
      end
  end.
Definition decode_quoted (b : Body) : Body :=
  let '(data, bad) := quoted_lines (S (length (boData b))) (boData b) in mkBody data (bad || boFails b).

(** ** Multipart bodies *)
Section Multipart.
Variable boundary : bytes.
Definition dashBoundary : bytes := [45; 45] ++ boundary.
(** Lines may end with a line feed only ([lf]), when the first boundary line does. *)
Definition nl (lf : bool) : bytes := if lf then [10] else [13; 10].
Definition nlDashBoundary (lf : bool) : bytes := nl lf ++ dashBoundary.
Definition after_dashes (line : bytes) : bytes := TrimLeftSet is_blank (drop (length dashBoundary) line).
Definition is_delimiter (lf : bool) (line : bytes) : bool := HasPrefix line dashBoundary && (after_dashes line =s? nl lf).
Definition is_final (lf : bool) (line : bytes) : bool :=
  HasPrefix line (dashBoundary ++ [45; 45]) &&
  let rest := TrimLeftSet is_blank (drop (length dashBoundary + 2) line) in (len rest =? 0) || (rest =s? nl lf).
(** Whether a boundary ends where [rest] begins; [None] when the input is too short to tell. *)
Definition matchAfterPrefix (rest : bytes) : option bool :=
  match rest with
  | [] => None
  | c :: rest =>
      if is_blank c || line_end c then Some true
      else if c =? 45 then match rest with [] => None | d :: _ => Some (d =? 45) end
      else Some false
  end.
(** At the end of the input, the bytes that may begin a boundary are not part of the body. *)
Definition held_back (lf : bool) (s : bytes) : bytes :=
  match CutByte (rev s) (if lf then 10 else 13) with
  | Some (tail, front) => if HasPrefix (nlDashBoundary lf) ((if lf then 10 else 13) :: rev tail) then rev front else s
  | None => s
  end.
(** The body up to the boundary, which is left; [None] when there is none. *)
Fixpoint scan_body (fuel : nat) (lf : bool) (s : bytes) : bytes * option bytes :=
  match fuel with
  | O => (s, None)
  | S fuel =>
      match Index s (nlDashBoundary lf) with
      | None => (held_back lf s, None)
      | Some i =>
          let n := (i + length (nlDashBoundary lf))%nat in
          match matchAfterPrefix (drop n s) with
          | Some true => (take i s, Some (drop i s))
          | Some false => let '(data, rest) := scan_body fuel lf (drop n s) in (take n s ++ data, rest)
          | None => (take i s, None)
          end
      end
  end.
Definition part_body (lf : bool) (s : bytes) : bytes * option bytes :=
  if HasPrefix s dashBoundary then
    match matchAfterPrefix (drop (length dashBoundary) s) with
    | Some true => ([], Some s)
    | Some false =>
        let n := length dashBoundary in
        let '(data, rest) := scan_body (length s) lf (drop n s) in (take n s ++ data, rest)
    | None => ([], None)
    end
  else if HasPrefix dashBoundary s then ([], None)
  else scan_body (length s) lf s.

(** [NextPart] hides quoted-printable: the part reads decoded, without the header. *)
Definition presented (h : headers) (b : Body) : headers * Body :=
  if EqualFold (hTransferEncoding h) (str "quoted-printable") then (mkHeaders (hContentType h) [] (hDisposition h), decode_quoted b) else (h, b).
(** The loop of [NextPart]: [parts] once a part was read, [expect] after the line end before a boundary. *)
Fixpoint next_parts (fuel : nat) (lf parts expect : bool) (s : bytes) (fails : bool) : list (headers * Body) * bool :=
  match fuel with
  | O => ([], false)
  | S fuel =>
      match read_slice s with
      | TooLong => ([], false)
      | Last _ => ([], negb fails)
      | Line line rest =>
          let lf := lf || negb parts && HasPrefix line dashBoundary && (after_dashes line =s? [10]) in
          if is_delimiter lf line then
            match read_part_headers rest with
            | Ended => ([], negb fails)
            | Malformed => ([], false)
            | Block hs rest =>
                let '(data, more) := part_body lf rest in
                let part := presented (headers_of hs) (mkBody data (bool_decide (more = None))) in
                match more with
                | None => ([part], negb fails)
                | Some rest =>
                    if boFails part.2 then ([part], false)
                    else let '(ps, ended) := next_parts fuel lf true false rest fails in (part :: ps, ended)
                end
            end
          else if is_final lf line then ([], true)
          else if expect then ([], false)
          else if negb parts then next_parts fuel lf parts expect rest fails
          else if line =s? nl lf then next_parts fuel lf parts true rest fails
          else ([], false)
      end
  end.
Definition read_multipart (b : Body) : list (headers * Body) * bool := next_parts (S (length (boData b))) false false false (boData b) (boFails b).
End Multipart.

(** ** Sniffing *)
Definition sniffLen : nat := 512.
Definition white (c : Z) : bool := is_blank c || line_end c || (c =? 12).
(** A signature: bytes that must be there, [-1] for any byte. *)
Fixpoint has_pattern (pattern : list Z) (s : bytes) : bool :=
  match pattern, s with
  | [], _ => true
  | p :: pattern, c :: s => ((p =? -1) || (p =? c)) && has_pattern pattern s
  | _ :: _, [] => false
  end.
Definition html_tags : list string :=
  ["<!DOCTYPE HTML"; "<HTML"; "<HEAD"; "<SCRIPT"; "<IFRAME"; "<H1"; "<DIV"; "<FONT"; "<TABLE"; "<A"; "<STYLE"; "<TITLE"; "<B"; "<BODY"; "<BR"; "<P"; "<!--"]%string.
Fixpoint has_tag (tag s : bytes) : bool :=
  match tag, s with
  | [], c :: _ => (c =? 32) || (c =? 62)
  | t :: tag, c :: s => (t =? if is_upper t then Z.land c 0xDF else c) && has_tag tag s
  | _, [] => false
  end.
Definition any4 : list Z := [-1; -1; -1; -1].
Definition binary_signatures : list (list Z * string) :=
  [(str "%PDF-", "application/pdf"%string); (str "%!PS-Adobe-", "application/postscript"%string);
   ([0xFE; 0xFF; -1; -1], "text/plain; charset=utf-16be"%string); ([0xFF; 0xFE; -1; -1], "text/plain; charset=utf-16le"%string); ([0xEF; 0xBB; 0xBF; -1], "text/plain; charset=utf-8"%string);
   ([0; 0; 1; 0], "image/x-icon"%string); ([0; 0; 2; 0], "image/x-icon"%string); (str "BM", "image/bmp"%string); (str "GIF87a", "image/gif"%string); (str "GIF89a", "image/gif"%string);
   (str "RIFF" ++ any4 ++ str "WEBPVP", "image/webp"%string); ([0x89] ++ str "PNG" ++ [13; 10; 26; 10], "image/png"%string); ([0xFF; 0xD8; 0xFF], "image/jpeg"%string);
   (str "FORM" ++ any4 ++ str "AIFF", "audio/aiff"%string); (str "ID3", "audio/mpeg"%string); (str "OggS" ++ [0], "application/ogg"%string); (str "MThd" ++ [0; 0; 0; 6], "audio/midi"%string);
   (str "RIFF" ++ any4 ++ str "AVI ", "video/avi"%string); (str "RIFF" ++ any4 ++ str "WAVE", "audio/wave"%string)].
(** The signature of MP4 files: a brand of the first box begins with "mp4". *)
Fixpoint mp4_brands (n : nat) (s : bytes) : bool :=
  match n with O => false | S n => HasPrefix s (str "mp4") || mp4_brands n (drop 4 s) end.
Definition is_mp4 (s : bytes) : bool :=
  let boxSize := be_value (take 4 s) in
  if (12 <=? len s) && (boxSize <=? len s) && (boxSize mod 4 =? 0) && HasPrefix (drop 4 s) (str "ftyp")
  then HasPrefix (drop 8 s) (str "mp4") && (8 <? boxSize) || mp4_brands (Z.to_nat ((boxSize - 16) / 4)) (drop 16 s)
  else false.
Definition later_signatures : list (list Z * string) :=
  [([0x1A; 0x45; 0xDF; 0xA3], "video/webm"%string); (replicate 34 (-1) ++ str "LP", "application/vnd.ms-fontobject"%string); ([0; 1; 0; 0], "font/ttf"%string); (str "OTTO", "font/otf"%string);
   (str "ttcf", "font/collection"%string); (str "wOFF", "font/woff"%string); (str "wOF2", "font/woff2"%string); ([0x1F; 0x8B; 8], "application/x-gzip"%string); (str "PK" ++ [3; 4], "application/zip"%string);
   (str "Rar!" ++ [0x1A; 7; 0], "application/x-rar-compressed"%string); (str "Rar!" ++ [0x1A; 7; 1; 0], "application/x-rar-compressed"%string); ([0] ++ str "asm", "application/wasm"%string)].
Definition binary_byte (c : Z) : bool := (c <=? 8) || (c =? 11) || in_range 14 c 26 || in_range 28 c 31.
Definition first_match (signatures : list (list Z * string)) (s : bytes) : option bytes :=
  (fun m => str m.2.2) <$> list_find (fun sig => has_pattern sig.1 s = true) signatures.
Definition sniff (data : bytes) : bytes :=
  let data := take sniffLen data in
  let visible := TrimLeftSet white data in
  if existsb (fun tag => has_tag (str tag) visible) html_tags then str "text/html; charset=utf-8"
  else if HasPrefix visible (str "<?xml") then str "text/xml; charset=utf-8"
  else match first_match binary_signatures data with
       | Some t => t
       | None =>
           if is_mp4 data then str "video/mp4"
           else match first_match later_signatures data with
                | Some t => t
                | None => if existsb binary_byte visible then str "application/octet-stream" else str "text/plain; charset=utf-8"
                end
       end.

#[export] Instance go_mime : MimeLib := {|
  ReadMessage := read_message; ParseMediaType := parse_media_type; multipart := read_multipart;
  base64_decode := decode_base64; quoted_decode := decode_quoted; DetectContentType := sniff
|}.

(** *** Examples *)
Definition text_lines (ls : list string) : bytes := concat ((fun l => (fun c => if c =? 96 then 34 else c) <$> (str l ++ [10])) <$> ls).
Definition sample_mms : bytes := text_lines
  ["Date: Mon, 1 Jan 2024"; "Content-Type: multipart/mixed;"; "  boundary=`=_b;1`"; ""; "preamble"; "--=_b;1"; "Content-Type: text/plain; charset=utf-8"; "";
   "Hello"; "--=_b;12"; "world"; "--=_b;1 "; "Content-Type: application/smil"; ""; "<smil/>"; "--=_b;1"; "content-type: image/gif; name=a.gif"; "Content-Transfer-Encoding: BASE64"; 
   "Content-Disposition: attachment; filename*=utf-8''p%20q.gif"; ""; "R0lG"; "ODlh"; "--=_b;1"; "Content-Type: text/plain"; "Content-Transfer-Encoding: quoted-printable"; ""; 
   "a=C3=A9 ="; "b  "; "--=_b;1--"; "epilogue"]%string.
Example sample_read :
  ParseMMS (mkMessage sample_mms [] [] []) 1024 =
  Ok (mkMessage (str "Hello" ++ [10] ++ str "--=_b;12" ++ [10] ++ str "world" ++ [10] ++ str "a" ++ [195; 169] ++ str " b") [] []
        [mkAttachment (str "image/gif") (str "p q.gif") (str "GIF89a")]).
Proof. vm_compute. reflexivity. Qed.
Example media_types :
  fst <$> parse_media_type (str "Text/HTML ; ") = Some (str "text/html") /\
  fst <$> parse_media_type (str "text/html; a") = None /\ fst <$> parse_media_type (str "text/") = None /\ fst <$> parse_media_type [] = None /\
  fst <$> parse_media_type (str "x; a=1; A=2") = None /\
  (fun r => r.2 (str "name")) <$> parse_media_type (str "x; name*0=a; name*1*=%62; name=c") = Some (str "ab").
Proof. vm_compute. split_and!; reflexivity. Qed.
Example transfer_errors :
  boFails (decode_base64 (mkBody (str "QQ==QQ==") false)) = true /\ decode_base64 (mkBody (str "QUI=" ++ [10]) false) = mkBody (str "AB") false /\
  boFails (decode_base64 (mkBody (str "QUI") false)) = true /\ decode_quoted (mkBody (str "a=3Db=zz=") false) = mkBody (str "a=b=zz") false /\
  boFails (decode_quoted (mkBody [1] false)) = true.
Proof. vm_compute. split_and!; reflexivity. Qed.
Example sniffed :
  sniff (str "GIF89a...") = str "image/gif" /\ sniff (str " <html >") = str "text/html; charset=utf-8" /\ sniff (str "<htmlx") = str "text/plain; charset=utf-8" /\
  sniff [] = str "text/plain; charset=utf-8" /\ sniff [1; 2] = str "application/octet-stream" /\
  sniff ([0; 0; 0; 16] ++ str "ftypmp42" ++ [0; 0; 0; 0]) = str "video/mp4" /\ sniff ([0; 0; 0; 16] ++ str "ftypheic" ++ [0; 0; 0; 0]) = str "application/octet-stream".
Proof. vm_compute. split_and!; reflexivity. Qed.
(** A body that ends before its closing boundary: a part that is not read does not matter, one that is read is an error. *)
Example truncated :
  is_ok (ParseMMS (mkMessage (text_lines ["Content-Type: multipart/x; boundary=b"; ""; "--b"; "Content-Type: application/smil"; ""; "x"]%string) [] [] []) 9) = true /\
  is_ok (ParseMMS (mkMessage (text_lines ["Content-Type: multipart/x; boundary=b"; ""; "--b"; "Content-Type: text/plain"; ""; "x"]%string) [] [] []) 9) = false.
Proof. vm_compute. split; reflexivity. Qed.
End Mime.
