(* ===== verification/MmsRead.v ===== *)
(** * Picture messages are read as they were written

    A picture message the way a phone writes it: a multipart envelope of text parts and of images in base64,
    each between boundary lines.  [ParseMMS] of src/callbridge-sms-go/internal/message/message.go, with the
    MIME readers of [GoMime], gives back the texts and the images, in order. *)

From S2P Require Import Prelude GoStd GoText GoBase64 Message GoMime.
Import Mime.

(** ** Generic facts *)
Lemma CutByte_first a c b : Forall (fun x => x <> c) a -> CutByte (a ++ c :: b) c = Some (a, b).
Proof.
  intros F. unfold CutByte, IndexByte. assert (index_where (Z.eqb c) (a ++ c :: b) = Some (length a)) as ->.
  { induction F as [|x a Hx F IH]; cbn; [by rewrite Z.eqb_refl|]. rewrite (proj2 (Z.eqb_neq c x)) by done. by rewrite IH. }
  rewrite take_app_length. replace (S (length a)) with (length a + 1)%nat by lia. by rewrite <- drop_drop, drop_app_length.
Qed.
Lemma CutByte_none a c : Forall (fun x => x <> c) a -> CutByte a c = None.
Proof.
  intros F. unfold CutByte, IndexByte. rewrite index_where_None; [done|]. apply forallb_Forall_true. eapply Forall_impl; [exact F|].
  intros x Hx. apply negb_true_iff, Z.eqb_neq. done.
Qed.
Lemma HasPrefix_app p s : HasPrefix (p ++ s) p = true.
Proof. induction p as [|c p IH]; [by destruct s|]. cbn. by rewrite Z.eqb_refl. Qed.
Lemma HasPrefix_length s p : HasPrefix s p = true -> (length p <= length s)%nat.
Proof. revert s. induction p as [|c p IH]; intros [|d s]; cbn; try done; [lia..|]. intros [_ H]%andb_true_iff. apply IH in H. lia. Qed.
Lemma HasPrefix_Contains s p : HasPrefix s p = true -> Contains s p = true.
Proof. destruct s; cbn [Contains]; intros ->; done. Qed.
Lemma TrimLeftSet_stop f c s : f c = false -> TrimLeftSet f (c :: s) = c :: s.
Proof. intros E. cbn. by rewrite E. Qed.
Lemma TrimRightSet_stop f s c : f c = false -> TrimRightSet f (s ++ [c]) = s ++ [c].
Proof. intros E. unfold TrimRightSet. rewrite rev_app_distr. cbn [rev app]. rewrite TrimLeftSet_stop by done. cbn [rev]. by rewrite rev_involutive. Qed.

Lemma len_nonempty (s : bytes) : s <> [] -> (len s =? 0) = false.
Proof. destruct s as [|c s]; [done|]. intros _. apply Z.eqb_neq. rewrite len_cons. pose proof (len_nonneg s). lia. Qed.

(** ** Header lines *)

(** A line that is kept as it is: no line feed in it, visible at both ends. *)
Definition solid (line : bytes) : Prop :=
  Forall (fun c => c <> 10) line /\ exists a mid b, line = a :: mid ++ [b] /\ is_blank a = false /\ is_blank b = false /\ b <> 13.
Definition starts_blank (s : bytes) : bool := match s with c :: _ => is_blank c | [] => false end.
Lemma solid_trim line : solid line -> trim line = line.
Proof.
  intros (_ & a & mid & b & -> & Ha & Hb & _). unfold trim. rewrite TrimLeftSet_stop by done.
  change (a :: mid ++ [b]) with ((a :: mid) ++ [b]). by apply TrimRightSet_stop.
Qed.
Lemma read_line_solid line rest : solid line -> read_line (line ++ 10 :: rest) = Some (line, rest).
Proof.
  intros (F & a & mid & b & E & _ & _ & Nb). unfold read_line. rewrite CutByte_first by done.
  assert (drop_cr line = line) as ->.
  { unfold drop_cr. rewrite E. cbn [rev]. rewrite rev_app_distr. cbn [rev app]. destruct b as [|p|p]; [done| |done].
    do 4 (destruct p as [p|p|]; try done). }
  destruct (line ++ 10 :: rest) eqn:El; [by destruct line|]. done.
Qed.
Lemma read_continued_solid line rest : solid line -> starts_blank rest = false -> read_continued (line ++ 10 :: rest) = Some (line, line, rest).
Proof.
  intros S B. unfold read_continued. rewrite read_line_solid by done. cbn [mbind option_bind].
  rewrite (len_nonempty line) by (destruct S as (_ & a & mid & b & -> & _); done).
  rewrite solid_trim by done. assert (continued (length rest) line rest = (line, rest)) as ->; [|done].
  destruct rest as [|c rest]; [done|]. cbn [length continued]. cbn in B. by rewrite B.
Qed.
Lemma read_continued_blank rest : read_continued (10 :: rest) = Some ([], [], rest).
Proof. done. Qed.

(** A header as it is written. *)
Definition header_text (h : header) : bytes := h.1 ++ [58; 32] ++ h.2.
Definition block_text (hs : list header) : bytes := (hs ≫= fun h => header_text h ++ [10]) ++ [10].
Record good_header (h : header) : Prop := {
  gh_name : forallb token_byte h.1 = true; gh_value : forallb value_byte h.2 = true; gh_nonempty : h.1 <> [];
  gh_last : exists mid b, h.2 = mid ++ [b] /\ is_blank b = false; gh_first : starts_blank h.2 = false
}.
Lemma token_byte_plain c : token_byte c = true -> 32 < c < 127 /\ c <> 58 /\ value_byte c = true.
Proof.
  intros T. assert (32 < c < 127 /\ c <> 58) as [B N]; [|split_and!; [lia|lia|done|]; unfold value_byte, in_range; lia].
  unfold token_byte in T. rewrite !orb_true_iff in T. unfold is_upper, is_lower, is_digit, in_range in T.
  destruct T as [[[T|T]|T]|T]; [lia..|]. apply existsb_exists in T as (d & Hd & ->%Z.eqb_eq).
  assert (Forall (fun d => 32 < d < 127 /\ d <> 58) (str "!#$%&'*+-.^_`|~")) as F by (apply (bool_decide_unpack (Forall (fun d => 32 < d < 127 /\ d <> 58) (str "!#$%&'*+-.^_`|~"))); vm_compute; exact I).
  apply (proj1 (List.Forall_forall _ _) F d Hd).
Qed.
Lemma value_byte_plain c : value_byte c = true -> c <> 10 /\ c <> 13.
Proof. unfold value_byte, in_range. lia. Qed.
Lemma header_solid h : good_header h -> solid (header_text h) /\ starts_blank (header_text h) = false.
Proof.
  intros [Gn Gv Ne (mid & b & Ev & Hb) _]. apply forallb_Forall_true in Gn, Gv. unfold header_text. destruct h as [k v]. cbn [fst snd] in *.
  destruct k as [|a k]; [done|]. apply Forall_cons in Gn as [Ha Gn]. apply token_byte_plain in Ha as (Ha & _).
  assert (is_blank a = false) as Ba by (unfold is_blank; lia). split; [split|done].
  - apply Forall_app. split; [constructor; [lia|]; eapply Forall_impl; [exact Gn|]; intros c Hc%token_byte_plain; lia|].
    repeat constructor; [done..|]. eapply Forall_impl; [exact Gv|]. intros c Hc. by apply value_byte_plain in Hc as [? _].
  - exists a, (k ++ [58; 32] ++ mid), b. split_and!; [subst v; cbn; by rewrite <- !app_assoc|done|done|].
    subst v. apply Forall_app in Gv as [_ Gv]. apply Forall_cons in Gv as [Hv _]. by apply value_byte_plain in Hv as [_ ?].
Qed.
Lemma header_cut h : good_header h -> CutByte (header_text h) 58 = Some (h.1, 32 :: h.2) /\ TrimLeftSet is_blank (32 :: h.2) = h.2.
Proof.
  intros [Gn _ _ (mid & b & Ev & Hb) Gf]. split.
  - apply CutByte_first. apply forallb_Forall_true in Gn. eapply Forall_impl; [exact Gn|]. by intros c (_ & ? & _)%token_byte_plain.
  - cbn. destruct h.2 as [|c v]; [done|]. by apply TrimLeftSet_stop.
Qed.
Lemma block_starts hs rest : Forall good_header hs -> starts_blank (block_text hs ++ rest) = false.
Proof.
  intros F. destruct F as [|h hs Hh F]; [done|]. apply header_solid in Hh as [_ B]. unfold block_text. cbn [mbind list_bind].
  rewrite <- !app_assoc. by destruct (header_text h).
Qed.

Lemma mail_headers_read hs rest fuel :
  Forall good_header hs -> (length hs < fuel)%nat -> mail_headers fuel (block_text hs ++ rest) = Some (hs, rest, true).
Proof.
  intros F. revert fuel. induction F as [|h hs Hh F IH]; intros fuel L; (destruct fuel as [|fuel]; [lia|]); [done|].
  destruct (header_solid h Hh) as [S _], (header_cut h Hh) as [C T]. cbn [mail_headers].
  assert (block_text (h :: hs) ++ rest = header_text h ++ 10 :: (block_text hs ++ rest)) as ->.
  { unfold block_text. cbn [mbind list_bind]. by rewrite <- !app_assoc. }
  rewrite read_continued_solid by (done || by apply block_starts).
  rewrite (len_nonempty (header_text h)) by (destruct S as (_ & a & mid & b & -> & _); done).
  rewrite C, IH by (cbn in L; lia). cbn [mbind option_bind]. rewrite T.
  rewrite (len_nonempty h.1) by apply Hh. by destruct h.
Qed.
Lemma part_headers_read hs rest fuel allowed :
  Forall good_header hs -> (length hs < fuel)%nat -> Z.of_nat (length hs) <= allowed -> part_headers fuel allowed (block_text hs ++ rest) = Block hs rest.
Proof.
  intros F. revert fuel allowed. induction F as [|h hs Hh F IH]; intros fuel allowed L A; (destruct fuel as [|fuel]; [lia|]); [done|].
  destruct (header_solid h Hh) as [S _], (header_cut h Hh) as [C T]. cbn [part_headers].
  assert (block_text (h :: hs) ++ rest = header_text h ++ 10 :: (block_text hs ++ rest)) as ->.
  { unfold block_text. cbn [mbind list_bind]. by rewrite <- !app_assoc. }
  rewrite read_continued_solid by (done || by apply block_starts).
  rewrite (len_nonempty (header_text h)) by (destruct S as (_ & a & mid & b & -> & _); done). rewrite C.
  rewrite (len_nonempty h.1) by apply Hh. cbn [length] in L, A. rewrite (proj2 (Z.ltb_ge allowed 1)) by lia.
  assert (forallb (fun c => token_byte c || (c =? 32)) h.1 = true) as ->.
  { apply forallb_Forall_true. eapply Forall_impl; [apply forallb_Forall_true, (gh_name h Hh)|]. intros c Hc. cbn in Hc. by rewrite Hc. }
  assert (forallb value_byte (32 :: h.2) = true) as -> by (cbn; apply (gh_value h Hh)).
  cbn [negb orb]. rewrite T, IH by lia. by destruct h.
Qed.
Lemma block_length hs rest : (length hs < length (block_text hs ++ rest))%nat.
Proof.
  unfold block_text. rewrite !length_app. cbn [length]. induction hs as [|h hs IH]; [cbn; lia|].
  rewrite bind_cons, !length_app. cbn [length]. lia.
Qed.
Lemma read_part_headers_read hs rest :
  Forall good_header hs -> hs <> [] -> Z.of_nat (length hs) <= maximumHeaders -> read_part_headers (block_text hs ++ rest) = Block hs rest.
Proof.
  intros F N A. pose proof (block_starts hs rest F) as B. pose proof (block_length hs rest) as L. unfold read_part_headers.
  destruct (block_text hs ++ rest) as [|c s] eqn:E; [cbn in L; lia|]. cbn in B. rewrite B, <- E. apply part_headers_read; [done| |done]. rewrite E. lia.
Qed.
Lemma read_message_read hs rest : Forall good_header hs -> read_message (block_text hs ++ rest) = Some (headers_of hs, rest).
Proof.
  intros F. pose proof (block_starts hs rest F) as B. pose proof (block_length hs rest) as L. unfold read_message.
  destruct (block_text hs ++ rest) as [|c s] eqn:E; [cbn in L; lia|]. cbn in B. rewrite B, <- E.
  rewrite mail_headers_read by (done || (rewrite E; lia)). done.
Qed.

(** ** Media types with one quoted parameter *)
Definition quotable (c : Z) : bool := in_range 32 c 126 && negb (c =? 34) && negb (c =? 92).
Lemma quoted_read v rest : forallb quotable v = true -> quoted (v ++ 34 :: rest) = Some (v, rest).
Proof.
  intros F%forallb_Forall_true. induction F as [|c v Hc F IH]; [done|]. unfold quotable, in_range in Hc. cbn [app quoted].
  rewrite (proj2 (Z.eqb_neq c 34)), (proj2 (Z.eqb_neq c 13)), (proj2 (Z.eqb_neq c 10)), (proj2 (Z.eqb_neq c 92)) by lia. cbn [orb]. by rewrite IH.
Qed.
Lemma token_read k c rest : forallb token_char k = true -> token_char c = false -> token (k ++ c :: rest) = (k, c :: rest).
Proof. intros F%forallb_Forall_true N. induction F as [|x k Hx F IH]; cbn; [by rewrite N|]. by rewrite Hx, IH. Qed.
Lemma TrimLeftSpace_stop c s : 0 <= c < RuneSelf -> IsSpace c = false -> TrimLeftSpace (c :: s) = c :: s.
Proof. intros B N. unfold TrimLeftSpace. cbn [length trim_left_loop]. rewrite DecodeRune_ascii by done. by rewrite N. Qed.
Lemma TrimLeftSpace_blank c s : 0 <= c < RuneSelf -> IsSpace c = false -> TrimLeftSpace (32 :: c :: s) = c :: s.
Proof. intros B N. unfold TrimLeftSpace. cbn [length trim_left_loop]. rewrite (DecodeRune_ascii 32) by done. change (IsSpace 32) with true. cbn [drop]. rewrite DecodeRune_ascii by done. by rewrite N. Qed.

(** The names of parameters that are used. *)
Definition plain_key (k : bytes) : bool := negb (len k =? 0) && forallb is_lower k.
Lemma special_lower c : is_lower c = true -> special c = false.
Proof.
  intros Hc. apply not_true_iff_false. intros (d & Hd & ->%Z.eqb_eq)%existsb_exists.
  assert (forallb (fun d => negb (is_lower d)) (34 :: str "()<>@,;:\/[]?=") = true) as F by (vm_compute; reflexivity).
  apply (proj1 (forallb_forall _ _)) with (x := d) in F; [|done]. by rewrite Hc in F.
Qed.
Lemma lower_key k : plain_key k = true -> ToLowerText k = k /\ forallb token_char k = true /\ exists c k', k = c :: k' /\ is_lower c = true.
Proof.
  unfold plain_key. intros [N F]%andb_true_iff. apply forallb_Forall_true in F. split_and!.
  - unfold ToLowerText. rewrite runes_ascii by (eapply Forall_impl; [exact F|]; intros c Hc; unfold is_lower, in_range, RuneSelf in *; lia).
    clear N. induction F as [|c k Hc F IH]; [done|]. cbn [fmap list_fmap]. unfold string_of_runes in *. cbn [mbind list_bind]. rewrite IH.
    unfold lower_rune. assert (is_upper c = false) as -> by (unfold is_lower, is_upper, in_range in *; lia).
    rewrite (proj2 (Z.eqb_neq c 0x130)), (proj2 (Z.eqb_neq c 0x212a)) by (unfold is_lower, in_range in Hc; lia).
    by rewrite encode_ascii by (unfold is_lower, in_range, RuneSelf in *; lia).
  - apply forallb_Forall_true. eapply Forall_impl; [exact F|]. intros c Hc. unfold token_char. rewrite special_lower by done. unfold is_lower, in_range in *. lia.
  - destruct F as [|c k Hc F]; [done|]. by exists c, k.
Qed.
Definition param_text (k v : bytes) : bytes := [59; 32] ++ k ++ [61; 34] ++ v ++ [34].
Lemma media_param_read k v : plain_key k = true -> forallb quotable v = true -> media_param (param_text k v) = Some (k, v, []).
Proof.
  intros K V. destruct (lower_key k K) as (Lo & Tk & c & k' & Ek & Hc). unfold media_param, param_text. cbn [app].
  rewrite TrimLeftSpace_stop, next_is_hit by done. cbn [mbind option_bind].
  assert (0 <= c < RuneSelf /\ IsSpace c = false) as [Bc Sc] by (unfold IsSpace, is_lower, in_range, RuneSelf in *; lia).
  assert (TrimLeftSpace (32 :: k ++ 61 :: 34 :: v ++ [34]) = k ++ 61 :: 34 :: v ++ [34]) as -> by (rewrite Ek; by apply TrimLeftSpace_blank).
  rewrite token_read by done. rewrite (len_nonempty k) by (by rewrite Ek). rewrite TrimLeftSpace_stop, next_is_hit by done. cbn [mbind option_bind]. cbv zeta.
  rewrite TrimLeftSpace_stop, next_is_hit by done. rewrite quoted_read by done. cbn [mbind option_bind]. by rewrite Lo.
Qed.
(** The type before the parameter. *)
Record plain_type (base : bytes) : Prop := {
  pt_cut : Forall (fun c => c <> 59) base; pt_lower : TrimSpace (ToLowerText base) = base; pt_ok : media_type_ok base = true
}.
Lemma parse_media_type_read base k v :
  plain_type base -> plain_key k = true -> forallb quotable v = true ->
  parse_media_type (base ++ param_text k v) = Some (base, lookup_param [(k, v)]).
Proof.
  intros [C L O] K V. unfold parse_media_type.
  assert (CutByte (base ++ param_text k v) 59 = Some (base, drop 1 (param_text k v))) as -> by (by apply CutByte_first). cbv zeta.
  rewrite L, O. cbn [negb]. rewrite drop_app_length. rewrite length_app.
  assert (exists n, (S (length base + length (param_text k v)) = S (S n))%nat) as (n & ->) by (exists (length base + length (param_text k v) - 1)%nat; unfold param_text; cbn [length app]; lia).
  cbn [media_params]. cbv zeta.
  assert (TrimLeftSpace (param_text k v) = param_text k v) as -> by (unfold param_text; cbn [app]; by apply TrimLeftSpace_stop).
  rewrite len_nonempty by done. rewrite media_param_read by done. done.
Qed.
Lemma lookup_param_read k v : lookup_param [(k, v)] k = v.
Proof.
  unfold lookup_param. assert (forall x : bytes, x <> [] -> value_of (k ++ x) [(k, v)] = None) as No.
  { intros x Nx. unfold value_of. cbn. rewrite decide_False; [done|]. intros E. apply Nx, (app_inv_head k). by rewrite <- E, app_nil_r. }
  rewrite No by done. cbn [length pieces]. rewrite !No by (by destruct (Itoa 0)).
  unfold value_of. cbn. by rewrite decide_True.
Qed.

(** ** Multipart bodies *)
Section Parts.
Variable boundary : bytes.
Hypothesis boundary_chars : forallb quotable boundary = true.
Hypothesis boundary_length : 1 <= len boundary <= 200.
#[local] Abbreviation dash := (dashBoundary boundary).

(** A part: its headers and its body, which does not have the boundary at the beginning of a line. *)
Definition part_text (p : list header * bytes) : bytes := dash ++ [10] ++ block_text p.1 ++ p.2 ++ [10].
Definition document (ps : list (list header * bytes)) : bytes := (ps ≫= part_text) ++ dash ++ [45; 45].
Record good_part (p : list header * bytes) : Prop := {
  gp_headers : Forall good_header p.1; gp_some : p.1 <> []; gp_count : Z.of_nat (length p.1) <= maximumHeaders;
  gp_encoding : EqualFold (hTransferEncoding (headers_of p.1)) (str "quoted-printable") = false;
  gp_body : Contains (10 :: p.2) (10 :: dash) = false
}.

Lemma dash_lines : Forall (fun c => c <> 10) dash.
Proof.
  unfold dashBoundary. repeat constructor; try done. eapply Forall_impl; [apply forallb_Forall_true, boundary_chars|].
  intros c Hc. unfold quotable, in_range in Hc. lia.
Qed.
Lemma dash_size : len dash <= 202.
Proof. unfold dashBoundary. rewrite len_app. change (len [45; 45]) with 2. lia. Qed.
Lemma boundary_line rest : read_slice (dash ++ 10 :: rest) = Line (dash ++ [10]) rest.
Proof. unfold read_slice. rewrite CutByte_first by apply dash_lines. rewrite (proj2 (Z.ltb_lt _ _)); [done|]. pose proof dash_size. unfold bufferSize. lia. Qed.
Lemma boundary_end rest : after_dashes boundary (dash ++ rest) = TrimLeftSet is_blank rest.
Proof. unfold after_dashes. by rewrite drop_app_length. Qed.
Lemma last_line : read_slice (dash ++ [45; 45]) = Last (dash ++ [45; 45]).
Proof.
  unfold read_slice. rewrite CutByte_none by (apply Forall_app; split; [apply dash_lines|by repeat constructor]). rewrite (proj2 (Z.ltb_lt _ _)); [done|].
  rewrite len_app. pose proof dash_size. change (len [45; 45]) with 2. unfold bufferSize. lia.
Qed.

(** A boundary ends where the line does, or at two dashes. *)
Definition ends_boundary (tail : bytes) : Prop := (exists rest, tail = 10 :: rest) \/ tail = [45; 45].
Lemma part_body_read body tail :
  Contains (10 :: body) (10 :: dash) = false -> ends_boundary tail ->
  part_body boundary true (body ++ 10 :: dash ++ tail) = (body, Some (10 :: dash ++ tail)).
Proof.
  intros C T. cbn [Contains] in C. apply orb_false_iff in C as [C1 C2]. cbn [HasPrefix] in C1. rewrite Z.eqb_refl in C1. cbn [andb] in C1.
  unfold part_body. assert (HasPrefix (body ++ 10 :: dash ++ tail) dash = false) as ->.
  { apply not_true_iff_false. intros P. apply HasPrefix_app_inv in P as [P | (w & E & N & P)]; [congruence|].
    destruct w as [|x w]; [done|]. cbn [HasPrefix] in P. apply andb_true_iff in P as [->%Z.eqb_eq _].
    pose proof dash_lines as D. rewrite E in D. apply Forall_app in D as [_ [D _]%Forall_cons]. done. }
  assert (HasPrefix dash (body ++ 10 :: dash ++ tail) = false) as ->.
  { apply not_true_iff_false. intros P%HasPrefix_length. rewrite !length_app in P. cbn [length] in P. rewrite length_app in P. lia. }
  assert (length (body ++ 10 :: dash ++ tail) = S (length body + length (dash ++ tail))) as -> by (rewrite length_app; cbn [length]; lia).
  cbn [scan_body]. unfold nlDashBoundary. cbn [nl app]. change (body ++ 10 :: dash ++ tail) with (body ++ (10 :: dash) ++ tail).
  rewrite (Index_first body 10 dash tail) by (done || apply dash_lines). cbv zeta.
  rewrite take_app_length, drop_app_length, app_assoc, <- length_app, drop_app_length.
  assert (matchAfterPrefix tail = Some true) as ->; [|done]. by destruct T as [(rest & ->) | ->].
Qed.

Lemma document_starts ps : exists tail, document ps = dash ++ tail /\ ends_boundary tail.
Proof.
  destruct ps as [|p ps]; [by exists [45; 45]; split; [|right]|]. unfold document. rewrite bind_cons. unfold part_text at 1. rewrite <- !app_assoc. cbn [app].
  eexists. split; [done|]. left. by eexists.
Qed.
Lemma next_part fuel lf seen expect p ps :
  (lf = true \/ seen = false) -> good_part p ->
  next_parts boundary (S (S fuel)) lf seen expect (document (p :: ps)) false =
    let '(more, ended) := next_parts boundary fuel true true true (document ps) false in ((headers_of p.1, mkBody p.2 false) :: more, ended).
Proof.
  intros Hl [G1 G2 G3 G4 G5]. destruct p as [hs body]. cbn [fst snd] in *. destruct (document_starts ps) as (tail & E & T).
  assert (document ((hs, body) :: ps) = dash ++ 10 :: block_text hs ++ body ++ 10 :: dash ++ tail) as ->.
  { unfold document in *. rewrite bind_cons. unfold part_text at 1. cbn [fst snd]. rewrite <- !app_assoc, E. by cbn [app]. }
  remember (S fuel) as f1 eqn:Ef. cbn [next_parts]. rewrite boundary_line. cbv zeta. rewrite boundary_end, HasPrefix_app.
  change (TrimLeftSet is_blank [10]) with [10 : Z]. assert (lf || negb seen && true && ([10] =s? [10]) = true) as -> by (destruct Hl as [-> | ->]; [done|by rewrite orb_true_r]).
  unfold is_delimiter. rewrite HasPrefix_app, boundary_end. cbn [andb]. change (TrimLeftSet is_blank [10] =s? nl true) with true. cbv iota.
  rewrite read_part_headers_read by done. rewrite part_body_read by done. unfold presented. rewrite G4. cbn [snd boFails fst].
  rewrite bool_decide_eq_false_2 by done. subst f1. rewrite E. cbn [next_parts].
  assert (read_slice (10 :: dash ++ tail) = Line [10] (dash ++ tail)) as -> by done. cbv zeta. cbn [orb].
  assert (is_delimiter boundary true [10] = false) as -> by done. assert (is_final boundary true [10] = false) as -> by done. done.
Qed.
Lemma read_document ps :
  Forall good_part ps -> read_multipart boundary (mkBody (document ps) false) = ((fun p => (headers_of p.1, mkBody p.2 false)) <$> ps, true).
Proof.
  intros F. unfold read_multipart. cbn [boData boFails].
  assert (forall fuel lf seen expect, (2 * length ps < fuel)%nat -> lf = true \/ seen = false ->
    next_parts boundary fuel lf seen expect (document ps) false = ((fun p => (headers_of p.1, mkBody p.2 false)) <$> ps, true)) as Go.
  { induction F as [|p ps Hp F IH]; intros fuel lf seen expect L Hl.
    - destruct fuel as [|fuel]; [lia|]. cbn [next_parts]. unfold document. cbn [mbind list_bind app]. by rewrite last_line.
    - cbn [length] in L. destruct fuel as [|[|fuel]]; [lia..|]. rewrite next_part by done. rewrite IH by (lia || by left). done. }
  apply Go; [|by right]. assert (2 * length ps <= length (document ps))%nat; [|lia]. unfold document. rewrite length_app.
  clear F Go. induction ps as [|p ps IH]; [cbn; lia|]. rewrite bind_cons, length_app.
  assert (2 <= length (part_text p))%nat by (unfold part_text; rewrite !length_app; cbn [length]; lia). cbn [length]. lia.
Qed.
End Parts.

(** ** Messages *)
Inductive piece := Words (t : bytes) | Picture (type name data encoded : bytes).
Definition content_type (v : bytes) : header := (str "Content-Type", v).
Definition piece_part (p : piece) : list header * bytes :=
  match p with
  | Words t => ([content_type (str "text/plain" ++ param_text (str "charset") (str "utf-8"))], t)
  | Picture type name _ encoded =>
      ([content_type (type ++ param_text (str "name") name); (str "Content-Transfer-Encoding", str "base64")], encoded)
  end.
(** The envelope: headers of the message, then the type with the boundary. *)
Record mms := mkMms { mmHeaders : list header; mmType : bytes; mmBoundary : bytes; mmPieces : list piece }.
Definition multipart_types : list bytes := str <$> ["multipart/mixed"; "multipart/related"; "multipart/alternative"]%string.
Definition envelope (m : mms) : list header := mmHeaders m ++ [content_type (mmType m ++ param_text (str "boundary") (mmBoundary m))].
Definition mms_text (m : mms) : bytes := block_text (envelope m) ++ document (mmBoundary m) (piece_part <$> mmPieces m).

(** A text in which no line begins with the boundary; an image that is what its type says, in base64 with line ends anywhere. *)
Definition good_piece (maximum : Z) (boundary : bytes) (p : piece) : Prop :=
  match p with
  | Words t =>
      valid_utf8 t = true /\ len t <= maxMMSTextBytes /\ Contains (10 :: t) (10 :: dashBoundary boundary) = false
  | Picture type name data encoded =>
      supportedImageType type data = Some type /\ forallb quotable name = true /\
      all_bytes data /\ 1 <= len data <= maximum /\ List.filter (fun c => negb (line_end c)) encoded = EncodeToString data
  end.
Definition words (ps : list piece) : list bytes := ps ≫= fun p => match p with Words t => match TrimSpace t with [] => [] | v => [v] end | _ => [] end.
Definition pictures (ps : list piece) : list Attachment :=
  ps ≫= fun p => match p with Picture type name data _ => [mkAttachment type (safeFilename name) data] | _ => [] end.

Lemma supported_allowed type data : supportedImageType type data = Some type -> type ∈ allowed_images.
Proof. apply supportedImageType_allowed. Qed.
(** Every type that is allowed is written plainly. *)
Lemma allowed_plain type : type ∈ allowed_images ->
  plain_type type /\ forallb value_byte type = true /\ ToLowerText type = type /\ HasPrefix type (str "multipart/") = false /\
  (type =s? str "text/plain") = false /\ HasPrefix type (str "image/") = true /\ starts_blank type = false.
Proof.
  unfold allowed_images. cbn [fmap list_fmap]. rewrite !elem_of_cons, elem_of_nil.
  intros [-> | [-> | [-> | [-> | [-> | [-> | []]]]]]]; (split_and!; [constructor; [apply (bool_decide_unpack (Forall (fun c => c <> 59) _)); vm_compute; exact I|vm_compute; reflexivity..]|vm_compute; reflexivity..]).
Qed.
Lemma good_content_type base k v :
  base <> [] -> starts_blank base = false -> forallb value_byte base = true -> plain_key k = true -> forallb quotable v = true ->
  good_header (content_type (base ++ param_text k v)).
Proof.
  intros N B Vb K V. destruct (lower_key k K) as (_ & _ & _). unfold plain_key in K. apply andb_true_iff in K as [_ K].
  constructor; cbn [fst snd content_type].
  - vm_compute. reflexivity.
  - apply forallb_Forall_true. unfold param_text. rewrite !Forall_app. apply forallb_Forall_true in Vb, K, V. split_and!; try done; try (repeat constructor; done).
    + eapply Forall_impl; [exact K|]. intros c Hc. unfold value_byte, is_lower, in_range in *. lia.
    + eapply Forall_impl; [exact V|]. intros c Hc. unfold value_byte, quotable, in_range in *. lia.
  - discriminate.
  - exists (base ++ [59; 32] ++ k ++ [61; 34] ++ v), 34. split; [|done]. unfold param_text. by rewrite <- !app_assoc.
  - by destruct base.
Qed.
Lemma encoded_lines data encoded boundary :
  all_bytes data -> List.filter (fun c => negb (line_end c)) encoded = EncodeToString data ->
  Contains (10 :: encoded) (10 :: dashBoundary boundary) = false.
Proof.
  intros B E. assert (Forall (fun c => c <> 45) encoded) as F.
  { assert (Forall (fun c => c <> 45) (EncodeToString data)) as F.
    { apply EncodeToString_chars; [|done|done]. intros v Hv. unfold base64_digit. repeat case_match; bool_prop; lia. }
    rewrite <- E in F. clear E B. induction encoded as [|c encoded IH]; [constructor|]. cbn [List.filter] in F. unfold line_end in F at 1.
    destruct ((c =? 10) || (c =? 13)) eqn:L; cbn [negb] in F.
    - constructor; [lia|by apply IH].
    - apply Forall_cons in F as [Fc F]. constructor; [done|by apply IH]. }
  assert (Forall (fun c => c <> 45) (10 :: encoded)) as G by (constructor; done). clear F E. revert G. generalize (10 :: encoded) as s. intros s G.
  induction G as [|c s Hc G IH]; [done|]. cbn [Contains]. rewrite IH, orb_false_r. destruct s as [|d s]; [cbn; by rewrite andb_false_r|].
  unfold dashBoundary. cbn [app HasPrefix]. apply Forall_cons in G as [Hd _]. assert ((45 =? d) = false) as -> by lia. by rewrite andb_false_r.
Qed.
Lemma good_piece_part maximum boundary p : good_piece maximum boundary p -> good_part boundary (piece_part p).
Proof.
  destruct p as [t|type name data encoded]; cbn [good_piece piece_part].
  - intros (_ & _ & C). constructor; cbn [fst snd]; [|done|vm_compute; discriminate|vm_compute; reflexivity|done].
    apply Forall_singleton, good_content_type; vm_compute; (reflexivity || discriminate).
  - intros (Su & Q & B & _ & E). apply supported_allowed, allowed_plain in Su as ([_ _ Ok] & Vb & _ & _ & _ & _ & St).
    constructor; cbn [fst snd]; [|done|vm_compute; discriminate|vm_compute; reflexivity|by eapply encoded_lines].
    apply Forall_cons_2; [|apply Forall_singleton; constructor; try (vm_compute; reflexivity); [discriminate|by exists (str "base6"), 52]].
    apply good_content_type; try done. by intros ->.
Qed.

(** What a piece adds to the collector. *)
Definition collected (c : mimeCollector) (p : piece) : mimeCollector :=
  mkCollector (mcParts c + 1) (mcTotal c + attachment_bytes (pictures [p])) (mcText c ++ words [p]) (mcAttachments c ++ pictures [p]).
Lemma walk_media allowed maximum c h body base k v :
  hContentType h = base ++ param_text k v -> plain_type base -> ToLowerText base = base -> HasPrefix base (str "multipart/") = false ->
  plain_key k = true -> forallb quotable v = true -> mcParts c < maxMIMEParts ->
  walk (S allowed) maximum c h body = walk_leaf maximum (c <| mcParts := mcParts c + 1 |>) h base (lookup_param [(k, v)]) body.
Proof.
  intros E T L N K V P. cbn [walk]. cbv zeta. cbn [mcParts update]. rewrite (proj2 (Z.ltb_ge _ _)) by (cbn; lia).
  cbn [ParseMediaType go_mime]. rewrite E, parse_media_type_read by done. by rewrite L, N.
Qed.
Lemma text_plain : plain_type (str "text/plain").
Proof. constructor; [apply (bool_decide_unpack (Forall (fun c => c <> 59) _)); vm_compute; exact I|vm_compute; reflexivity..]. Qed.
Lemma walk_words allowed maximum boundary c t :
  good_piece maximum boundary (Words t) -> mcParts c < maxMIMEParts ->
  walk (S allowed) maximum c (headers_of (piece_part (Words t)).1) (mkBody t false) = Ok (collected c (Words t)).
Proof.
  intros (U & L & _) P. rewrite (walk_media _ _ _ _ _ (str "text/plain") (str "charset") (str "utf-8"));
    [|vm_compute; reflexivity|apply text_plain|vm_compute; reflexivity..|done].
  unfold walk_leaf. assert (transferDecoded (hTransferEncoding (headers_of (piece_part (Words t)).1)) (mkBody t false) = Ok (mkBody t false)) as -> by (vm_compute; reflexivity).
  change (str "text/plain" =s? str "text/plain") with true. cbv iota. unfold readBounded. cbn [boData boFails]. rewrite (proj2 (Z.ltb_ge _ _)) by done.
  rewrite U. cbn [negb]. unfold collected, words, pictures. cbn [mbind list_bind]. rewrite !app_nil_r. cbn [attachment_bytes foldr]. rewrite Z.add_0_r.
  destruct (TrimSpace t); cbn; by rewrite ?app_nil_r.
Qed.
Lemma decoded_picture data encoded :
  all_bytes data -> List.filter (fun c => negb (line_end c)) encoded = EncodeToString data ->
  transferDecoded (str "base64") (mkBody encoded false) = Ok (mkBody data false).
Proof.
  intros B E. assert (transferDecoded (str "base64") (mkBody encoded false) = Ok (decode_base64 (mkBody encoded false))) as -> by done.
  unfold decode_base64. cbn [boData boFails]. by rewrite E, base64_roundtrip.
Qed.
Lemma walk_picture allowed maximum boundary c type name data encoded :
  let p := Picture type name data encoded in
  good_piece maximum boundary p -> mcParts c < maxMIMEParts -> len (mcAttachments c) < MaxMMSAttachments ->
  mcTotal c + len data <= maxMMSTotalBytes ->
  walk (S allowed) maximum c (headers_of (piece_part p).1) (mkBody encoded false) = Ok (collected c p).
Proof.
  intros p (Su & Q & B & L & E) P N T. pose proof (allowed_plain _ (supported_allowed _ _ Su)) as (Pt & _ & Lo & Nm & Nt & Im & _).
  rewrite (walk_media _ _ _ _ _ type (str "name") name) by (done || (vm_compute; reflexivity)). unfold walk_leaf.
  assert (hTransferEncoding (headers_of (piece_part p).1) = str "base64") as -> by (vm_compute; reflexivity).
  assert (hDisposition (headers_of (piece_part p).1) = []) as -> by (vm_compute; reflexivity).
  rewrite (decoded_picture data) by done. rewrite Nt, Im. cbn [negb andb]. unfold readBounded. cbn [boData boFails]. rewrite (proj2 (Z.ltb_ge _ _)) by lia.
  destruct data as [|d data]; [exfalso; change (len []) with 0 in L; lia|]. rewrite Su. cbn [mcAttachments update]. rewrite (proj2 (Z.leb_gt _ _)) by (cbn -[len]; lia).
  cbv zeta. rewrite (proj2 (Z.ltb_ge _ _)) by (cbn -[len]; lia). rewrite lookup_param_read.
  assert (ParseMediaType [] = None) as -> by (vm_compute; reflexivity).
  unfold collected, p, words, pictures. cbn -[len]. by rewrite Z.add_0_r, app_nil_r.
Qed.

Lemma words_cons p ps : words (p :: ps) = words [p] ++ words ps.
Proof. unfold words. by rewrite !bind_cons, app_nil_r. Qed.
Lemma pictures_cons p ps : pictures (p :: ps) = pictures [p] ++ pictures ps.
Proof. unfold pictures. by rewrite !bind_cons, app_nil_r. Qed.
Lemma attachment_bytes_nonneg l : 0 <= attachment_bytes l.
Proof. unfold attachment_bytes. induction l as [|a l IH]; cbn; [lia|]. pose proof (len_nonneg (atData a)). lia. Qed.
Lemma walk_piece allowed maximum boundary c p :
  good_piece maximum boundary p -> mcParts c < maxMIMEParts -> len (mcAttachments c) + len (pictures [p]) <= MaxMMSAttachments ->
  mcTotal c + attachment_bytes (pictures [p]) <= maxMMSTotalBytes ->
  walk (S allowed) maximum c (headers_of (piece_part p).1) (mkBody (piece_part p).2 false) = Ok (collected c p).
Proof.
  intros G P N T. destruct p as [t|type name data encoded]; [by eapply walk_words|].
  eapply walk_picture; [done|done|..]; cbn in N, T; change (len [_]) with 1 in *; lia.
Qed.
Lemma walk_pieces allowed maximum boundary ps c :
  Forall (good_piece maximum boundary) ps -> mcParts c + Z.of_nat (length ps) <= maxMIMEParts ->
  len (mcAttachments c) + len (pictures ps) <= MaxMMSAttachments -> mcTotal c + attachment_bytes (pictures ps) <= maxMMSTotalBytes ->
  foldl (fun rc part => let! c := rc in walk (S allowed) maximum c part.1 part.2) (Ok c)
    ((fun p => (headers_of p.1, mkBody p.2 false)) <$> (piece_part <$> ps)) =
  Ok (mkCollector (mcParts c + Z.of_nat (length ps)) (mcTotal c + attachment_bytes (pictures ps)) (mcText c ++ words ps) (mcAttachments c ++ pictures ps)).
Proof.
  intros F. revert c. induction F as [|p ps Hp F IH]; intros c P N T.
  - cbn. by rewrite !app_nil_r, !Z.add_0_r; destruct c.
  - rewrite pictures_cons in N, T. rewrite len_app in N. rewrite attachment_bytes_app in T. cbn [length] in P.
    pose proof (attachment_bytes_nonneg (pictures ps)). pose proof (len_nonneg (pictures ps)).
    rewrite !fmap_cons. cbn [foldl result_bind fst snd]. rewrite (walk_piece _ _ boundary) by (done || lia).
    rewrite IH by (unfold collected; cbn [mcParts mcTotal mcAttachments]; rewrite ?len_app; lia).
    rewrite (words_cons p ps), (pictures_cons p ps), attachment_bytes_app. unfold collected. cbn [mcParts mcTotal mcText mcAttachments length].
    rewrite <- !app_assoc. f_equal. f_equal; lia.
Qed.

(** *** The envelope *)
Record good_mms (maximum : Z) (m : mms) : Prop := {
  gm_headers : Forall good_header (mmHeaders m); gm_once : Forall (fun h => ToLower h.1 <> str "content-type") (mmHeaders m);
  gm_type : mmType m ∈ multipart_types; gm_boundary : forallb quotable (mmBoundary m) = true; gm_size : 1 <= len (mmBoundary m) <= 200;
  gm_pieces : Forall (good_piece maximum (mmBoundary m)) (mmPieces m); gm_count : 1 + Z.of_nat (length (mmPieces m)) <= maxMIMEParts;
  gm_pictures : len (pictures (mmPieces m)) <= MaxMMSAttachments; gm_bytes : attachment_bytes (pictures (mmPieces m)) <= maxMMSTotalBytes
}.
Lemma multipart_plain type : type ∈ multipart_types ->
  plain_type type /\ forallb value_byte type = true /\ ToLowerText type = type /\ HasPrefix type (str "multipart/") = true /\ starts_blank type = false /\ 
  exists c rest, type = c :: rest /\ 32 < c < 127.
Proof.
  unfold multipart_types. cbn [fmap list_fmap]. rewrite !elem_of_cons, elem_of_nil.
  intros [-> | [-> | [-> | []]]]; (split_and!; [constructor; [apply (bool_decide_unpack (Forall (fun c => c <> 59) _)); vm_compute; exact I|vm_compute; reflexivity..]|vm_compute; reflexivity..|by do 2 eexists]).
Qed.
Section Envelope.
Context (maximum : Z) (m : mms) (Good : good_mms maximum m).

Lemma envelope_good : Forall good_header (envelope m).
Proof using Good.
  apply Forall_app. split; [apply Good|]. apply Forall_singleton. pose proof (multipart_plain _ (gm_type _ _ Good)) as (_ & V & _ & _ & St & c & rest & E & _).
  apply good_content_type; [by rewrite E|done|done|vm_compute; reflexivity|apply Good].
Qed.
Lemma envelope_type : hContentType (headers_of (envelope m)) = mmType m ++ param_text (str "boundary") (mmBoundary m).
Proof using Good.
  unfold headers_of, envelope. cbn [hContentType]. unfold get. induction (gm_once _ _ Good) as [|h hs Hh F IH].
  - vm_compute. reflexivity.
  - cbn [app list_find]. rewrite decide_False by done. revert IH. destruct (list_find _ _) as [[i h']|]; done.
Qed.
Lemma mms_trim : TrimSpace (mms_text m) = mms_text m.
Proof using Good.
  assert (exists a mid, mms_text m = a :: mid ++ [45] /\ 32 < a < 127) as (a & mid & -> & A).
  { pose proof (envelope_good) as G. destruct (envelope m) as [|h hs] eqn:E; [by apply app_eq_nil in E as [_ E]|].
    apply Forall_cons in G as [[T _ N _ _] _]. destruct h as [[|a k] v]; [done|]. cbn [fst forallb] in T.
    apply andb_true_iff in T as [T _]. apply token_byte_plain in T as (T & _).
    exists a, (k ++ [58; 32] ++ v ++ [10] ++ block_text hs ++ ((piece_part <$> mmPieces m) ≫= part_text (mmBoundary m)) ++ dashBoundary (mmBoundary m) ++ [45]).
    split; [|done]. unfold mms_text, document, block_text. rewrite E, bind_cons. unfold header_text. cbn [fst snd]. by rewrite <- ?app_assoc. }
  apply TrimSpace_visible; unfold IsSpace, in_range, RuneSelf; try done; lia.
Qed.
Lemma envelope_visible : (len (TrimSpace (mmType m ++ param_text (str "boundary") (mmBoundary m))) =? 0) = false.
Proof using Good.
  pose proof (multipart_plain _ (gm_type _ _ Good)) as (_ & _ & _ & _ & _ & c & rest & -> & C). apply len_nonempty.
  assert (param_text (str "boundary") (mmBoundary m) = ([59; 32] ++ str "boundary" ++ [61; 34] ++ mmBoundary m) ++ [34]) as -> by (unfold param_text; by rewrite <- !app_assoc).
  rewrite app_assoc. cbn [app]. rewrite TrimSpace_visible; unfold IsSpace, in_range, RuneSelf; try done; lia.
Qed.
Lemma walk_envelope :
  walk 6 maximum (mkCollector 0 0 [] []) (headers_of (envelope m)) (mkBody (document (mmBoundary m) (piece_part <$> mmPieces m)) false) =
  Ok (mkCollector (1 + Z.of_nat (length (mmPieces m))) (attachment_bytes (pictures (mmPieces m))) (words (mmPieces m)) (pictures (mmPieces m))).
Proof using Good.
  pose proof (multipart_plain _ (gm_type _ _ Good)) as (Pt & _ & Lo & Mu & _). destruct Good as [_ _ _ Q L F C N B]. remember 5%nat as five eqn:E5. cbn [walk]. cbv zeta.
  cbn [mcParts update]. change (maxMIMEParts <? _) with false. cbv iota. cbn [ParseMediaType multipart go_mime].
  rewrite envelope_type, parse_media_type_read by (done || vm_compute; reflexivity). rewrite Lo, Mu, lookup_param_read.
  rewrite len_nonempty by (intros E; rewrite E in L; change (len []) with 0 in L; lia). rewrite (proj2 (Z.ltb_ge 200 _)) by lia. cbn [orb].
  rewrite read_document by (done || (apply Forall_fmap; eapply Forall_impl; [exact F|]; intros p; apply good_piece_part)).
  subst five. rewrite (walk_pieces _ _ (mmBoundary m)) by (done || (cbn -[len]; lia)). done.
Qed.
End Envelope.

(** ** The bMessage around it *)

(** A line that another text does not end. *)
Definition HasSuffix (s suffix : bytes) : bool := HasPrefix (rev s) (rev suffix).
Definition one_line (l : bytes) : Prop := Forall (fun c => c <> 10) l.
Lemma HasSuffix_app u p : HasSuffix (u ++ p) p = true.
Proof. unfold HasSuffix. rewrite rev_app_distr. apply HasPrefix_app. Qed.
Lemma mismatch_lines l p : one_line l -> one_line p -> l <> p -> mismatch (l ++ [10]) (p ++ [10]) = true.
Proof.
  intros Fl. revert p. induction Fl as [|c l Hc Fl IH]; intros p Fp N; destruct Fp as [|x p Hx Fp]; cbn [app mismatch]; [done|..].
  - by rewrite (proj2 (Z.eqb_neq 10 x)) by congruence.
  - by rewrite (proj2 (Z.eqb_neq c 10)) by congruence.
  - destruct (Z.eqb_spec c x) as [->|]; [|done]. apply IH; [done|]. congruence.
Qed.
Lemma line_clear l p : one_line l -> one_line p -> p <> [] -> HasSuffix l p = false -> clear_of (l ++ [10]) (p ++ [10]) = true.
Proof.
  intros Fl Fp N. induction Fl as [|c l Hc Fl IH]; intros Su.
  - cbn [app clear_of]. rewrite andb_true_r. apply (mismatch_lines []); [constructor|done|congruence].
  - change ((c :: l) ++ [10]) with (c :: (l ++ [10])). cbn [clear_of]. apply andb_true_iff. split.
    + apply (mismatch_lines (c :: l)); [by constructor|done|]. intros E. rewrite <- E in Su. pose proof (HasSuffix_app [] (c :: l)) as Y. cbn [app] in Y. congruence.
    + apply IH. apply not_true_iff_false. intros T. apply not_true_iff_false in Su. apply Su. revert T. unfold HasSuffix. cbn [rev].
      generalize (rev l) (rev p). intros a b. revert a. induction b as [|x b IHb]; intros [|y a]; cbn; try done.
      rewrite !andb_true_iff. intros [? ?]. split; [done|]. by apply IHb.
Qed.
(** Lines with their ends, as they are sent and as they are read. *)
Definition sent_lines (ls : list bytes) : bytes := ls ≫= fun l => l ++ [13; 10].
Definition read_lines (ls : list bytes) : bytes := ls ≫= fun l => l ++ [10].
Lemma unix_sent_lines ls t : Forall (Forall (fun c => c <> 13)) ls -> unix_lines (sent_lines ls ++ t) = read_lines ls ++ unix_lines t.
Proof.
  induction 1 as [|l ls Hl F IH]; [done|]. unfold sent_lines, read_lines in *. rewrite !bind_cons, <- !app_assoc. by rewrite unix_line, IH.
Qed.
Lemma read_lines_app a b : read_lines (a ++ b) = read_lines a ++ read_lines b.
Proof. apply bind_app. Qed.
Lemma lines_clear ls p : one_line p -> p <> [] -> Forall one_line ls -> Forall (fun l => HasSuffix l p = false) ls -> clear_of (read_lines ls) (p ++ [10]) = true.
Proof.
  intros Fp N F. induction F as [|l ls Hl F IH]; intros G; [done|]. apply Forall_cons in G as [Gl G]. unfold read_lines in *. rewrite bind_cons.
  apply clear_of_app; [by apply line_clear|by apply IH].
Qed.
Lemma read_lines_Join ls t : ls <> [] -> read_lines ls ++ t = Join ls [10] ++ 10 :: t.
Proof.
  induction ls as [|l [|l' ls] IH]; intros N; [done|unfold read_lines; cbn; by rewrite app_nil_r, <- app_assoc|].
  unfold read_lines in *. rewrite bind_cons, <- !app_assoc, IH by done. cbn [Join]. by rewrite <- !app_assoc.
Qed.
Lemma SplitByte_Join ls c : ls <> [] -> Forall (Forall (fun x => x <> c)) ls -> SplitByte (Join ls [c]) c = ls.
Proof.
  intros N F. assert (forall l rest, Forall (fun x => x <> c) l -> SplitByte (l ++ c :: rest) c = l :: SplitByte rest c) as Cut.
  { intros l rest. induction 1 as [|x l Hx Fl IH]; cbn [app SplitByte]; [by rewrite Z.eqb_refl|]. by rewrite (proj2 (Z.eqb_neq x c)), IH. }
  induction F as [|l ls Hl F IH]; [done|]. destruct ls as [|l' ls].
  - clear N IH F. cbn [Join]. induction Hl as [|x l Hx Fl IH]; [done|]. cbn [SplitByte]. by rewrite (proj2 (Z.eqb_neq x c)), IH.
  - change (Join (l :: l' :: ls) [c]) with (l ++ c :: Join (l' :: ls) [c]). rewrite Cut, IH by done. done.
Qed.
Lemma lines_without ls p : Forall one_line ls -> Forall (fun l => HasPrefix l p = false) ls -> one_line p -> Contains (Join ls [10]) (10 :: p) = false.
Proof.
  intros F G Np. assert (forall l rest, one_line l -> Contains (10 :: rest) (10 :: p) = false -> Contains (l ++ 10 :: rest) (10 :: p) = false) as Pass.
  { intros l rest Fl C. induction Fl as [|x l Hx Fl IH]; [done|]. cbn [app Contains HasPrefix]. by rewrite (proj2 (Z.eqb_neq 10 x)) by congruence. }
  assert (forall l, one_line l -> Contains l (10 :: p) = false) as No.
  { induction 1 as [|x l Hx Fl IH]; [done|]. cbn [Contains HasPrefix]. by rewrite (proj2 (Z.eqb_neq 10 x)) by congruence. }
  induction F as [|l ls Hl F IH]; [done|]. apply Forall_cons in G as [_ G]. destruct ls as [|l' ls]; [by apply No|].
  change (Join (l :: l' :: ls) [10]) with (l ++ 10 :: Join (l' :: ls) [10]). apply Pass; [done|]. cbn [Contains HasPrefix]. rewrite Z.eqb_refl, (IH G), orb_false_r. cbn [andb].
  apply Forall_cons in G as [Gl _]. destruct ls as [|l2 ls]; [done|].
  change (Join (l' :: l2 :: ls) [10]) with (l' ++ 10 :: Join (l2 :: ls) [10]). apply not_true_iff_false. intros P.
  apply HasPrefix_app_inv in P as [P | (w & -> & Nw & P)]; [congruence|]. destruct w as [|x w]; [done|]. cbn [app HasPrefix] in P.
  apply andb_true_iff in P as [->%Z.eqb_eq _]. apply Forall_app in Np as [_ [Np _]%Forall_cons]. done.
Qed.

(** A bMessage as a phone sends it: lines before the sender's card, the card, lines up to the text, the text. *)
Record bmessage := mkBMessage { bmBefore : list bytes; bmCard : list bytes; bmAfter : list bytes; bmText : bytes; bmEnd : list bytes }.
Definition bm_head (b : bmessage) : list bytes := bmBefore b ++ [str "BEGIN:VCARD"] ++ bmCard b ++ [str "END:VCARD"] ++ bmAfter b.
Definition bm_bytes (b : bmessage) : bytes :=
  sent_lines (bm_head b ++ [str "BEGIN:MSG"]) ++ bmText b ++ [13; 10] ++ sent_lines (str "END:MSG" :: bmEnd b).
Record good_bmessage (b : bmessage) : Prop := {
  gb_lines : Forall one_line (bm_head b); gb_plain : Forall (Forall (fun c => c <> 13)) (bm_head b);
  gb_marker : Forall (fun l => HasSuffix l (str "BEGIN:MSG") = false) (bm_head b);
  gb_before : Forall (fun l => HasSuffix l (str "BEGIN:VCARD") = false) (bmBefore b);
  gb_card : bmCard b <> []; gb_inside : Forall (fun l => HasPrefix l (str "END:VCARD") = false) (bmCard b);
  gb_text : unix_lines (bmText b) <> []; gb_end : Contains (unix_lines (bmText b)) (10 :: str "END:MSG") = false
}.
Lemma marker_line s : forallb (fun c => negb (c =? 10)) (str s) = true -> one_line (str s).
Proof. intros F%forallb_Forall_true. eapply Forall_impl; [exact F|]. by intros c Hc%negb_true_iff%Z.eqb_neq. Qed.
(** What [ParseBMessage] gives for it: the text, and the sender of the card. *)
Lemma ParseBMessage_read b :
  good_bmessage b ->
  ParseBMessage (bm_bytes b) =
  mkMessage (TrimSpace (unix_lines (bmText b))) (foldl vcard_line ([], []) (bmCard b)).1 (foldl vcard_line ([], []) (bmCard b)).2 [].
Proof.
  intros [L P M B Cn Ci Tn Te]. unfold ParseBMessage. cbv zeta.
  assert (exists t, unix_lines (bm_bytes b) = read_lines (bm_head b) ++ lf "BEGIN:MSG" ++ unix_lines (bmText b) ++ (10 :: str "END:MSG") ++ t) as (t & ->).
  { unfold bm_bytes. rewrite unix_sent_lines by (apply Forall_app; split; [done|by repeat constructor]).
    rewrite unix_lines_app. unfold sent_lines. rewrite bind_cons, <- !app_assoc. rewrite unix_line by (by repeat constructor).
    rewrite read_lines_app, <- !app_assoc. eexists. unfold read_lines at 2. cbn [mbind list_bind]. rewrite app_nil_r. done. }
  rewrite (extract_read _ (lf "BEGIN:MSG") _ (str "END:MSG") t) by (done || (by apply marker_line) || (apply lines_clear; done || by apply marker_line)).
  rewrite (len_nonempty _ Tn).
  set (rest := lf "BEGIN:MSG" ++ _). assert (extractBlock (read_lines (bm_head b) ++ rest) (lf "BEGIN:VCARD") (10 :: str "END:VCARD") = Join (bmCard b) [10]) as ->.
  { unfold bm_head in *. rewrite !Forall_app in L. destruct L as (Lb & _ & Lc & _). rewrite !read_lines_app, <- !app_assoc.
    change (read_lines [str "BEGIN:VCARD"]) with (lf "BEGIN:VCARD"). rewrite (read_lines_Join (bmCard b)) by done.
    eapply extract_read; [apply lines_clear; done || by apply marker_line|apply lines_without; done || by apply marker_line|by apply marker_line|done]. }
  assert (Forall one_line (bmCard b)) as Lc by (unfold bm_head in L; rewrite !Forall_app in L; apply L).
  destruct (len (Join (bmCard b) [10]) =? 0) eqn:E.
  - destruct (bmCard b) as [|l [|l' ls]]; [done|..].
    + destruct l; [done|]. rewrite len_nonempty in E; done.
    + rewrite len_nonempty in E; [done|]. by destruct l.
  - rewrite SplitByte_Join by done. by destruct (foldl _ _ _).
Qed.

(** C20.  Picture messages: what a phone sends is what the bridge hands on.  A picture message of any number of text parts and
    of images in base64 (in lines of any length, the line ends being those of the bMessage), whatever its other headers
    and its boundary, inside a bMessage with any sender's card, is read back: the sender is the one of the card, the body
    is the texts, one per line, and the attachments are the images with their types, their safe file names and
    their bytes, in order.  The bounds of the code (32 parts, four images, 2 MiB) are the only restriction on its size. *)
Theorem ParseMMS_roundtrip b m maximum :
  1 <= maximum <= maxMMSTotalBytes -> good_bmessage b -> good_mms maximum m -> unix_lines (bmText b) = mms_text m ->
  ParseMMS (ParseBMessage (bm_bytes b)) maximum =
  let '(name, number) := foldl vcard_line ([], []) (bmCard b) in
  Ok (mkMessage (TrimSpace (Join (words (mmPieces m)) [10])) name number (pictures (mmPieces m))).
Proof.
  intros M B G E. rewrite ParseBMessage_read, E, (mms_trim _ _ G) by done. destruct (foldl _ _ _) as [name number]. cbn [fst snd].
  unfold ParseMMS. rewrite (proj2 (Z.ltb_ge maximum 1)), (proj2 (Z.ltb_ge _ maximum)) by lia. cbn [orb msBody]. rewrite (mms_trim _ _ G).
  assert (ReadMessage (mms_text m) = Some (headers_of (envelope m), document (mmBoundary m) (piece_part <$> mmPieces m))) as R
    by apply read_message_read, (envelope_good _ _ G).
  destruct (mms_text m) as [|c body]; [done|]. rewrite R, (envelope_type _ _ G), (envelope_visible _ _ G), (walk_envelope _ _ G). done.
Qed.

(** Two texts around a picture whose base64 is cut into lines. *)
Definition sample : mms := mkMms [(str "Subject", str "holiday")] (str "multipart/related") (str "=_part;1")
  [Words (str "Hello" ++ [10] ++ str "--=_part"); Picture (str "image/gif") (str "dir/a.gif") (str "GIF89a") (str "R0lG" ++ [10] ++ str "ODlh"); Words (str " bye ")].
Lemma sample_good : good_mms 1024 sample.
Proof.
  constructor.
  - apply Forall_singleton. constructor; [vm_compute; reflexivity..|discriminate|by exists (str "holida"), 121|reflexivity].
  - apply Forall_singleton. vm_compute. discriminate.
  - apply (bool_decide_unpack (mmType sample ∈ multipart_types)). vm_compute. exact I.
  - vm_compute. reflexivity.
  - vm_compute. split; discriminate.
  - assert (all_bytes (str "GIF89a")) by (apply (bool_decide_unpack (all_bytes (str "GIF89a"))); vm_compute; exact I).
    repeat apply Forall_cons_2; [..|constructor]; cbn [good_piece]; split_and!; first [assumption | vm_compute; (reflexivity || discriminate)].
  - vm_compute. discriminate.
  - vm_compute. discriminate.
  - vm_compute. discriminate.
Defined.
(** With the line ends a phone sends. *)
Definition sample_bmessage : bmessage :=
  mkBMessage (str <$> ["BEGIN:BMSG"; "VERSION:1.0"]%string) (str <$> ["VERSION:3.0"; "FN:Bob"; "TEL;CELL:+8210"]%string)
    (str <$> ["BEGIN:BENV"; "BEGIN:BBODY"; "LENGTH:300"]%string) (mms_text sample ≫= fun c => if c =? 10 then [13; 10] else [c]) (str <$> ["END:BBODY"; "END:BENV"; "END:BMSG"]%string).
Lemma sample_bmessage_good : good_bmessage sample_bmessage.
Proof.
  constructor.
  - apply (bool_decide_unpack (Forall (Forall (fun c => c <> 10)) (bm_head sample_bmessage))). vm_compute. exact I.
  - apply (bool_decide_unpack (Forall (Forall (fun c => c <> 13)) (bm_head sample_bmessage))). vm_compute. exact I.
  - apply (bool_decide_unpack (Forall (fun l => HasSuffix l (str "BEGIN:MSG") = false) (bm_head sample_bmessage))). vm_compute. exact I.
  - apply (bool_decide_unpack (Forall (fun l => HasSuffix l (str "BEGIN:VCARD") = false) (bmBefore sample_bmessage))). vm_compute. exact I.
  - discriminate.
  - apply (bool_decide_unpack (Forall (fun l => HasPrefix l (str "END:VCARD") = false) (bmCard sample_bmessage))). vm_compute. exact I.
  - vm_compute. discriminate.
  - vm_compute. reflexivity.
Defined.
Lemma ParseMMS_roundtrip_witness :
  ParseMMS (ParseBMessage (bm_bytes sample_bmessage)) 1024 =
  Ok (mkMessage (str "Hello" ++ [10] ++ str "--=_part" ++ [10] ++ str "bye") (str "Bob") (str "+8210") [mkAttachment (str "image/gif") (str "a.gif") (str "GIF89a")]).
Proof.
  rewrite (ParseMMS_roundtrip sample_bmessage sample 1024);
    [vm_compute; reflexivity|split; vm_compute; discriminate|exact sample_bmessage_good|exact sample_good|vm_compute; reflexivity].
Defined.
