(* ===== verification/MapSession.v ===== *)
(** * The MAP client session

    Models src/callbridge-sms-go/internal/mapclient/session.go: the OBEX requests of the
    message access client over one connection.  The connection is any [Transport] with a
    [Close]; listings are read by the decoder of [GoXml].

    An operation runs on the session, which it may change, and returns a result,
    panics ([obex.MustHeader]), or has not finished: a GET goes on for as long as the
    phone answers "continue", so its loop takes the number of turns as fuel. *)

From S2P Require Import Prelude GoStd GoText GoXml Obex Message.

Definition opConnect : Z := 0x80.
Definition opDisconnect : Z := 0x81.
Definition opPut : Z := 0x02.
Definition opPutFinal : Z := 0x82.
Definition opGetFinal : Z := 0x83.
Definition opSetPath : Z := 0x85.

Definition headerName : Z := 0x01.
Definition headerType : Z := 0x42.
Definition headerBody : Z := 0x48.
Definition headerEndOfBody : Z := 0x49.
Definition headerTarget : Z := 0x46.
Definition headerAppParams : Z := 0x4c.
Definition headerConnectionID : Z := 0xcb.

Definition maxCollectedBody : Z := Z.shiftl 2 20.
Definition unknownPath : bytes := [0].
Definition masTargetUUID : bytes :=
  [0xbb; 0x58; 0x2b; 0x40; 0x42; 0x0c; 0x11; 0xdb; 0xb0; 0xde; 0x08; 0x00; 0x20; 0x0c; 0x9a; 0x66].

(** ** Errors that end the connection *)

(** [errors.As(err, *net.Error)] holds for [syscall.Errno] and for the time-out errors of
    the runtime; these are the sentinels named "net.Error". *)
Fixpoint error_chain (P : error -> bool) (e : error) : bool :=
  P e || match e with Wrap _ c => error_chain P c | _ => false end.
Definition IsTransportError (e : error) : bool :=
  error_chain (fun e => match e with
    | Sentinel name _ => bool_decide (name ∈ ["net.Error"; "io.EOF"; "io.ErrUnexpectedEOF"]%string)
    | _ => false end) e.

(** ** Outcomes *)
Inductive outcome (A : Type) := Returns (r : result A) | Panics | Pending.
Arguments Returns {_} _.
Arguments Panics {_}.
Arguments Pending {_}.

Class Closable (T : Type) := { CloseConn : T -> T * result unit }.

Record Session (T : Type) := mkSession {
  ssConn : option T; ssConnection : Z; ssPacketMax : Z; ssPath : bytes
}.
Arguments mkSession {_} _ _ _ _.
Arguments ssConn {_} _.
Arguments ssConnection {_} _.
Arguments ssPacketMax {_} _.
Arguments ssPath {_} _.
#[export] Instance Session_fields T : Fields (Session T) := {|
  fields x := mkSession (ssConn x) (ssConnection x) (ssPacketMax x) (ssPath x) |}.

Section Monad.
Context {S : Type}.
Definition M (A : Type) : Type := S -> S * outcome A.
Definition ret {A} (a : A) : M A := fun s => (s, Returns (Ok a)).
Definition throw {A} (e : error) : M A := fun s => (s, Returns (Error e)).
(** Continue on success; an error, a panic or an unfinished run goes through. *)
Definition bind {A B} (m : M A) (k : A -> M B) : M B := fun s =>
  match m s with
  | (s, Returns (Ok a)) => k a s
  | (s, Returns (Error e)) => (s, Returns (Error e))
  | (s, Panics) => (s, Panics)
  | (s, Pending) => (s, Pending)
  end.
(** [if err != nil { handler }]. *)
Definition on_error {A} (m : M A) (handler : error -> M A) : M A := fun s =>
  match m s with (s, Returns (Error e)) => handler e s | r => r end.
Definition must {A} (o : option A) : M A := fun s => (s, match o with Some a => Returns (Ok a) | None => Panics end).
Definition lift {A} (r : result A) : M A := fun s => (s, Returns r).
Definition modify (f : S -> S) : M unit := fun s => (f s, Returns (Ok tt)).
Definition gets {A} (f : S -> A) : M A := fun s => (s, Returns (Ok (f s))).
End Monad.
Arguments M : clear implicits.
Notation "'let*' x ':=' c 'in' k" := (bind c (fun x => k))
  (at level 10, x pattern, c at level 200, k at level 200) : go_scope.

Definition rejected {S A} (text : string) : M S A := throw (New text).

(** ** The session *)
Section Requests.
Context {T : Type} `{Transport T} `{Closable T}.
#[local] Abbreviation MS := (M (Session T)).

Definition request (opcode : Z) (payload : bytes) : MS Packet := fun s =>
  match ssConn s with
  | None => (s, Returns (fail! "MAP session is closed"))
  | Some conn =>
      if ssPacketMax s <? len payload + 3 then (s, Returns (fail! "OBEX request exceeds negotiated packet size"))
      else match WritePacket conn opcode payload with
           | (conn, Error e) => (s <| ssConn := Some conn |>, Returns (Error e))
           | (conn, Ok _) =>
               let '(conn, r) := ReadPacket conn 0xffff in (s <| ssConn := Some conn |>, Returns r)
           end
  end.

Definition connectionHeader : MS bytes := let* id := gets ssConnection in must (Uint32Header headerConnectionID id).

Definition disconnect : MS unit :=
  let* h := connectionHeader in
  let* response := request opDisconnect h in
  if pkCode response =? ResponseOK then ret tt else rejected "MAP disconnect rejected".

(** [Close]: the disconnect's error is ignored. *)
Definition Close : MS unit := fun s =>
  match ssConn s with
  | None => (s, Returns (Ok tt))
  | Some _ =>
      match disconnect s with
      | (s, Panics) => (s, Panics)
      | (s, Pending) => (s, Pending)
      | (s, Returns _) =>
          match ssConn s with
          | Some conn => let '(_, r) := CloseConn conn in (s <| ssConn := None |>, Returns r)
          | None => (s, Returns (Ok tt))
          end
      end
  end.

Definition RegisterNotifications (enabled : bool) : MS unit :=
  let params := [0x0e; 0x01; if enabled then 1 else 0] in
  let* h := connectionHeader in
  let* t := must (MustHeader headerType (str "x-bt/MAP-NotificationRegistration")) in
  let* a := must (MustHeader headerAppParams params) in
  let* b := must (MustHeader headerEndOfBody [48]) in
  let* response := request opPutFinal (h ++ t ++ a ++ b) in
  if pkCode response =? ResponseOK then ret tt else rejected "notification registration rejected".

Definition set_path (path : bytes) : MS unit := modify (fun s => s <| ssPath := path |>).

(** One SetPath request; a failure leaves the folder unknown. *)
Definition setpath_request (payload : bytes) (text : string) : MS unit :=
  let* response := on_error (request opSetPath payload)
                     (fun e => let* _ := set_path unknownPath in throw e) in
  if pkCode response =? ResponseOK then ret tt
  else let* _ := set_path unknownPath in rejected text.

Definition resetPath (force : bool) : MS unit :=
  let* path := gets ssPath in
  if negb force && (len path =? 0) then ret tt
  else
    let* h := connectionHeader in
    let* _ := setpath_request ([0x02; 0x00] ++ h) "MAP root SetPath rejected" in
    set_path [].

Definition Keepalive : MS unit := resetPath true.

Fixpoint enter_folders (parts : list bytes) : MS unit :=
  match parts with
  | [] => ret tt
  | part :: parts =>
      let* h := connectionHeader in
      let* n := must (NameHeader headerName part) in
      let* _ := setpath_request ([0x02; 0x00] ++ h ++ n) "MAP SetPath rejected" in
      enter_folders parts
  end.

Definition trim_slashes (folder : bytes) : bytes := TrimRightSet (Z.eqb 47) (TrimLeftSet (Z.eqb 47) folder).
Definition bad_part (part : bytes) : bool :=
  (len part =? 0) || (part =s? [46]) || (part =s? [46; 46]) || ContainsAny part [0; 13; 10].

Definition gotoFolder (folder : bytes) : MS unit :=
  let folder := trim_slashes folder in
  let parts := SplitByte folder 47 in
  if existsb bad_part parts then rejected "invalid MAP folder"
  else
    let* path := gets ssPath in
    if folder =s? path then ret tt
    else
      let* _ := resetPath false in
      let* _ := enter_folders parts in
      set_path folder.

(** The GET loop: [fuel] turns. *)
Fixpoint collect_loop (fuel : nat) (response : Packet) (body : bytes) : MS bytes :=
  match fuel with
  | O => fun s => (s, Pending)
  | S fuel =>
      let* headers := lift (ParseHeaders (pkPayload response) 0) in
      let body := body ++ CollectBody headers headerBody headerEndOfBody in
      if maxCollectedBody <? len body then rejected "MAP response body exceeds bound"
      else if pkCode response =? ResponseOK then ret body
      else if negb (pkCode response =? ResponseContinue) then rejected "MAP GET rejected"
      else
        let* h := connectionHeader in
        let* response := request opGetFinal h in
        collect_loop fuel response body
  end.
Definition collectGET (fuel : nat) (initial : bytes) : MS bytes :=
  let* response := request opGetFinal initial in
  collect_loop fuel response [].

(** [putBody]: the first packet carries [headers], the others the connection header.
    Every turn that is not final takes at least one byte of the body. *)
Fixpoint put_loop (fuel : nat) (headers body : bytes) : MS unit :=
  match fuel with
  | O => fun s => (s, Pending)
  | S fuel =>
      let* packetMax := gets ssPacketMax in
      let available := packetMax - 3 - len headers - 3 in
      if available <? 1 then rejected "OBEX packet has no body capacity"
      else
        let final := len body <=? available in
        let chunkSize := if final then len body else available in
        let headerID := if final then headerEndOfBody else headerBody in
        let opcode := if final then opPutFinal else opPut in
        let* h := must (MustHeader headerID (take (Z.to_nat chunkSize) body)) in
        let* response := request opcode (headers ++ h) in
        if final then
          if pkCode response =? ResponseOK then ret tt else rejected "PushMessage rejected"
        else if negb (pkCode response =? ResponseContinue) then rejected "PushMessage continuation rejected"
        else
          let* headers := connectionHeader in
          put_loop fuel headers (drop (Z.to_nat chunkSize) body)
  end.
Definition putBody (firstHeaders body : bytes) : MS unit := put_loop (S (length body)) firstHeaders body.

Definition flag (b : bool) : Z := if b then 1 else 0.

Definition PushBMessage (folder body : bytes) (transparent retry : bool) : MS unit :=
  if (len body =? 0) || (Z.shiftl 60 10 <? len body) then rejected "bMessage size invalid"
  else
    let* _ := gotoFolder folder in
    let params := [0x0b; 0x01; flag transparent; 0x0c; 0x01; flag retry; 0x14; 0x01; 0x01] in
    let* h := connectionHeader in
    let* t := must (MustHeader headerType (str "x-bt/message" ++ [0])) in
    let* a := must (MustHeader headerAppParams params) in
    putBody (h ++ t ++ a) body.

Definition crlf (s : string) : bytes := str s ++ [13; 10].
Definition MakeSMSBMessage (destination text : bytes) : bytes :=
  let messagePart := crlf "BEGIN:MSG" ++ text ++ [13; 10] ++ crlf "END:MSG" in
  crlf "BEGIN:BMSG" ++ crlf "VERSION:1.0" ++ crlf "STATUS:UNREAD" ++ crlf "TYPE:SMS_GSM" ++
  crlf "FOLDER:telecom/msg/outbox" ++
  crlf "BEGIN:VCARD" ++ crlf "VERSION:3.0" ++ crlf "N:" ++ crlf "TEL:" ++ crlf "END:VCARD" ++
  crlf "BEGIN:BENV" ++
  crlf "BEGIN:VCARD" ++ crlf "VERSION:3.0" ++ crlf "N:" ++ str "TEL:" ++ destination ++ [13; 10] ++ crlf "END:VCARD" ++
  crlf "BEGIN:BBODY" ++ crlf "CHARSET:UTF-8" ++
  str "LENGTH:" ++ Itoa (len messagePart) ++ [13; 10] ++
  messagePart ++
  crlf "END:BBODY" ++ crlf "END:BENV" ++ crlf "END:BMSG".

Definition SendSMS (to text : bytes) : MS unit :=
  PushBMessage (str "telecom/msg/outbox") (MakeSMSBMessage to text) false true.

(** ** Listings *)

(** The start elements of an XML document, with the attributes of each by local name,
    and whether the decoder stopped at the end of the input. *)
Variable wide : bool -> Z -> bool.

Definition safeHandle (value : bytes) : bool :=
  if (len value =? 0) || (64 <? len value) then false
  else forallb (fun r => in_range 48 r 57 || in_range 97 r 102 || in_range 65 r 70) (runes value).

(** A Go map filled in order: the last value of a name wins, and a missing name is "". *)
Definition attribute (attrs : list (bytes * bytes)) (name : bytes) : bytes :=
  match list_find (fun a => a.1 = name) (rev attrs) with Some (_, a) => a.2 | None => [] end.

Definition listing_item (token : bytes * list (bytes * bytes)) : list ListingMessage :=
  let '(name, attrs) := token in
  if negb (name =s? str "msg") then []
  else
    let handle := attribute attrs (str "handle") in
    if negb (safeHandle handle) then []
    else [mkListing handle (attribute attrs (str "type")) (attribute attrs (str "datetime")) attrs].

Definition parseListing (body : bytes) : result (list ListingMessage) :=
  let '(tokens, ok) := Xml.xml_tokens wide body in
  if ok : bool then Ok (tokens ≫= listing_item) else fail! "parse MAP listing".

Definition ListMessages (fuel : nat) (folder : bytes) (maximum offset : Z) : MS (list ListingMessage) :=
  if (maximum <? 1) || (500 <? maximum) || (offset <? 0) || (65535 <? offset) then rejected "message listing bounds invalid"
  else
    let* _ := gotoFolder folder in
    let params := [0x01; 0x02; u8 (Z.shiftr maximum 8); u8 maximum; 0x02; 0x02; u8 (Z.shiftr offset 8); u8 offset;
                   0x13; 0x01; 0x00] in
    let* h := connectionHeader in
    let* t := must (MustHeader headerType (str "x-bt/MAP-msg-listing" ++ [0])) in
    let* a := must (MustHeader headerAppParams params) in
    let* body := collectGET fuel (h ++ t ++ a) in
    lift (parseListing body).

Definition GetMessage (fuel : nat) (folder handle : bytes) : MS bytes :=
  if negb (safeHandle handle) then rejected "invalid message handle"
  else
    let* _ := gotoFolder folder in
    let params := [0x0a; 0x01; 0x01; 0x14; 0x01; 0x01; 0x15; 0x01; 0x00] in
    let* h := connectionHeader in
    let* n := must (NameHeader headerName handle) in
    let* t := must (MustHeader headerType (str "x-bt/message")) in
    let* a := must (MustHeader headerAppParams params) in
    collectGET fuel (h ++ n ++ t ++ a).

(** ** Connecting *)

(** The exchange after [bt.Connect] gave a connection: the session, or the error and the
    connection that the deferred function closed. *)
Definition Connect (conn : T) : option T * outcome (Session T) :=
  let s0 := mkSession (Some conn) 0 0xffff [] in
  let run : MS unit :=
    let* target := must (MustHeader headerTarget masTargetUUID) in
    let* response := on_error (request opConnect ([0x10; 0x00; 0x40; 0x00] ++ target))
                       (fun e => throw (Wrap "MAP connect" e)) in
    if negb (pkCode response =? ResponseOK) || (len (pkPayload response) <? 4) then rejected "MAP connect rejected"
    else
      let peerMax := be_value (slice (pkPayload response) 2 4) in
      let* packetMax := gets ssPacketMax in
      let* _ := (if (255 <=? peerMax) && (peerMax <? packetMax) then modify (fun s => s <| ssPacketMax := peerMax |>) else ret tt) in
      let* headers := on_error (lift (ParseHeaders (pkPayload response) 4)) (fun e => throw (Wrap "parse MAP connect response" e)) in
      match Find headers headerConnectionID with
      | None => rejected "MAP connect response lacks connection ID"
      | Some rawID => let* id := lift (Uint32 rawID) in modify (fun s => s <| ssConnection := id |>)
      end in
  let closed s := (fun conn => (CloseConn conn).1) <$> ssConn s in
  match run s0 with
  | (s, Returns (Ok _)) => (None, Returns (Ok s))
  | (s, Returns (Error e)) => (closed s, Returns (Error e))
  | (s, Panics) => (closed s, Panics)
  | (s, Pending) => (closed s, Pending)
  end.
End Requests.

(** ** A scripted phone

    What the phone does with each request in turn: the write fails, it stays silent
    until the socket times out, or it answers with one packet.  Quantifying over
    scripts covers every phone that answers a request before the time-out or not at
    all, since the client is deterministic; a reply that arrives after its time-out,
    which the next request would take for its own, is outside this model. *)
Inductive answer := Lost | Silent | Answers (r : Packet).

Record Phone := mkPhone { phLog : list (Packet * option Packet); phScript : list answer; phBuffer : bytes; phClosed : nat }.

Definition timeout : error := Sentinel "net.Error" "resource temporarily unavailable".
Definition sent (raw : bytes) : Packet := mkPacket (at_ raw 0) (drop 3 raw).

#[export] Instance phone_transport : Transport Phone := {|
  ReadFull p n :=
    if (length (phBuffer p) <? n)%nat then (mkPhone (phLog p) (phScript p) [] (phClosed p), Error timeout)
    else (mkPhone (phLog p) (phScript p) (drop n (phBuffer p)) (phClosed p), Ok (take n (phBuffer p)));
  WriteAll p raw :=
    match phScript p with
    | Answers r :: script =>
        (mkPhone (phLog p ++ [(sent raw, Some r)]) script (phBuffer p ++ packet_bytes (pkCode r) (pkPayload r)) (phClosed p), Ok tt)
    | Silent :: script => (mkPhone (phLog p ++ [(sent raw, None)]) script (phBuffer p) (phClosed p), Ok tt)
    | Lost :: script => (mkPhone (phLog p ++ [(sent raw, None)]) script (phBuffer p) (phClosed p), Error timeout)
    | [] => (mkPhone (phLog p ++ [(sent raw, None)]) [] (phBuffer p) (phClosed p), Ok tt)
    end
|}.
#[export] Instance phone_closable : Closable Phone := {|
  CloseConn p := (mkPhone (phLog p) (phScript p) (phBuffer p) (S (phClosed p)), Ok tt) |}.

(** Answers that are packets: a payload that fits the length field. *)
Definition answer_ok (a : answer) : Prop :=
  match a with Answers r => len (pkPayload r) + 3 <= 0xffff | _ => True end.
Definition script_ok (p : Phone) : Prop := Forall answer_ok (phScript p) /\ phBuffer p = [].

Lemma sent_packet code payload : sent (packet_bytes code payload) = mkPacket code payload.
Proof. done. Qed.

(** Reading a whole answer from the phone's buffer. *)
Lemma read_answer log script r closed :
  len (pkPayload r) + 3 <= 0xffff ->
  ReadPacket (mkPhone log script (packet_bytes (pkCode r) (pkPayload r)) closed) 0xffff = (mkPhone log script [] closed, Ok r).
Proof.
  intros L. destruct r as [code payload]. cbn [pkCode pkPayload] in *.
  destruct (packet_bytes_head code payload [] L) as (hi & lo & E & V). rewrite !app_nil_r in E. rewrite E.
  unfold ReadPacket. cbn [Z.ltb Z.compare Pos.compare Pos.compare_cont orb ReadFull phone_transport phBuffer phLog phScript phClosed length Nat.ltb Nat.leb].
  change (take 3 (code :: hi :: lo :: payload)) with [code; hi; lo].
  change (drop 3 (code :: hi :: lo :: payload)) with payload.
  change (slice [code; hi; lo] 1 3) with [hi; lo]. change (at_ [code; hi; lo] 0) with code. rewrite V.
  pose proof (len_nonneg payload). rewrite (proj2 (Z.ltb_ge _ 3)), (proj2 (Z.ltb_ge 0xffff _)) by lia. cbn [orb].
  replace (Z.to_nat (len payload + 3 - 3)) with (length payload) by (unfold len; lia).
  change (match length payload with 0%nat => _ | S m' => _ end) with (length payload <? length payload)%nat.
  rewrite Nat.ltb_irrefl, firstn_all, drop_all. done.
Qed.

(** What one request does: it is logged with the answer, and returns it. *)
Lemma request_phone op payload s p s' o :
  ssConn s = Some p -> script_ok p -> ssPacketMax s <= 0xffff -> request op payload s = (s', o) ->
  (o = Returns (Error (New "OBEX request exceeds negotiated packet size")) /\ s' = s /\ ssPacketMax s < len payload + 3) \/
  (len payload + 3 <= ssPacketMax s /\
   exists p' a, s' = s <| ssConn := Some p' |> /\ script_ok p' /\ phClosed p' = phClosed p /\
     phLog p' = phLog p ++ [(mkPacket op payload, a)] /\
     match phScript p with
     | Answers r :: rest => a = Some r /\ o = Returns (Ok r) /\ phScript p' = rest
     | _ :: rest => a = None /\ o = Returns (Error timeout) /\ phScript p' = rest
     | [] => a = None /\ o = Returns (Error timeout) /\ phScript p' = []
     end).
Proof.
  intros C [F B] M E. unfold request in E. rewrite C in E. destruct (Z.ltb_spec (ssPacketMax s) (len payload + 3)).
  { injection E as <- <-. by left. }
  right. split; [done|]. unfold WritePacket in E. rewrite (proj2 (Z.ltb_ge _ _)) in E by lia.
  destruct p as [log script buffer closed]. cbn [phBuffer] in B. subst buffer. cbn [phScript] in F |- *.
  cbn [WriteAll phone_transport phScript phLog phBuffer phClosed app] in E.
  destruct script as [|[| |r] script].
  - injection E as <- <-. do 2 eexists. split_and!; done.
  - apply Forall_cons in F as [_ F]. injection E as <- <-. do 2 eexists. split_and!; done.
  - apply Forall_cons in F as [_ F]. injection E as <- <-. do 2 eexists. split_and!; done.
  - apply Forall_cons in F as [Fr F]. rewrite read_answer in E by exact Fr. injection E as <- <-.
    do 2 eexists. split_and!; done.
Qed.

(** ** Headers that are sent *)
Lemma connectionHeader_ok {T} (s : Session T) :
  connectionHeader s = (s, Returns (Ok (headerConnectionID :: be_bytes 4 (ssConnection s)))).
Proof. reflexivity. Qed.

Lemma BuildHeader_length id value :
  header_kind id = 0x00 \/ header_kind id = 0x40 -> len value + 3 <= 0xffff ->
  BuildHeader id value = Ok (id :: be_bytes 2 (len value + 3) ++ value).
Proof.
  intros K L. unfold BuildHeader. rewrite (proj2 (Z.ltb_ge _ _)) by done. by destruct K as [-> | ->].
Qed.

Lemma BuildHeader_size id value raw :
  BuildHeader id value = Ok raw -> header_kind id = 0x00 \/ header_kind id = 0x40 -> len raw = len value + 3.
Proof.
  intros E K. unfold BuildHeader in E. assert ((header_kind id =? 0) || (header_kind id =? 64) = true) as Hk by (by destruct K as [-> | ->]).
  rewrite Hk in E. split_if_in E; [done|]. apply Ok_inj in E as <-. unfold len. cbn [length]. rewrite length_app, length_be_bytes. lia.
Qed.

Lemma build_all_app a b : build_all (a ++ b) = let! x := build_all a in let! y := build_all b in Ok (x ++ y).
Proof.
  induction a as [|h a IH]; [cbn; by destruct (build_all b)|]. cbn [app build_all]. destruct (BuildHeader _ _) as [raw|]; [|done].
  cbn [result_bind]. rewrite IH. destruct (build_all a) as [x|]; [|done]. cbn [result_bind]. destruct (build_all b) as [y|]; [|done].
  cbn [result_bind]. by rewrite app_assoc.
Qed.

Lemma ParseHeaders_build hs raw : build_all hs = Ok raw -> ParseHeaders raw 0 = Ok hs.
Proof.
  intros E. unfold ParseHeaders. rewrite (proj2 (Z.ltb_ge (len raw) 0)) by apply len_nonneg.
  change (Z.to_nat 0) with 0%nat. cbn [Z.ltb Z.compare orb]. rewrite drop_0. by apply headers_loop_build.
Qed.

(** ** Sending a body *)

(** What a phone that follows OBEX takes from a Put packet. *)
Definition put_chunk (k : Packet) : bytes :=
  match ParseHeaders (pkPayload k) 0 with Ok hs => CollectBody hs headerBody headerEndOfBody | Error _ => [] end.
Definition expected (k : Packet) : Z := if pkCode k =? opPutFinal then ResponseOK else ResponseContinue.
Definition accepted (e : Packet * option Packet) : Prop := exists r, e.2 = Some r /\ pkCode r = expected e.1.

Definition no_body (hs : list Header) : Prop := Forall (fun h => hdID h <> headerBody /\ hdID h <> headerEndOfBody) hs.

Lemma CollectBody_skip hs id value :
  no_body hs -> id = headerBody \/ id = headerEndOfBody ->
  CollectBody (hs ++ [mkHeader id value]) headerBody headerEndOfBody = value.
Proof.
  intros N I. unfold CollectBody. rewrite bind_app.
  assert (hs ≫= (fun h => if (hdID h =? headerBody) || (hdID h =? headerEndOfBody) then hdValue h else []) = []) as E.
  { induction N as [|h hs [N1 N2] N IH]; [done|]. cbn [mbind list_bind]. rewrite (proj2 (Z.eqb_neq _ _) N1), (proj2 (Z.eqb_neq _ _) N2).
    cbn [orb app]. exact IH. }
  rewrite E. cbn [mbind list_bind hdID hdValue app]. rewrite app_nil_r. by destruct I as [-> | ->].
Qed.

Lemma put_chunk_packet op hs headers id value h :
  build_all hs = Ok headers -> no_body hs -> id = headerBody \/ id = headerEndOfBody ->
  BuildHeader id value = Ok h -> put_chunk (mkPacket op (headers ++ h)) = value.
Proof.
  intros B N I E. unfold put_chunk. cbn [pkPayload]. rewrite (ParseHeaders_build (hs ++ [mkHeader id value])).
  - by apply CollectBody_skip.
  - rewrite build_all_app, B. cbn [result_bind build_all hdID hdValue]. rewrite E. cbn [result_bind]. by rewrite app_nil_r.
Qed.

Lemma connection_header_built v : build_all [mkHeader headerConnectionID (be_bytes 4 v)] = Ok (headerConnectionID :: be_bytes 4 v).
Proof. reflexivity. Qed.

(** How a run of Put requests ended: every part accepted up to the final one, or the
    first refusal. *)
Definition put_end (o : outcome unit) (body : bytes) (log : list (Packet * option Packet)) : Prop :=
  match o with
  | Returns (Ok _) => Forall accepted log /\ concat (put_chunk <$> log.*1) = body /\
      exists k, pkCode <$> log.*1 = replicate k opPut ++ [opPutFinal]
  | Returns (Error _) => exists init e, log = init ++ [e] /\ Forall accepted init /\ ~ accepted e
  | _ => False
  end.

Lemma put_end_cons o body body' k r log :
  pkCode k = opPut -> pkCode r = ResponseContinue -> put_chunk k ++ body = body' ->
  put_end o body log -> put_end o body' ((k, Some r) :: log).
Proof.
  intros K R C E. assert (accepted (k, Some r)) as A by (exists r; split; [done|]; unfold expected; cbn; by rewrite K).
  destruct o as [[u|e]| |]; cbn in E |- *; try done.
  - destruct E as (F & Cb & n & N). split_and!; [by constructor|by rewrite Cb|]. exists (S n). cbn. by rewrite K, N.
  - destruct E as (init & e' & -> & F & N). exists ((k, Some r) :: init), e'. split_and!; [done|by constructor|done].
Qed.

Lemma put_end_refused err body e : ~ accepted e -> put_end (Returns (Error err)) body [e].
Proof. intros N. exists [], e. split_and!; [done|constructor|done]. Qed.

Lemma bind_ok {S A B} (m : M S A) (k : A -> M S B) s s1 a : m s = (s1, Returns (Ok a)) -> bind m k s = k a s1.
Proof. intros E. unfold bind. by rewrite E. Qed.
Lemma bind_error {S A B} (m : M S A) (k : A -> M S B) s s1 e :
  m s = (s1, Returns (Error e)) -> bind m k s = (s1, Returns (Error e)).
Proof. intros E. unfold bind. by rewrite E. Qed.

(** A Put request of a body header, on a session with room for it. *)
Lemma put_request op id headers chunk hs (s : Session Phone) p :
  ssConn s = Some p -> script_ok p -> ssPacketMax s <= 0xffff ->
  build_all hs = Ok headers -> no_body hs -> id = headerBody \/ id = headerEndOfBody ->
  len headers + len chunk + 6 <= ssPacketMax s ->
  exists h p' a, MustHeader id chunk = Some h /\ put_chunk (mkPacket op (headers ++ h)) = chunk /\
    len (headers ++ h) + 3 <= ssPacketMax s /\
    request op (headers ++ h) s = (s <| ssConn := Some p' |>, Returns (match a with Some r => Ok r | None => Error timeout end)) /\
    script_ok p' /\ phLog p' = phLog p ++ [(mkPacket op (headers ++ h), a)].
Proof.
  intros C K M B N I L. pose proof (len_nonneg headers). pose proof (len_nonneg chunk).
  assert (header_kind id = 0x40) as Kd by (by destruct I as [-> | ->]).
  pose proof (BuildHeader_length id chunk (or_intror Kd) ltac:(lia)) as E. set (h := id :: _) in E.
  assert (len h = len chunk + 3) as Lh by (eapply BuildHeader_size; [done|by right]).
  destruct (request op (headers ++ h) s) as [s' o] eqn:R.
  destruct (request_phone _ _ _ p _ _ C K M R) as [(_ & _ & Bad) | (_ & p' & a & -> & K' & _ & Lg & Sc)].
  { rewrite len_app in Bad. lia. }
  exists h, p', a. split_and!; try done.
  - unfold MustHeader. by rewrite E.
  - by eapply put_chunk_packet.
  - rewrite len_app. lia.
  - rewrite R. f_equal. revert Sc. destruct (phScript p) as [|[| |r] rest]; intros (-> & -> & _); done.
Qed.

Lemma put_loop_spec fuel hs headers body (s : Session Phone) p :
  ssConn s = Some p -> script_ok p -> 255 <= ssPacketMax s <= 0xffff ->
  build_all hs = Ok headers -> no_body hs -> len headers <= 200 -> (length body < fuel)%nat ->
  exists s' o p' log, put_loop fuel headers body s = (s', o) /\ s' = s <| ssConn := Some p' |> /\ script_ok p' /\
    phLog p' = phLog p ++ log /\ Forall (fun e => len (pkPayload e.1) + 3 <= ssPacketMax s) log /\ put_end o body log.
Proof.
  revert hs headers body s p. induction fuel as [|fuel IH]; intros hs headers body s p C K M B N L F; [lia|].
  cbn [put_loop]. rewrite (bind_ok _ _ s s (ssPacketMax s)) by done. pose proof (len_nonneg headers).
  set (available := ssPacketMax s - 3 - len headers - 3). rewrite (proj2 (Z.ltb_ge available 1)) by lia. cbv zeta.
  destruct (Z.leb_spec (len body) available) as [Fin|Fin].
  - assert (take (Z.to_nat (len body)) body = body) as -> by (apply take_ge; unfold len; lia).
    destruct (put_request opPutFinal headerEndOfBody headers body hs s p) as (h & p' & a & Eh & Ec & El & Er & K' & Lg);
      [done..|lia|done|done|by right|unfold available in Fin; lia|].
    rewrite (bind_ok _ _ s s h) by (unfold must; by rewrite Eh). unfold bind. rewrite Er.
    assert (accepted (mkPacket opPutFinal (headers ++ h), a) <-> exists r, a = Some r /\ pkCode r = ResponseOK) as Acc by done.
    destruct a as [r|]; [destruct (Z.eqb_spec (pkCode r) ResponseOK) as [Ok_|Bad]|].
    + do 2 eexists. exists p', [(mkPacket opPutFinal (headers ++ h), Some r)]. split_and!; try done; [by apply Forall_singleton|].
      cbn. split_and!; [apply Forall_singleton, Acc; eauto|by rewrite Ec, app_nil_r|by exists 0%nat].
    + do 2 eexists. exists p', [(mkPacket opPutFinal (headers ++ h), Some r)]. split_and!; try done; [by apply Forall_singleton|].
      apply put_end_refused. rewrite Acc. naive_solver.
    + do 2 eexists. exists p', [(mkPacket opPutFinal (headers ++ h), None)]. split_and!; try done; [by apply Forall_singleton|].
      apply put_end_refused. rewrite Acc. naive_solver.
  - assert (len (take (Z.to_nat available) body) = available) as La by (unfold len in *; rewrite length_take; lia).
    destruct (put_request opPut headerBody headers (take (Z.to_nat available) body) hs s p) as (h & p' & a & Eh & Ec & El & Er & K' & Lg);
      [done..|lia|done|done|by left|rewrite La; unfold available; lia|].
    rewrite (bind_ok _ _ s s h) by (unfold must; by rewrite Eh). set (k := mkPacket opPut (headers ++ h)) in *.
    assert (accepted (k, a) <-> exists r, a = Some r /\ pkCode r = ResponseContinue) as Acc by done.
    destruct a as [r|]; [destruct (Z.eqb_spec (pkCode r) ResponseContinue) as [Go|Bad]|].
    + rewrite (bind_ok _ _ s _ r) by done. rewrite (proj2 (Z.eqb_eq _ _) Go). cbn [negb].
      set (s1 := s <| ssConn := Some p' |>). rewrite (bind_ok _ _ s1 s1 _ (connectionHeader_ok s1)).
      destruct (IH [mkHeader headerConnectionID (be_bytes 4 (ssConnection s1))]
          (headerConnectionID :: be_bytes 4 (ssConnection s1)) (drop (Z.to_nat available) body) s1 p')
        as (s' & o & p'' & log & E & -> & K'' & Lg' & Fs & PE); [done..|apply connection_header_built|by repeat constructor|done| |].
      { rewrite length_drop. unfold len in *. lia. }
      rewrite E. do 2 eexists. exists p'', ((k, Some r) :: log). split_and!; try done.
      * by rewrite Lg', Lg, <- app_assoc.
      * by constructor.
      * eapply put_end_cons; [done|done| |done]. rewrite Ec. apply take_drop.
    + rewrite (bind_ok _ _ s _ r) by done. rewrite (proj2 (Z.eqb_neq _ _) Bad). cbn [negb].
      do 2 eexists. exists p', [(k, Some r)]. split_and!; try done; [by apply Forall_singleton|].
      apply put_end_refused. rewrite Acc. naive_solver.
    + rewrite (bind_error _ _ s _ timeout) by done.
      do 2 eexists. exists p', [(k, None)]. split_and!; try done; [by apply Forall_singleton|].
      apply put_end_refused. rewrite Acc. naive_solver.
Qed.

(** ** The folder the phone is in *)

(** The value of the name header that a folder name is sent in. *)
Definition name_value (part : bytes) : bytes := units_bytes (utf16_encode (runes (part ++ [0]))).

(** What one request does to the phone's folder: an accepted SetPath without a name goes
    to the root, with a name into that folder; after a SetPath without an answer the
    folder is not known. *)
Definition is_setpath (e : Packet * option Packet) : Prop := pkCode e.1 = opSetPath.
Definition folder_step (path : option (list bytes)) (e : Packet * option Packet) : option (list bytes) :=
  let '(k, a) := e in
  if negb (pkCode k =? opSetPath) then path
  else match a with
       | None => None
       | Some r =>
           if negb (pkCode r =? ResponseOK) then path
           else match ParseHeaders (pkPayload k) 2 with
                | Error _ => None
                | Ok hs => match Find hs headerName with None => Some [] | Some n => (fun p => p ++ [n]) <$> path end
                end
       end.
Definition folder (log : list (Packet * option Packet)) : option (list bytes) := foldl folder_step (Some []) log.

Definition components (path : bytes) : list bytes :=
  match path with [] => [] | _ => name_value <$> SplitByte path 47 end.

(** A session with an open connection, and one that knows where the phone is. *)
Record live (s : Session Phone) (p : Phone) : Prop := {
  lv_conn : ssConn s = Some p;
  lv_script : script_ok p;
  lv_max : 255 <= ssPacketMax s <= 0xffff
}.
Definition tracked (s : Session Phone) (p : Phone) : Prop :=
  ssPath s <> unknownPath -> folder (phLog p) = Some (components (ssPath s)).

Lemma folder_app log log' : folder (log ++ log') = foldl folder_step (folder log) log'.
Proof. apply foldl_app. Qed.
Lemma folder_plain path log : Forall (fun e => ~ is_setpath e) log -> foldl folder_step path log = path.
Proof.
  intros F. revert path. induction F as [|[k a] log N F IH]; intros path; [done|]. cbn [foldl folder_step].
  rewrite (proj2 (Z.eqb_neq (pkCode k) _) N). apply IH.
Qed.

(** ** Runs that stay in the folder *)
Definition plain {A} (m : M (Session Phone) A) : Prop := forall s p s' o,
  live s p -> m s = (s', o) ->
  exists p' log, live s' p' /\ ssPath s' = ssPath s /\ phLog p' = phLog p ++ log /\ Forall (fun e => ~ is_setpath e) log.

Lemma plain_pure {A} (o : outcome A) : plain (fun s => (s, o)).
Proof. intros s p s' o' L [= <- <-]. exists p, []. split_and!; [done..|by rewrite app_nil_r|constructor]. Qed.
Lemma plain_gets {A} (f : Session Phone -> A) : plain (gets f).
Proof. intros s p s' o' L [= <- <-]. exists p, []. split_and!; [done..|by rewrite app_nil_r|constructor]. Qed.
Lemma plain_bind {A B} (m : M (Session Phone) A) (k : A -> M (Session Phone) B) :
  plain m -> (forall a, plain (k a)) -> plain (bind m k).
Proof.
  intros Pm Pk s p s' o L E. unfold bind in E. destruct (m s) as [s1 o1] eqn:E1.
  destruct (Pm _ _ _ _ L E1) as (p1 & log1 & L1 & S1 & G1 & F1).
  destruct o1 as [[a|e]| |]; [|by injection E as <- <-; exists p1, log1..].
  destruct (Pk a _ _ _ _ L1 E) as (p2 & log2 & L2 & S2 & G2 & F2). exists p2, (log1 ++ log2).
  split_and!; [done|congruence|by rewrite G2, G1, app_assoc|by apply Forall_app].
Qed.
Lemma plain_request op payload : op <> opSetPath -> plain (request op payload).
Proof.
  intros N s p s' o [C K [M1 M2]] E. destruct (request_phone _ _ _ _ _ _ C K M2 E) as [(_ & -> & _) | (_ & p' & a & -> & K' & _ & G & _)].
  - exists p, []. split_and!; [by constructor|done|by rewrite app_nil_r|constructor].
  - exists p', [(mkPacket op payload, a)]. split_and!; [by constructor|done|done|by apply Forall_singleton].
Qed.
Lemma plain_if {A} (b : bool) (m1 m2 : M (Session Phone) A) : plain m1 -> plain m2 -> plain (if b then m1 else m2).
Proof. by destruct b. Qed.

Create HintDb plain.
#[export] Hint Resolve plain_pure plain_gets plain_bind plain_request plain_if : plain.
#[export] Hint Extern 1 (plain (ret _)) => apply plain_pure : plain.
#[export] Hint Extern 1 (plain (throw _)) => apply plain_pure : plain.
#[export] Hint Extern 1 (plain (rejected _)) => apply plain_pure : plain.
#[export] Hint Extern 1 (plain (must _)) => apply plain_pure : plain.
#[export] Hint Extern 1 (plain (lift _)) => apply plain_pure : plain.
#[export] Hint Extern 1 (_ <> opSetPath) => (by case_match || done) : plain.

Lemma plain_connectionHeader : plain connectionHeader.
Proof. unfold connectionHeader. auto with plain. Qed.
#[export] Hint Resolve plain_connectionHeader : plain.

Lemma plain_put_loop fuel headers body : plain (put_loop fuel headers body).
Proof.
  revert headers body. induction fuel as [|fuel IH]; intros headers body; cbn [put_loop]; [apply plain_pure|].
  apply plain_bind; [auto with plain|]. intros pm. apply plain_if; [auto with plain|].
  apply plain_bind; [auto with plain|]. intros h.
  apply plain_bind; [apply plain_request; by case_match|]. intros r.
  apply plain_if; [auto with plain|]. apply plain_if; auto with plain.
Qed.
Lemma plain_collect_loop fuel response body : plain (collect_loop fuel response body).
Proof.
  revert response body. induction fuel as [|fuel IH]; intros response body; cbn [collect_loop]; [apply plain_pure|].
  apply plain_bind; [auto with plain|]. intros hs. repeat apply plain_if; auto with plain.
Qed.
#[export] Hint Resolve plain_put_loop plain_collect_loop : plain.

(** ** Moving between folders *)
Lemma ParseHeaders_offset pre raw hs :
  build_all hs = Ok raw -> ParseHeaders (pre ++ raw) (len pre) = Ok hs.
Proof.
  intros E. unfold ParseHeaders. pose proof (len_nonneg pre). pose proof (len_nonneg raw).
  rewrite len_app, (proj2 (Z.ltb_ge (len pre) 0)), (proj2 (Z.ltb_ge _ (len pre))) by lia. cbn [orb].
  replace (Z.to_nat (len pre)) with (length pre) by (unfold len; lia). rewrite drop_app_length.
  apply headers_loop_build; [done|]. rewrite length_app. lia.
Qed.

(** The headers of a SetPath request: the connection, and the name if there is one. *)
Definition setpath_headers (id : Z) (name : list bytes) : list Header :=
  mkHeader headerConnectionID (be_bytes 4 id) :: (mkHeader headerName <$> name).

Lemma folder_setpath path id name raw r :
  build_all (setpath_headers id name) = Ok raw -> pkCode r = ResponseOK ->
  folder_step path (mkPacket opSetPath ([0x02; 0x00] ++ raw), Some r) =
    match name with [] => Some [] | n :: _ => (fun p => p ++ [n]) <$> path end.
Proof.
  intros B R. unfold folder_step. cbn [pkCode pkPayload]. rewrite R. change (negb (opSetPath =? opSetPath)) with false.
  change (negb (ResponseOK =? ResponseOK)) with false. cbv iota.
  rewrite (ParseHeaders_offset [2; 0] raw _ B : ParseHeaders ([2; 0] ++ raw) 2 = _). by destruct name.
Qed.

(** How a SetPath request can end. *)
Lemma setpath_request_spec payload text s p s' o :
  live s p -> setpath_request payload text s = (s', o) ->
  exists p' log, live s' p' /\ phLog p' = phLog p ++ log /\ Forall is_setpath log /\
    match o with
    | Returns (Ok _) => ssPath s' = ssPath s /\ ssConnection s' = ssConnection s /\
        exists r, log = [(mkPacket opSetPath payload, Some r)] /\ pkCode r = ResponseOK
    | Returns (Error _) => ssPath s' = unknownPath
    | _ => False
    end.
Proof.
  intros [C K [M1 M2]] E. unfold setpath_request, bind, on_error in E.
  destruct (request opSetPath payload s) as [s1 o1] eqn:R.
  destruct (request_phone _ _ _ _ _ _ C K M2 R) as [(-> & -> & _) | (_ & p' & a & -> & K' & _ & G & Sc)].
  - cbn in E. injection E as <- <-. exists p, []. split_and!; [by constructor|by rewrite app_nil_r|constructor|done].
  - assert (o1 = Returns (match a with Some r => Ok r | None => Error timeout end)) as ->
      by (revert Sc; destruct (phScript p) as [|[| |r] rest]; intros (-> & -> & _); done).
    exists p', [(mkPacket opSetPath payload, a)].
    destruct a as [r|]; [destruct (Z.eqb_spec (pkCode r) ResponseOK)|]; cbn in E; injection E as <- <-;
      (split; [by constructor|]); (split; [exact G|]); (split; [by apply Forall_singleton|]); [|done..].
    split_and!; [done..|]. by exists r.
Qed.

(** The headers of the two kinds of SetPath requests. *)
Lemma setpath_root_built id : build_all (setpath_headers id []) = Ok (headerConnectionID :: be_bytes 4 id).
Proof. reflexivity. Qed.
Lemma setpath_name_built id part n :
  NameHeader headerName part = Some n ->
  build_all (setpath_headers id [name_value part]) = Ok ((headerConnectionID :: be_bytes 4 id) ++ n).
Proof.
  intros E. unfold NameHeader, MustHeader in E. fold (name_value part) in E. unfold setpath_headers. cbn [fmap list_fmap].
  change (mkHeader headerConnectionID (be_bytes 4 id) :: ?l) with ([mkHeader headerConnectionID (be_bytes 4 id)] ++ l).
  rewrite build_all_app, connection_header_built. cbn [result_bind build_all hdID hdValue].
  destruct (BuildHeader headerName (name_value part)) as [raw|]; [|done]. injection E as ->. cbn [result_bind]. by rewrite app_nil_r.
Qed.

Definition moved (s : Session Phone) (o : outcome unit) (log : list (Packet * option Packet)) (path : bytes) (where_ : list bytes) : Prop :=
  match o with
  | Returns (Ok _) => ssPath s = path /\ folder log = Some where_
  | Returns (Error _) => ssPath s = unknownPath
  | Panics => True
  | Pending => False
  end.

Lemma resetPath_spec force s p s' o :
  live s p -> tracked s p -> resetPath force s = (s', o) ->
  exists p' log, live s' p' /\ phLog p' = phLog p ++ log /\ Forall is_setpath log /\ moved s' o (phLog p') [] [] /\ o <> Panics.
Proof.
  intros L T E. unfold resetPath in E. rewrite (bind_ok _ _ s s (ssPath s)) in E by done.
  destruct (negb force && (len (ssPath s) =? 0)) eqn:Sk.
  { injection E as <- <-. bool_prop. exists p, []. assert (ssPath s = []) as P0 by (by apply len_0_nil).
    split_and!; [done|by rewrite app_nil_r|constructor|cbn; split; [done|]|done].
    rewrite T; rewrite P0; done. }
  rewrite (bind_ok _ _ s s _ (connectionHeader_ok s)) in E. unfold bind in E.
  destruct (setpath_request _ _ s) as [s1 o1] eqn:R.
  destruct (setpath_request_spec _ _ _ _ _ _ L R) as (p' & log & L' & G & F & O).
  destruct o1 as [[u|e]| |]; try done.
  - injection E as <- <-. destruct O as (_ & _ & r & -> & Rok). exists p', [(mkPacket opSetPath ([2; 0] ++ headerConnectionID :: be_bytes 4 (ssConnection s)), Some r)].
    split_and!; [by destruct L'; constructor|done|done| |done]. cbn. split; [done|].
    rewrite G, folder_app. cbn [foldl]. by rewrite (folder_setpath _ (ssConnection s) [] _ r (setpath_root_built _) Rok).
  - injection E as <- <-. exists p', log. by split_and!.
Qed.

Lemma enter_folders_spec parts s p s' o f :
  live s p -> folder (phLog p) = Some f -> enter_folders parts s = (s', o) ->
  exists p' log, live s' p' /\ phLog p' = phLog p ++ log /\ Forall is_setpath log /\
    moved s' o (phLog p') (ssPath s) (f ++ (name_value <$> parts)).
Proof.
  revert s p f. induction parts as [|part parts IH]; intros s p f L Fo E; cbn [enter_folders] in E.
  { injection E as <- <-. exists p, []. split_and!; [done|by rewrite app_nil_r|constructor|]. cbn. by rewrite app_nil_r. }
  rewrite (bind_ok _ _ s s _ (connectionHeader_ok s)) in E. unfold bind at 1, must in E.
  destruct (NameHeader headerName part) as [n|] eqn:N; [|injection E as <- <-; exists p, []; by split_and!; [|rewrite app_nil_r|constructor|]].
  unfold bind in E at 1. destruct (setpath_request _ _ s) as [s1 o1] eqn:R.
  destruct (setpath_request_spec _ _ _ _ _ _ L R) as (p1 & log1 & L1 & G1 & F1 & O1).
  destruct o1 as [[u|e]| |]; try done; [|injection E as <- <-; exists p1, log1; by split_and!].
  destruct O1 as (Sp & Sc & r & -> & Rok).
  assert (folder (phLog p1) = Some (f ++ [name_value part])) as Fo1.
  { rewrite G1, folder_app, Fo. cbn [foldl].
    by rewrite (folder_setpath _ (ssConnection s) [name_value part] _ r (setpath_name_built _ _ _ N) Rok). }
  destruct (IH _ _ _ L1 Fo1 E) as (p2 & log2 & L2 & G2 & F2 & O2). eexists p2, (_ ++ log2).
  split_and!; [done|by rewrite G2, G1, <- app_assoc|by apply Forall_app|]. rewrite <- Sp. by rewrite <- app_assoc in O2.
Qed.

Lemma good_folder_components folder :
  existsb bad_part (SplitByte folder 47) = false -> folder <> unknownPath /\ components folder = name_value <$> SplitByte folder 47.
Proof. intros E. split; [by intros ->|]. by destruct folder. Qed.

Lemma tracked_moved s o p path where_ :
  moved s o (phLog p) path where_ -> o <> Panics -> where_ = components path -> tracked s p.
Proof. intros Mv NP -> Hn. destruct o as [[u|e]| |]; cbn in Mv; [by destruct Mv as [-> ->]|by rewrite Mv in Hn|done|done]. Qed.

Lemma gotoFolder_spec path s p s' o :
  live s p -> tracked s p -> gotoFolder path s = (s', o) ->
  exists p' log, live s' p' /\ phLog p' = phLog p ++ log /\ Forall is_setpath log /\
    (o <> Panics -> tracked s' p' /\ o <> Pending) /\
    (o = Returns (Ok tt) -> folder (phLog p') = Some (components (trim_slashes path))).
Proof.
  intros L T E. unfold gotoFolder in E. set (fo := trim_slashes path) in *.
  destruct (existsb bad_part (SplitByte fo 47)) eqn:Bad.
  { injection E as <- <-. exists p, []. split_and!; [done|by rewrite app_nil_r|constructor|done|done]. }
  apply good_folder_components in Bad as [Nu Co]. rewrite (bind_ok _ _ s s (ssPath s)) in E by done.
  destruct (fo =s? ssPath s) eqn:Eq.
  { injection E as <- <-. exists p, [].
    split_and!; [done|by rewrite app_nil_r|constructor|done|]. intros _. unfold str_eqb in Eq. bool_prop. rewrite Eq. apply T. by rewrite <- Eq. }
  unfold bind at 1 in E. destruct (resetPath false s) as [s1 o1] eqn:R.
  destruct (resetPath_spec _ _ _ _ _ L T R) as (p1 & log1 & L1 & G1 & F1 & Mv1 & NP1).
  pose proof (tracked_moved _ _ _ _ _ Mv1 NP1 eq_refl) as T1.
  destruct o1 as [[u|e]| |]; try done; [|injection E as <- <-; exists p1, log1; by split_and!].
  destruct Mv1 as [_ Fo1]. unfold bind in E. destruct (enter_folders _ s1) as [s2 o2] eqn:R2.
  destruct (enter_folders_spec _ _ _ _ _ _ L1 Fo1 R2) as (p2 & log2 & L2 & G2 & F2 & Mv2).
  assert (phLog p2 = phLog p ++ log1 ++ log2) as G by (by rewrite G2, G1, app_assoc).
  assert (Forall is_setpath (log1 ++ log2)) as F by (by apply Forall_app).
  destruct o2 as [[u2|e2]| |]; try done; injection E as <- <-; exists p2, (log1 ++ log2).
  - destruct Mv2 as [_ Fo2]. cbn [app] in Fo2. split_and!; [by destruct L2; constructor|done|done| |by rewrite Fo2, Co].
    intros _. split; [|done]. intros _. cbn. by rewrite Fo2, Co.
  - split_and!; [done..| |done]. intros _. split; [|done]. intros Hn. by rewrite Mv2 in Hn.
  - split_and!; done.
Qed.





(** ** Connecting *)

(** [Connect] gives a session whose packets stay between 255 bytes and 64 KiB and
    whose remembered folder, the root, is the phone's; on any failure it returns an
    error and has closed the connection exactly once. *)
Theorem Connect_spec (p : Phone) :
  script_ok p -> phLog p = [] ->
  match Connect p with
  | (None, Returns (Ok s)) => exists p', live s p' /\ tracked s p' /\ phClosed p' = phClosed p
  | (Some p', Returns (Error _)) => phClosed p' = S (phClosed p)
  | _ => False
  end.
Proof.
  intros K G. unfold Connect. cbv zeta. set (s0 := mkSession (Some p) 0 0xffff []).
  rewrite (bind_ok _ _ s0 s0 (headerTarget :: [0; 19] ++ masTargetUUID)) by reflexivity. unfold bind at 1, on_error at 1.
  destruct (request opConnect _ s0) as [s1 o1] eqn:R.
  destruct (request_phone _ _ s0 p _ _ eq_refl K ltac:(done) R) as [(_ & _ & Bad) | (_ & p' & a & -> & K' & Cl & G' & Sc)].
  { by vm_compute in Bad. }
  rewrite G in G'. cbn [app] in G'.
  assert (o1 = Returns (match a with Some r => Ok r | None => Error timeout end)) as ->
    by (revert Sc; destruct (phScript p) as [|[| |r] rest]; intros (-> & -> & _); done).
  assert (forall e c, phClosed p' = phClosed p -> (fun conn : Phone => (CloseConn conn).1) <$> Some p' = Some c ->
    match (Some c, Returns (Error e) : outcome (Session Phone)) with
    | (Some p', Returns (Error _)) => phClosed p' = S (phClosed p) | _ => False end) as Fail.
  { intros e c Ec [= <-]. cbn. by rewrite Ec. }
  destruct a as [r|]; [|by apply (Fail timeout)].
  destruct (negb (pkCode r =? ResponseOK) || (len (pkPayload r) <? 4)); [by apply (Fail timeout)|].
  set (pm := be_value (slice (pkPayload r) 2 4)).
  set (s1 := s0 <| ssConn := Some p' |>).
  rewrite (bind_ok _ _ s1 s1 0xffff) by done.
  set (s2 := if (255 <=? pm) && (pm <? 0xffff) then s1 <| ssPacketMax := pm |> else s1).
  rewrite (bind_ok _ _ s1 s2 tt) by (unfold s2, pm; by destruct (_ && _)).
  assert (ssConn s2 = Some p' /\ 255 <= ssPacketMax s2 <= 0xffff /\ ssPath s2 = []) as (C2 & M2 & P2).
  { unfold s2. destruct ((255 <=? pm) && (pm <? 0xffff)) eqn:B; (split; [done|split; [|done]]).
    - bool_prop. change (255 <= pm <= 0xffff). lia.
    - by change (255 <= 0xffff <= 0xffff). }
  clearbody s2. unfold bind at 1, on_error, lift. destruct (ParseHeaders (pkPayload r) 4) as [hs|e];
    [|cbn; rewrite C2; by apply (Fail timeout)].
  destruct (Find hs headerConnectionID) as [rawID|]; [|cbn; rewrite C2; by apply (Fail timeout)].
  unfold bind. destruct (Uint32 rawID) as [id|e]; [|cbn; rewrite C2; by apply (Fail timeout)].
  cbn. exists p'. split_and!; [by constructor|by intros _; cbn; rewrite P2, G'|done].
Qed.

(** A phone that accepts the connection and allows packets of 4 KiB. *)
Definition welcoming : Phone :=
  mkPhone [] [Answers (mkPacket ResponseOK ([0x10; 0; 0x10; 0] ++ [headerConnectionID; 0; 0; 0; 7]))] [] 0.
Lemma Connect_witness :
  match Connect welcoming with
  | (None, Returns (Ok s)) => ssPacketMax s = 0x1000 /\ exists p', live s p' /\ tracked s p' /\ phClosed p' = phClosed welcoming
  | _ => False
  end.
Proof.
  pose proof (Connect_spec welcoming) as H. assert (script_ok welcoming) as K by (split; [repeat constructor; discriminate|done]).
  specialize (H K eq_refl). revert H.
  assert (exists s, Connect welcoming = (None, Returns (Ok s)) /\ ssPacketMax s = 0x1000) as (s & -> & ->) by (by eexists; split; vm_compute).
  intros H. split; [reflexivity|exact H].
Defined.

(** ** Sending a message *)

(** No operation changes the negotiated packet size. *)
Definition keeps_max {A} (m : M (Session Phone) A) : Prop := forall s, ssPacketMax (m s).1 = ssPacketMax s.
Lemma keeps_bind {A B} (m : M (Session Phone) A) (k : A -> M (Session Phone) B) :
  keeps_max m -> (forall a, keeps_max (k a)) -> keeps_max (bind m k).
Proof.
  intros Km Kk s. unfold bind. specialize (Km s). destruct (m s) as [s1 [[a|e]| |]]; try done. cbn in Km. rewrite <- Km. apply Kk.
Qed.
Lemma keeps_request op payload : keeps_max (request op payload).
Proof. intros s. unfold request. repeat case_match; done. Qed.
Lemma keeps_gotoFolder path : keeps_max (gotoFolder path).
Proof.
  assert (forall payload text, keeps_max (setpath_request payload text)) as KS.
  { intros payload text. apply keeps_bind.
    - intros s. unfold on_error. pose proof (keeps_request opSetPath payload s) as K. by destruct (request _ _ s) as [s1 [[a|e]| |]].
    - intros r s. by destruct (_ =? _). }
  assert (keeps_max (resetPath false)) as KR.
  { apply keeps_bind; [done|]. intros q. destruct (_ && _); [done|]. apply keeps_bind; [done|]. intros h. by apply keeps_bind. }
  assert (forall parts, keeps_max (enter_folders parts)) as KE.
  { induction parts as [|part parts IH]; cbn [enter_folders]; [done|]. by repeat (apply keeps_bind; [done|]; intros ?). }
  unfold gotoFolder. destruct (existsb _ _); [done|]. apply keeps_bind; [done|]. intros q. destruct (_ =s? _); [done|].
  apply keeps_bind; [done|]. intros _. by apply keeps_bind.
Qed.

Lemma request_returns op payload (s : Session Phone) : exists s' r, request op payload s = (s', Returns r).
Proof.
  unfold request. destruct (ssConn s) as [p|]; [|by do 2 eexists]. case_match; [by do 2 eexists|].
  destruct (WritePacket p op payload) as [p1 [u|e]]; [|by do 2 eexists]. destruct (ReadPacket p1 0xffff) as [p2 r]. by do 2 eexists.
Qed.
Lemma setpath_request_total payload text (s : Session Phone) : (setpath_request payload text s).2 <> Panics.
Proof.
  unfold setpath_request, bind, on_error. destruct (request_returns opSetPath payload s) as (s' & [r|e] & ->); [|done].
  by destruct (_ =? _).
Qed.
Lemma enter_folders_total parts (s : Session Phone) :
  Forall (fun part => is_Some (NameHeader headerName part)) parts -> (enter_folders parts s).2 <> Panics.
Proof.
  intros F. revert s. induction F as [|part parts [n N] F IH]; intros s; cbn [enter_folders]; [done|].
  rewrite (bind_ok _ _ s s _ (connectionHeader_ok s)), (bind_ok _ _ s s n) by (unfold must; by rewrite N).
  pose proof (setpath_request_total ([2; 0] ++ (headerConnectionID :: be_bytes 4 (ssConnection s)) ++ n) "MAP SetPath rejected" s) as Q.
  unfold bind. by destruct (setpath_request _ _ s) as [s1 [[u|e]| |]].
Qed.

Lemma resetPath_total force (s : Session Phone) p : live s p -> tracked s p -> (resetPath force s).2 <> Panics.
Proof.
  intros L T. destruct (resetPath force s) as [s' o] eqn:E. by destruct (resetPath_spec _ _ _ _ _ L T E) as (_ & _ & _ & _ & _ & _ & ?).
Qed.

Lemma gotoFolder_total path (s : Session Phone) p :
  live s p -> tracked s p -> Forall (fun part => is_Some (NameHeader headerName part)) (SplitByte (trim_slashes path) 47) ->
  (gotoFolder path s).2 <> Panics.
Proof.
  intros L T F. unfold gotoFolder. case_match; [done|]. rewrite (bind_ok _ _ s s (ssPath s)) by done. case_match; [done|].
  pose proof (resetPath_total false s p L T) as R. unfold bind. destruct (resetPath false s) as [s1 [[u|e]| |]]; try done.
  pose proof (enter_folders_total _ s1 F) as Q. by destruct (enter_folders _ s1) as [s2 [[u2|e2]| |]].
Qed.

(** The log of a push: the way to the folder, then the parts of the body. *)
Definition pushed (p : Phone) (o : outcome unit) (packetMax : Z) (path body : bytes) (p' : Phone) : Prop :=
  exists moves parts, phLog p' = phLog p ++ moves ++ parts /\ Forall is_setpath moves /\
    Forall (fun e => len (pkPayload e.1) + 3 <= packetMax) parts /\
    (parts = [] /\ (exists e, o = Returns (Error e)) \/
     folder (phLog p ++ moves) = Some (components (trim_slashes path)) /\ put_end o body parts).

Lemma PushBMessage_spec path body transparent retry (s : Session Phone) p :
  live s p -> tracked s p -> 1 <= len body <= Z.shiftl 60 10 ->
  Forall (fun part => is_Some (NameHeader headerName part)) (SplitByte (trim_slashes path) 47) ->
  exists s' o p', PushBMessage path body transparent retry s = (s', o) /\ live s' p' /\ tracked s' p' /\
    pushed p o (ssPacketMax s) path body p'.
Proof.
  intros L T B F. unfold PushBMessage. rewrite (proj2 (Z.eqb_neq _ _)), (proj2 (Z.ltb_ge _ _)) by lia. cbn [orb].
  pose proof (gotoFolder_total path s p L T F) as NP. destruct (gotoFolder path s) as [s1 o1] eqn:R.
  destruct (gotoFolder_spec _ _ _ _ _ L T R) as (p1 & log1 & L1 & G1 & F1 & T1 & Fo). destruct (T1 NP) as [T1' NPe].
  pose proof (keeps_gotoFolder path s) as Mx. rewrite R in Mx. cbn [fst] in Mx.
  destruct o1 as [[[]|e]| |]; try done.
  2: { rewrite (bind_error _ _ s s1 e R). do 2 eexists. exists p1. split_and!; [done..|]. exists log1, [].
       split_and!; [by rewrite app_nil_r|done|constructor|]. left. eauto. }
  rewrite (bind_ok _ _ s s1 tt R), (bind_ok _ _ s1 s1 _ (connectionHeader_ok s1)).
  set (params := [0x0b; 0x01; flag transparent; 0x0c; 0x01; flag retry; 0x14; 0x01; 0x01]).
  assert (exists t, BuildHeader headerType (str "x-bt/message" ++ [0]) = Ok t /\ len t = 16) as (t & Et & Lt) by (eexists; split; reflexivity).
  assert (exists a, BuildHeader headerAppParams params = Ok a /\ len a = 12) as (a & Ea & La) by (eexists; split; reflexivity).
  rewrite (bind_ok _ _ s1 s1 t) by (unfold must, MustHeader; by rewrite Et).
  rewrite (bind_ok _ _ s1 s1 a) by (unfold must, MustHeader; by rewrite Ea).
  destruct (put_loop_spec (S (length body)) [mkHeader headerConnectionID (be_bytes 4 (ssConnection s1)); mkHeader headerType (str "x-bt/message" ++ [0]); mkHeader headerAppParams params]
    ((headerConnectionID :: be_bytes 4 (ssConnection s1)) ++ t ++ a) body s1 p1) as (s2 & o2 & p2 & log2 & E2 & -> & K2 & G2 & Fs & PE).
  - apply L1.
  - apply L1.
  - apply L1.
  - cbn [build_all hdID hdValue]. rewrite Et, Ea. cbn [result_bind]. by rewrite app_nil_r.
  - by repeat constructor.
  - rewrite !len_app, Lt, La. done.
  - lia.
  - unfold putBody. rewrite E2. do 2 eexists. exists p2. split_and!; [done|by destruct L1; constructor| |].
    + intros Hn. pose proof (plain_put_loop (S (length body)) ((headerConnectionID :: be_bytes 4 (ssConnection s1)) ++ t ++ a) body s1 p1 _ _ L1 E2)
        as (p3 & log3 & L3 & S3 & G3 & F3). destruct L3 as [C3 _ _]. injection C3 as <-.
      rewrite G3, folder_app, folder_plain by done. by apply T1'.
    + exists log1, log2. split_and!; [by rewrite G2, G1, app_assoc|done|by rewrite <- Mx|]. right. split; [|done]. rewrite <- G1. by apply Fo.
Qed.

(** C18.  Sending an SMS: on any connected session, whatever the phone does, [SendSMS]
    finishes with a result (it neither hangs nor panics); the requests it made are the
    way to the outbox, all accepted, and then Put packets within the negotiated size;
    it reports success exactly when the phone accepted every part up to the final one,
    and then the parts the phone collected are the bMessage byte for byte; on the first
    refusal or silence it stops and reports the error. *)
Theorem SendSMS_spec to text (s : Session Phone) p :
  live s p -> tracked s p -> len (MakeSMSBMessage to text) <= Z.shiftl 60 10 ->
  exists s' o p', SendSMS to text s = (s', o) /\ live s' p' /\ tracked s' p' /\
    pushed p o (ssPacketMax s) (str "telecom/msg/outbox") (MakeSMSBMessage to text) p'.
Proof.
  intros L T B. apply PushBMessage_spec; [done..| |].
  - split; [|done]. unfold MakeSMSBMessage. unfold len. cbn [length app crlf]. rewrite length_app. change (length (crlf "BEGIN:BMSG")) with 12%nat. lia.
  - apply Forall_forall. intros part Hp. repeat (apply elem_of_cons in Hp as [-> | Hp]; [by eexists|]). by apply elem_of_nil in Hp.
Qed.

(** A phone at the root that accepts everything. *)
Definition ok_answer : answer := Answers (mkPacket ResponseOK []).
Definition agreeable : Phone := mkPhone [] [ok_answer; ok_answer; ok_answer; ok_answer] [] 0.
Definition at_root : Session Phone := mkSession (Some agreeable) 7 0xffff [].
Lemma at_root_live : live at_root agreeable.
Proof. constructor; [done|split; [repeat constructor; discriminate|done]|done]. Qed.

Lemma SendSMS_witness :
  (SendSMS (str "+821012345678") (str "hi") at_root).2 = Returns (Ok tt) /\
  exists s' o p', SendSMS (str "+821012345678") (str "hi") at_root = (s', o) /\
    pushed agreeable o 0xffff (str "telecom/msg/outbox") (MakeSMSBMessage (str "+821012345678") (str "hi")) p'.
Proof.
  split; [vm_compute; reflexivity|].
  destruct (SendSMS_spec (str "+821012345678") (str "hi") at_root agreeable) as (s' & o & p' & E & _ & _ & P).
  - exact at_root_live.
  - intros _. reflexivity.
  - vm_compute. discriminate.
  - exists s', o, p'. split; [exact E|exact P].
Defined.

(** ** Fetching a body *)
Definition answer_body (r : Packet) (chunk : bytes) : Prop :=
  exists hs, ParseHeaders (pkPayload r) 0 = Ok hs /\ CollectBody hs headerBody headerEndOfBody = chunk.

Lemma request_answered op payload (s : Session Phone) log r script closed :
  ssConn s = Some (mkPhone log (Answers r :: script) [] closed) -> answer_ok (Answers r) -> Forall answer_ok script ->
  len payload + 3 <= ssPacketMax s <= 0xffff ->
  request op payload s = (s <| ssConn := Some (mkPhone (log ++ [(mkPacket op payload, Some r)]) script [] closed) |>, Returns (Ok r)).
Proof.
  intros C A F [M1 M2]. unfold request. rewrite C, (proj2 (Z.ltb_ge _ _)) by done. unfold WritePacket.
  rewrite (proj2 (Z.ltb_ge _ _)) by lia. cbn [WriteAll phone_transport phScript phLog phBuffer phClosed app].
  by rewrite read_answer by exact A.
Qed.

(** Answers of which all but the last say "continue", and the last "ok". *)
Fixpoint finishes (rs : list Packet) : Prop :=
  match rs with
  | [] => False
  | [r] => pkCode r = ResponseOK
  | r :: rs => pkCode r = ResponseContinue /\ finishes rs
  end.

Lemma collect_loop_complete rs r chunks fuel body (s : Session Phone) log script closed :
  finishes (r :: rs) -> Forall2 answer_body (r :: rs) chunks -> Forall answer_ok ((Answers <$> rs) ++ script) ->
  ssConn s = Some (mkPhone log ((Answers <$> rs) ++ script) [] closed) -> 255 <= ssPacketMax s <= 0xffff ->
  (length rs < fuel)%nat -> len (body ++ concat chunks) <= maxCollectedBody ->
  (collect_loop fuel r body s).2 = Returns (Ok (body ++ concat chunks)).
Proof.
  revert r chunks fuel body s log. induction rs as [|r' rs IH]; intros r chunks fuel body s log Fi F2 Fo C M Fu B;
    apply Forall2_cons_inv_l in F2 as (c & chunks' & (hs & P & Bc) & F2 & ->); (destruct fuel as [|fuel]; [lia|]);
    cbn [collect_loop]; rewrite (bind_ok _ _ s s hs) by (unfold lift; by rewrite P); rewrite Bc;
    cbn [concat] in *; pose proof (len_nonneg (concat chunks')); rewrite (app_assoc body) in *;
    rewrite (len_app (body ++ c)) in B; rewrite (proj2 (Z.ltb_ge _ _)) by lia.
  - apply Forall2_nil_inv_l in F2 as ->. cbn in Fi. rewrite Fi. change (ResponseOK =? ResponseOK) with true. cbn. by rewrite app_nil_r.
  - destruct Fi as [Co Fi]. rewrite Co. change (ResponseContinue =? ResponseOK) with false.
    change (negb (ResponseContinue =? ResponseContinue)) with false. cbv iota.
    rewrite (bind_ok _ _ s s _ (connectionHeader_ok s)). cbn [fmap list_fmap app] in Fo, C.
    apply Forall_cons in Fo as [Fo1 Fo2]. unfold bind at 1.
    rewrite (request_answered _ _ s log r' ((Answers <$> rs) ++ script) closed C Fo1 Fo2)
      by (change (len (headerConnectionID :: be_bytes 4 (ssConnection s))) with 5; lia).
    eapply IH; [done|done|done|done|done|cbn in Fu; lia|]. rewrite len_app. lia.
Qed.

(** Fetching: when the phone answers with any number of "continue" packets and then
    "ok", within 2 MiB in all, [collectGET] given that many turns returns the bodies of
    the packets, concatenated in order. *)
Lemma collectGET_complete rs chunks fuel initial (s : Session Phone) log script closed :
  finishes rs -> Forall2 answer_body rs chunks -> Forall answer_ok ((Answers <$> rs) ++ script) ->
  ssConn s = Some (mkPhone log ((Answers <$> rs) ++ script) [] closed) ->
  255 <= ssPacketMax s <= 0xffff -> len initial + 3 <= ssPacketMax s ->
  (length rs <= fuel)%nat -> len (concat chunks) <= maxCollectedBody ->
  (collectGET fuel initial s).2 = Returns (Ok (concat chunks)).
Proof.
  intros Fi F2 Fo C M I Fu B. destruct rs as [|r rs]; [done|]. unfold collectGET, bind. cbn [fmap list_fmap app] in C, Fo.
  apply Forall_cons in Fo as [Fo1 Fo2]. rewrite (request_answered _ _ s log r ((Answers <$> rs) ++ script) closed C Fo1 Fo2) by lia.
  by eapply (collect_loop_complete rs r chunks fuel []).
Qed.

(** ** Listings end to end *)

(** A listing as the phone writes it, one element for each message. *)
Definition listing_document (items : list (list (bytes * bytes))) : Xml.element :=
  Xml.Element (str "MAP-msg-listing") [(str "version", str "1.0")] ((fun attrs => Xml.Element (str "msg") attrs []) <$> items).
Definition listing_text (items : list (list (bytes * bytes))) (declared : bool) : bytes :=
  (if declared then Xml.xml_declaration else []) ++ Xml.print (listing_document items).
(** What the client keeps of a message. *)
Definition listed (attrs : list (bytes * bytes)) : list ListingMessage :=
  let handle := attribute attrs (str "handle") in
  if safeHandle handle then [mkListing handle (attribute attrs (str "type")) (attribute attrs (str "datetime")) attrs] else [].
Lemma listing_items items : ((fun attrs => (str "msg", attrs)) <$> items) ≫= listing_item = items ≫= listed.
Proof.
  induction items as [|attrs items IH]; [done|]. cbn [fmap list_fmap mbind list_bind] in *. rewrite <- IH. f_equal.
  unfold listing_item, listed. change (negb (str "msg" =s? str "msg")) with false. cbv iota zeta. by destruct (safeHandle _).
Qed.
Lemma parseListing_text wide items declared :
  Xml.fine (listing_document items) = true -> parseListing wide (listing_text items declared) = Ok (items ≫= listed).
Proof.
  intros F. unfold parseListing, listing_text.
  assert (Xml.xml_tokens wide ((if declared then Xml.xml_declaration else []) ++ Xml.print (listing_document items)) =
    (Xml.preorder (listing_document items), true)) as ->.
  { destruct declared; [rewrite Xml.xml_tokens_declared|]; by apply Xml.xml_tokens_print. }
  unfold listing_document. cbn [Xml.preorder]. rewrite <- listing_items. cbn [mbind list_bind]. do 2 f_equal.
  assert (((fun attrs => Xml.Element (str "msg") attrs []) <$> items) ≫= Xml.preorder = (fun attrs => (str "msg", attrs)) <$> items) as ->; [|done].
  clear F. induction items as [|attrs items IH]; [done|]. cbn [fmap list_fmap mbind list_bind]. cbn [Xml.preorder mbind list_bind app]. f_equal. apply IH.
Qed.

(** C19.  A listing arrives whole: when the phone, in the folder asked for, answers with any number of
    "continue" packets and then "ok", whose bodies make the XML of a listing of at most 2 MiB (with
    or without a declaration), [ListMessages] given that many turns returns the messages in the
    phone's order, each with all its attributes; it leaves out those whose handle is not one
    to 64 hexadecimal digits, and nothing else. *)
Theorem ListMessages_complete wide items declared rs chunks fuel folder maximum offset (s : Session Phone) log script closed :
  1 <= maximum <= 500 -> 0 <= offset <= 65535 ->
  existsb bad_part (SplitByte (trim_slashes folder) 47) = false -> ssPath s = trim_slashes folder ->
  Xml.fine (listing_document items) = true ->
  finishes rs -> Forall2 answer_body rs chunks -> concat chunks = listing_text items declared -> len (concat chunks) <= maxCollectedBody ->
  Forall answer_ok ((Answers <$> rs) ++ script) -> ssConn s = Some (mkPhone log ((Answers <$> rs) ++ script) [] closed) ->
  255 <= ssPacketMax s <= 0xffff -> (length rs <= fuel)%nat ->
  (ListMessages wide fuel folder maximum offset s).2 = Returns (Ok (items ≫= listed)).
Proof.
  intros Mx Of Good Path F Fi F2 Ec B Fo C M Fu. unfold ListMessages.
  rewrite (proj2 (Z.ltb_ge _ _)), (proj2 (Z.ltb_ge _ _)), (proj2 (Z.ltb_ge _ _)), (proj2 (Z.ltb_ge _ _)) by lia. cbn [orb].
  assert (gotoFolder folder s = (s, Returns (Ok tt))) as Go.
  { unfold gotoFolder. rewrite Good. unfold gets, bind. rewrite Path. unfold str_eqb. by rewrite bool_decide_eq_true_2. }
  rewrite (bind_ok _ _ s s tt Go). cbv zeta. rewrite (bind_ok _ _ s s _ (connectionHeader_ok s)).
  set (params := [0x01; 0x02; _; _; _; _; _; _; _; _; _]).
  assert (exists t, BuildHeader headerType (str "x-bt/MAP-msg-listing" ++ [0]) = Ok t /\ len t = 24) as (t & Et & Lt) by (eexists; split; reflexivity).
  assert (exists a, BuildHeader headerAppParams params = Ok a /\ len a = 14) as (a & Ea & La) by (eexists; split; reflexivity).
  rewrite (bind_ok _ _ s s t) by (unfold must, MustHeader; by rewrite Et).
  rewrite (bind_ok _ _ s s a) by (unfold must, MustHeader; by rewrite Ea).
  pose proof (collectGET_complete rs chunks fuel ((headerConnectionID :: be_bytes 4 (ssConnection s)) ++ t ++ a) s log script closed Fi F2 Fo C M) as G.
  unfold bind. destruct (collectGET _ _ s) as [s' o]. cbn [snd] in G. rewrite G; [|rewrite !len_app, Lt, La; change (len _) with 5; lia|done|done].
  cbn [lift snd]. rewrite Ec. by rewrite parseListing_text.
Qed.
Definition sample_listing : list (list (bytes * bytes)) :=
  [[(str "handle", str "0A1"); (str "subject", str "a<b & c"); (str "type", str "SMS_GSM")]; [(str "handle", str "none")]].
(** A body header, built. *)
Definition encoded_body (id : Z) (value : bytes) : bytes := match BuildHeader id value with Ok raw => raw | Error _ => [] end.
Definition listing_packets : list Packet :=
  let text := listing_text sample_listing true in
  [mkPacket 0x90 (encoded_body headerBody (take 60 text)); mkPacket 0xa0 (encoded_body headerEndOfBody (drop 60 text))].
Lemma ListMessages_witness :
  (ListMessages Xml.no_wide 2 (str "telecom/msg/inbox") 10 0
     (mkSession (Some (mkPhone [] ((Answers <$> listing_packets) ++ []) [] 0)) 7 0xffff (str "telecom/msg/inbox"))).2
  = Returns (Ok [mkListing (str "0A1") (str "SMS_GSM") [] [(str "handle", str "0A1"); (str "subject", str "a<b & c"); (str "type", str "SMS_GSM")]]).
Proof.
  pose (text := listing_text sample_listing true).
  apply (ListMessages_complete Xml.no_wide sample_listing true listing_packets [take 60 text; drop 60 text] 2 (str "telecom/msg/inbox") 10 0 _ [] [] 0);
    try (split; discriminate); try reflexivity.
  - split; reflexivity.
  - constructor; [eexists; split; vm_compute; reflexivity|]. constructor; [eexists; split; vm_compute; reflexivity|constructor].
  - vm_compute. discriminate.
  - repeat constructor; vm_compute; discriminate.
Defined.

(** A folder name too long for an OBEX header panics the client: [gotoFolder] builds
    the name header with [MustHeader], and nothing before it bounds the name. *)
Lemma long_folder_panics path (s : Session Phone) :
  ssPath s = [] -> existsb bad_part (SplitByte (trim_slashes path) 47) = false ->
  (exists part rest, SplitByte (trim_slashes path) 47 = part :: rest /\ 0xffff < len (name_value part) + 3) ->
  (gotoFolder path s).2 = Panics.
Proof.
  intros P B (part & rest & E & L). unfold gotoFolder. rewrite B. rewrite (bind_ok _ _ s s (ssPath s)) by done.
  rewrite P. destruct (trim_slashes path =s? []) eqn:Z0.
  { unfold str_eqb in Z0. bool_prop. rewrite Z0 in E. injection E as <- <-. by vm_compute in L. }
  rewrite (bind_ok _ _ s s tt).
  2: { unfold resetPath. rewrite (bind_ok _ _ s s (ssPath s)) by done. by rewrite P. }
  unfold bind. rewrite E. cbn [enter_folders]. rewrite (bind_ok _ _ s s _ (connectionHeader_ok s)).
  unfold bind at 1, must. assert (NameHeader headerName part = None) as ->; [|done].
  unfold NameHeader, MustHeader. fold (name_value part). unfold BuildHeader. change (header_kind headerName) with 0. cbn [Z.eqb orb].
  by rewrite (proj2 (Z.ltb_lt _ _) L).
Qed.

(** A folder name of the letter "a" repeated. *)
Lemma letters_part n : SplitByte (replicate (S n) 97) 47 = [replicate (S n) 97].
Proof. induction n as [|n IH]; [done|]. change (replicate (S (S n)) 97) with (97 :: replicate (S n) 97). cbn [SplitByte]. by rewrite IH. Qed.
Lemma letters_trim n : trim_slashes (replicate (S n) 97) = replicate (S n) 97.
Proof.
  unfold trim_slashes, TrimRightSet. assert (TrimLeftSet (Z.eqb 47) (replicate (S n) 97) = replicate (S n) 97) as T by reflexivity.
  assert (forall k, rev (replicate k 97) = replicate k 97) as R.
  { induction k as [|k IH]; [done|]. cbn [replicate rev]. rewrite IH. clear IH. induction k as [|k IH]; [done|]. cbn. by rewrite IH. }
  by rewrite T, R, T, R.
Qed.
Lemma letters_good n : existsb bad_part (SplitByte (trim_slashes (replicate (S n) 97)) 47) = false.
Proof.
  rewrite letters_trim, letters_part. cbn [existsb]. rewrite orb_false_r. unfold bad_part.
  assert (ContainsAny (replicate (S n) 97) [0; 13; 10] = false) as ->.
  { unfold ContainsAny, IndexAny. rewrite index_where_None; [done|]. by rewrite forallb_replicate. }
  unfold str_eqb. rewrite !bool_decide_eq_false_2 by (by destruct n as [|[|n]]). rewrite (proj2 (Z.eqb_neq _ _)); [done|].
  unfold len. rewrite length_replicate. lia.
Qed.
Lemma letters_value n : len (name_value (replicate n 97)) = 2 * (Z.of_nat n + 1).
Proof.
  unfold name_value. rewrite len_units_bytes. f_equal.
  assert (Forall (fun c => 0 <= c < RuneSelf) (replicate n 97 ++ [0])) as F.
  { apply Forall_app. split; [by apply Forall_replicate|by apply Forall_singleton]. }
  rewrite runes_ascii by done. assert (forall l, Forall (fun c => 0 <= c < RuneSelf) l -> utf16_encode l = l) as U.
  { induction 1 as [|c l Hc Fl IH]; [done|]. change (utf16_encode (c :: l)) with (utf16_encode_rune c ++ utf16_encode l). rewrite IH.
    unfold utf16_encode_rune, RuneSelf in *. rewrite (proj2 (Z.leb_le _ _)), (proj2 (Z.ltb_lt _ _)) by lia. done. }
  rewrite U by done. rewrite len_app. unfold len. rewrite length_replicate. done.
Qed.


(** ** The bMessage the client builds *)

(** A line without a carriage return or the letter that starts a marker. *)
Definition tame (l : bytes) : Prop := Forall (fun c => c <> 13 /\ c <> 66) l.

Lemma digits_tame l : Forall (fun c => is_digit c = true \/ c = 43) l -> tame l.
Proof. intros F. eapply Forall_impl; [done|]. intros c [H | ->]; [apply is_digit_spec in H; lia|lia]. Qed.
Lemma Itoa_tame n : 0 <= n -> tame (Itoa n).
Proof.
  intros H. unfold Itoa. rewrite (proj2 (Z.ltb_ge _ _)) by lia. apply digits_tame.
  eapply Forall_impl; [apply decimal_digits|]. tauto.
Qed.
Lemma tame_line l t : tame l -> unix_lines (l ++ [13; 10] ++ t) = l ++ [10] ++ unix_lines t.
Proof. intros F. apply unix_line. eapply Forall_impl; [done|]. by intros c [H _]. Qed.
Lemma tame_clear l sub : tame l -> clear_of l (66 :: sub) = true.
Proof. intros F. apply clear_of_first. eapply Forall_impl; [done|]. by intros c [_ H]. Qed.

(** The same message after [ParseBMessage] has made its line ends plain. *)
Definition plain_head : bytes :=
  lf "BEGIN:BMSG" ++ lf "VERSION:1.0" ++ lf "STATUS:UNREAD" ++ lf "TYPE:SMS_GSM" ++ lf "FOLDER:telecom/msg/outbox" ++
  lf "BEGIN:VCARD" ++ lf "VERSION:3.0" ++ lf "N:" ++ lf "TEL:" ++ lf "END:VCARD" ++
  lf "BEGIN:BENV" ++ lf "BEGIN:VCARD" ++ lf "VERSION:3.0" ++ lf "N:" ++ str "TEL:".
Definition plain_mid : bytes := [10] ++ lf "END:VCARD" ++ lf "BEGIN:BBODY" ++ lf "CHARSET:UTF-8" ++ str "LENGTH:".
Definition plain_tail : bytes := [10] ++ lf "END:BBODY" ++ lf "END:BENV" ++ lf "END:BMSG".

Lemma plain_lines to text :
  tame to -> exists n, tame n /\ unix_lines (MakeSMSBMessage to text) =
    plain_head ++ to ++ plain_mid ++ n ++ [10] ++ lf "BEGIN:MSG" ++ unix_lines text ++ (10 :: str "END:MSG") ++ plain_tail.
Proof.
  intros T. unfold MakeSMSBMessage. cbv zeta.
  set (n := Itoa _). assert (tame n) as N by (apply Itoa_tame; unfold len; lia). clearbody n. exists n. split; [done|].
  unfold plain_head, plain_mid, plain_tail, lf.
  assert (forall s t, forallb (fun c => negb (c =? 13)) (str s) = true -> unix_lines (crlf s ++ t) = str s ++ [10] ++ unix_lines t) as L.
  { intros s t F. unfold crlf. rewrite <- app_assoc. apply unix_line. apply forallb_Forall_true in F.
    eapply Forall_impl; [done|]. by intros c Hc%negb_true_iff%Z.eqb_neq. }
  assert (forall s l t, forallb (fun c => negb (c =? 13)) (str s) = true -> tame l ->
    unix_lines (str s ++ l ++ [13; 10] ++ t) = str s ++ l ++ [10] ++ unix_lines t) as L'.
  { intros s l t F Tl. rewrite (app_assoc (str s) l), unix_line, <- app_assoc; [done|].
    apply Forall_app. split; [|eapply Forall_impl; [done|]; by intros c [H _]].
    apply forallb_Forall_true in F. eapply Forall_impl; [done|]. by intros c Hc%negb_true_iff%Z.eqb_neq. }
  rewrite !L by reflexivity. rewrite L' by (reflexivity || done). rewrite !L by reflexivity. rewrite L' by (reflexivity || done).
  rewrite <- !app_assoc. rewrite L by reflexivity. rewrite unix_lines_app, !L by reflexivity.
  reflexivity.
Qed.

(** The bMessage the client pushes reads back as the text it was given: for a
    destination of digits and plus signs, and a text that is not empty and does not hold the end
    marker on a line of its own, [ParseBMessage] of [MakeSMSBMessage] is a message with
    that text (line ends made plain, outer space trimmed) and without a sender. *)
Theorem bmessage_roundtrip to text :
  Forall (fun c => is_digit c = true \/ c = 43) to -> unix_lines text <> [] ->
  Contains (unix_lines text) (10 :: str "END:MSG") = false ->
  ParseBMessage (MakeSMSBMessage to text) = mkMessage (TrimSpace (unix_lines text)) [] [] [].
Proof.
  intros T%digits_tame N C. unfold ParseBMessage. destruct (plain_lines to text T) as (n & Tn & ->). set (u := unix_lines text) in *.
  clearbody u. cbv zeta.
  assert (extractBlock (plain_head ++ to ++ plain_mid ++ n ++ [10] ++ lf "BEGIN:MSG" ++ u ++ (10 :: str "END:MSG") ++ plain_tail)
    (lf "BEGIN:MSG") (10 :: str "END:MSG") = u) as ->.
  { set (pre := plain_head ++ to ++ plain_mid ++ n ++ [10]).
    replace (plain_head ++ _) with (pre ++ lf "BEGIN:MSG" ++ u ++ (10 :: str "END:MSG") ++ plain_tail) by (unfold pre; by rewrite <- !app_assoc).
    eapply extract_read; [|done|repeat constructor; discriminate|done]. unfold pre. change (lf "BEGIN:MSG") with (66 :: str "EGIN:MSG" ++ [10]).
    repeat apply clear_of_app; (reflexivity || by apply tame_clear). }
  rewrite (proj2 (Z.eqb_neq (len u) 0)) by (destruct u; [done|unfold len; cbn [length]; lia]).
  generalize (to ++ plain_mid ++ n ++ [10] ++ lf "BEGIN:MSG" ++ u ++ (10 :: str "END:MSG") ++ plain_tail). reflexivity.
Qed.

Lemma bmessage_roundtrip_witness :
  ParseBMessage (MakeSMSBMessage (str "+821012345678") (str "hi" ++ [13; 10] ++ str "END")) =
    mkMessage (str "hi" ++ [10] ++ str "END") [] [] [].
Proof.
  change (str "hi" ++ [10] ++ str "END") with (TrimSpace (unix_lines (str "hi" ++ [13; 10] ++ str "END"))).
  apply bmessage_roundtrip; [|discriminate|reflexivity].
  apply Forall_cons; split; [right; reflexivity|repeat (apply Forall_cons; split; [left; reflexivity|]); apply Forall_nil; exact I].
Defined.

(** The marker is not escaped: a text with the end marker on a line is cut there. *)
Lemma bmessage_cut :
  msBody (ParseBMessage (MakeSMSBMessage (str "112") (str "a" ++ [10] ++ str "END:MSG" ++ [10] ++ str "b"))) = str "a".
Proof. vm_compute. reflexivity. Qed.

(** ** Replies that come late

    A connection on which bytes arrive whenever the phone sends them: with each request what
    has arrived by the time its answer is read. *)
Record Tardy := mkTardy { tdArrives : list bytes; tdBuffer : bytes }.
#[export] Instance tardy_transport : Transport Tardy := {|
  ReadFull p n :=
    if (length (tdBuffer p) <? n)%nat then (mkTardy (tdArrives p) [], Error timeout)
    else (mkTardy (tdArrives p) (drop n (tdBuffer p)), Ok (take n (tdBuffer p)));
  WriteAll p raw :=
    match tdArrives p with
    | here :: later => (mkTardy later (tdBuffer p ++ here), Ok tt)
    | [] => (p, Ok tt)
    end
|}.
Definition reply (text : string) : bytes := packet_bytes ResponseOK (encoded_body headerEndOfBody (str text)).
(** The phone answers the first request after its time-out, and the two others at once. *)
Definition late_phone : Session Tardy :=
  mkSession (Some (mkTardy [[]; reply "first" ++ reply "first"; reply "second"] [])) 7 0xffff (str "telecom/msg/inbox").

(** A session that is used again after a time-out is out of step: when the answer to the first
    request arrives with the second one's, the next request, for another message, gets the first
    message again. *)
Lemma late_reply_taken :
  let get handle := GetMessage 1 (str "telecom/msg/inbox") (str handle) in
  exists s1 s2 s3,
    get "0A" late_phone = (s1, Returns (Error timeout)) /\ get "0A" s1 = (s2, Returns (Ok (str "first"))) /\
    get "0B" s2 = (s3, Returns (Ok (str "first"))).
Proof. cbv zeta. do 3 eexists. split_and!; vm_compute; reflexivity. Qed.
