(* ===== verification/Mns.v ===== *)
(** * The message notification server

    Models src/callbridge-sms-go/internal/mns/server.go: the OBEX server the phone
    connects to and pushes event reports to, the connections of its BlueZ profile, and
    the life of one registration.

    [handle] is the loop on one connection; what it does with a packet is [on_packet].
    Its argument [alive] is the number of packets after which the loop finds the context
    cancelled.  The event queue is the service's channel of 256 events; a send on a full
    channel is dropped and counted.  XML is read by the decoder of [GoXml], whose
    parameter [wide] is passed on; [now] stands for the formatted clock. *)

From S2P Require Import Prelude GoStd GoText GoXml Obex Message.

Definition opConnect : Z := 0x80.
Definition opDisconnect : Z := 0x81.
Definition opPut : Z := 0x02.
Definition opPutFinal : Z := 0x82.

Definition headerType : Z := 0x42.
Definition headerTarget : Z := 0x46.
Definition headerBody : Z := 0x48.
Definition headerEndOfBody : Z := 0x49.
Definition headerWho : Z := 0x4a.
Definition headerConnectionID : Z := 0xcb.

Definition maximumEventBody : Z := Z.shiftl 1 20.
Definition targetUUID : bytes :=
  [0xbb; 0x58; 0x2b; 0x41; 0x42; 0x0c; 0x11; 0xdb; 0xb0; 0xde; 0x08; 0x00; 0x20; 0x0c; 0x9a; 0x66].
(** [make(chan model.Event, 256)] in [bridge.New]. *)
Definition queueCapacity : Z := 256.

Definition safeHandle (value : bytes) : bool :=
  if (len value =? 0) || (64 <? len value) then false
  else forallb (fun r => in_range 48 r 57 || in_range 97 r 102 || in_range 65 r 70) (runes value).

#[export] Instance Event_fields : Fields Event := {|
  fields x := mkEvent (evEventType x) (evHandle x) (evFolder x) (evMessageType x) (evDateTime x) (evSource x) |}.
#[export] Instance Event_eq_dec : EqDecision Event.
Proof. solve_decision. Defined.

(** ** The server's configuration *)
Record Server := mkServer { srDevice : bytes; srAdapter : bytes; srChannel : Z }.

(** [New]; the queue and the logger are never nil in the program. *)
Definition NewServer (device adapter : bytes) (channel : Z) : result Server :=
  if (len device =? 0) || (len adapter =? 0) || (channel <? 1) || (30 <? channel)
  then fail! "invalid MNS server configuration"
  else Ok (mkServer device adapter channel).

Definition expectedDevice (s : Server) (path : bytes) : bool :=
  path =s? str "/org/bluez/" ++ srAdapter s ++ str "/dev_" ++ replace_byte (ToUpper (srDevice s)) 58 95.

(** ** Event reports *)
Section Reports.
Variable wide : bool -> Z -> bool.
Variable now : bytes.

(** The switch on one attribute. *)
Definition event_attribute (event : Event) (attr : bytes * bytes) : Event :=
  let '(name, value) := attr in
  if name =s? str "type" then event <| evEventType := value |>
  else if name =s? str "handle" then event <| evHandle := value |>
  else if name =s? str "folder" then event <| evFolder := value |>
  else if name =s? str "msg_type" then event <| evMessageType := value |>
  else if name =s? str "datetime"
  then if negb (len (TrimSpace value) =? 0) then event <| evDateTime := value |> else event
  else event.

(** The first element named "event" decides; the decoder's error otherwise. *)
Fixpoint first_event (tokens : list (bytes * list (bytes * bytes))) : result Event :=
  match tokens with
  | [] => fail! "EOF"
  | (name, attrs) :: tokens =>
      if negb (name =s? str "event") then first_event tokens
      else
        let event := foldl event_attribute (mkEvent [] [] [] [] now (str "mns")) attrs in
        if negb (safeHandle (evHandle event)) then fail! "invalid event handle" else Ok event
  end.
Definition parseEvent (raw : bytes) : result Event :=
  match IndexByte raw 60 with
  | None => fail! "event XML missing"
  | Some start => first_event (Xml.xml_tokens wide (drop start raw)).1
  end.

(** ** One connection *)
Section Connection.
Context {T : Type} `{Transport T}.

(** The locals of [handle]. *)
Record Handler := mkHandler { haAccumulated : bytes; haContentType : bytes; haConnected : bool }.

(** The connection, the channel's contents, and the drop counter. *)
Record World := mkWorld { wdConn : T; wdEvents : list Event; wdDropped : Z }.

Definition reply (w : World) (code : Z) (payload : bytes) : World * bool :=
  let '(conn, r) := WritePacket (wdConn w) code payload in (mkWorld conn (wdEvents w) (wdDropped w), is_ok r).

(** The [select] on the event channel. *)
Definition offer (w : World) (event : Event) : World :=
  if len (wdEvents w) <? queueCapacity then mkWorld (wdConn w) (wdEvents w ++ [event]) (wdDropped w)
  else mkWorld (wdConn w) (wdEvents w) (u64 (wdDropped w + 1)).

Definition connect_payload : option bytes :=
  id ← Uint32Header headerConnectionID 1;
  who ← MustHeader headerWho targetUUID;
  Some ([0x10; 0x00; 0xff; 0xff] ++ id ++ who).

Definition valid_target (packet : Packet) : bool :=
  match ParseHeaders (pkPayload packet) 4 with
  | Error _ => false
  | Ok headers => match Find headers headerTarget with Some target => target =s? targetUUID | None => false end
  end.

(** A complete report. *)
Definition report (w : World) (contentType accumulated : bytes) : World :=
  if (contentType =s? str "x-bt/MAP-event-report") || (contentType =s? []) then
    match parseEvent accumulated with
    | Ok event => if (evEventType event =s? str "NewMessage") && negb (evHandle event =s? []) then offer w event else w
    | Error _ => w
    end
  else w.

(** One turn of the loop after the packet was read; [None] when [handle] returns. *)
Definition on_packet (w : World) (h : Handler) (packet : Packet) : World * option Handler :=
  let bad := ((reply w ResponseBadRequest []).1, None) in
  let code := pkCode packet in
  if code =? opConnect then
    if len (pkPayload packet) <? 4 then bad
    else if negb (valid_target packet) then bad
    else
      match connect_payload with
      | None => (w, None)
      | Some payload =>
          let '(w, ok) := reply w ResponseOK payload in
          (w, if ok then Some (mkHandler [] [] true) else None)
      end
  else if (code =? opPut) || (code =? opPutFinal) then
    if negb (haConnected h) then bad
    else
      match ParseHeaders (pkPayload packet) 0 with
      | Error _ => bad
      | Ok headers =>
          let contentType :=
            match Find headers headerType with
            | Some rawType => TrimRightSet (Z.eqb 0) rawType
            | None => haContentType h
            end in
          let accumulated := haAccumulated h ++ CollectBody headers headerBody headerEndOfBody in
          if maximumEventBody <? len accumulated then bad
          else
            let '(w, ok) := reply w (if code =? opPutFinal then ResponseOK else ResponseContinue) [] in
            if negb ok then (w, None)
            else if (code =? opPutFinal) && (0 <? len accumulated)
            then (report w contentType accumulated, Some (mkHandler [] [] true))
            else (w, Some (mkHandler accumulated contentType true))
      end
  else if code =? opDisconnect then ((reply w ResponseOK []).1, None)
  else
    let '(w, ok) := reply w ResponseNotImplemented [] in
    (w, if ok then Some h else None).

(** How the loop is left: its condition fails because the context was cancelled, or its body returns. *)
Inductive handle_end := ContextCancelled | HandleReturned.
(** The context is cancelled after [alive] turns; a loop that never returns ends in no other way. *)
Fixpoint handle_loop (alive : nat) (w : World) (h : Handler) : World * handle_end :=
  match alive with
  | O => (w, ContextCancelled)
  | S alive =>
      match ReadPacket (wdConn w) 0xffff with
      | (conn, Error _) => (mkWorld conn (wdEvents w) (wdDropped w), HandleReturned)
      | (conn, Ok packet) =>
          match on_packet (mkWorld conn (wdEvents w) (wdDropped w)) h packet with
          | (w, None) => (w, HandleReturned)
          | (w, Some h) => handle_loop alive w h
          end
      end
  end.
Definition handle (alive : nat) (w : World) : World * handle_end := handle_loop alive w (mkHandler [] [] false).
End Connection.
End Reports.
Arguments World : clear implicits.

(** ** The profile's connections

    A connection is named by a number.  [NewConnection] runs on a goroutine of the D-Bus
    library: it enters the connection under the mutex, then calls [Connected(true)], then
    starts the goroutine that serves it; that one removes the connection under the mutex and
    then, when none is left, calls [Connected(false)].  [pfAnnouncing] are the connections
    entered whose callback has not run, [pfRunning] those being served, and [pfClearing] the
    number of goroutines about to call [Connected(false)]. *)
Record Profile := mkProfile {
  pfConns : gset nat;
  pfAnnouncing : gset nat;
  pfRunning : gset nat;
  pfClearing : nat;
  pfShut : gset nat;
  pfConnected : bool
}.
#[export] Instance Profile_fields : Fields Profile := {|
  fields x := mkProfile (pfConns x) (pfAnnouncing x) (pfRunning x) (pfClearing x) (pfShut x) (pfConnected x) |}.
Definition fresh_profile : Profile := mkProfile ∅ ∅ ∅ 0 ∅ false.

(** [NewConnection] up to its unlock: [setup] is whether [bt.FromFD] succeeded, which
    otherwise has closed the descriptor itself. *)
Definition NewConnection (s : Server) (p : Profile) (device : bytes) (c : nat) (setup : bool) : Profile :=
  if negb (expectedDevice s device) then p <| pfShut := {[c]} ∪ pfShut p |>
  else if negb setup then p <| pfShut := {[c]} ∪ pfShut p |>
  else p <| pfConns := {[c]} ∪ pfConns p |> <| pfAnnouncing := {[c]} ∪ pfAnnouncing p |>.
(** The rest of it: the callback and the start of the serving goroutine. *)
Definition announce (p : Profile) (c : nat) : Profile :=
  p <| pfAnnouncing := pfAnnouncing p ∖ {[c]} |> <| pfRunning := {[c]} ∪ pfRunning p |> <| pfConnected := true |>.
(** The deferred function of the serving goroutine, up to its unlock, and the callback. *)
Definition conclude (p : Profile) (c : nat) : Profile :=
  let conns := pfConns p ∖ {[c]} in
  p <| pfShut := {[c]} ∪ pfShut p |> <| pfConns := conns |> <| pfRunning := pfRunning p ∖ {[c]} |>
    <| pfClearing := if bool_decide (conns = ∅) then S (pfClearing p) else pfClearing p |>.
Definition clear_connected (p : Profile) : Profile :=
  p <| pfClearing := pred (pfClearing p) |> <| pfConnected := false |>.
(** [closeAll], which [RequestDisconnection] and the end of [runOnce] call. *)
Definition closeAll (p : Profile) : Profile := p <| pfShut := pfConns p ∪ pfShut p |>.

(** What the goroutines can do. *)
Inductive profile_step (s : Server) : Profile -> Profile -> Prop :=
| step_new p device c setup :
    c ∉ pfConns p -> c ∉ pfAnnouncing p -> c ∉ pfRunning p ->
    profile_step s p (NewConnection s p device c setup)
| step_announce p c : c ∈ pfAnnouncing p -> profile_step s p (announce p c)
| step_conclude p c : c ∈ pfRunning p -> profile_step s p (conclude p c)
| step_clear p : (0 < pfClearing p)%nat -> profile_step s p (clear_connected p)
| step_close p : profile_step s p (closeAll p).
Definition profile_reachable (s : Server) : Profile -> Prop := rtc (profile_step s) fresh_profile.

(** ** The registration *)
Inductive bus_end := ContextDone | BusLost | ProfileReleased.
(** What D-Bus answers to the calls of [runOnce], and how its wait ends. *)
Record bus := mkBus { bsConnect : bool; bsUnixFDs : bool; bsExport : bool; bsRegister : bool; bsEnd : bus_end }.
Inductive bus_action := Registered (value : bool) | CloseConnections | Unregister | CloseBus.

(** [runOnce]: its effects in order, deferred calls included, and its error. *)
Definition runOnce (b : bus) : list bus_action * result unit :=
  if negb (bsConnect b) then ([], fail! "connect system bus")
  else if negb (bsUnixFDs b) then ([CloseBus], fail! "system bus lacks Unix FD passing")
  else if negb (bsExport b) then ([CloseBus], fail! "export MNS profile")
  else if negb (bsRegister b) then ([CloseBus], fail! "register MNS profile")
  else
    ([Registered true; Registered false; CloseConnections; Unregister; CloseBus],
     match bsEnd b with
     | ContextDone => Ok tt
     | BusLost => fail! "system bus disconnected"
     | ProfileReleased => fail! "MNS profile released"
     end).

(** The wait of [Run] doubles until it reaches half a minute. *)
Definition second : Z := 1000000000.
Definition run_backoff (backoff : Z) : Z := if backoff <? 30 * second then backoff * 2 else backoff.
(** [Run]: the context is cancelled during the last of [attempts]; the delays waited. *)
Fixpoint Run (attempts : list bus) (backoff : Z) : list bus_action * list Z :=
  match attempts with
  | [] => ([], [])
  | [b] => ((runOnce b).1, [])
  | b :: attempts =>
      let '(actions, delays) := Run attempts (run_backoff backoff) in
      ((runOnce b).1 ++ actions, backoff :: delays)
  end.

Definition hex2 (n : Z) : bytes := hex_pair n.
Definition quoted (s : string) : bytes := [34] ++ str s ++ [34].
Definition line (l : list bytes) : bytes := concat l ++ [10].
Definition uuid_attr (u : string) : bytes := str "<uuid value=" ++ quoted u ++ str "/>".
Definition attribute_open (id : string) : bytes := str "  <attribute id=" ++ quoted id ++ str ">".
Definition text_attr (id t : string) : bytes :=
  line [attribute_open id; str "<text value="; quoted t; str "/></attribute>"].
(** [serviceRecord]; every quotation mark of the raw string is written as byte 34. *)
Definition serviceRecord (channel : Z) : bytes :=
  line [str "<?xml version="; quoted "1.0"; str " encoding="; quoted "UTF-8"; str " ?>"] ++
  line [str "<record>"] ++
  line [attribute_open "0x0001"; str "<sequence>"; uuid_attr "0x1133"; str "</sequence></attribute>"] ++
  line [attribute_open "0x0004"; str "<sequence>"] ++
  line [str "    <sequence>"; uuid_attr "0x0100"; str "</sequence>"] ++
  line [str "    <sequence>"; uuid_attr "0x0003"; str "<uint8 value="; [34]; str "0x"; hex2 channel; [34]; str "/></sequence>"] ++
  line [str "    <sequence>"; uuid_attr "0x0008"; str "</sequence>"] ++
  line [str "  </sequence></attribute>"] ++
  line [attribute_open "0x0005"; str "<sequence>"; uuid_attr "0x1002"; str "</sequence></attribute>"] ++
  line [attribute_open "0x0009"; str "<sequence><sequence>"; uuid_attr "0x1134"; str "<uint16 value="; quoted "0x0104";
        str "/></sequence></sequence></attribute>"] ++
  text_attr "0x0100" "Message Notification Service" ++
  text_attr "0x0101" "MAP Message Notification Server" ++
  text_attr "0x0102" "Callbridge" ++
  str "</record>".

(** ** Events that reach the queue *)
Section Facts.
Variable wide : bool -> Z -> bool.
Variable now : bytes.

Definition good_event (e : Event) : Prop :=
  evEventType e = str "NewMessage" /\ safeHandle (evHandle e) = true /\ evSource e = str "mns".

Lemma event_attribute_source e attrs : evSource (foldl event_attribute e attrs) = evSource e.
Proof.
  revert e. induction attrs as [|[name value] attrs IH]; intros e; [done|]. cbn [foldl]. rewrite IH.
  unfold event_attribute. by repeat case_match.
Qed.
Lemma parseEvent_spec raw e :
  parseEvent wide now raw = Ok e -> safeHandle (evHandle e) = true /\ evSource e = str "mns".
Proof.
  unfold parseEvent. destruct (IndexByte raw 60); [|done]. generalize ((Xml.xml_tokens wide (drop n raw)).1). intros tokens.
  induction tokens as [|[name attrs] tokens IH]; [done|]. cbn [first_event]. case_match; [done|]. cbv zeta.
  case_match eqn:B; [done|]. intros <-%Ok_inj. bool_prop. by rewrite event_attribute_source.
Qed.

Section Any.
Context {T : Type} `{Transport T}.

(** What a step may add to the queue. *)
Definition extends (w w' : World T) : Prop :=
  exists new, wdEvents w' = wdEvents w ++ new /\ Forall good_event new /\
    (len (wdEvents w) <= queueCapacity -> len (wdEvents w') <= queueCapacity).

Lemma extends_same w w' : wdEvents w' = wdEvents w -> extends w w'.
Proof. intros E. exists []. rewrite app_nil_r, E. done. Qed.
#[local] Instance extends_preorder : PreOrder extends.
Proof.
  split; [intros w; by apply extends_same|]. intros w w1 w2 (n1 & E1 & F1 & B1) (n2 & E2 & F2 & B2).
  exists (n1 ++ n2). rewrite E2, E1, app_assoc. split_and!; [done|by apply Forall_app|].
  intros B. rewrite <- E1, <- E2. auto.
Qed.

Lemma reply_events w code payload : wdEvents (reply w code payload).1 = wdEvents w.
Proof. unfold reply. by destruct (WritePacket (wdConn w) code payload). Qed.
Lemma report_extends w ct acc : extends w (report wide now w ct acc).
Proof.
  unfold report. case_match; [|by apply extends_same]. destruct (parseEvent wide now acc) as [e|] eqn:P; [|by apply extends_same].
  destruct ((evEventType e =s? str "NewMessage") && negb (evHandle e =s? [])) eqn:B; [|by apply extends_same].
  bool_prop. apply bool_decide_eq_true in H1. apply parseEvent_spec in P. unfold offer.
  destruct (Z.ltb_spec (len (wdEvents w)) queueCapacity); [|by apply extends_same].
  exists [e]. cbn [wdEvents]. split_and!; [done|by apply Forall_singleton|].
  rewrite len_app. change (len [e]) with 1. lia.
Qed.
Lemma on_packet_extends w h p : extends w (on_packet wide now w h p).1.
Proof.
  unfold on_packet. pose proof (fun c pl => reply_events w c pl) as R.
  repeat first
    [ progress cbn [fst]
    | apply extends_same; by rewrite ?R
    | match goal with |- context [let '(_, _) := reply ?a ?c ?pl in _] =>
        pose proof (R c pl); destruct (reply a c pl) as [??]; cbn [fst] in * end
    | match goal with |- extends _ (report _ _ ?v _ _) => transitivity v; [by apply extends_same|apply report_extends] end
    | apply extends_same; done
    | case_match ].
Qed.
Lemma handle_loop_extends alive w h : extends w (handle_loop wide now alive w h).1.
Proof.
  revert w h. induction alive as [|alive IH]; intros w h; cbn [handle_loop]; [done|].
  destruct (ReadPacket (wdConn w) 0xffff) as [conn [packet|e]]; [|by apply extends_same].
  set (w1 := mkWorld conn (wdEvents w) (wdDropped w)).
  transitivity w1; [by apply extends_same|]. pose proof (on_packet_extends w1 h packet) as O.
  destruct (on_packet _ _ w1 h packet) as [w2 [h'|]]; cbn [fst] in O; [|done]. by transitivity w2.
Qed.
End Any.

(** C16.  The notification server is a filter: over any connection and for any bytes of
    the peer, serving it only appends to the event queue, never beyond its 256 places, and
    every event appended is a "NewMessage" from "mns" whose handle has 1 to 64 hexadecimal
    digits. *)
Theorem handle_events {T} `{Transport T} alive (w : World T) :
  len (wdEvents w) <= queueCapacity ->
  exists new, wdEvents (handle wide now alive w).1 = wdEvents w ++ new /\ Forall good_event new /\
    len (wdEvents w ++ new) <= queueCapacity.
Proof.
  intros B. destruct (handle_loop_extends alive w (mkHandler [] [] false)) as (new & E & F & C).
  exists new. split_and!; [done|done|]. rewrite <- E. auto.
Qed.

(** ** Serving a byte stream *)
#[local] Abbreviation wire := (World stream).

Lemma reply_stream (w : wire) code payload :
  len payload + 3 <= 0xffff ->
  reply w code payload =
    (mkWorld (mkStream (incoming (wdConn w)) (outgoing (wdConn w) ++ packet_bytes code payload)) (wdEvents w) (wdDropped w), true).
Proof. intros B. unfold reply, WritePacket. rewrite (proj2 (Z.ltb_ge _ _)) by lia. done. Qed.
Lemma reply_short (w : wire) code : 
  reply w code [] =
    (mkWorld (mkStream (incoming (wdConn w)) (outgoing (wdConn w) ++ packet_bytes code [])) (wdEvents w) (wdDropped w), true).
Proof. by apply reply_stream. Qed.
Lemma reply_incoming (w : wire) code payload : incoming (wdConn (reply w code payload).1) = incoming (wdConn w).
Proof. unfold reply, WritePacket. by destruct (0xffff <? len payload + 3). Qed.
Lemma report_conn (w : wire) ct acc : wdConn (report wide now w ct acc) = wdConn w.
Proof. unfold report, offer. by repeat case_match. Qed.

(** Answering a packet reads nothing. *)
Lemma on_packet_incoming (w : wire) h p :
  incoming (wdConn (on_packet wide now w h p).1) = incoming (wdConn w).
Proof.
  unfold on_packet. pose proof (fun c pl => reply_incoming w c pl) as R.
  repeat first
    [ progress cbn [fst]
    | by rewrite ?report_conn, ?R
    | match goal with |- context [let '(_, _) := reply ?a ?c ?pl in _] =>
        pose proof (R c pl); destruct (reply a c pl) as [??]; cbn [fst] in * end
    | rewrite report_conn; done
    | case_match ].
Qed.

(** C22.  The server's loop ends by itself: on a byte stream every turn takes at least the three
    bytes of a packet's head, so before it has made more turns than a third of the bytes the peer will send,
    its body has returned, whatever the bytes are; how long the context stays alive beyond that does not matter. *)
Theorem handle_ends n m (w : wire) :
  all_bytes (incoming (wdConn w)) ->
  len (incoming (wdConn w)) < 3 * Z.of_nat n -> len (incoming (wdConn w)) < 3 * Z.of_nat m ->
  (handle wide now n w).2 = HandleReturned /\ handle wide now n w = handle wide now m w.
Proof.
  unfold handle. generalize (mkHandler [] [] false). revert m w.
  induction n as [|n IH]; intros m w h A Hn Hm; [pose proof (len_nonneg (incoming (wdConn w))); lia|].
  destruct m as [|m]; [pose proof (len_nonneg (incoming (wdConn w))); lia|]. cbn [handle_loop].
  destruct (ReadPacket (wdConn w) 0xffff) as [conn [packet|e]] eqn:R; [|done].
  apply read_packet_inv in R as (E & _ & _); [|done]. set (w1 := mkWorld conn (wdEvents w) (wdDropped w)).
  pose proof (on_packet_incoming w1 h packet) as I. destruct (on_packet _ _ w1 h packet) as [w2 [h'|]]; [|done].
  cbn [fst w1 wdConn] in I. assert (len (incoming (wdConn w)) >= 3 + len (incoming (wdConn w2))) as L.
  { rewrite E, len_app, I. unfold packet_bytes. pose proof (len_nonneg (pkPayload packet)).
    unfold len at 1. cbn [length]. rewrite length_app, length_be_bytes. lia. }
  apply IH; [|lia|lia]. rewrite I. rewrite E in A. by apply Forall_app in A as [_ ?].
Qed.

(** One turn on a stream that starts with a packet. *)
Lemma handle_turn alive code payload more out evs d h :
  len payload + 3 <= 0xffff ->
  handle_loop wide now (S alive) (mkWorld (mkStream (packet_bytes code payload ++ more) out) evs d) h =
    match on_packet wide now (mkWorld (mkStream more out) evs d) h (mkPacket code payload) with
    | (w, None) => (w, HandleReturned)
    | (w, Some h) => handle_loop wide now alive w h
    end.
Proof. intros B. cbn [handle_loop wdConn wdEvents wdDropped]. by rewrite read_packet_bytes by lia. Qed.

(** ** Reassembly of a report *)

(** The payload of a PUT that carries [headers]. *)
Definition carries (headers : list Header) (payload : bytes) : Prop :=
  build_all headers = Ok payload /\ len payload + 3 <= 0xffff.
(** The content type is absent or that of an event report. *)
Definition report_type (ct : bytes) : Prop := ct = [] \/ ct = str "x-bt/MAP-event-report".
Definition report_headers (headers : list Header) : Prop :=
  Forall (fun h => hdID h = headerType -> report_type (TrimRightSet (Z.eqb 0) (hdValue h))) headers.
Definition body_of (headers : list Header) : bytes := CollectBody headers headerBody headerEndOfBody.

Lemma carries_parse hs payload : carries hs payload -> ParseHeaders payload 0 = Ok hs.
Proof.
  intros [E _]. unfold ParseHeaders. rewrite (proj2 (Z.ltb_ge (len payload) 0)) by apply len_nonneg.
  cbn [Z.ltb Z.compare orb]. change (Z.to_nat 0) with 0%nat. rewrite drop_0. by apply headers_loop_build.
Qed.
Lemma report_headers_find hs rawType :
  report_headers hs -> Find hs headerType = Some rawType -> report_type (TrimRightSet (Z.eqb 0) rawType).
Proof.
  induction 1 as [|h hs Hh F IH]; cbn [Find]; [done|]. destruct (Z.eqb_spec (hdID h) headerType); [|done].
  intros [= <-]. by apply Hh.
Qed.

(** A PUT within the bound: the type is kept or replaced, the body is appended. *)
Lemma put_turn code hs payload (w : wire) acc ct :
  code = opPut \/ code = opPutFinal -> carries hs payload -> report_headers hs -> report_type ct ->
  len (acc ++ body_of hs) <= maximumEventBody ->
  exists ct', report_type ct' /\
    on_packet wide now w (mkHandler acc ct true) (mkPacket code payload) =
      (let w' := (reply w (if code =? opPutFinal then ResponseOK else ResponseContinue) []).1 in
       if (code =? opPutFinal) && (0 <? len (acc ++ body_of hs))
       then (report wide now w' ct' (acc ++ body_of hs), Some (mkHandler [] [] true))
       else (w', Some (mkHandler (acc ++ body_of hs) ct' true))).
Proof.
  intros C K R Rc B. exists (match Find hs headerType with Some rawType => TrimRightSet (Z.eqb 0) rawType | None => ct end).
  split; [destruct (Find hs headerType) eqn:Fd; [by eapply report_headers_find|done]|].
  unfold on_packet. cbn [pkCode pkPayload haConnected haAccumulated haContentType negb].
  assert ((code =? opConnect) = false /\ ((code =? opPut) || (code =? opPutFinal)) = true) as [-> ->] by (destruct C as [-> | ->]; done).
  rewrite (carries_parse hs payload K). fold (body_of hs). cbv zeta. rewrite (proj2 (Z.ltb_ge _ _)) by lia.
  rewrite reply_short. cbn [negb fst]. by destruct ((code =? opPutFinal) && (0 <? len (acc ++ body_of hs))).
Qed.

(** The packets of a report after the first, and the answers to them. *)
Definition put_stream (payloads : list bytes) : bytes := payloads ≫= packet_bytes opPut.
Definition continues (n : nat) : bytes := concat (replicate n (packet_bytes ResponseContinue [])).

Lemma puts_turns alive pieces payloads more out evs d acc ct :
  Forall2 carries pieces payloads -> Forall report_headers pieces -> report_type ct ->
  len (acc ++ (pieces ≫= body_of)) <= maximumEventBody ->
  exists ct', report_type ct' /\
    handle_loop wide now (length pieces + alive) (mkWorld (mkStream (put_stream payloads ++ more) out) evs d) (mkHandler acc ct true) =
    handle_loop wide now alive (mkWorld (mkStream more (out ++ continues (length pieces))) evs d)
      (mkHandler (acc ++ (pieces ≫= body_of)) ct' true).
Proof.
  intros K. revert out acc ct. induction K as [|hs payload pieces payloads K Ks IH]; intros out acc ct R Rc B.
  { exists ct. split; [done|]. cbn. by rewrite !app_nil_r. }
  apply Forall_cons in R as [R1 R]. cbn [mbind list_bind] in B. rewrite app_assoc in B.
  change (put_stream (payload :: payloads)) with (packet_bytes opPut payload ++ put_stream payloads).
  rewrite <- app_assoc. cbn [length plus]. rewrite handle_turn by apply K.
  destruct (put_turn opPut hs payload (mkWorld (mkStream (put_stream payloads ++ more) out) evs d) acc ct) as (ct1 & Rc1 & ->); try done; [by left| |].
  { rewrite len_app in B. pose proof (len_nonneg (pieces ≫= body_of)). lia. }
  cbn [andb Z.eqb opPut opPutFinal Pos.eqb]. cbv zeta. rewrite reply_short. cbn [fst wdConn incoming outgoing wdEvents wdDropped].
  destruct (IH (out ++ packet_bytes ResponseContinue []) (acc ++ body_of hs) ct1) as (ct2 & Rc2 & E); [done..|].
  exists ct2. split; [done|]. etrans; [exact E|]. f_equal.
  - do 2 f_equal. by rewrite <- app_assoc.
  - f_equal. by rewrite <- app_assoc.
Qed.

(** Whether and what a report puts on the queue. *)
Definition reported (raw : bytes) : option Event :=
  match parseEvent wide now raw with
  | Ok e => if (evEventType e =s? str "NewMessage") && negb (evHandle e =s? []) then Some e else None
  | Error _ => None
  end.
Lemma report_reported (w : wire) ct raw :
  report_type ct -> report wide now w ct raw = match reported raw with Some e => offer w e | None => w end.
Proof.
  intros R. unfold report, reported.
  assert (((ct =s? str "x-bt/MAP-event-report") || (ct =s? [])) = true) as -> by (destruct R as [-> | ->]; done).
  destruct (parseEvent wide now raw) as [e|e]; [|done]. by case_match.
Qed.

Definition accepted : bytes := [0x10; 0x00; 0xff; 0xff; 0xcb; 0; 0; 0; 1; 0x4a; 0; 19] ++ targetUUID.

(** A report as the phone writes it: an event with its attributes, and others that the server does not know. *)
Definition event_report (e : Event) (others : list (bytes * bytes)) : Xml.element :=
  Xml.Element (str "MAP-event-report") [(str "version", str "1.0")]
    [Xml.Element (str "event")
       ([(str "type", evEventType e); (str "handle", evHandle e); (str "folder", evFolder e); (str "msg_type", evMessageType e);
         (str "datetime", evDateTime e)] ++ others) []].
Definition known_attributes : list bytes := str <$> ["type"; "handle"; "folder"; "msg_type"; "datetime"]%string.
Lemma event_attribute_other e others : Forall (fun a => a.1 ∉ known_attributes) others -> foldl event_attribute e others = e.
Proof.
  induction 1 as [|[n v] others Hn F IH]; [done|]. cbn [foldl]. assert (event_attribute e (n, v) = e) as ->; [|done].
  unfold event_attribute, str_eqb. cbn in Hn. rewrite !not_elem_of_cons in Hn. destruct Hn as (N1 & N2 & N3 & N4 & N5 & _).
  by rewrite !bool_decide_eq_false_2.
Qed.
Lemma known_attributes_read e others :
  TrimSpace (evDateTime e) <> [] -> evSource e = str "mns" ->
  foldl event_attribute (mkEvent [] [] [] [] now (str "mns"))
    ((str "type", evEventType e) :: (str "handle", evHandle e) :: (str "folder", evFolder e) :: (str "msg_type", evMessageType e) ::
     (str "datetime", evDateTime e) :: others) = foldl event_attribute e others.
Proof.
  intros D So. destruct e as [ty h f mt dt so]. cbn [evSource evDateTime evEventType evHandle evFolder evMessageType] in *. subst so. cbn [foldl].
  assert (negb (len (TrimSpace dt) =? 0) = true) as Hd by (destruct (TrimSpace dt) as [|x l]; [done|]; rewrite len_cons; pose proof (len_nonneg l); rewrite (proj2 (Z.eqb_neq _ _)) by lia; done).
  assert (forall ev, event_attribute ev (str "datetime", dt) = ev <| evDateTime := dt |>) as E5.
  { intros ev. transitivity (if negb (len (TrimSpace dt) =? 0) then ev <| evDateTime := dt |> else ev); [reflexivity|]. by rewrite Hd. }
  rewrite E5. reflexivity.
Qed.
Record new_message (e : Event) (others : list (bytes * bytes)) : Prop := {
  nm_fine : Xml.fine (event_report e others) = true; nm_others : Forall (fun a => a.1 ∉ known_attributes) others;
  nm_handle : safeHandle (evHandle e) = true; nm_date : TrimSpace (evDateTime e) <> [];
  nm_type : evEventType e = str "NewMessage"; nm_source : evSource e = str "mns"
}.
Definition report_text (e : Event) (others : list (bytes * bytes)) (declared : bool) : bytes :=
  (if declared then Xml.xml_declaration else []) ++ Xml.print (event_report e others).
Lemma parseEvent_report e others declared : new_message e others -> parseEvent wide now (report_text e others declared) = Ok e.
Proof.
  intros [F O Hh D _ So]. unfold parseEvent, report_text.
  set (doc := (if declared then _ else _) ++ _).
  assert (IndexByte doc 60 = Some 0%nat) as -> by (subst doc; by destruct declared). cbv iota. change (drop 0 doc) with doc.
  assert (Xml.xml_tokens wide doc = (Xml.preorder (event_report e others), true)) as ->.
  { subst doc. destruct declared; [rewrite Xml.xml_tokens_declared|]; by apply Xml.xml_tokens_print. }
  cbn [fst Xml.preorder event_report mbind list_bind first_event]. change (str "MAP-event-report" =s? str "event") with false.
  change (str "event" =s? str "event") with true. cbn [negb app first_event]. cbv zeta. rewrite known_attributes_read by done.
  rewrite event_attribute_other by done. by rewrite Hh.
Qed.

Lemma reported_report e others declared : new_message e others -> reported (report_text e others declared) = Some e.
Proof.
  intros N. unfold reported. rewrite parseEvent_report by done. rewrite (nm_type _ _ N). pose proof (nm_handle _ _ N) as Hh.
  unfold str_eqb. rewrite bool_decide_eq_true_2, bool_decide_eq_false_2 by (done || intros E; by rewrite E in Hh). done.
Qed.

(** C21.  A report in any number of pieces is reassembled: on a stream that holds a connect
    request for the notification target, any number of PUT packets and a final one,
    whose bodies make a text of at most 1 MiB, the server answers success, "continue" for every
    piece and success, and puts on the queue (or counts as dropped when it is full) the event
    of the whole text, exactly as if it had come at once; it then goes on with the
    stream, ready for the next report.  When the text is the XML of a new message, with any further
    attributes and with or without a declaration, that event is the message's, field by field. *)
Theorem report_reassembled alive hello pieces payloads last final more out evs d :
  len hello + 3 <= 0xffff -> 4 <= len hello -> valid_target (mkPacket opConnect hello) = true ->
  Forall2 carries pieces payloads -> carries last final -> Forall report_headers (pieces ++ [last]) ->
  let text := (pieces ++ [last]) ≫= body_of in
  0 < len text <= maximumEventBody ->
  let w := mkWorld (mkStream more (out ++ packet_bytes ResponseOK accepted ++ continues (length pieces) ++ packet_bytes ResponseOK [])) evs d in
  handle wide now (S (length pieces + S alive))
      (mkWorld (mkStream (packet_bytes opConnect hello ++ put_stream payloads ++ packet_bytes opPutFinal final ++ more) out) evs d) =
    handle_loop wide now alive (match reported text with Some e => offer w e | None => w end) (mkHandler [] [] true) /\
  (forall e others declared, new_message e others -> text = report_text e others declared -> reported text = Some e).
Proof.
  intros H3 H4 V K Kl R text B w. split; [|intros e others declared N ->; by apply reported_report]. unfold handle. rewrite handle_turn by done. unfold on_packet at 1. cbn [pkCode pkPayload].
  rewrite (proj2 (Z.ltb_ge _ _)) by lia. rewrite V. change connect_payload with (Some accepted).
  cbn [negb Z.eqb opConnect Pos.eqb]. rewrite reply_stream by (vm_compute; discriminate). cbn [wdConn incoming outgoing wdEvents wdDropped].
  apply Forall_app in R as [R Rl]. apply Forall_cons in Rl as [Rl _]. unfold text in *. rewrite bind_app in *. cbn [mbind list_bind] in *.
  rewrite app_nil_r in *.
  destruct (puts_turns (S alive) pieces payloads (packet_bytes opPutFinal final ++ more) (out ++ packet_bytes ResponseOK accepted) evs d [] [])
    as (ct & Rc & ->); [done|done|by left| |].
  { cbn [app]. rewrite len_app in B. pose proof (len_nonneg (body_of last)). unfold mbind, list_bind in *. lia. }
  rewrite handle_turn by apply Kl.
  destruct (put_turn opPutFinal last final
    (mkWorld (mkStream more ((out ++ packet_bytes ResponseOK accepted) ++ continues (length pieces))) evs d) (pieces ≫= body_of) ct)
    as (ct' & Rc' & E); [by right|done|done|done|apply B|].
  change ([] ++ (pieces ≫= body_of)) with (pieces ≫= body_of). rewrite E. cbn [Z.eqb opPutFinal Pos.eqb andb]. cbv zeta.
  rewrite (proj2 (Z.ltb_lt _ _)) by apply B. rewrite reply_short. cbn [fst wdConn incoming outgoing wdEvents wdDropped].
  rewrite report_reported by done. unfold w. by rewrite <- !app_assoc.
Qed.

(** Nothing is taken before a connection is established: a PUT to a server that has
    not accepted a connect request is answered "bad request" and ends the connection; so is
    a connect request without the notification target. *)
Theorem unconnected_rejected alive code payload more out evs d :
  len payload + 3 <= 0xffff ->
  code = opPut \/ code = opPutFinal \/ code = opConnect /\ valid_target (mkPacket opConnect payload) = false ->
  handle wide now (S alive) (mkWorld (mkStream (packet_bytes code payload ++ more) out) evs d) =
    (mkWorld (mkStream more (out ++ packet_bytes ResponseBadRequest [])) evs d, HandleReturned).
Proof.
  intros B C. unfold handle. rewrite handle_turn by done. unfold on_packet. cbn [pkCode pkPayload haConnected].
  destruct C as [-> | [-> | [-> V]]]; cbn [Z.eqb opConnect opPut opPutFinal Pos.eqb orb negb]; try by rewrite reply_short.
  fold opConnect. rewrite V, reply_short. by destruct (len payload <? 4).
Qed.
End Facts.

(** *** A report in two pieces *)
Definition hello_payload : bytes := [0x10; 0; 0xff; 0xff; 0x46; 0; 19] ++ targetUUID.
Definition arrived : Event := mkEvent (str "NewMessage") (str "42") (str "telecom/msg/inbox") (str "SMS_GSM") (str "20240101T120000") (str "mns").
Definition piece1 : list Header := [mkHeader headerType (str "x-bt/MAP-event-report" ++ [0]); mkHeader headerBody (take 40 (report_text arrived [] true))].
Definition piece2 : list Header := [mkHeader headerEndOfBody (drop 40 (report_text arrived [] true))].
Definition encoded (hs : list Header) : bytes := match build_all hs with Ok raw => raw | Error _ => [] end.

Lemma report_reassembled_witness :
  handle Xml.no_wide (str "now") 3
      (mkWorld (mkStream (packet_bytes opConnect hello_payload ++ put_stream [encoded piece1] ++ packet_bytes opPutFinal (encoded piece2)) []) [] 0) =
    (mkWorld (mkStream [] (packet_bytes ResponseOK accepted ++ continues 1 ++ packet_bytes ResponseOK []))
      [arrived] 0, ContextCancelled).
Proof.
  rewrite <- (app_nil_r (packet_bytes opPutFinal (encoded piece2))).
  destruct (report_reassembled Xml.no_wide (str "now") 0 hello_payload [piece1] [encoded piece1] piece2 (encoded piece2) [] [] [] 0)
    as [E R].
  - vm_compute. discriminate.
  - vm_compute. discriminate.
  - vm_compute. reflexivity.
  - repeat constructor; vm_compute; discriminate.
  - split; vm_compute; [reflexivity|discriminate].
  - unfold report_headers. repeat (apply Forall_cons_2 || apply Forall_nil_2); intros E;
      first [vm_compute in E; discriminate E | right; vm_compute; reflexivity].
  - split; vm_compute; [reflexivity|discriminate].
  - rewrite (R arrived [] true) in E; [exact E| |vm_compute; reflexivity].
    constructor; [vm_compute; reflexivity|constructor|vm_compute; reflexivity|vm_compute; discriminate|reflexivity|reflexivity].
Defined.

Lemma handle_ends_witness :
  (handle Xml.no_wide (str "now") 3 (mkWorld (mkStream (packet_bytes opConnect [1]) []) [] 0)).2 = HandleReturned /\
  handle Xml.no_wide (str "now") 3 (mkWorld (mkStream (packet_bytes opConnect [1]) []) [] 0) =
  handle Xml.no_wide (str "now") 1000 (mkWorld (mkStream (packet_bytes opConnect [1]) []) [] 0).
Proof.
  apply handle_ends.
  - apply (bool_decide_unpack (all_bytes (packet_bytes opConnect [1]))). vm_compute. exact I.
  - vm_compute. reflexivity.
  - vm_compute. reflexivity.
Defined.
Lemma handle_events_witness :
  let w := mkWorld (mkStream (packet_bytes opConnect hello_payload ++ put_stream [encoded piece1] ++ packet_bytes opPutFinal (encoded piece2)) []) [] 0 in
  wdEvents (handle Xml.no_wide (str "now") 5 w).1 = [arrived] /\
  exists new, wdEvents (handle Xml.no_wide (str "now") 5 w).1 = [] ++ new /\ Forall good_event new /\ len ([] ++ new) <= queueCapacity.
Proof.
  intros w. split; [vm_compute; reflexivity|]. apply (handle_events Xml.no_wide (str "now") 5 w). vm_compute. discriminate.
Defined.
Lemma unconnected_rejected_witness :
  handle Xml.no_wide (str "now") 1 (mkWorld (mkStream (packet_bytes opPut []) []) [] 0) =
    (mkWorld (mkStream [] ([] ++ packet_bytes ResponseBadRequest [])) [] 0, HandleReturned).
Proof.
  rewrite <- (app_nil_r (packet_bytes opPut [])).
  apply unconnected_rejected; [vm_compute; discriminate|left; reflexivity].
Defined.

(** ** The connected flag *)
Definition flag_backed (p : Profile) : Prop :=
  pfAnnouncing p ∪ pfRunning p ⊆ pfConns p /\ pfAnnouncing p ## pfRunning p /\
  (pfConnected p = true -> pfConns p <> ∅ \/ (0 < pfClearing p)%nat).

Lemma flag_backed_step s p p' : profile_step s p p' -> flag_backed p -> flag_backed p'.
Proof.
  intros St (Sub & D & F). destruct St as [p device c setup C1 C2 C3|p c Hc|p c Hc|p Hp|p].
  - unfold NewConnection. repeat case_match; [done..|]. split_and!; cbn; [set_solver|set_solver|].
    intros _. left. set_solver.
  - split_and!; cbn; [set_solver|set_solver|]. intros _. left. set_solver.
  - split_and!; cbn; [set_solver|set_solver|]. intros C. case_bool_decide; [right; lia|by left].
  - done.
  - done.
Qed.

Lemma flag_backed_reachable s p : profile_reachable s p -> flag_backed p.
Proof.
  intros R. assert (flag_backed fresh_profile) as I by done. revert I.
  induction R; eauto using flag_backed_step.
Qed.

(** A connection from the phone is entered and announced. *)
Lemma connection_steps s p device c :
  expectedDevice s device = true -> c ∉ pfConns p -> c ∉ pfAnnouncing p -> c ∉ pfRunning p ->
  exists p', rtc (profile_step s) p p' /\ pfConns p' = {[c]} ∪ pfConns p /\ pfRunning p' = {[c]} ∪ pfRunning p /\
    pfAnnouncing p' = pfAnnouncing p /\ pfClearing p' = pfClearing p.
Proof.
  intros X C1 C2 C3. exists (announce (NewConnection s p device c true) c). split.
  - eapply rtc_l; [by apply (step_new s p device c true)|]. apply rtc_once, step_announce.
    unfold NewConnection. rewrite X. cbn. set_solver.
  - unfold NewConnection, announce. rewrite X. cbn. split_and!; [done|done|set_solver|done].
Qed.

(** The "MNS connected" flag of the health report: in every interleaving of the
    connections' goroutines it is never left set, since with no connection open and no
    callback under way it is false; but it can be lost: the callback of the last connection's
    end may run after that of a new connection, and the flag then stays false while a
    connection is served. *)
Theorem mns_connected_flag s :
  (forall p, profile_reachable s p -> pfConns p = ∅ -> pfClearing p = 0%nat -> pfConnected p = false) /\
  (forall device, expectedDevice s device = true ->
    exists p, profile_reachable s p /\ pfRunning p <> ∅ /\ pfAnnouncing p = ∅ /\ pfClearing p = 0%nat /\ pfConnected p = false).
Proof.
  split.
  - intros p R E Z0. destruct (flag_backed_reachable s p R) as (_ & _ & F).
    destruct (pfConnected p); [|done]. destruct (F eq_refl); [done|lia].
  - intros device X.
    destruct (connection_steps s fresh_profile device 1 X) as (p1 & R1 & C1 & U1 & A1 & K1); [done..|].
    destruct (connection_steps s (conclude p1 1) device 2 X) as (p2 & R2 & C2 & U2 & A2 & K2); cbn;
      rewrite ?C1, ?U1, ?A1; [set_solver..|].
    exists (clear_connected p2). split_and!.
    + unfold profile_reachable; etrans; [exact R1|]. eapply rtc_l; [apply (step_conclude s p1 1); set_solver|]. eapply rtc_r; [exact R2|].
      apply step_clear. rewrite K2. cbn. rewrite bool_decide_eq_true_2; [lia|]. rewrite C1. cbn. set_solver.
    + cbn. rewrite U2. set_solver.
    + cbn. rewrite A2. cbn. by rewrite A1.
    + cbn. rewrite K2. cbn. rewrite bool_decide_eq_true_2; [by rewrite K1|]. rewrite C1. cbn. set_solver.
    + done.
Qed.
