(* ===== verification/Ami.v ===== *)
(** * The Asterisk manager client

    Models src/callbridge-sms-go/internal/ami/client.go: one connection per message, a
    login, a MessageSend action with the body in base64, a log-off.

    The connection is what the manager does to it: whether it accepts, all the bytes it
    sends until the connection ends or the deadline passes, and the first write that
    fails, if any.  The result keeps every packet written. *)

From S2P Require Import Prelude GoStd GoText GoBase64.

Definition maximumPacket : Z := Z.shiftl 128 10.
Definition MaxBodyBytes : Z := 1200.

Record Client := mkClient { clAddress : bytes; clUser : bytes; clSecret : bytes }.

(** [os.Stat] and [os.ReadFile] of the secret's file. *)
Record secret_file := mkSecretFile { sfRegular : bool; sfPerm : Z; sfSize : Z; sfContent : result bytes }.

(** [New]; [None] when the file cannot be inspected. *)
Definition NewClient (address user : bytes) (file : option secret_file) : result Client :=
  match file with
  | None => fail! "read AMI secret metadata"
  | Some info =>
      if negb (sfRegular info) || negb (Z.land (sfPerm info) 0x3f =? 0) || (sfSize info <? 1) || (4096 <? sfSize info)
      then fail! "AMI secret file permissions or size invalid"
      else
        match sfContent info with
        | Error e => Error (Wrap "read AMI secret" e)
        | Ok raw =>
            let secret := TrimSpace raw in
            if (len address =? 0) || (len user =? 0) || (len secret =? 0) || ContainsAny (user ++ secret) [0; 13; 10]
            then fail! "invalid AMI client configuration"
            else Ok (mkClient address user secret)
        end
  end.

Definition digits (value : bytes) : bool := negb (len value =? 0) && forallb is_digit (runes value).

(** ** Responses *)

(** [bufio.Reader.ReadString('\n')]: the line with its end, the rest, and whether it was
    complete. *)
Definition ReadString (s : bytes) : bytes * bytes * bool :=
  match IndexByte s 10 with
  | Some i => (take (S i) s, drop (S i) s, true)
  | None => (s, [], false)
  end.

Definition field (fields : gmap bytes bytes) (name : string) : bytes := default [] (fields !! str name).

(** The loop of [readResponse]: every turn but the last takes a byte at least. *)
Fixpoint response_loop (fuel : nat) (total : Z) (fields : gmap bytes bytes) (s : bytes) : result (gmap bytes bytes) * bytes :=
  match fuel with
  | O => (fail! "unreachable", s)
  | S fuel =>
      let '(line, rest, complete) := ReadString s in
      let total := total + len line in
      if maximumPacket <? total then (fail! "AMI response exceeds bound", rest)
      else
        let line := TrimRightSet (fun c => (c =? 13) || (c =? 10)) line in
        let fields :=
          match CutByte line 58 with
          | Some (name, value) => <[ToLowerText (TrimSpace name) := TrimSpace value]> fields
          | None => fields
          end in
        if (line =s? []) && negb (field fields "response" =s? []) then (Ok fields, rest)
        else if negb complete then (fail! "EOF", rest)
        else response_loop fuel total fields rest
  end.
Definition readResponse (s : bytes) : result (gmap bytes bytes) * bytes := response_loop (S (length s)) 0 ∅ s.

(** ** Sending *)
Record manager := mkManager { mgAccepts : bool; mgSends : bytes; mgFails : option nat }.

Definition header_line (name : string) (value : bytes) : bytes := str name ++ value ++ [13; 10].
Definition login_packet (c : Client) : bytes :=
  header_line "Action: Login" [] ++
  header_line "Username: " (clUser c) ++
  header_line "Secret: " (clSecret c) ++
  header_line "Events: off" [] ++ [13; 10].
Definition action_packet (recipient sender body contentType actionID : bytes) : bytes :=
  header_line "Action: MessageSend" [] ++
  header_line "To: pjsip:" recipient ++
  header_line "From: sip:" (sender ++ str "@cellular.invalid") ++
  header_line "Base64Body: " (EncodeToString body) ++
  header_line "Variable: Content-Type=" contentType ++
  header_line "ActionID: " actionID ++ [13; 10].
Definition logoff_packet : bytes := header_line "Action: Logoff" [] ++ [13; 10].

Definition success (r : result (gmap bytes bytes)) : bool :=
  match r with Ok fields => EqualFoldText (field fields "response") (str "success") | Error _ => false end.

(** [SendMessage]: the packets written, in order, and its result. *)
Definition SendMessage (c : Client) (m : manager) (recipient sender body contentType actionID : bytes) :
    list bytes * result unit :=
  if negb (digits recipient) || (32 <? len recipient) || (len body =? 0) || (MaxBodyBytes <? len body)
  then ([], fail! "invalid AMI MessageSend input")
  else if negb (contentType =s? str "text/plain") && negb (contentType =s? str "application/x-acro-filetransfer+json")
  then ([], fail! "invalid AMI message content type")
  else if existsb (fun value => (len value =? 0) || ContainsAny value [0; 13; 10]) [sender; actionID]
  then ([], fail! "invalid AMI header value")
  else if negb (mgAccepts m) then ([], fail! "AMI connection failed")
  else
    let login := login_packet c in
    if bool_decide (mgFails m = Some 0%nat) then ([login], fail! "AMI login write failed")
    else
      let '(r, rest) := readResponse (mgSends m) in
      if negb (success r) then ([login], fail! "AMI login rejected")
      else
        let action := action_packet recipient sender body contentType actionID in
        if bool_decide (mgFails m = Some 1%nat) then ([login; action], fail! "AMI action write failed")
        else
          match readResponse rest with
          | (Error _, _) => ([login; action], fail! "AMI action response failed")
          | (Ok fields, _) =>
              if negb (EqualFoldText (field fields "response") (str "success"))
              then ([login; action], fail! "AMI MessageSend rejected")
              else ([login; action; logoff_packet], Ok tt)
          end.

(** ** Packets and lines *)

(** Text without a line end. *)
Definition clean (v : bytes) : Prop := Forall (fun c => c <> 13 /\ c <> 10) v.
(** A packet of the manager protocol: lines that are not empty, and an empty line. *)
Definition framed (lines : list bytes) : bytes := (lines ≫= fun l => l ++ [13; 10]) ++ [13; 10].
Definition good_line (l : bytes) : Prop := l <> [] /\ clean l.

Lemma clean_str s : forallb (fun c => negb (c =? 13) && negb (c =? 10)) (str s) = true -> clean (str s).
Proof. intros F%forallb_Forall_true. eapply Forall_impl; [done|]. intros c Hc. cbn in Hc. by bool_prop. Qed.
Lemma clean_app v w : clean v -> clean w -> clean (v ++ w).
Proof. intros. by apply Forall_app. Qed.
Lemma ContainsAny_clean v : ContainsAny v [0; 13; 10] = false -> clean v.
Proof. intros F%ContainsAny_controls. eapply Forall_impl; [exact F|]. by intros c (_ & ?). Qed.
Lemma EncodeToString_clean body : all_bytes body -> clean (EncodeToString body).
Proof. apply EncodeToString_chars; [|done]. intros v Hv. destruct (base64_digit_spec v Hv) as (_ & _ & ?). lia. Qed.
Lemma digits_clean v : all_bytes v -> digits v = true -> clean v.
Proof.
  intros HB H. unfold digits in H. apply andb_true_iff in H as [_ H]. rewrite runes_forallb in H.
  - apply forallb_Forall_true in H. eapply Forall_impl; [done|]. intros c Hc%is_digit_spec. lia.
  - intros r Hr. apply in_range_false. unfold RuneSelf in Hr. lia.
  - done.
Qed.

Definition login_lines (c : Client) : list bytes :=
  [str "Action: Login"; str "Username: " ++ clUser c; str "Secret: " ++ clSecret c; str "Events: off"].
Definition action_lines (recipient sender encoded contentType actionID : bytes) : list bytes :=
  [str "Action: MessageSend"; str "To: pjsip:" ++ recipient; str "From: sip:" ++ sender ++ str "@cellular.invalid";
   str "Base64Body: " ++ encoded; str "Variable: Content-Type=" ++ contentType; str "ActionID: " ++ actionID].

Lemma login_framed c : login_packet c = framed (login_lines c).
Proof. unfold login_packet, framed, login_lines, header_line. cbn [mbind list_bind]. by rewrite <- !app_assoc. Qed.
Lemma action_framed recipient sender body contentType actionID :
  action_packet recipient sender body contentType actionID =
    framed (action_lines recipient sender (EncodeToString body) contentType actionID).
Proof. unfold action_packet, framed, action_lines, header_line. cbn [mbind list_bind]. by rewrite <- !app_assoc. Qed.

Lemma good_line_str s v :
  forallb (fun c => negb (c =? 13) && negb (c =? 10)) (str s) = true -> str s <> [] -> clean v -> good_line (str s ++ v).
Proof. intros F N C. split; [by destruct (str s)|]. apply clean_app; [by apply clean_str|done]. Qed.

Lemma NewClient_clean address user file c :
  NewClient address user file = Ok c -> clean (clUser c) /\ clean (clSecret c).
Proof.
  unfold NewClient. destruct file as [info|]; [|done]. case_match; [done|]. destruct (sfContent info) as [raw|]; [|done].
  cbv zeta. case_match eqn:B; [done|]. intros <-%Ok_inj. bool_prop. cbn [clUser clSecret]. by apply Forall_app, ContainsAny_clean.
Qed.

(** What goes to the manager: for a client that [New] made, every message sent writes
    a prefix of login, action and log-off, all three exactly when it reports success.  The login
    and the action are single packets of the protocol with exactly the lines intended,
    whatever the sender, the body and the identifiers hold: no input can add a header
    or a second action; and the body decodes to the text given. *)
Theorem SendMessage_wire address user file c m recipient sender body contentType actionID packets r :
  NewClient address user file = Ok c -> all_bytes recipient -> all_bytes body ->
  SendMessage c m recipient sender body contentType actionID = (packets, r) ->
  packets = [] /\ is_ok r = false \/
  exists k encoded, packets = take k [framed (login_lines c); framed (action_lines recipient sender encoded contentType actionID);
      framed [str "Action: Logoff"]] /\ (is_ok r = true <-> k = 3%nat) /\ (1 <= k <= 3)%nat /\
    base64_decode encoded = Some body /\ 0 < len body <= MaxBodyBytes /\
    Forall good_line (login_lines c) /\ Forall good_line (action_lines recipient sender encoded contentType actionID).
Proof.
  intros N Hr Hb S. apply NewClient_clean in N as [Cu Cs]. unfold SendMessage in S.
  destruct (negb (digits recipient) || (32 <? len recipient) || (len body =? 0) || (MaxBodyBytes <? len body)) eqn:G1; [by simplify_eq; left|].
  destruct (negb (contentType =s? str "text/plain") && _) eqn:G2; [by simplify_eq; left|].
  destruct (existsb _ [sender; actionID]) eqn:G3; [by simplify_eq; left|].
  destruct (negb (mgAccepts m)); [by simplify_eq; left|]. right. cbv zeta in S.
  cbn [existsb] in G3. bool_prop. pose proof (len_nonneg body).
  assert (clean contentType) as Ct.
  { unfold str_eqb in G2. apply andb_false_iff in G2 as [G2 | G2]; bool_prop; subst contentType; by apply clean_str. }
  rewrite login_framed, action_framed in S. change logoff_packet with (framed [str "Action: Logoff"]) in S.
  assert (exists k, packets = take k [framed (login_lines c); framed (action_lines recipient sender (EncodeToString body) contentType actionID);
      framed [str "Action: Logoff"]] /\ (is_ok r = true <-> k = 3%nat) /\ (1 <= k <= 3)%nat) as (k & E & K & L).
  { destruct (bool_decide (mgFails m = Some 0%nat)); [simplify_eq; exists 1%nat; split_and!; [done|done|lia..]|].
    destruct (readResponse (mgSends m)) as [r1 rest]. destruct (negb (success r1)); [simplify_eq; exists 1%nat; split_and!; [done|done|lia..]|].
    destruct (bool_decide (mgFails m = Some 1%nat)); [simplify_eq; exists 2%nat; split_and!; [done|done|lia..]|].
    destruct (readResponse rest) as [[fields|e] rest2]; [|simplify_eq; exists 2%nat; split_and!; [done|done|lia..]].
    destruct (EqualFoldText _ _); cbn [negb] in S; simplify_eq; [exists 3%nat|exists 2%nat]; split_and!; (done || lia || (intros; discriminate)). }
  exists k, (EncodeToString body). do 3 (split; [done|]). split; [by apply base64_roundtrip|]. split; [lia|]. split.
  - repeat apply Forall_cons_2; try apply Forall_nil_2; (by apply good_line_str) || (split; [discriminate|by apply clean_str]).
  - repeat apply Forall_cons_2; try apply Forall_nil_2; try (by apply good_line_str); try (split; [discriminate|by apply clean_str]).
    + apply good_line_str; [done|discriminate|]. by apply digits_clean.
    + apply good_line_str; [done|discriminate|]. apply clean_app; [by apply ContainsAny_clean|by apply clean_str].
    + apply good_line_str; [done|discriminate|]. by apply EncodeToString_clean.
    + apply good_line_str; [done|discriminate|]. by apply ContainsAny_clean.
Qed.

Lemma SendMessage_wire_witness :
  let c := mkClient (str "127.0.0.1:5038") (str "callbridge") (str "s3cret") in
  let m := mkManager true (framed [str "Response: Success"] ++ framed [str "Response: Success"]) None in
  exists k encoded, (SendMessage c m (str "1002") (str "+8210") (str "hi") (str "text/plain") (str "smsv3-1")).1 =
      take k [framed (login_lines c); framed (action_lines (str "1002") (str "+8210") encoded (str "text/plain") (str "smsv3-1"));
        framed [str "Action: Logoff"]] /\ k = 3%nat /\ encoded = str "aGk=".
Proof.
  intros c m.
  destruct (SendMessage_wire (str "127.0.0.1:5038") (str "callbridge")
    (Some (mkSecretFile true 0x180 7 (Ok (str "s3cret" ++ [10])))) c m (str "1002") (str "+8210") (str "hi") (str "text/plain") (str "smsv3-1")
    (SendMessage c m (str "1002") (str "+8210") (str "hi") (str "text/plain") (str "smsv3-1")).1
    (SendMessage c m (str "1002") (str "+8210") (str "hi") (str "text/plain") (str "smsv3-1")).2) as [[E _] | (k & encoded & E & K & _)].
  - vm_compute. reflexivity.
  - apply (bool_decide_unpack (all_bytes (str "1002"))). vm_compute. exact I.
  - apply (bool_decide_unpack (all_bytes (str "hi"))). vm_compute. exact I.
  - vm_compute. reflexivity.
  - vm_compute in E. discriminate E.
  - assert (k = 3%nat) as -> by (apply K; vm_compute; reflexivity).
    exists 3%nat, (str "aGk="). split; [vm_compute; reflexivity|split; reflexivity].
Defined.

(** ** Reading a response *)

(** The fields of the lines of a packet, as [readResponse] collects them. *)
Definition add_field (fields : gmap bytes bytes) (l : bytes) : gmap bytes bytes :=
  match CutByte l 58 with Some (name, value) => <[ToLowerText (TrimSpace name) := TrimSpace value]> fields | None => fields end.

Lemma ReadString_line l rest : clean l -> ReadString (l ++ 13 :: 10 :: rest) = (l ++ [13; 10], rest, true).
Proof.
  intros C. unfold ReadString, IndexByte. assert (index_where (Z.eqb 10) (l ++ 13 :: 10 :: rest) = Some (S (length l))) as ->.
  { induction C as [|c l [_ Hc] C IH]; [done|]. cbn [index_where app]. rewrite (proj2 (Z.eqb_neq 10 c)) by congruence.
    rewrite IH. done. }
  replace (l ++ 13 :: 10 :: rest) with ((l ++ [13; 10]) ++ rest) by (by rewrite <- app_assoc).
  assert (S (S (length l)) = length (l ++ [13; 10])) as -> by (rewrite length_app; cbn; lia).
  by rewrite take_app_length, drop_app_length.
Qed.
Lemma TrimRight_line l : clean l -> TrimRightSet (fun c => (c =? 13) || (c =? 10)) (l ++ [13; 10]) = l.
Proof.
  intros C. unfold TrimRightSet. rewrite rev_app_distr. cbn [rev app TrimLeftSet Z.eqb Pos.eqb orb].
  apply Forall_rev in C. rewrite <- (rev_involutive l) at 2. f_equal. destruct C as [|c l' [H1 H2] C]; [done|]. cbn [TrimLeftSet].
  by rewrite (proj2 (Z.eqb_neq _ _) H1), (proj2 (Z.eqb_neq _ _) H2).
Qed.

Lemma response_loop_lines fuel total fields lines rest :
  Forall good_line lines -> 0 <= total -> total + len (framed lines) <= maximumPacket ->
  field (foldl add_field fields lines) "response" <> [] -> (length lines < fuel)%nat ->
  response_loop fuel total fields (framed lines ++ rest) = (Ok (foldl add_field fields lines), rest).
Proof.
  intros G. revert fuel total fields. induction G as [|l lines [N C] G IH]; intros fuel total fields T B F L; (destruct fuel as [|fuel]; [cbn in L; lia|]); cbn [response_loop].
  - change (framed [] ++ rest) with ([] ++ 13 :: 10 :: rest). rewrite ReadString_line by constructor. cbv zeta.
    rewrite (proj2 (Z.ltb_ge _ _)) by exact B. change (TrimRightSet _ ([] ++ [13; 10])) with (@nil Z). change (CutByte [] 58) with (@None (bytes * bytes)).
    cbn [foldl] in *. unfold str_eqb. rewrite bool_decide_eq_true_2, (bool_decide_eq_false_2 _ F) by done. done.
  - assert (framed (l :: lines) ++ rest = l ++ 13 :: 10 :: (framed lines ++ rest)) as ->.
    { unfold framed. cbn [mbind list_bind]. by rewrite <- !app_assoc. }
    assert (len (framed (l :: lines)) = len (l ++ [13; 10]) + len (framed lines)) as LF.
    { unfold framed. cbn [mbind list_bind]. rewrite <- app_assoc. by rewrite len_app. }
    rewrite ReadString_line by done. cbv zeta. rewrite LF in B. pose proof (len_nonneg (framed lines)). pose proof (len_nonneg (l ++ [13; 10])).
    rewrite (proj2 (Z.ltb_ge _ _)) by lia. rewrite TrimRight_line by done. fold (add_field fields l).
    unfold str_eqb. rewrite (bool_decide_eq_false_2 _ N). cbn [andb negb]. apply IH; [lia|lia|exact F|cbn in L; lia].
Qed.

(** A response of the manager is read as one packet: of a stream that starts with a
    packet of at most 128 KiB, whose lines hold a "response" field, [readResponse] returns the
    fields of exactly its lines and leaves the stream behind its blank line; so the second
    response is never taken for the first. *)
Theorem readResponse_framed lines rest :
  Forall good_line lines -> len (framed lines) <= maximumPacket -> field (foldl add_field ∅ lines) "response" <> [] ->
  readResponse (framed lines ++ rest) = (Ok (foldl add_field ∅ lines), rest).
Proof.
  intros G B F. unfold readResponse. apply response_loop_lines; [done|lia|lia|done|].
  rewrite length_app. clear. enough (length lines <= length (framed lines))%nat by lia.
  unfold framed. rewrite length_app. induction lines as [|l lines IH]; [cbn; lia|].
  cbn [mbind list_bind length]. rewrite !length_app. cbn [length]. cbn [length] in IH. lia.
Qed.

Lemma readResponse_framed_witness :
  readResponse (framed [str "Asterisk Call Manager/9"; str "Response: Success"] ++ framed [str "Response: Error"]) =
    (Ok {[str "response" := str "Success"]}, framed [str "Response: Error"]).
Proof.
  change {[str "response" := str "Success"]} with (foldl add_field ∅ [str "Asterisk Call Manager/9"; str "Response: Success"]).
  apply readResponse_framed.
  - repeat (apply Forall_cons_2; [split; [discriminate|apply clean_str; reflexivity]|]). apply Forall_nil_2.
  - vm_compute. discriminate.
  - vm_compute. discriminate.
Defined.
