(* ===== verification/GoNet.v ===== *)
(** * Addresses: the parts of [net] and [net/netip] the SMS bridge uses

    Only IPv4 matters to the bridge: every address it parses is checked with [Is4].  An
    IPv4 address is its 32-bit number; [ParseAddr] is [None] for what [netip.ParseAddr]
    rejects and for IPv6. *)

From S2P Require Import Prelude GoStd GoText.

(** One octet: one to three digits, no leading zero, at most 255. *)
Definition parse_octet (part : bytes) : option Z :=
  if (len part =? 0) || negb (forallb is_digit part) then None
  else if (1 <? len part) && (at_ part 0 =? 48) then None
  else v ← digits_value part 0; if 255 <? v then None else Some v.

Definition ParseAddr (s : bytes) : option Z :=
  match SplitByte s 46 with
  | [a; b; c; d] =>
      a ← parse_octet a; b ← parse_octet b; c ← parse_octet c; d ← parse_octet d;
      Some (((a * 256 + b) * 256 + c) * 256 + d)
  | _ => None
  end.

Definition isSome {A} (o : option A) : bool := match o with Some _ => true | None => false end.
Definition IsLoopback (a : Z) : bool := a / 2 ^ 24 =? 127.
Definition IsPrivate (a : Z) : bool :=
  (a / 2 ^ 24 =? 10) || (a / 2 ^ 20 =? 172 * 16 + 1) || (a / 2 ^ 16 =? 192 * 256 + 168).

(** ** Prefixes *)
Record Prefix := mkPrefix { pxAddr : Z; pxBits : Z }.
#[export] Instance Prefix_eq_dec : EqDecision Prefix.
Proof. solve_decision. Defined.

(** The last occurrence of a byte. *)
Definition LastIndexByte (s : bytes) (c : Z) : option nat :=
  match IndexByte (rev s) c with Some i => Some (length s - 1 - i)%nat | None => None end.

(** [ParsePrefix] for IPv4. *)
Definition ParsePrefix (s : bytes) : option Prefix :=
  i ← LastIndexByte s 47;
  a ← ParseAddr (take i s);
  let bitsStr := drop (S i) s in
  if (1 <? len bitsStr) && ((at_ bitsStr 0 <? 49) || (57 <? at_ bitsStr 0)) then None
  else bits ← Atoi bitsStr; if (bits <? 0) || (32 <? bits) then None else Some (mkPrefix a bits).

(** [Masked] and [Contains]. *)
Definition Masked (p : Prefix) : Prefix := mkPrefix (Z.shiftl (Z.shiftr (pxAddr p) (32 - pxBits p)) (32 - pxBits p)) (pxBits p).
Definition PrefixContains (p : Prefix) (a : Z) : bool := Z.shiftr (Z.lxor a (pxAddr p)) (32 - pxBits p) =? 0.

(** ** Host and port *)
Definition SplitHostPort (hostport : bytes) : option (bytes * bytes) :=
  i ← LastIndexByte hostport 58;
  match hostport with
  | 91 :: _ =>
      e ← IndexByte hostport 93;
      if negb (Nat.eqb (S e) i) then None
      else if isSome (IndexByte (drop 1 hostport) 91) || isSome (IndexByte (drop (S e) hostport) 93) then None
      else Some (slice hostport 1 e, drop (S i) hostport)
  | _ =>
      if isSome (IndexByte (take i hostport) 58) then None
      else if isSome (IndexByte hostport 91) || isSome (IndexByte hostport 93) then None
      else Some (take i hostport, drop (S i) hostport)
  end.
Definition JoinHostPort (host port : bytes) : bytes :=
  if isSome (IndexByte host 58) then [91] ++ host ++ [93; 58] ++ port else host ++ [58] ++ port.

(** ** Facts *)
Lemma digits_value_nonneg s n v : 0 <= n -> digits_value s n = Some v -> 0 <= v.
Proof.
  revert n. induction s as [|c s IH]; intros n Hn H; cbn [digits_value] in H; [by simplify_eq|].
  destruct (is_digit c) eqn:D; [|done]. apply is_digit_spec in D. eapply IH; [|done]. lia.
Qed.
Lemma parse_octet_range part v : parse_octet part = Some v -> 0 <= v <= 255.
Proof.
  unfold parse_octet. case_match; [done|]. case_match; [done|]. destruct (digits_value part 0) as [w|] eqn:E; [|done]. cbn.
  destruct (Z.ltb_spec 255 w); [done|]. intros [= <-]. split; [by eapply digits_value_nonneg in E|lia].
Qed.
Lemma ParseAddr_range s a : ParseAddr s = Some a -> in_width 32 a.
Proof.
  unfold ParseAddr. destruct (SplitByte s 46) as [|p1 [|p2 [|p3 [|p4 [|? ?]]]]]; try done.
  destruct (parse_octet p1) eqn:E1; [|done]. destruct (parse_octet p2) eqn:E2; [|done]. destruct (parse_octet p3) eqn:E3; [|done].
  destruct (parse_octet p4) eqn:E4; [|done]. cbn. intros [= <-]. apply parse_octet_range in E1, E2, E3, E4.
  unfold in_width. change (2 ^ 32) with 4294967296. lia.
Qed.

(** A full-length prefix holds its own address only. *)
Lemma PrefixContains_exact p a : pxBits p = 32 -> PrefixContains p a = true <-> a = pxAddr p.
Proof.
  intros E. unfold PrefixContains. rewrite E, Z.sub_diag, Z.shiftr_0_r, Z.eqb_eq, Z.lxor_eq_0_iff. done.
Qed.
(** A prefix of at least eight bits around a loopback address holds loopback addresses only. *)
Lemma PrefixContains_loopback p a :
  8 <= pxBits p <= 32 -> IsLoopback (pxAddr p) = true -> PrefixContains p a = true -> IsLoopback a = true.
Proof.
  intros B L C. unfold PrefixContains in C. rewrite Z.eqb_eq, Z.shiftr_lxor, Z.lxor_eq_0_iff in C.
  unfold IsLoopback in *. rewrite Z.eqb_eq, <- Z.shiftr_div_pow2 in * by lia. rewrite <- L.
  replace 24 with ((32 - pxBits p) + (pxBits p - 8)) by lia. rewrite <- !Z.shiftr_shiftr by lia. by rewrite C.
Qed.
Lemma ParsePrefix_bits s p : ParsePrefix s = Some p -> 0 <= pxBits p <= 32.
Proof.
  unfold ParsePrefix. destruct (LastIndexByte s 47) as [i|]; [|done]. cbn [mbind option_bind].
  destruct (ParseAddr (take i s)) as [a|]; [|done]. cbn [mbind option_bind]. case_match; [done|].
  destruct (Atoi _) as [bits|]; [|done]. cbn [mbind option_bind].
  destruct ((bits <? 0) || (32 <? bits)) eqn:B; [done|]. intros [= <-]. bool_prop. cbn. lia.
Qed.
