(* ===== verification/SmsConfig.v ===== *)
(** * The SMS bridge's configuration

    Models src/callbridge-sms-go/internal/config/config.go: [Load] reads the environment,
    a function from names to values ("" when unset), and [Validate] decides whether the
    service may start with it. *)

From S2P Require Import Prelude GoStd GoText GoNet.

Definition ClassicProfileNormal : bytes := str "normal".
Definition ClassicProfileIsolated : bytes := str "isolated".
Definition second : Z := 1000000000.
Definition Version : bytes := str "1.2.0-p6".

Record Config := mkConfig {
  cfBluetoothDevice : bytes;
  cfAdapter : bytes;
  cfMASChannel : Z;
  cfMNSChannel : Z;
  cfMAPTimeout : Z;
  cfPollInterval : Z;
  cfKeepalive : Z;
  cfPollMaxCount : Z;
  cfInternalListen : bytes;
  cfOutboxListen : bytes;
  cfAllowedSources : list Prefix;
  cfAMIAddress : bytes;
  cfAMIUser : bytes;
  cfAMISecretFile : bytes;
  cfRecipients : list bytes;
  cfMediaURL : bytes;
  cfMediaMaxBytes : Z;
  cfMediaTimeout : Z;
  cfLEAudioMode : bytes;
  cfLEAudioSocket : bytes;
  cfLEAudioPeerUID : Z;
  cfClassicProfileMode : bytes;
  cfStateFile : bytes;
  cfLogFile : bytes;
  cfLegacySeenFile : bytes;
  cfLegacyMessageLog : bytes;
  cfLegacyForwardState : bytes;
  cfLegacyOutboundQueue : bytes
}.

(** ** Parts *)
Definition addressOf (value : bytes) : option Z :=
  match SplitHostPort value with Some (host, _) => ParseAddr host | None => None end.

Definition validAdapter (value : bytes) : bool :=
  if negb (HasPrefix value (str "hci")) || (len value <? 4) || (16 <? len value) then false
  else forallb is_digit (runes (drop 3 value)).

Fixpoint hex_parts (parts : list bytes) : option bytes :=
  match parts with
  | [] => Some []
  | part :: parts =>
      if negb (len part =? 2) then None
      else parsed ← parse_hex_octet part; rest ← hex_parts parts; Some (parsed :: rest)
  end.
Definition ParseBluetoothAddress (value : bytes) : option bytes :=
  let parts := SplitByte value 58 in
  if negb (len parts =? 6) then None else hex_parts parts.

(** The loop over the items of OUTBOX_ALLOWED_SOURCES; [acc] holds the prefixes found. *)
Fixpoint prefixes_loop (items : list bytes) (acc : list Prefix) : result (list Prefix) :=
  match items with
  | [] => Ok acc
  | item :: items =>
      let item := TrimSpace item in
      if len item =? 0 then prefixes_loop items acc
      else
        let item := if Contains item [47] then item else item ++ str "/32" in
        match ParsePrefix item with
        | None => fail! "invalid OUTBOX_ALLOWED_SOURCES"
        | Some prefix =>
            let prefix := Masked prefix in
            prefixes_loop items (if bool_decide (prefix ∈ acc) then acc else acc ++ [prefix])
        end
  end.
Definition prefixes (raw : bytes) : result (list Prefix) := prefixes_loop (SplitByte raw 44) [].

Fixpoint recipients_loop (values : list bytes) (acc : list bytes) : result (list bytes) :=
  match values with
  | [] => Ok acc
  | value :: values =>
      let value := TrimSpace value in
      if (len value =? 0) || (value =s? str "1001") then recipients_loop values acc
      else if 32 <? len value then fail! "invalid SMS recipient"
      else if negb (forallb is_digit (runes value)) then fail! "invalid SMS recipient"
      else recipients_loop values (if bool_decide (value ∈ acc) then acc else acc ++ [value])
  end.
Definition recipients (raw : bytes) : result (list bytes) :=
  recipients_loop (FieldsFunc (fun r => (r =? 44) || (r =? 59)) raw) [].

(** ** Validation *)
Definition bad_path (path : bytes) : bool := negb (HasPrefix path (str "/")) || ContainsAny path [0; 13; 10].
Definition bad_address (value : bytes) (good : Z -> bool) : bool :=
  match addressOf value with Some a => negb (good a) | None => true end.

(** The loop over the allowed sources. *)
Fixpoint check_sources (sources : list Prefix) : result unit :=
  match sources with
  | [] => Ok tt
  | prefix :: sources =>
      if IsLoopback (pxAddr prefix)
      then if pxBits prefix <? 8 then fail! "loopback source prefix is too broad" else check_sources sources
      else if negb (pxBits prefix =? 32) then fail! "non-loopback outbox sources must be exact IPv4 addresses"
      else check_sources sources
  end.

Definition Validate (c : Config) : result unit :=
  if len (cfBluetoothDevice c) =? 0 then fail! "BT_DEVICE is required"
  else if negb (isSome (ParseBluetoothAddress (cfBluetoothDevice c))) then fail! "invalid Bluetooth address"
  else if negb (validAdapter (cfAdapter c)) then fail! "invalid Bluetooth adapter"
  else if (cfMASChannel c <? 1) || (30 <? cfMASChannel c) || (cfMNSChannel c <? 1) || (30 <? cfMNSChannel c)
  then fail! "Bluetooth channel outside 1..30"
  else if cfMASChannel c =? u8 (cfMNSChannel c) then fail! "MAS and MNS channels must differ"
  else if bad_address (cfInternalListen c) IsLoopback then fail! "internal API must listen on loopback IPv4"
  else if bad_address (cfOutboxListen c) (fun _ => true) then fail! "invalid outbox listen address"
  else if bad_address (cfAMIAddress c) (fun a => IsPrivate a || IsLoopback a) then fail! "AMI address must be private IPv4"
  else if existsb bad_path [cfAMISecretFile c; cfStateFile c; cfLogFile c; cfLegacySeenFile c; cfLegacyMessageLog c;
      cfLegacyForwardState c; cfLegacyOutboundQueue c; cfLEAudioSocket c]
  then fail! "runtime paths must be absolute"
  else if (cfAMISecretFile c =s? cfStateFile c) || (cfAMISecretFile c =s? cfLogFile c) || (cfStateFile c =s? cfLogFile c)
  then fail! "secret, state, and log paths must differ"
  else if negb (cfLEAudioMode c =s? str "off") && negb (cfLEAudioMode c =s? str "le-canary")
  then fail! "LE_AUDIO_MODE must be off or le-canary"
  else if negb (cfClassicProfileMode c =s? ClassicProfileNormal) && negb (cfClassicProfileMode c =s? ClassicProfileIsolated)
  then fail! "CLASSIC_PROFILE_MODE must be normal or isolated"
  else if (cfClassicProfileMode c =s? ClassicProfileIsolated) && negb (cfLEAudioMode c =s? str "le-canary")
  then fail! "CLASSIC_PROFILE_MODE=isolated requires LE_AUDIO_MODE=le-canary"
  else if (cfLEAudioSocket c =s? cfAMISecretFile c) || (cfLEAudioSocket c =s? cfStateFile c) || (cfLEAudioSocket c =s? cfLogFile c)
  then fail! "LE Audio socket must not overlap persistent paths"
  else if (len (cfAllowedSources c) =? 0) || (len (cfRecipients c) =? 0)
  then fail! "source and recipient allowlists must not be empty"
  else if negb (cfMediaURL c =s? str "https://mmmsg.acrobits.net/")
  then fail! "MEDIA_URL must use the pinned Groundwire media service"
  else if (cfMediaMaxBytes c <? Z.shiftl 64 10) || (Z.shiftl 2 20 <? cfMediaMaxBytes c) ||
          (cfMediaTimeout c <? 10 * second) || (120 * second <? cfMediaTimeout c)
  then fail! "media bounds invalid"
  else
    let! _ := check_sources (cfAllowedSources c) in
    if (16 <? len (cfAllowedSources c)) || (8 <? len (cfRecipients c))
    then fail! "source or recipient allowlist exceeds bound"
    else Ok tt.

(** ** Loading *)
Section Load.
Variable getenv : string -> bytes.

Definition env (name : string) (fallback : bytes) : bytes :=
  let value := TrimSpace (getenv name) in if negb (len value =? 0) then value else fallback.
Definition intEnv (name : string) (fallback min max : Z) : result Z :=
  match Atoi (env name (Itoa fallback)) with
  | None => Error (New (name ++ " outside its bounds"))
  | Some value => if (value <? min) || (max <? value) then Error (New (name ++ " outside its bounds")) else Ok value
  end.
Definition uint8Env (name : string) (fallback min max : Z) : result Z :=
  let! value := intEnv name fallback min max in Ok (u8 value).

Definition Load : result Config :=
  let! masChannel := uint8Env "MAS_CHANNEL" 0 1 30 in
  let! mns := intEnv "MNS_CHANNEL" 19 1 30 in
  let! mapTimeout := intEnv "MAP_TIMEOUT_SEC" 15 3 60 in
  let! pollInterval := intEnv "POLL_INTERVAL_SEC" 10 5 300 in
  let! keepalive := intEnv "KEEPALIVE_SEC" 60 10 600 in
  let! pollMaxCount := intEnv "POLL_MAX_COUNT" 50 10 500 in
  let! allowedSources := prefixes (env "OUTBOX_ALLOWED_SOURCES" (str "127.0.0.0/8")) in
  let! recipients := recipients (env "SMS_RECIPIENTS" (str "1002")) in
  let! mediaMaxBytes := intEnv "MEDIA_MAX_BYTES" (Z.shiftl 1536 10) (Z.shiftl 64 10) (Z.shiftl 2 20) in
  let! mediaTimeout := intEnv "MEDIA_TIMEOUT_SEC" 30 10 120 in
  let! peerUID := intEnv "LE_AUDIO_PEER_UID" 0 0 (Z.shiftl 1 31 - 1) in
  let cfg := mkConfig
    (TrimSpace (getenv "BT_DEVICE")) (env "BT_ADAPTER" (str "hci0")) masChannel (u16 mns)
    (mapTimeout * second) (pollInterval * second) (keepalive * second) pollMaxCount
    (env "INTERNAL_LISTEN" (str "127.0.0.1:8765")) (env "OUTBOX_LISTEN" (str "0.0.0.0:8788")) allowedSources
    (JoinHostPort (env "AMI_HOST" (str "127.0.0.1")) (env "AMI_PORT" (str "5038")))
    (env "AMI_USER" (str "callbridge")) (env "AMI_SECRET_FILE" (str "/etc/callbridge-sms-go/ami-secret")) recipients
    (env "MEDIA_URL" (str "https://mmmsg.acrobits.net/")) mediaMaxBytes (mediaTimeout * second)
    (env "LE_AUDIO_MODE" (str "off")) (env "LE_AUDIO_SOCKET" (str "/run/asterisk-leaudio/leaudio.sock")) peerUID
    (env "CLASSIC_PROFILE_MODE" ClassicProfileNormal)
    (env "STATE_FILE" (str "/var/log/callbridge_sms_go.state.json"))
    (env "LOG_FILE" (str "/var/log/callbridge_sms_go.log"))
    (env "LEGACY_SEEN_FILE" (str "/var/log/callbridge_sms_seen_handles.json"))
    (env "LEGACY_MESSAGE_LOG" (str "/var/log/callbridge_sms_messages.jsonl"))
    (env "LEGACY_FORWARD_STATE" (str "/var/log/callbridge_sms_forward_to_ami.state"))
    (env "LEGACY_OUTBOUND_QUEUE" (str "/tmp/callbridge_sms_out_queue.jsonl")) in
  let! _ := Validate cfg in
  Ok cfg.
End Load.

(** ** What a valid configuration guarantees *)

(** Recipients: extension numbers, none of them the bridge's own. *)
Definition good_recipient (r : bytes) : Prop :=
  0 < len r <= 32 /\ Forall (fun c => is_digit c = true) (runes r) /\ r <> str "1001".
(** Sources: within the loopback block, or a single address. *)
Definition good_source (p : Prefix) : Prop :=
  0 <= pxBits p <= 32 /\ (IsLoopback (pxAddr p) = true /\ 8 <= pxBits p \/ pxBits p = 32).

(** An adapter: "hci" and a number. *)
Definition good_adapter (adapter : bytes) : Prop :=
  exists number, adapter = str "hci" ++ number /\ 1 <= len number <= 13 /\ Forall (fun c => is_digit c = true) (runes number).
(** An absolute path that can be passed on. *)
Definition absolute_path (path : bytes) : Prop :=
  (exists rest, path = 47 :: rest) /\ Forall (fun c => c <> 0 /\ c <> 13 /\ c <> 10) path.

Record config_ok (c : Config) : Prop := {
  co_device : exists octets, ParseBluetoothAddress (cfBluetoothDevice c) = Some octets /\ length octets = 6%nat;
  co_channels : 1 <= cfMASChannel c <= 30 /\ 1 <= cfMNSChannel c <= 30 /\ cfMASChannel c <> cfMNSChannel c;
  co_times : 3 * second <= cfMAPTimeout c <= 60 * second /\ 5 * second <= cfPollInterval c <= 300 * second /\
             10 * second <= cfKeepalive c <= 600 * second /\ 10 * second <= cfMediaTimeout c <= 120 * second;
  co_counts : 10 <= cfPollMaxCount c <= 500 /\ 64 * 1024 <= cfMediaMaxBytes c <= 2048 * 1024 /\ 0 <= cfLEAudioPeerUID c < 2 ^ 31;
  co_adapter : good_adapter (cfAdapter c);
  co_outbox : exists a, addressOf (cfOutboxListen c) = Some a;
  co_absolute : Forall absolute_path [cfAMISecretFile c; cfStateFile c; cfLogFile c; cfLegacySeenFile c; cfLegacyMessageLog c;
                  cfLegacyForwardState c; cfLegacyOutboundQueue c; cfLEAudioSocket c];
  co_le_mode : cfLEAudioMode c = str "off" \/ cfLEAudioMode c = str "le-canary";
  co_media : cfMediaURL c = str "https://mmmsg.acrobits.net/";
  co_internal : exists a, addressOf (cfInternalListen c) = Some a /\ IsLoopback a = true;
  co_manager : exists a, addressOf (cfAMIAddress c) = Some a /\ (IsPrivate a = true \/ IsLoopback a = true);
  co_paths : NoDup [cfAMISecretFile c; cfStateFile c; cfLogFile c; cfLEAudioSocket c];
  co_mode : cfClassicProfileMode c = ClassicProfileNormal \/
            cfClassicProfileMode c = ClassicProfileIsolated /\ cfLEAudioMode c = str "le-canary";
  co_sources : 1 <= len (cfAllowedSources c) <= 16 /\ NoDup (cfAllowedSources c) /\ Forall good_source (cfAllowedSources c);
  co_recipients : 1 <= len (cfRecipients c) <= 8 /\ NoDup (cfRecipients c) /\ Forall good_recipient (cfRecipients c)
}.

Lemma intEnv_range getenv name fallback min max v : intEnv getenv name fallback min max = Ok v -> min <= v <= max.
Proof. unfold intEnv. destruct (Atoi _); [|done]. case_match; [done|]. intros <-%Ok_inj. bool_prop. lia. Qed.

(** Adding to a list without repetition. *)
Lemma NoDup_extend {A} `{EqDecision A} (x : A) acc : NoDup acc -> NoDup (if bool_decide (x ∈ acc) then acc else acc ++ [x]).
Proof.
  intros N. case_bool_decide as E; [done|]. apply NoDup_app. split_and!; [done|set_solver|by apply NoDup_singleton].
Qed.
Lemma Forall_extend {A} `{EqDecision A} (P : A -> Prop) x acc :
  Forall P acc -> P x -> Forall P (if bool_decide (x ∈ acc) then acc else acc ++ [x]).
Proof. intros F Px. case_bool_decide; [done|]. apply Forall_app. split; [done|by apply Forall_singleton]. Qed.

Lemma prefixes_spec raw ps :
  prefixes raw = Ok ps -> NoDup ps /\ Forall (fun p => 0 <= pxBits p <= 32) ps.
Proof.
  unfold prefixes. assert (NoDup (@nil Prefix) /\ Forall (fun p => 0 <= pxBits p <= 32) []) as I by (split; constructor).
  revert I. generalize (@nil Prefix). induction (SplitByte raw 44) as [|item items IH]; intros acc [N F] H; cbn [prefixes_loop] in H.
  { by apply Ok_inj in H as <-. }
  case_match; [by apply (IH acc)|]. destruct (ParsePrefix _) as [p|] eqn:P; [|done]. eapply IH; [|exact H].
  split; [by apply NoDup_extend|]. apply Forall_extend; [done|]. exact (ParsePrefix_bits _ _ P).
Qed.

Lemma recipients_spec raw rs :
  recipients raw = Ok rs -> NoDup rs /\ Forall good_recipient rs.
Proof.
  unfold recipients. assert (NoDup (@nil bytes) /\ Forall good_recipient []) as I by (split; constructor).
  revert I. generalize (@nil bytes). induction (FieldsFunc _ raw) as [|value values IH]; intros acc [N F] H; cbn [recipients_loop] in H.
  { by apply Ok_inj in H as <-. }
  set (v := TrimSpace value) in *. clearbody v. case_match eqn:B; [by apply (IH acc)|]. case_match eqn:L; [done|]. case_match eqn:D; [done|].
  unfold str_eqb in B. bool_prop. pose proof (len_nonneg v). eapply IH; [|exact H]. split; [by apply NoDup_extend|]. apply Forall_extend; [done|].
  split_and!; [lia|lia|by apply forallb_Forall_true|done].
Qed.

Lemma check_sources_spec ps :
  check_sources ps = Ok tt -> Forall (fun p => 0 <= pxBits p <= 32) ps -> Forall good_source ps.
Proof.
  intros H F. induction F as [|p ps B F IH]; [constructor|]. cbn [check_sources] in H.
  destruct (IsLoopback (pxAddr p)) eqn:L; case_match eqn:E; try done; bool_prop; (constructor; [|by apply IH]); split; [done| |done|].
  - left. split; [done|lia].
  - by right.
Qed.

Lemma bad_address_false value good : bad_address value good = false -> exists a, addressOf value = Some a /\ good a = true.
Proof. unfold bad_address. destruct (addressOf value) as [a|]; [|done]. intros H. exists a. by apply negb_false_iff in H. Qed.
Lemma hex_parts_length parts octets : hex_parts parts = Some octets -> length octets = length parts.
Proof.
  revert octets. induction parts as [|part parts IH]; intros octets H; cbn [hex_parts] in H; [by simplify_eq|]. case_match; [done|].
  destruct (parse_hex_octet part); [|done]. destruct (hex_parts parts) as [rest|]; [|done]. cbn in H. simplify_eq. cbn. by rewrite (IH rest).
Qed.
Lemma ParseBluetoothAddress_six value :
  isSome (ParseBluetoothAddress value) = true -> exists octets, ParseBluetoothAddress value = Some octets /\ length octets = 6%nat.
Proof.
  unfold ParseBluetoothAddress. case_match eqn:L; [done|]. bool_prop. destruct (hex_parts _) as [octets|] eqn:H; [|done].
  intros _. exists octets. split; [done|]. rewrite (hex_parts_length _ _ H). unfold len in L. lia.
Qed.

Lemma validAdapter_spec adapter : validAdapter adapter = true <-> good_adapter adapter.
Proof.
  unfold validAdapter, good_adapter. split.
  - case_match eqn:E; [done|]. apply orb_false_iff in E as [E L2]. apply orb_false_iff in E as [E L1]. apply negb_false_iff in E. bool_prop. intros D. apply HasPrefix_split in E as (number & ->). exists number.
    rewrite len_app in *. change (len (str "hci")) with 3 in *. change (drop 3 (str "hci" ++ number)) with number in D.
    split_and!; [done|lia|lia|by apply forallb_Forall_true].
  - intros (number & -> & L & D). rewrite len_app. change (len (str "hci")) with 3. change (drop 3 (str "hci" ++ number)) with number.
    change (HasPrefix (str "hci" ++ number) (str "hci")) with (HasPrefix number []). assert (HasPrefix number [] = true) as -> by (by destruct number).
    rewrite (proj2 (Z.ltb_ge _ _)), (proj2 (Z.ltb_ge _ _)) by lia. cbn [negb orb]. by apply forallb_Forall_true.
Qed.
Lemma bad_path_spec path : bad_path path = false <-> absolute_path path.
Proof.
  unfold bad_path, absolute_path. rewrite orb_false_iff, ContainsAny_controls, negb_false_iff.
  assert (HasPrefix path (str "/") = true <-> exists rest, path = 47 :: rest) as ->; [|done]. split.
  - intros (rest & ->)%HasPrefix_split. by exists rest.
  - intros (rest & ->). by destruct rest.
Qed.
Lemma bad_paths_spec paths : existsb bad_path paths = false <-> Forall absolute_path paths.
Proof.
  induction paths as [|p paths IH]; cbn [existsb]; [split; [constructor|done]|].
  by rewrite orb_false_iff, Forall_cons, IH, bad_path_spec.
Qed.
Lemma check_sources_good ps : Forall good_source ps -> check_sources ps = Ok tt.
Proof.
  induction 1 as [|p ps [B G] F IH]; [done|]. cbn [check_sources]. destruct (IsLoopback (pxAddr p)) eqn:L.
  - rewrite (proj2 (Z.ltb_ge _ _)); [done|]. destruct G as [[_ G]|G]; lia.
  - destruct G as [[G _]|G]; [done|]. rewrite (proj2 (Z.eqb_eq _ _) G). done.
Qed.

(** Everything [Validate] establishes by itself. *)
Lemma Validate_inv c :
  Validate c = Ok tt ->
  (isSome (ParseBluetoothAddress (cfBluetoothDevice c)) = true /\
   (1 <= cfMASChannel c <= 30 /\ 1 <= cfMNSChannel c <= 30 /\ cfMASChannel c <> cfMNSChannel c) /\
   bad_address (cfInternalListen c) IsLoopback = false /\
   bad_address (cfAMIAddress c) (fun a => IsPrivate a || IsLoopback a) = false /\
   NoDup [cfAMISecretFile c; cfStateFile c; cfLogFile c; cfLEAudioSocket c] /\
   (cfClassicProfileMode c = ClassicProfileNormal \/
    cfClassicProfileMode c = ClassicProfileIsolated /\ cfLEAudioMode c = str "le-canary") /\
   1 <= len (cfAllowedSources c) <= 16 /\ 1 <= len (cfRecipients c) <= 8 /\ check_sources (cfAllowedSources c) = Ok tt) /\
  good_adapter (cfAdapter c) /\ (exists a, addressOf (cfOutboxListen c) = Some a) /\
  Forall absolute_path [cfAMISecretFile c; cfStateFile c; cfLogFile c; cfLegacySeenFile c; cfLegacyMessageLog c;
    cfLegacyForwardState c; cfLegacyOutboundQueue c; cfLEAudioSocket c] /\
  (cfLEAudioMode c = str "off" \/ cfLEAudioMode c = str "le-canary") /\ cfMediaURL c = str "https://mmmsg.acrobits.net/".
Proof.
  unfold Validate, str_eqb. intros H.
  repeat match type of H with (if ?b then _ else _) = _ => let E := fresh "E" in destruct b eqn:E; [discriminate H|] end.
  apply result_bind_ok in H as ([] & S & H).
  match type of H with (if ?b then _ else _) = _ => destruct b eqn:E17; [discriminate H|] end.
  match goal with P : existsb bad_path _ = false |- _ => apply bad_paths_spec in P end.
  bool_prop. pose proof (len_nonneg (cfAllowedSources c)). pose proof (len_nonneg (cfRecipients c)).
  assert (u8 (cfMNSChannel c) = cfMNSChannel c) as U by (apply Z.mod_small; change (2 ^ 8) with 256; lia).
  rewrite U in *. repeat match goal with B : _ && _ = false |- _ => apply andb_false_iff in B as [B | B] end; bool_prop;
  (split; [split_and!; try done; try lia; try tauto; repeat (apply NoDup_cons; split; [set_solver|]); constructor|]);
  (split_and!; [by apply validAdapter_spec| |done|tauto|done]);
  match goal with B : bad_address (cfOutboxListen c) _ = false |- _ => apply bad_address_false in B as (a & B & _); by exists a end.
Qed.

Lemma Load_valid getenv c : Load getenv = Ok c -> config_ok c.
Proof.
  unfold Load, uint8Env. intros H.
  apply result_bind_ok in H as (mas & M8 & H). apply result_bind_ok in M8 as (v & Rv & <-%Ok_inj). apply intEnv_range in Rv.
  repeat match type of H with
    | result_bind (intEnv _ _ _ _ _) _ = _ => apply result_bind_ok in H as (? & ?%intEnv_range & H)
    | result_bind (prefixes _) _ = _ => apply result_bind_ok in H as (sources & [NS FS]%prefixes_spec & H)
    | result_bind (recipients _) _ = _ => apply result_bind_ok in H as (rs & R%recipients_spec & H)
    end.
  cbv zeta in H. apply result_bind_ok in H as ([] & V & <-%Ok_inj).
  apply Validate_inv in V as ((D & C & I & M & P & O & LS & LR & K) & A & OL & AP & LM & MU).
  constructor; try done; cbn [cfBluetoothDevice cfMASChannel cfMNSChannel cfMAPTimeout cfPollInterval cfKeepalive cfMediaTimeout cfPollMaxCount
    cfMediaMaxBytes cfLEAudioPeerUID cfInternalListen cfAMIAddress cfClassicProfileMode cfLEAudioMode cfAllowedSources cfRecipients] in *.
  - by apply ParseBluetoothAddress_six.
  - unfold second. lia.
  - change (Z.shiftl 1 31) with (2 ^ 31) in *. change (Z.shiftl 64 10) with 65536 in *. change (Z.shiftl 2 20) with 2097152 in *. lia.
  - by apply bad_address_false.
  - apply bad_address_false in M as (a & E & B%orb_true_iff). by exists a.
  - split_and!; [lia|lia|done|by apply check_sources_spec].
Qed.

(** Nothing else is refused. *)
Lemma Validate_complete c : config_ok c -> Validate c = Ok tt.
Proof.
  intros [(octets & Dv & _) Ch Ti Co Ad (ao & Ou) Ab Le Me (ai & In & Lo) (am & Am & Pr) Pa Mo So Re]. unfold Validate, str_eqb.
  rewrite (proj2 (Z.eqb_neq (len (cfBluetoothDevice c)) 0)) by (intros E; apply len_0_nil in E; rewrite E in Dv; discriminate Dv).
  rewrite Dv, (proj2 (validAdapter_spec _) Ad). cbn [isSome negb].
  assert (u8 (cfMNSChannel c) = cfMNSChannel c) as -> by (apply Z.mod_small; change (2 ^ 8) with 256; lia).
  rewrite !(proj2 (Z.ltb_ge _ _)), (proj2 (Z.eqb_neq _ _)) by lia. cbn [orb].
  unfold bad_address. rewrite In, Ou, Am, Lo. assert (IsPrivate am || IsLoopback am = true) as -> by (by apply orb_true_iff). cbn [negb].
  rewrite (proj2 (bad_paths_spec _) Ab). rewrite !NoDup_cons, !not_elem_of_cons in Pa.
  rewrite !(bool_decide_eq_false_2 (_ = cfStateFile c)), !(bool_decide_eq_false_2 (_ = cfLogFile c)), (bool_decide_eq_false_2 (_ = cfAMISecretFile c)) by naive_solver.
  cbn [orb]. rewrite Me, (bool_decide_eq_true_2 (str "https://mmmsg.acrobits.net/" = _)) by done.
  assert (negb (bool_decide (cfLEAudioMode c = str "off")) && negb (bool_decide (cfLEAudioMode c = str "le-canary")) = false) as ->
    by (destruct Le as [-> | ->]; reflexivity).
  assert (negb (bool_decide (cfClassicProfileMode c = ClassicProfileNormal)) && negb (bool_decide (cfClassicProfileMode c = ClassicProfileIsolated)) = false /\
    bool_decide (cfClassicProfileMode c = ClassicProfileIsolated) && negb (bool_decide (cfLEAudioMode c = str "le-canary")) = false) as [-> ->]
    by (destruct Mo as [-> | [-> ->]]; split; reflexivity).
  rewrite !(proj2 (Z.eqb_neq _ 0)) by lia. change (Z.shiftl 64 10) with (64 * 1024). change (Z.shiftl 2 20) with (2048 * 1024).
  rewrite !(proj2 (Z.ltb_ge _ _)) by lia. cbn [orb negb]. rewrite check_sources_good by apply So. done.
Qed.

(** C36.  A configuration that [Load] accepts is safe to run with: the phone's address is
    six octets, the adapter is "hci" and a number, the two channels are in range and differ, every interval and count is within
    its bound, the internal API is bound to loopback, the outbox to an IPv4 address and the manager address is private, every
    runtime path is absolute and the secret, state, log and socket paths are four different ones, the media service is the pinned one,
    the modes are known and fit together, the allowed sources are 1 to 16 distinct ones,
    each a single address or within loopback, and the recipients are 1 to 8 distinct
    extension numbers of which none is the bridge's own.  Conversely [Validate] refuses nothing that satisfies these rules. *)
Theorem Load_ok :
  (forall getenv c, Load getenv = Ok c -> config_ok c) /\ (forall c, config_ok c -> Validate c = Ok tt).
Proof. split; [exact Load_valid|exact Validate_complete]. Qed.

(** *** The environment of the smallest deployment *)
Definition minimal_env (name : string) : bytes :=
  if String.eqb name "BT_DEVICE" then str "C0:DE:00:12:34:56" else if String.eqb name "MAS_CHANNEL" then str " 5 " else [].

Lemma Load_witness :
  exists c, Load minimal_env = Ok c /\ cfRecipients c = [str "1002"] /\ cfAllowedSources c = [mkPrefix (127 * 2 ^ 24) 8] /\ config_ok c.
Proof.
  destruct (Load minimal_env) as [c|e] eqn:E; [|vm_compute in E; discriminate E].
  exists c. split; [reflexivity|]. split; [vm_compute in E; injection E as <-; reflexivity|].
  split; [vm_compute in E; injection E as <-; reflexivity|]. exact (proj1 Load_ok minimal_env c E).
Defined.
