(* ===== verification/Media.v ===== *)
(** * The MMS media client

    Models src/callbridge-sms-go/internal/media/client.go: an attachment is encrypted with a
    fresh key, a place is allocated at the media service, the ciphertext is uploaded there, and
    a JSON signal tells the recipient where it is and how to decrypt it.

    The HTTP exchanges are inputs, and the result keeps every request sent. *)

From S2P Require Import Prelude GoStd GoText GoJson GoUrl GoAes Message.

Definition SignalContentType : bytes := str "application/x-acro-filetransfer+json".

Record Descriptor := mkDescriptor {
  deContentType : bytes; deContentURL : bytes; deContentSize : Z; deFilename : bytes; deEncryptionKey : bytes; deHash : bytes
}.

(** ** The signal *)
Definition omit_empty (name : string) (s : bytes) : list (bytes * json) := if len s =? 0 then [] else [(str name, jstr s)].
Definition attachment_json (d : Descriptor) : json :=
  JObj ([(str "content-type", jstr (deContentType d)); (str "content-url", jstr (deContentURL d)); (str "content-size", jint (deContentSize d))] ++
        omit_empty "filename" (deFilename d) ++ [(str "encryption-key", jstr (deEncryptionKey d)); (str "hash", jstr (deHash d))]).
Definition signal_json (body : bytes) (d : Descriptor) : json :=
  JObj (omit_empty "body" body ++ [(str "attachments", JArr [attachment_json d])]).
Definition MarshalSignal (body : bytes) (d : Descriptor) : bytes := Marshal (signal_json body d).

Definition allowedContentType (value : bytes) : bool :=
  bool_decide (value ∈ (str <$> ["image/jpeg"; "image/png"; "image/gif"; "image/webp"; "image/heic"; "image/heif"]%string)).

(** ** The checksum of [hash/crc32] with the IEEE polynomial *)
Definition crc_bit (crc : Z) : Z :=
  if Z.odd crc then Z.lxor (Z.shiftr crc 1) 0xEDB88320 else Z.shiftr crc 1.
Definition crc_byte (crc b : Z) : Z :=
  crc_bit (crc_bit (crc_bit (crc_bit (crc_bit (crc_bit (crc_bit (crc_bit (Z.lxor crc b)))))))).
Definition ChecksumIEEE (data : bytes) : Z := Z.lxor (foldl crc_byte 0xFFFFFFFF data) 0xFFFFFFFF.

Record MediaClient := mkMediaClient { mcBase : Url.URL; mcMaximum : Z }.
Definition NewMedia (rawURL : bytes) (maximum timeout : Z) : result MediaClient :=
  match Url.Parse rawURL with
  | None => fail! "invalid Groundwire media service URL"
  | Some base =>
      if negb (Url.urScheme base =s? str "https") || negb (Url.urHost base =s? str "mmmsg.acrobits.net") || negb (Url.urPath base =s? str "/") ||
         negb (Url.urRawQuery base =s? []) || negb (Url.urFragment base =s? [])
      then fail! "invalid Groundwire media service URL"
      else if (maximum <? 1) || (Z.shiftl 2 20 <? maximum) || (timeout <? 10 * 1000000000) || (120 * 1000000000 <? timeout)
      then fail! "invalid Groundwire media client bounds"
      else Ok (mkMediaClient base maximum)
  end.

Definition token_char (r : Z) : bool := is_lower r || is_upper r || is_digit r || (r =? 45) || (r =? 95).
Definition validContentURL (c : MediaClient) (raw : bytes) : bool :=
  match Url.Parse raw with
  | None => false
  | Some value =>
      if negb (Url.urScheme value =s? str "https") || negb (Url.urHost value =s? Url.urHost (mcBase c)) || negb (bool_decide (Url.urUser value = None)) ||
         negb (Url.urRawQuery value =s? []) || negb (Url.urFragment value =s? [])
      then false
      else
        let token := TrimPrefix (Url.EscapedPath value) [47] in
        if (token =s? Url.EscapedPath value) || (len token <? 16) || (128 <? len token) || Contains token [47] then false
        else forallb token_char (runes token)
  end.

(** Requests, and the answers the service gives: [None] when the exchange fails.  A request is refused before it is
    sent when its URL does not parse. *)
Record Request := mkRequest { rqMethod : bytes; rqURL : bytes; rqContentType : bytes; rqBody : bytes }.
Record exchanges := mkExchanges {
  exAllocate : option (Z * result bytes);
  exPut : option Z
}.

Definition allocation_payload (contentType : bytes) (size : Z) : bytes :=
  Marshal (JObj [(str "contentType", jstr contentType); (str "contentSize", jint size)]).
(** The [url] of the answer. *)
Definition json_url : bytes -> option bytes := unmarshal [(str "url", set_string)] [] id.
Definition allocate (c : MediaClient) (x : exchanges) (contentType : bytes) (size : Z) : list Request * result bytes :=
  let request := mkRequest (str "POST") (Url.URL_String (mcBase c)) (str "application/json") (allocation_payload contentType size) in
  if bool_decide (Url.Parse (rqURL request) = None) then ([], fail! "create Groundwire media allocation request")
  else match exAllocate x with
  | None => ([request], fail! "Groundwire media allocation failed")
  | Some (status, body) =>
      match body with
      | Error _ => ([request], fail! "Groundwire media allocation rejected")
      | Ok body =>
          let data := take 4097 body in
          if (4096 <? len data) || negb (status =? 201) then ([request], fail! "Groundwire media allocation rejected")
          else match json_url data with
               | None => ([request], fail! "Groundwire media allocation response invalid")
               | Some url => if validContentURL c url then ([request], Ok url)
                             else ([request], fail! "Groundwire media allocation response invalid")
               end
      end
  end.

Definition put_media (x : exchanges) (contentURL contentType encrypted : bytes) : list Request * result unit :=
  if bool_decide (Url.Parse contentURL = None) then ([], fail! "create Groundwire media upload request")
  else
    let request := mkRequest (str "PUT") contentURL contentType encrypted in
    match exPut x with
    | None => ([request], fail! "Groundwire media upload failed")
    | Some status =>
        if (status <? 200) || (299 <? status) then ([request], fail! "Groundwire media upload rejected") else ([request], Ok tt)
    end.

(** [Upload]; [key] is what [rand.Read] gives. *)
Definition Upload (c : MediaClient) (x : exchanges) (key : option bytes) (a : Attachment) : list Request * result Descriptor :=
  if (len (atData a) <? 1) || (mcMaximum c <? len (atData a)) || negb (allowedContentType (atContentType a))
  then ([], fail! "invalid Groundwire media attachment")
  else match key with
  | None => ([], fail! "create Groundwire media key")
  | Some key =>
      let encrypted := ctr key (atData a) in
      match allocate c x (atContentType a) (len encrypted) with
      | (sent, Error e) => (sent, Error e)
      | (sent, Ok contentURL) =>
          match put_media x contentURL (atContentType a) encrypted with
          | (sent', Error e) => (sent ++ sent', Error e)
          | (sent', Ok _) =>
              (sent ++ sent',
               Ok (mkDescriptor (atContentType a) contentURL (len (atData a)) (atFilename a)
                     (ToUpper (hex_string key)) (decimal (ChecksumIEEE (atData a)))))
          end
      end
  end.

(** ** The recipient's side *)

(** Hexadecimal text back to bytes. *)
Fixpoint unhex (s : bytes) : option bytes :=
  match s with
  | [] => Some []
  | a :: b :: s => x ← hex_digit a; y ← hex_digit b; rest ← unhex s; Some (16 * x + y :: rest)
  | _ => None
  end.
(** Download what a descriptor points to and decrypt it, checking size and checksum. *)
Definition retrieve (fetch : bytes -> option bytes) (d : Descriptor) : option bytes :=
  blob ← fetch (deContentURL d);
  key ← unhex (deEncryptionKey d);
  let data := ctr key blob in
  if (len data =? deContentSize d) && (decimal (ChecksumIEEE data) =s? deHash d) then Some data else None.

Lemma unhex_upper key : all_bytes key -> unhex (ToUpper (hex_string key)) = Some key.
Proof.
  induction 1 as [|b key Hb F IH]; [done|].
  change (ToUpper (hex_string (b :: key))) with (hex_upper_digit (b / 16) :: hex_upper_digit (b mod 16) :: ToUpper (hex_string key)).
  cbn [unhex]. unfold in_width in Hb. change (2 ^ 8) with 256 in Hb.
  rewrite !hex_digit_upper by euclid. cbn. rewrite IH. cbn. do 2 f_equal. euclid.
Qed.

(** The recipient's structs. *)
#[export] Instance Descriptor_fields : Fields Descriptor := {|
  fields x := mkDescriptor (deContentType x) (deContentURL x) (deContentSize x) (deFilename x) (deEncryptionKey x) (deHash x) |}.
Definition no_descriptor : Descriptor := mkDescriptor [] [] 0 [] [] [].
Definition attachment_setters : list (bytes * setter Descriptor) :=
  [(str "content-type", fun v x => (fun s => x <| deContentType := s |>) <$> set_string v (deContentType x));
   (str "content-url", fun v x => (fun s => x <| deContentURL := s |>) <$> set_string v (deContentURL x));
   (str "content-size", fun v x => (fun n => x <| deContentSize := n |>) <$> set_int v (deContentSize x));
   (str "filename", fun v x => (fun s => x <| deFilename := s |>) <$> set_string v (deFilename x));
   (str "encryption-key", fun v x => (fun s => x <| deEncryptionKey := s |>) <$> set_string v (deEncryptionKey x));
   (str "hash", fun v x => (fun s => x <| deHash := s |>) <$> set_string v (deHash x))].
Definition signal_setters : list (bytes * setter (bytes * backed Descriptor)) :=
  [(str "body", fun v x => (fun s => (s, x.2)) <$> set_string v x.1);
   (str "attachments", fun v x => (fun l => (x.1, l)) <$> set_slice no_descriptor (fill false attachment_setters) v x.2)].
Definition read_signal : bytes -> option (bytes * list Descriptor) := unmarshal signal_setters ([], ([], [])) (fun t => (t.1, t.2.1)).

Lemma find_attachment : Forall (fun s => find_setter attachment_setters (sanitize s.1) = Some s.2) attachment_setters.
Proof. repeat constructor. Qed.
Lemma find_signal : Forall (fun s => find_setter signal_setters (sanitize s.1) = Some s.2) signal_setters.
Proof. repeat constructor. Qed.

(** What a descriptor of an upload is made of. *)
Record descriptor_text (d : Descriptor) : Prop := {
  dt_type : utf8 (deContentType d); dt_url : utf8 (deContentURL d); dt_key : utf8 (deEncryptionKey d); dt_hash : utf8 (deHash d);
  dt_name : all_bytes (deFilename d); dt_size : 0 <= deContentSize d < 2 ^ 63
}.
Definition received (d : Descriptor) : Descriptor := d <| deFilename := sanitize (deFilename d) |>.
Lemma attachment_read d : descriptor_text d -> fill false attachment_setters (cleaned true (attachment_json d)) no_descriptor = Some (received d).
Proof.
  intros [T1 T2 T3 T4 _ Sz]. unfold attachment_json, omit_empty. destruct d as [ty url size name key hash]. cbn [deContentType deContentURL deContentSize deFilename deEncryptionKey deHash] in *.
  assert (forall old, set_int (JNum (Itoa size)) old = Some size) as Si by (intros; by apply Atoi_Itoa).
  destruct (Z.eqb_spec (len name) 0) as [E|E]; [apply len_0_nil in E as ->|]; rewrite cleaned_obj; cbn [app fill fmap list_fmap fst snd].
  - apply (fill_all false attachment_setters (take 3 attachment_setters ++ drop 4 attachment_setters) [_; _; _; _; _]); [repeat constructor|].
    cbn [take drop app set_each attachment_setters fst snd]. cbn [cleaned jstr jint set_string fmap option_fmap option_map mbind option_bind].
    rewrite Si. cbn [fmap option_fmap option_map mbind option_bind]. rewrite !sanitize_utf8 by done. done.
  - apply (fill_all false attachment_setters attachment_setters [_; _; _; _; _; _]); [apply find_attachment|].
    cbn [set_each attachment_setters fst snd]. cbn [cleaned jstr jint set_string fmap option_fmap option_map mbind option_bind].
    rewrite Si. cbn [fmap option_fmap option_map mbind option_bind].
    rewrite (sanitize_utf8 ty), (sanitize_utf8 url), (sanitize_utf8 key), (sanitize_utf8 hash) by done. done.
Qed.
Lemma omit_shape name s : all_bytes (str name) -> all_bytes s -> Forall (fun kv => all_bytes kv.1 /\ readable kv.2) (omit_empty name s).
Proof. intros Bn Bs. unfold omit_empty. case_match; [constructor|by apply Forall_singleton]. Qed.
Lemma signal_shape body d : all_bytes body -> descriptor_text d -> readable (signal_json body d) /\ (nesting (signal_json body d) <= 3)%nat.
Proof.
  intros B [T1 T2 T3 T4 Bn _]. apply utf8_bytes in T1, T2, T3, T4.
  assert (forall name, forallb (fun c => (0 <=? c) && (c <? 256)) (str name) = true -> all_bytes (str name)) as Bs.
  { intros name F%forallb_Forall_true. eapply Forall_impl; [exact F|]. intros c Hc. unfold in_width. cbv beta in Hc. change (2 ^ 8) with 256. bool_prop. lia. }
  split.
  - apply readable_obj, Forall_app. split; [by apply omit_shape, B; apply Bs|]. apply Forall_singleton. split; [by apply Bs|]. cbn [snd]. apply readable_arr, Forall_singleton, readable_obj.
    repeat (apply Forall_app; split); [|by apply omit_shape, Bn; apply Bs|].
    + repeat (apply Forall_cons; split; [split; [by apply Bs|]|]); [done|done|by eexists|constructor].
    + repeat (apply Forall_cons; split; [split; [by apply Bs|]|]); [done|done|constructor].
  - unfold signal_json, attachment_json, omit_empty. repeat case_match; cbn; lia.
Qed.
Lemma signal_read body d : all_bytes body -> descriptor_text d -> read_signal (MarshalSignal body d) = Some (sanitize body, [received d]).
Proof.
  intros B T. destruct (signal_shape body d B T) as [R N]. unfold read_signal, unmarshal, parse_json, MarshalSignal, Marshal.
  rewrite <- (app_nil_r (print true false 0 (signal_json body d))), parse_one_print by (done || unfold maxNestingDepth; lia). cbn [mbind option_bind skip_white].
  change (len [] =? 0) with true. cbv iota. cbn [mbind option_bind].
  assert (fill false signal_setters (cleaned true (signal_json body d)) ([], ([], [])) = Some (sanitize body, ([received d], []))) as ->; [|done].
  assert (forall old, old = ([], []) -> set_slice no_descriptor (fill false attachment_setters) (JArr [cleaned true (attachment_json d)]) old = Some ([received d], [])) as Sl.
  { intros old ->. cbn [set_slice app fst snd set_items]. by rewrite attachment_read. }
  unfold signal_json, omit_empty. destruct (Z.eqb_spec (len body) 0) as [E|E]; [apply len_0_nil in E as ->|]; rewrite cleaned_obj; cbn [app fill fmap list_fmap fst snd];
    rewrite cleaned_arr; cbn [fmap list_fmap].
  - apply (fill_all false signal_setters (drop 1 signal_setters) [_]); [repeat constructor|]. cbn [drop set_each signal_setters fst snd]. by rewrite Sl.
  - apply (fill_all false signal_setters signal_setters [_; _]); [apply find_signal|]. cbn [set_each signal_setters fst snd cleaned jstr set_string fmap option_fmap option_map mbind option_bind]. by rewrite Sl.
Qed.

Lemma allowed_text ty : allowedContentType ty = true -> utf8 ty.
Proof.
  intros E%bool_decide_eq_true. assert (Forall utf8 (str <$> ["image/jpeg"; "image/png"; "image/gif"; "image/webp"; "image/heic"; "image/heif"]%string)) as F by repeat constructor.
  by apply (proj1 (Forall_forall _ _) F).
Qed.
Lemma decimal_ascii n : utf8 (decimal n).
Proof.
  destruct (Z.lt_trichotomy n 0) as [L | [-> | L]]; [|done|].
  - unfold decimal. rewrite (proj2 (Z.eqb_neq n 0)) by lia. destruct (S (Z.to_nat (Z.log2 n))); [done|]. cbn [decimal_loop]. by rewrite (proj2 (Z.leb_le n 0)) by lia.
  - destruct (decimal_head n L) as (c & ds & -> & Hc & F). apply utf8_ascii. constructor; [unfold RuneSelf; lia|by apply digits_ascii].
Qed.
Lemma upper_hex_text key : all_bytes key -> utf8 (ToUpper (hex_string key)).
Proof.
  intros B. apply utf8_ascii. induction B as [|b key Hb F IH]; [constructor|]. unfold in_width in Hb. change (2 ^ 8) with 256 in Hb.
  change (ToUpper (hex_string (b :: key))) with (hex_upper_digit (b / 16) :: hex_upper_digit (b mod 16) :: ToUpper (hex_string key)).
  repeat constructor; try done; unfold RuneSelf; pose proof (hex_upper_byte (b / 16)); pose proof (hex_upper_byte (b mod 16)); euclid.
Qed.
Lemma json_url_text data url : all_bytes data -> json_url data = Some url -> utf8 url.
Proof.
  intros B E. unfold json_url, unmarshal in E. destruct (parse_json data) as [v|] eqn:P; [|done]. apply parse_json_utf8 in P; [|done]. cbn [mbind option_bind] in E.
  destruct (fill false _ v []) as [t|] eqn:F; [|done]. injection E as <-. apply (fill_keeps utf8) in F; [done| |done|done].
  repeat constructor. intros v0 x y U Ux Es. by eapply set_string_keeps.
Qed.

(** The bytes of the service's answer are bytes. *)
Definition answer_bytes (x : exchanges) : Prop := match exAllocate x with Some (_, Ok body) => all_bytes body | _ => True end.

(** What a successful upload did. *)
Lemma Upload_ok c x key a sent d :
  Upload c x (Some key) a = (sent, Ok d) ->
  validContentURL c (deContentURL d) = true /\ len (atData a) <= mcMaximum c /\ allowedContentType (atContentType a) = true /\
  sent = [mkRequest (str "POST") (Url.URL_String (mcBase c)) (str "application/json") (allocation_payload (atContentType a) (len (atData a)));
          mkRequest (str "PUT") (deContentURL d) (atContentType a) (ctr key (atData a))] /\
  d = mkDescriptor (atContentType a) (deContentURL d) (len (atData a)) (atFilename a) (ToUpper (hex_string key)) (decimal (ChecksumIEEE (atData a))) /\
  (answer_bytes x -> utf8 (deContentURL d)).
Proof.
  intros U. unfold Upload in U. destruct (_ || _) eqn:G in U; [done|]. cbv zeta in U. bool_prop.
  assert (len (ctr key (atData a)) = len (atData a)) as L by (unfold len; by rewrite ctr_length). rewrite L in U.
  unfold allocate in U. cbv zeta in U. destruct (bool_decide _) in U; [done|]. destruct (exAllocate x) as [[status [body|]]|] eqn:Ea; [|done..]. cbv zeta in U.
  destruct ((4096 <? len (take 4097 body)) || negb (status =? 201)); [done|].
  destruct (json_url (take 4097 body)) as [url|] eqn:Ej; [|done]. destruct (validContentURL c url) eqn:V; [|done].
  unfold put_media in U. destruct (bool_decide _) in U; [done|]. destruct (exPut x) as [st|]; [|done].
  destruct ((st <? 200) || (299 <? st)); [done|]. injection U as <- <-. cbn [deContentURL]. split_and!; try done.
  unfold answer_bytes. rewrite Ea. intros B. eapply json_url_text; [|exact Ej]. by apply Forall_take.
Qed.

(** Where media may be put. *)
Lemma token_char_ascii r : token_char r = true -> 0 <= r < RuneSelf /\ r <> 37.
Proof. unfold token_char, is_lower, is_upper, is_digit, in_range, RuneSelf. lia. Qed.
Lemma token_chars s : forallb token_char (runes s) = true -> Forall (fun c => token_char c = true) s.
Proof.
  unfold runes. assert (length s <= length s)%nat as L by done. revert L. generalize (length s) at 2 3 as fuel. intros fuel. revert s.
  induction fuel as [|fuel IH]; intros [|b s] L E; try (cbn in L; lia); [constructor..|]. cbn [runes_loop] in E.
  destruct (Z.lt_ge_cases b RuneSelf) as [H|H].
  - assert (DecodeRune (b :: s) = (b, 1%nat)) as D by (cbn; by rewrite (proj2 (Z.ltb_lt _ _) H)). rewrite D in E. cbn in E, L. rewrite drop_0 in E.
    apply andb_true_iff in E as [Eb Es]. constructor; [done|]. apply IH; [lia|done].
  - destruct (DecodeRune_high b s H) as [Hr _]. destruct (DecodeRune (b :: s)) as [r size]. cbn in E, Hr. apply andb_true_iff in E as [Eb _].
    apply token_char_ascii in Eb. lia.
Qed.
Definition content_url (url : bytes) : Prop :=
  exists scheme token query hash, url = scheme ++ str "://" ++ str "mmmsg.acrobits.net" ++ 47 :: token ++ query ++ hash /\
    ToLower scheme = str "https" /\ 16 <= len token <= 128 /\ Forall (fun c => token_char c = true) token /\
    (query = [] \/ query = [63]) /\ (hash = [] \/ hash = [35]).
Lemma validContentURL_spec rawURL maximum timeout c url :
  NewMedia rawURL maximum timeout = Ok c -> validContentURL c url = true -> content_url url.
Proof.
  intros N V. assert (Url.urHost (mcBase c) = str "mmmsg.acrobits.net") as Hb.
  { unfold NewMedia in N. destruct (Url.Parse rawURL) as [base|]; [|done]. repeat (split_if_in N; [done|]). apply Ok_inj in N as <-. cbn [mcBase].
    unfold str_eqb in *. bool_prop. done. }
  unfold validContentURL in V. destruct (Url.Parse url) as [u|] eqn:E; [|done]. rewrite Hb in V. unfold str_eqb in V. cbv zeta in V.
  destruct (_ || _) eqn:G in V; [done|]. destruct (_ || _) eqn:G2 in V; [done|]. bool_prop.
  destruct (Url.EscapedPath u) as [|x token] eqn:Ep; [done|]. unfold TrimPrefix in *. cbn [HasPrefix] in *. destruct (Z.eqb_spec 47 x) as [<-|]; [|done].
  cbn in *. assert (HasPrefix token [] = true) as Hp by by destruct token. rewrite Hp in *. cbn in *. rewrite drop_0 in *. apply token_chars in V.
  assert (Url.urScheme u <> []) as Ns by congruence.
  destruct (Url.Parse_plain url u (str "mmmsg.acrobits.net") token E) as (scheme & query & hash & -> & Sc & Q & Hs); try done.
  - by apply (bool_decide_unpack (Forall (fun c => c < 128 /\ c <> 37) (str "mmmsg.acrobits.net"))).
  - eapply Forall_impl; [exact V|]. intros r Hr. by apply token_char_ascii in Hr as [_ ?].
  - exists scheme, token, query, hash. split_and!; [done|by rewrite Sc|unfold len in *; lia|unfold len in *; lia|done|done|done].
Qed.

(** C32.  Media go out encrypted and can be read by the recipient: a successful upload sent
    exactly the allocation request and one PUT, the PUT goes to the service's host over https, to a path of one token of 16
    to 128 letters, digits, dashes and underscores, without user, port, query or fragment (an empty
    query or fragment apart), and carries the AES-CTR ciphertext; and a recipient who
    decodes the signal, downloads what was put at the URL it names and decrypts it with the key it has
    gets the text and the attachment's bytes, with the size and checksum announced. *)
Theorem Upload_roundtrip rawURL maximum timeout c x key a sent d body :
  NewMedia rawURL maximum timeout = Ok c -> all_bytes key -> all_bytes (atFilename a) -> answer_bytes x -> all_bytes body ->
  Upload c x (Some key) a = (sent, Ok d) ->
  content_url (deContentURL d) /\
  sent = [mkRequest (str "POST") (Url.URL_String (mcBase c)) (str "application/json") (allocation_payload (atContentType a) (len (atData a)));
          mkRequest (str "PUT") (deContentURL d) (atContentType a) (ctr key (atData a))] /\
  exists d', read_signal (MarshalSignal body d) = Some (sanitize body, [d']) /\ deContentURL d' = deContentURL d /\
    forall fetch, fetch (deContentURL d') = Some (ctr key (atData a)) -> retrieve fetch d' = Some (atData a).
Proof.
  intros M Kb Bn Bx Bb U. apply Upload_ok in U as (V & Lm & Al & -> & Ed & Tu). split_and!; [by eapply validContentURL_spec|done|].
  revert Ed Tu. generalize (deContentURL d) as url. intros url -> Tu. eexists (received _).
  assert (mcMaximum c <= 2097152) as Bm.
  { unfold NewMedia in M. destruct (Url.Parse rawURL) as [base|]; [|done]. repeat (split_if_in M; [done|]). apply Ok_inj in M as <-. cbn [mcMaximum].
    change (Z.shiftl 2 20) with 2097152 in *. bool_prop. lia. }
  rewrite signal_read; [|done|].
  2: { constructor; cbn [deContentType deContentURL deContentSize deFilename deEncryptionKey deHash];
       [by apply allowed_text|by apply Tu|by apply upper_hex_text|apply decimal_ascii|done|]. pose proof (len_nonneg (atData a)). lia. }
  split_and!; [done|done|]. intros fetch F. unfold retrieve, received. cbn in F |- *. rewrite F, unhex_upper by done. cbn [mbind option_bind].
  rewrite ctr_involutive, Z.eqb_refl. unfold str_eqb. by rewrite bool_decide_eq_true_2.
Qed.

(** The check value of the checksum. *)
Example ChecksumIEEE_check : ChecksumIEEE (str "123456789") = 0xCBF43926.
Proof. vm_compute. reflexivity. Qed.
Example signal_text : MarshalSignal [] (mkDescriptor (str "image/png") (str "https://x/1?a&b") 3 [] (str "00FF") (str "7")) =
  json_text "{'attachments':[{'content-type':'image/png','content-url':'https://x/1?a\u0026b','content-size':3,'encryption-key':'00FF','hash':'7'}]}".
Proof. vm_compute. reflexivity. Qed.

(** *** An upload *)
Lemma Upload_roundtrip_witness :
  let c := mkMediaClient (Url.mkURL (str "https") [] None (str "mmmsg.acrobits.net") (str "/") [] false false [] []) 4096 in
  let url := str "https://mmmsg.acrobits.net/0123456789abcdef" in
  let x := mkExchanges (Some (201, Ok (json_text "{'url': 'https://mmmsg.acrobits.net/0123456789abcdef'}"))) (Some 204) in
  let a := mkAttachment (str "image/png") (str "a.png") [137; 80; 78; 71] in
  exists sent d d', Upload c x (Some (replicate 16 90)) a = (sent, Ok d) /\ read_signal (MarshalSignal (str "hi") d) = Some (str "hi", [d']) /\
    retrieve (fun u => if u =s? url then Some (ctr (replicate 16 90) [137; 80; 78; 71]) else None) d' = Some [137; 80; 78; 71].
Proof.
  intros c url x a. exists (Upload c x (Some (replicate 16 90)) a).1.
  destruct (Upload c x (Some (replicate 16 90)) a) as [sent [d|e]] eqn:E; [|vm_compute in E; discriminate E]. exists d.
  destruct (Upload_roundtrip (str "https://mmmsg.acrobits.net/") 4096 (60 * 1000000000) c x (replicate 16 90) a sent d (str "hi")) as (_ & _ & d' & R & Ru & G).
  - vm_compute. reflexivity.
  - apply (bool_decide_unpack (all_bytes (replicate 16 90))). vm_compute. exact I.
  - apply (bool_decide_unpack (all_bytes (str "a.png"))). vm_compute. exact I.
  - apply (bool_decide_unpack (all_bytes (json_text "{'url': 'https://mmmsg.acrobits.net/0123456789abcdef'}"))). vm_compute. exact I.
  - apply (bool_decide_unpack (all_bytes (str "hi"))). vm_compute. exact I.
  - exact E.
  - exists d'. split; [reflexivity|]. split; [exact R|]. apply G. rewrite Ru. vm_compute in E. injection E as _ <-. vm_compute. reflexivity.
Defined.
