(* ===== verification/SmsService.v ===== *)
(** * The SMS bridge service

    Models src/callbridge-sms-go/internal/bridge/service.go and status.go: the loop that
    keeps a MAP session, forwards incoming messages to SIP recipients and sends queued
    ones, and the counters behind the health report.

    The service is written against interfaces, as in the source: [MapClient], [AmiSender]
    and [Uploader] are the interfaces [mapSession], [amiSender] and [mediaUploader].  The
    MAP session, the manager client and the media client are instances.

    An operation runs in the monad of the MAP client, on a [World]: the service's fields, the
    state file's disk with the faults its next saves meet, the clock and the time the context is
    cancelled.  [Panics] also stands for a process killed during a save.  [wWake] is the one place of the
    [outboundWake] channel, [wEnded] the contexts of requests that have ended, [wResponses] the one
    place of each response channel, and [wTrace] a ghost field: what was handed to the outside and
    what joined the outbound queue, in order. *)

From S2P Require Import Prelude GoStd GoText GoJson GoSha Obex SmsStore Message MapSession Ami GoNet SmsConfig Media.

(** ** Interfaces *)
Class MapClient (S : Type) := {
  msRegisterNotifications : bool -> M S unit;
  msKeepalive : M S unit;
  msListMessages : bytes -> Z -> Z -> M S (list ListingMessage);
  msGetMessage : bytes -> bytes -> M S bytes;
  msSendSMS : bytes -> bytes -> M S unit;
  msPushBMessage : bytes -> bytes -> bool -> bool -> M S unit;
  msClose : M S unit
}.
Class AmiSender (A : Type) := {
  amiSendMessage : A -> bytes -> bytes -> bytes -> bytes -> bytes -> A * result unit
}.
Class Uploader (U : Type) := { mediaUpload : U -> Attachment -> U * result Descriptor }.

(** The MAP session over a connection; [fuel] bounds the turns of a GET. *)
#[export] Instance session_client {T} `{Transport T, Closable T}
    (wide : bool -> Z -> bool) (fuel : nat) : MapClient (Session T) := {|
  msRegisterNotifications := RegisterNotifications;
  msKeepalive := Keepalive;
  msListMessages := ListMessages wide fuel;
  msGetMessage := GetMessage fuel;
  msSendSMS := SendSMS;
  msPushBMessage := PushBMessage;
  msClose := MapSession.Close
|}.
(** The manager client; each message meets the next manager of the list. *)
#[export] Instance client_sender : AmiSender (Client * list manager * list (list bytes)) := {|
  amiSendMessage x recipient sender body contentType actionID :=
    let '(c, ms, log) := x in
    let m := default (mkManager false [] None) (head ms) in
    let '(packets, r) := SendMessage c m recipient sender body contentType actionID in
    ((c, tail ms, log ++ [packets]), r)
|}.
(** The media client; each upload meets the next exchanges and key. *)
#[export] Instance client_uploader : Uploader (MediaClient * list (exchanges * option bytes)) := {|
  mediaUpload x a :=
    let '(c, ex) := x in
    match ex with
    | [] => ((c, []), fail! "Groundwire media allocation failed")
    | (e, key) :: ex => ((c, ex), (Upload c e key a).2)
    end
|}.

(** ** Counters (status.go) *)
Record status := mkStatus {
  stRegistered : bool; stMNSConnected : bool; stMAPConnected : bool; stNotifications : bool;
  stLastPoll : option Z;
  stInboundConsumed : Z; stInboundFailed : Z; stOutboundConsumed : Z; stOutboundFailed : Z; stDropped : Z
}.
#[export] Instance status_fields : Fields status := {|
  fields x := mkStatus (stRegistered x) (stMNSConnected x) (stMAPConnected x) (stNotifications x) (stLastPoll x)
    (stInboundConsumed x) (stInboundFailed x) (stOutboundConsumed x) (stOutboundFailed x) (stDropped x) |}.
Definition newStatus : status := mkStatus false false false false None 0 0 0 0 0.

Definition setMNSRegistered (value : bool) (s : status) : status := s <| stRegistered := value |>.
Definition setMNSConnected (value : bool) (s : status) : status := s <| stMNSConnected := value |>.
Definition setMAP (value : bool) (s : status) : status :=
  let s := s <| stMAPConnected := value |> in if negb value then s <| stNotifications := false |> else s.
Definition setNotifications (value : bool) (s : status) : status := s <| stNotifications := value |>.
Definition polled (now : Z) (s : status) : status := s <| stLastPoll := Some now |>.
Definition inbound (success : bool) (s : status) : status :=
  let s := s <| stInboundConsumed := u64 (stInboundConsumed s + 1) |> in
  if negb success then s <| stInboundFailed := u64 (stInboundFailed s + 1) |> else s.
Definition outbound (success : bool) (s : status) : status :=
  let s := s <| stOutboundConsumed := u64 (stOutboundConsumed s + 1) |> in
  if negb success then s <| stOutboundFailed := u64 (stOutboundFailed s + 1) |> else s.
Definition dropped (s : status) : status := s <| stDropped := u64 (stDropped s + 1) |>.
Definition connected (s : status) : bool := stMAPConnected s && stNotifications s.

(** ** The service *)
Record mediaRetry := mkRetry { mrAttempts : Z; mrNext : Z }.

Inductive commandKind := commandList | commandGet | commandRaw | commandUnknown.
(** [cmRequest] stands for the request behind a command: its context and its response channel. *)
Record mapCommand := mkCommand {
  cmRequest : nat; cmKind : commandKind; cmFolder : bytes; cmHandle : bytes; cmMaximum : Z; cmOffset : Z;
  cmBody : bytes; cmTransparent : bool; cmRetry : bool
}.
Record commandResponse := mkResponse { reListing : list ListingMessage; reMessage : Message; reErr : option error }.
Definition no_message : Message := mkMessage [] [] [] [].

Inductive effect :=
| Fetched (handle : bytes)
| Forwarded (handle recipient sender body contentType actionID : bytes)
| Attempted (item : Outbound)
| Confirmed (item : Outbound) (r : result unit)
| Queued (item : Outbound)
| Responded (command : mapCommand) (r : commandResponse).

Record World (File S A U : Type) := mkWorld {
  wStore : Store; wDisk : disk File; wFaults : list (option fault);
  wSession : S; wAmi : A; wMedia : U;
  wStatus : status; wRetries : gmap bytes mediaRetry;
  wWake : bool;
  wEnded : gset nat; wResponses : gmap nat commandResponse;
  wClock : Z; wCancelAt : option Z;
  wTrace : list effect
}.
Arguments mkWorld {_ _ _ _} _ _ _ _ _ _ _ _ _ _ _ _ _ _.
Arguments wStore {_ _ _ _} _.
Arguments wDisk {_ _ _ _} _.
Arguments wFaults {_ _ _ _} _.
Arguments wSession {_ _ _ _} _.
Arguments wAmi {_ _ _ _} _.
Arguments wMedia {_ _ _ _} _.
Arguments wStatus {_ _ _ _} _.
Arguments wRetries {_ _ _ _} _.
Arguments wWake {_ _ _ _} _.
Arguments wEnded {_ _ _ _} _.
Arguments wResponses {_ _ _ _} _.
Arguments wClock {_ _ _ _} _.
Arguments wCancelAt {_ _ _ _} _.
Arguments wTrace {_ _ _ _} _.
#[export] Instance World_fields File S A U : Fields (World File S A U) := {|
  fields x := mkWorld (wStore x) (wDisk x) (wFaults x) (wSession x) (wAmi x) (wMedia x) (wStatus x) (wRetries x)
    (wWake x) (wEnded x) (wResponses x) (wClock x) (wCancelAt x) (wTrace x) |}.

Definition supportedType (value : bytes) : bool :=
  (value =s? []) || (value =s? str "SMS_GSM") || (value =s? str "SMS_CDMA") || (value =s? str "MMS").
Definition defaultType (value : bytes) : bytes := if value =s? [] then str "SMS_GSM" else value.
Definition nextBackoff (value : Z) : Z := let value := value * 2 in if 30 * second <? value then 30 * second else value.

Definition fetchDelays : list Z := [second; 2 * second; 3 * second; 5 * second].
Definition inbox : bytes := str "telecom/msg/inbox".
Definition Canceled : error := Sentinel "context.Canceled" "context canceled".

(** Identifiers of the actions: a prefix and forty hexadecimal digits. *)
Definition deliveryActionID (handle recipient : bytes) (part : Z) : bytes :=
  str "smsv3-" ++ hex_string (take 20 (Sum256 (str "chunk-v1" ++ [0] ++ handle ++ [0] ++ recipient ++ [0] ++ Itoa part))).
Definition mediaDeliveryActionID (handle recipient : bytes) (part : Z) : bytes :=
  str "mmsv1-" ++ hex_string (take 20 (Sum256 (str "media-v1" ++ [0] ++ handle ++ [0] ++ recipient ++ [0] ++ Itoa part))).

(** ** What is sent for a message *)
Record sipDelivery := mkDelivery { sdBody : bytes; sdContentType : bytes; sdMediaIndex : Z }.

(** The loop over the descriptors: [None] when a signal is too large.  [json.Marshal] of
    strings and integers does not fail. *)
Fixpoint media_deliveries (index : nat) (clean : bytes) (ds : list Descriptor) : option (list sipDelivery * bool) :=
  match ds with
  | [] => Some ([], false)
  | d :: ds =>
      let caption := if Nat.eqb index 0 then clean else [] in
      let signal := MarshalSignal caption d in
      let '(signal, caption) :=
        if MaxBodyBytes <? len signal then (MarshalSignal [] d, []) else (signal, caption) in
      if MaxBodyBytes <? len signal then None
      else
        '(rest, included) ← media_deliveries (S index) clean ds;
        Some (mkDelivery signal SignalContentType (Z.of_nat index) :: rest, negb (caption =s? []) || included)
  end.
Definition build_deliveries (clean : bytes) (parts : list bytes) (ds : list Descriptor) : option (list sipDelivery) :=
  '(media, captionIncluded) ← media_deliveries 0 clean ds;
  Some (media ++ if captionIncluded : bool then [] else (fun part => mkDelivery part (str "text/plain") (0 - 1)) <$> parts).

Section Service.
Context {File S A U : Type} `{StateFile File} `{MapClient S} `{AmiSender A} `{Uploader U} `{MimeLib}.
Variable cfg : Config.
#[local] Abbreviation W := (World File S A U).
#[local] Abbreviation MW := (M W).

(** *** Running parts of the world *)
Definition on_session {X} (m : M S X) : MW X := fun w =>
  let '(s, o) := m (wSession w) in (w <| wSession := s |>, o).
(** A call of the store; the next save meets the next fault. *)
Definition on_store {X} (op : option fault -> Store -> disk File -> option Store * disk File * result X) : MW X := fun w =>
  match op (default None (head (wFaults w))) (wStore w) (wDisk w) with
  | (Some s, dk, r) => (w <| wStore := s |> <| wDisk := dk |> <| wFaults := tail (wFaults w) |>, Returns r)
  | (None, dk, _) => (w <| wDisk := dk |> <| wFaults := tail (wFaults w) |>, Panics)
  end.
Definition on_status (f : status -> status) : MW unit := modify (fun w => w <| wStatus := f (wStatus w) |>).
Definition note (e : effect) : MW unit := modify (fun w => w <| wTrace := wTrace w ++ [e] |>).
(** The result of a call whose error is looked at. *)
Definition attempt {X} (m : MW X) : MW (result X) := fun w =>
  match m w with
  | (w, Returns r) => (w, Returns (Ok r))
  | (w, Panics) => (w, Panics)
  | (w, Pending) => (w, Pending)
  end.
Definition markSeen (handle : bytes) : MW unit := on_store (fun f s dk => MarkSeen f s dk handle).
(** [sleepContext]: whether the time passed before the context was cancelled. *)
Definition sleepContext (delay : Z) : MW bool := fun w =>
  match wCancelAt w with
  | Some t => if t <=? wClock w + delay then (w <| wClock := Z.max (wClock w) t |>, Returns (Ok false))
              else (w <| wClock := wClock w + delay |>, Returns (Ok true))
  | None => (w <| wClock := wClock w + delay |>, Returns (Ok true))
  end.

(** *** Incoming messages *)

(** The fetch loop: [raw] and [lastErr] as after it. *)
Fixpoint fetch (delays : list Z) (folder handle : bytes) (last : result bytes) : MW (result bytes) :=
  match delays with
  | [] => ret last
  | delay :: delays =>
      let* awake := sleepContext delay in
      if negb awake then throw Canceled
      else
        let* _ := note (Fetched handle) in
        let* r := attempt (on_session (msGetMessage folder handle)) in
        match r with Ok raw => ret (Ok raw) | Error _ => fetch delays folder handle r end
  end.

(** Give a message up: mark it, count it as failed. *)
Definition consume_failed (handle : bytes) : MW unit :=
  let* _ := markSeen handle in on_status (inbound false).

Definition retry_delays : list Z := [30 * second; 120 * second; 600 * second; 1800 * second; 3600 * second].
Definition deferMedia (handle : bytes) : MW Z := fun w =>
  let retry := default (mkRetry 0 0) (wRetries w !! handle) in
  let attempts := mrAttempts retry + 1 in
  let index := if len retry_delays <=? attempts - 1 then len retry_delays - 1 else attempts - 1 in
  let delay := nth (Z.to_nat index) retry_delays 0 in
  (w <| wRetries := <[handle := mkRetry attempts (wClock w + delay)]> (wRetries w) |>, Returns (Ok delay)).

(** The upload loop: [None] when one failed. *)
Fixpoint upload_all (attachments : list Attachment) : MW (option (list Descriptor)) :=
  match attachments with
  | [] => ret (Some [])
  | a :: attachments =>
      let* r := (fun w => let '(u, r) := mediaUpload (wMedia w) a in (w <| wMedia := u |>, Returns (Ok r))) in
      match r with
      | Error _ => ret None
      | Ok d => let* rest := upload_all attachments in ret (cons d <$> rest)
      end
  end.

(** The deliveries of one recipient, until one fails. *)
Fixpoint deliver (handle recipient sender : bytes) (textIndex : Z) (ds : list sipDelivery) : MW bool :=
  match ds with
  | [] => ret true
  | d :: ds =>
      let actionID := if 0 <=? sdMediaIndex d then mediaDeliveryActionID handle recipient (sdMediaIndex d)
                      else deliveryActionID handle recipient textIndex in
      let* _ := note (Forwarded handle recipient sender (sdBody d) (sdContentType d) actionID) in
      let* r := (fun w => let '(a, r) := amiSendMessage (wAmi w) recipient sender (sdBody d) (sdContentType d) actionID in
                  (w <| wAmi := a |>, Returns (Ok r))) in
      match r with
      | Error _ => ret false
      | Ok _ => deliver handle recipient sender (if 0 <=? sdMediaIndex d then textIndex else textIndex + 1) ds
      end
  end.
Fixpoint deliver_all (recipients : list bytes) (handle sender : bytes) (ds : list sipDelivery) (delivered : bool) : MW bool :=
  match recipients with
  | [] => ret delivered
  | recipient :: recipients =>
      let* ok := deliver handle recipient sender 0 ds in
      deliver_all recipients handle sender ds (delivered && ok)
  end.

(** From the parsed message on. *)
Definition forward (event : Event) (parsed : Message) : MW unit :=
  let handle := evHandle event in
  let isMMS := EqualFoldText (evMessageType event) (str "MMS") in
  if (msBody parsed =s? []) && (len (msAttachments parsed) =? 0) then consume_failed handle
  else
    let clean := if isMMS then msBody parsed else StripMMSEnvelope (msBody parsed) (evMessageType event) in
    let parts := if clean =s? [] then [] else VisibleParts clean (evDateTime event) in
    if MaxSIPParts <? len parts then consume_failed handle
    else
      let* descriptors := upload_all (msAttachments parsed) in
      match descriptors with
      | None => let* _ := deferMedia handle in ret tt
      | Some descriptors =>
          let* _ := modify (fun w => w <| wRetries := delete handle (wRetries w) |>) in
          match build_deliveries clean parts descriptors with
          | None => consume_failed handle
          | Some [] => consume_failed handle
          | Some deliveries =>
              let* _ := markSeen handle in
              let* delivered := deliver_all (cfRecipients cfg) handle (NormalizeSender (msSenderNumber parsed)) deliveries true in
              on_status (inbound delivered)
          end
      end.

(** The folder a message is fetched from. *)
Definition folder_of (event : Event) : bytes :=
  if (evFolder event =s? []) || negb (HasPrefix (evFolder event) (str "telecom/msg/")) then inbox else evFolder event.

Definition processEvent (event : Event) : MW unit :=
  let handle := evHandle event in
  let* seen := gets (fun w => HasSeen (wStore w) handle) in
  if negb (evEventType event =s? str "NewMessage") || (handle =s? []) || seen then ret tt
  else
    let* waiting := gets (fun w => match wRetries w !! handle with Some r => wClock w <? mrNext r | None => false end) in
    if waiting : bool then ret tt
    else
      let* fetched := fetch fetchDelays (folder_of event) handle (Ok []) in
      match fetched with
      | Error lastErr =>
          let* _ := consume_failed handle in
          if IsTransportError lastErr then throw lastErr else ret tt
      | Ok raw =>
          let parsed := ParseBMessage raw in
          if EqualFoldText (evMessageType event) (str "MMS") then
            match ParseMMS parsed (cfMediaMaxBytes cfg) with
            | Error _ => consume_failed handle
            | Ok parsed => forward event parsed
            end
          else forward event parsed
      end.

(** *** Polling, the baseline, the outbound queue, commands *)
Fixpoint poll_items (items : list ListingMessage) : MW unit :=
  match items with
  | [] => ret tt
  | item :: items =>
      let* seen := gets (fun w => HasSeen (wStore w) (lmHandle item)) in
      if seen || negb (supportedType (lmType item)) then poll_items items
      else
        let* _ := processEvent (mkEvent (str "NewMessage") (lmHandle item) inbox (defaultType (lmType item)) (lmDateTime item) (str "poll")) in
        poll_items items
  end.
Definition poll : MW unit :=
  let* items := on_session (msListMessages inbox (cfPollMaxCount cfg) 0) in
  let* now := gets wClock in
  let* _ := on_status (polled now) in
  poll_items (rev items).

Definition bootstrap : MW unit :=
  let* initialized := gets (fun w => IsInitialized (wStore w)) in
  if initialized : bool then ret tt
  else
    let* messages := on_session (msListMessages inbox (cfPollMaxCount cfg) 0) in
    let* _ := on_store (fun f s dk => MarkSeenMany f s dk (lmHandle <$> messages)) in
    on_store SetInitialized.

(** The body of [drainOutbound] for an item it took; the trace has the call of [SendSMS] and what it returned. *)
Definition send_item (item : Outbound) : MW unit :=
  let* _ := note (Attempted item) in
  let* r := attempt (on_session (msSendSMS (obTo item) (obText item))) in
  let* _ := note (Confirmed item r) in
  let* _ := on_status (outbound (is_ok r)) in
  match r with Error e => throw e | Ok _ => ret tt end.
(** [drainOutbound]: the loop takes an item in every turn; [fuel] turns. *)
Fixpoint drain (fuel : nat) : MW unit :=
  match fuel with
  | O => fun w => (w, Pending)
  | Datatypes.S fuel =>
      let* item := on_store TakeOutbound in
      match item with
      | None => ret tt
      | Some item => let* _ := send_item item in drain fuel
      end
  end.
Definition drainOutbound : MW unit := fun w => drain (Datatypes.S (length (dsOutbound (stData (wStore w))))) w.

(** What the phone answers. *)
Definition command_response (command : mapCommand) : MW commandResponse :=
  match cmKind command with
  | commandList =>
      let* r := attempt (on_session (msListMessages (cmFolder command) (cmMaximum command) (cmOffset command))) in
      ret (match r with Ok l => mkResponse l no_message None | Error e => mkResponse [] no_message (Some e) end)
  | commandGet =>
      let* r := attempt (on_session (msGetMessage (cmFolder command) (cmHandle command))) in
      ret (match r with Ok raw => mkResponse [] (ParseBMessage raw) None | Error e => mkResponse [] no_message (Some e) end)
  | commandRaw =>
      let* r := attempt (on_session (msPushBMessage (cmFolder command) (cmBody command) (cmTransparent command) (cmRetry command))) in
      ret (match r with Ok _ => mkResponse [] no_message None | Error e => mkResponse [] no_message (Some e) end)
  | commandUnknown => ret (mkResponse [] no_message (Some (New "unknown MAP command")))
  end.
(** A send on a response channel, which has one place, that does not wait for room. *)
Definition send_response (request : nat) (r : commandResponse) : MW unit :=
  modify (fun w => match wResponses w !! request with
                   | None => w <| wResponses := <[request := r]> (wResponses w) |>
                   | Some _ => w
                   end).
(** What [executeCommand] does with the response. *)
Definition respond (command : mapCommand) (response : commandResponse) : MW unit :=
  let* _ := note (Responded command response) in
  let* _ := send_response (cmRequest command) response in
  match reErr response with
  | Some e => if IsTransportError e then throw e else ret tt
  | None => ret tt
  end.
Definition executeCommand (command : mapCommand) : MW unit :=
  let* ended := gets (fun w => bool_decide (cmRequest command ∈ wEnded w)) in
  if ended : bool then ret tt
  else
    let* response := command_response command in
    respond command response.

(** What [runConnected]'s select receives. *)
Inductive trigger := OnDone | OnEvent (e : Event) | OnWake | OnCommand (c : mapCommand) | OnPoll | OnKeepalive.
(** [None] goes on with the loop. *)
Definition on_trigger (t : trigger) : MW (option unit) :=
  match t with
  | OnDone => ret (Some tt)
  | OnEvent e => let* _ := processEvent e in ret None
  | OnWake =>
      let* _ := modify (fun w => w <| wWake := false |>) in
      let* _ := drainOutbound in ret None
  | OnCommand c => let* _ := executeCommand c in ret None
  | OnPoll =>
      let* r := attempt poll in
      match r with Error e => if IsTransportError e then throw e else ret None | Ok _ => ret None end
  | OnKeepalive => let* _ := on_session msKeepalive in ret None
  end.
Fixpoint connected_loop (triggers : list trigger) : MW unit :=
  match triggers with
  | [] => fun w => (w, Pending)
  | t :: triggers =>
      let* stop := on_trigger t in
      match stop with Some _ => ret tt | None => connected_loop triggers end
  end.
Definition runConnected (triggers : list trigger) : MW unit :=
  let* _ := drainOutbound in connected_loop triggers.

(** [mapLoop]: for each turn what [connect] gives and the triggers of the session. *)
Fixpoint mapLoop (turns : list (result S * list trigger)) (backoff : Z) : MW unit :=
  match turns with
  | [] => fun w => (w, Pending)
  | (r, triggers) :: turns =>
      let* cancelled := gets (fun w => match wCancelAt w with Some t => t <=? wClock w | None => false end) in
      if cancelled : bool then ret tt
      else
        match r with
        | Error _ => let* _ := sleepContext backoff in mapLoop turns (nextBackoff backoff)
        | Ok session =>
            let* _ := modify (fun w => w <| wSession := session |>) in
            let* _ := on_status (setMAP true) in
            let* registered := attempt (on_session (msRegisterNotifications true)) in
            match registered with
            | Error _ =>
                let* _ := on_status (setMAP false) in
                let* _ := attempt (on_session msClose) in
                let* _ := sleepContext backoff in
                mapLoop turns (nextBackoff backoff)
            | Ok _ =>
                let* _ := on_status (setNotifications true) in
                let* ready := attempt bootstrap in
                let* _ := (match ready with Ok _ => let* _ := attempt (runConnected triggers) in ret tt | Error _ => ret tt end) in
                let* _ := on_status (setMAP false) in
                let* _ := attempt (on_session msClose) in
                let* _ := sleepContext second in
                mapLoop turns (nextBackoff second)
            end
        end
  end.

(** *** The API's side *)

(** [AddOutbound]; the trace records an item that joins the queue. *)
Definition add_outbound (item : Outbound) : MW unit := fun w =>
  match on_store (fun f s dk => AddOutbound f s dk item) w with
  | (w', Returns (Ok u)) =>
      let joined := negb (existsb (fun existing => obID existing =s? obID item) (dsOutbound (stData (wStore w)))) in
      (if joined then w' <| wTrace := wTrace w' ++ [Queued item] |> else w', Returns (Ok u))
  | r => r
  end.
(** The item [enqueue] makes; [identifier] is what [rand.Read] gave. *)
Definition outbound_item (identifier : option bytes) (to text : bytes) (now : Z) : result Outbound :=
  let! to := NormalizeDestination to in
  if (TrimSpace text =s? []) || (Z.shiftl 16 10 <? len text) then fail! "outbound text length invalid"
  else
    match identifier with
    | None => fail! "create outbound identifier"
    | Some identifier => Ok (mkOutbound (hex_string identifier) to text now)
    end.
Definition signal : MW unit := modify (fun w => w <| wWake := true |>).
Definition enqueue (identifier : option bytes) (to text : bytes) : MW unit :=
  let* now := gets wClock in
  let* item := lift (outbound_item identifier to text now) in
  let* _ := add_outbound item in
  signal.

(** ** Facts: running the monad *)
Definition same_failure {X Y} (o : outcome X) (o' : outcome Y) : Prop :=
  match o, o' with
  | Returns (Error e), Returns (Error e') => e = e'
  | Panics, Panics | Pending, Pending => True
  | _, _ => False
  end.
Lemma bind_inv {X Y} (m : MW X) (k : X -> MW Y) w w' o :
  bind m k w = (w', o) ->
  (exists w1 a, m w = (w1, Returns (Ok a)) /\ k a w1 = (w', o)) \/ (exists o1, m w = (w', o1) /\ same_failure o1 o).
Proof.
  unfold bind. destruct (m w) as [w1 [[a|e]| |]]; intros E.
  - left. by exists w1, a.
  - right. injection E as <- <-. by exists (Returns (Error e)).
  - right. injection E as <- <-. by exists Panics.
  - right. injection E as <- <-. by exists Pending.
Qed.
Lemma gets_bind {X Y} (f : W -> X) (k : X -> MW Y) w : bind (gets f) k w = k (f w) w.
Proof. done. Qed.

(** Runs that stay within a preorder, however they end. *)
Definition respects (R : relation W) {X} (m : MW X) : Prop := forall w w' o, m w = (w', o) -> R w w'.
Section Respects.
Context (R : relation W) `{!PreOrder R}.
Lemma respects_ret {X} (x : X) : respects R (ret x).
Proof. by intros w w' o [= <- _]. Qed.
Lemma respects_throw {X} e : respects R (throw e : MW X).
Proof. by intros w w' o [= <- _]. Qed.
Lemma respects_pending {X} : respects R ((fun w => (w, Pending)) : MW X).
Proof. by intros w w' o [= <- _]. Qed.
Lemma respects_gets {X} (f : W -> X) : respects R (gets f).
Proof. by intros w w' o [= <- _]. Qed.
Lemma respects_modify (f : W -> W) : (forall w, R w (f w)) -> respects R (modify f).
Proof. by intros F w w' o [= <- _]. Qed.
Lemma respects_bind {X Y} (m : MW X) (k : X -> MW Y) : respects R m -> (forall a, respects R (k a)) -> respects R (bind m k).
Proof.
  intros Rm Rk w w' o E. apply bind_inv in E as [(w1 & a & E1 & E2) | (o1 & E1 & _)]; [|by eapply Rm].
  transitivity w1; [by eapply Rm|by eapply Rk].
Qed.
Lemma respects_attempt {X} (m : MW X) : respects R m -> respects R (attempt m).
Proof. intros Rm w w' o E. unfold attempt in E. destruct (m w) as [w1 [r| |]] eqn:Em; injection E as <- _; by eapply Rm. Qed.
Lemma respects_session {X} (m : M S X) : (forall w s, R w (w <| wSession := s |>)) -> respects R (on_session m).
Proof. intros F w w' o E. unfold on_session in E. destruct (m (wSession w)) as [s r]. injection E as <- _. apply F. Qed.
End Respects.

(** What the steps before a message is marked may change. *)
Record undecided (w w' : W) : Prop := {
  un_store : wStore w' = wStore w; un_disk : wDisk w' = wDisk w; un_faults : wFaults w' = wFaults w;
  un_status : wStatus w' = wStatus w
}.
#[local] Instance undecided_preorder : PreOrder undecided.
Proof. split; [done|]. intros a b c [? ? ? ?] [? ? ? ?]. split; congruence. Qed.
Definition is_fetch (e : effect) : Prop := match e with Fetched _ => True | _ => False end.
Definition silent (new : list effect) : Prop := Forall is_fetch new.
Lemma sleep_quiet delay w :
  exists b w', sleepContext delay w = (w', Returns (Ok b)) /\ undecided w w' /\ wTrace w' = wTrace w /\ wCancelAt w' = wCancelAt w /\
    (wSession w' = wSession w /\ wAmi w' = wAmi w /\ wMedia w' = wMedia w) /\ (b = false -> wCancelAt w <> None).
Proof. unfold sleepContext. destruct (wCancelAt w) as [t|] eqn:E; [destruct (t <=? _)|]; do 2 eexists; (split; [done|]); cbn; by rewrite ?E. Qed.

(** The session is asked for a message until it gives it or fails otherwise than by an error: how many times, and what it said last. *)
Inductive asked_for (folder handle : bytes) : S -> nat -> outcome bytes -> Prop :=
| asked_once s s' o : msGetMessage folder handle s = (s', o) -> asked_for folder handle s 1 o
| asked_again s s1 e n o :
    msGetMessage folder handle s = (s1, Returns (Error e)) -> asked_for folder handle s1 n o -> asked_for folder handle s (Datatypes.S n) o.
(** What a part of the handling leaves alone. *)
Record offline (w w' : W) : Prop := { of_undecided : undecided w w'; of_ami : wAmi w' = wAmi w }.
(** The message was asked for [n] times, which is all that was done before the last answer [o]. *)
Definition fetched_in (tries : nat) (folder handle : bytes) (w : W) (n : nat) (o : outcome bytes) (new : list effect) : Prop :=
  (n <= tries)%nat /\ new = replicate n (Fetched handle) /\ asked_for folder handle (wSession w) n o.
(** How the fetch loop ends. *)
Definition fetch_ends (tries : nat) (folder handle : bytes) (w : W) (o : outcome (result bytes)) (new : list effect) : Prop :=
  match o with
  | Returns (Error e) => e = Canceled /\ wCancelAt w <> None
  | Returns (Ok r) => exists n, fetched_in tries folder handle w n (Returns r) new /\ match r with Error _ => n = tries | Ok _ => True end
  | Panics => exists n, fetched_in tries folder handle w n Panics new
  | Pending => exists n, fetched_in tries folder handle w n Pending new
  end.
Lemma fetch_spec delays folder handle last w w' o :
  delays <> [] -> fetch delays folder handle last w = (w', o) ->
  exists new, offline w w' /\ wMedia w' = wMedia w /\ wTrace w' = wTrace w ++ new /\ silent new /\ fetch_ends (length delays) folder handle w o new.
Proof.
  revert last w. induction delays as [|delay delays IH]; intros last w N E; [done|]. cbn [fetch] in E.
  destruct (sleep_quiet delay w) as (b & w1 & Es & U1 & T1 & C1 & (S1 & A1 & M1) & B1). rewrite (bind_ok _ _ _ _ _ Es) in E.
  destruct b; cbn [negb] in E.
  2: { injection E as <- <-. exists []. rewrite app_nil_r. split_and!; [by split|done|done|constructor|split; [done|by apply B1]]. }
  set (w2 := w1 <| wTrace := wTrace w1 ++ [Fetched handle] |>). rewrite (bind_ok _ _ w1 w2 tt) in E by done.
  unfold bind, attempt, on_session in E. destruct (msGetMessage folder handle (wSession w2)) as [s o2] eqn:Eg. cbn in Eg. rewrite S1 in Eg.
  assert (offline w (w2 <| wSession := s |>)) as U2 by (split; [etrans; [exact U1|done]|done]).
  assert (wTrace (w2 <| wSession := s |>) = wTrace w ++ [Fetched handle]) as T2 by (cbn; by rewrite T1).
  assert (silent [Fetched handle]) as Si1 by by repeat constructor.
  assert (asked_for folder handle (wSession w) 1 o2) as A2 by (by eapply asked_once).
  assert (fetched_in (length (delay :: delays)) folder handle w 1 o2 [Fetched handle]) as F2 by (split_and!; [cbn; lia|done|done]).
  destruct o2 as [[raw|e]| |].
  1, 3, 4: injection E as <- <-; exists [Fetched handle]; split_and!; try done; by eexists.
  destruct delays as [|delay' delays].
  { injection E as <- <-. exists [Fetched handle]. split_and!; try done. by eexists. }
  apply IH in E as (new & [Un Am] & Me & T & Si & Fe); [|done]. exists (Fetched handle :: new). split_and!.
  - split; [etrans; [apply U2|exact Un]|by rewrite Am; apply U2].
  - by rewrite Me.
  - rewrite T, T2, <- app_assoc. done.
  - by constructor.
  - assert (forall n o', fetched_in (length (delay' :: delays)) folder handle (w2 <| wSession := s |>) n o' new ->
      fetched_in (length (delay :: delay' :: delays)) folder handle w (Datatypes.S n) o' (Fetched handle :: new)) as F3.
    { intros n o' (L & -> & As). split_and!; [cbn in *; lia|done|by eapply asked_again]. }
    destruct o as [[r|e']| |]; cbn [fetch_ends] in *.
    + destruct Fe as (n & Fe & Hr). exists (Datatypes.S n). split; [by apply F3|]. destruct r; [done|]. by rewrite Hr.
    + destruct Fe as [-> C]. split; [done|]. cbn in C. by rewrite C1 in C.
    + destruct Fe as (n & Fe). exists (Datatypes.S n). by apply F3.
    + destruct Fe as (n & Fe). exists (Datatypes.S n). by apply F3.
Qed.

(** The media service is given the attachments in turn, until it fails. *)
Inductive uploads : U -> list Attachment -> option (list Descriptor) -> Prop :=
| up_done u : uploads u [] (Some [])
| up_failed u u' a e rest : mediaUpload u a = (u', Error e) -> uploads u (a :: rest) None
| up_next u u1 a d rest r : mediaUpload u a = (u1, Ok d) -> uploads u1 rest r -> uploads u (a :: rest) (cons d <$> r).
Lemma upload_all_spec attachments w :
  exists r w', upload_all attachments w = (w', Returns (Ok r)) /\ offline w w' /\ wTrace w' = wTrace w /\ wClock w' = wClock w /\
    uploads (wMedia w) attachments r.
Proof.
  revert w. induction attachments as [|a attachments IH]; intros w; cbn [upload_all]; [exists (Some []), w; split_and!; by try constructor|].
  unfold bind at 1. destruct (mediaUpload (wMedia w) a) as [u [d|e]] eqn:Eu.
  - destruct (IH (w <| wMedia := u |>)) as (r & w' & E & [Un Am] & T & C & M). rewrite (bind_ok _ _ _ _ _ E).
    exists (cons d <$> r), w'. split_and!; [done|split; [by etrans; [|exact Un]|done]|done|done|by eapply up_next].
  - eexists None, _. split_and!; try done. by eapply up_failed.
Qed.

(** ** Forwarding *)

(** What is sent to one recipient when nothing fails. *)
Fixpoint forwards_of (handle recipient sender : bytes) (textIndex : Z) (ds : list sipDelivery) : list effect :=
  match ds with
  | [] => []
  | d :: ds =>
      Forwarded handle recipient sender (sdBody d) (sdContentType d)
        (if 0 <=? sdMediaIndex d then mediaDeliveryActionID handle recipient (sdMediaIndex d)
         else deliveryActionID handle recipient textIndex) ::
      forwards_of handle recipient sender (if 0 <=? sdMediaIndex d then textIndex else textIndex + 1) ds
  end.

(** The manager is given the messages of one recipient in turn, until it refuses one: which it was given, and whether it took them all. *)
Definition send (e : effect) (a : A) : A * result unit :=
  match e with Forwarded _ recipient sender body contentType id => amiSendMessage a recipient sender body contentType id | _ => (a, Ok tt) end.
Inductive sends : A -> list effect -> A -> list effect -> bool -> Prop :=
| sends_all a : sends a [] a [] true
| sends_refused a a' e err rest : send e a = (a', Error err) -> sends a (e :: rest) a' [e] false
| sends_next a a1 e rest a' done b : send e a = (a1, Ok tt) -> sends a1 rest a' done b -> sends a (e :: rest) a' (e :: done) b.
Lemma deliver_spec handle recipient sender textIndex ds w :
  exists b w' new, deliver handle recipient sender textIndex ds w = (w', Returns (Ok b)) /\ undecided w w' /\
    wTrace w' = wTrace w ++ new /\ sends (wAmi w) (forwards_of handle recipient sender textIndex ds) (wAmi w') new b.
Proof.
  revert textIndex w. induction ds as [|d ds IH]; intros textIndex w; cbn [deliver forwards_of].
  { exists true, w, []. rewrite app_nil_r. split_and!; by try constructor. }
  set (id := if 0 <=? sdMediaIndex d then _ else _). set (e := Forwarded _ _ _ _ _ _).
  set (w1 := w <| wTrace := wTrace w ++ [e] |>). rewrite (bind_ok _ _ w w1 tt) by done. unfold bind at 1.
  destruct (amiSendMessage (wAmi w1) recipient sender (sdBody d) (sdContentType d) id) as [a [[]|err]] eqn:Es.
  - destruct (IH (if 0 <=? sdMediaIndex d then textIndex else textIndex + 1) (w1 <| wAmi := a |>)) as (b & w' & new & E & Un & T & P).
    exists b, w', (e :: new). split_and!; [done|by transitivity (w1 <| wAmi := a |>)| |by eapply sends_next].
    rewrite T. cbn. by rewrite <- app_assoc.
  - exists false, (w1 <| wAmi := a |>), [e]. split_and!; [done|done|done|by eapply sends_refused].
Qed.

(** Every recipient in turn is sent its messages, whatever happened to the one before. *)
Inductive sent_to (handle sender : bytes) (ds : list sipDelivery) : A -> list bytes -> bool -> list effect -> Prop :=
| sent_nobody a : sent_to handle sender ds a [] true []
| sent_next a a1 r rest b b' piece sent :
    sends a (forwards_of handle r sender 0 ds) a1 piece b -> sent_to handle sender ds a1 rest b' sent ->
    sent_to handle sender ds a (r :: rest) (b && b') (piece ++ sent).
Lemma deliver_all_spec recipients handle sender ds b0 w :
  exists b w' new, deliver_all recipients handle sender ds b0 w = (w', Returns (Ok b)) /\ undecided w w' /\ wTrace w' = wTrace w ++ new /\
    exists b1, b = b0 && b1 /\ sent_to handle sender ds (wAmi w) recipients b1 new.
Proof.
  revert b0 w. induction recipients as [|r recipients IH]; intros b0 w; cbn [deliver_all].
  { exists b0, w, []. rewrite app_nil_r. split_and!; [done..|]. exists true. rewrite andb_true_r. split; [done|constructor]. }
  destruct (deliver_spec handle r sender 0 ds w) as (ok & w1 & n1 & E1 & U1 & T1 & P1). rewrite (bind_ok _ _ _ _ _ E1).
  destruct (IH (b0 && ok) w1) as (b & w' & n2 & E2 & U2 & T2 & b2 & -> & St).
  exists (b0 && ok && b2), w', (n1 ++ n2). split_and!; [done|by transitivity w1|by rewrite T2, T1, app_assoc|].
  exists (ok && b2). split; [by rewrite andb_assoc|by eapply sent_next].
Qed.
(** With no refusal everything is sent, to everybody. *)
Lemma sends_whole a es a' done b : sends a es a' done b -> b = true -> done = es.
Proof. induction 1 as [| |a a1 e rest a' done b _ _ IH]; intros Hb; [done|done|]. by rewrite IH. Qed.
Lemma sent_to_all handle sender ds a rs b sent :
  sent_to handle sender ds a rs b sent -> b = true -> sent = rs ≫= fun r => forwards_of handle r sender 0 ds.
Proof.
  induction 1 as [|a a1 r rest b b' piece sent Sp _ IH]; intros Hb; [done|]. apply andb_true_iff in Hb as [Hb Hb'].
  rewrite IH by done. apply sends_whole in Sp as ->; [|done]. done.
Qed.

(** Nothing else is sent. *)
Lemma sends_elem a es a' done b e : sends a es a' done b -> e ∈ done -> e ∈ es.
Proof.
  induction 1 as [|a a' x err rest _|a a1 x rest a' done b _ _ IH]; [done|by intros ->%list_elem_of_singleton; left|].
  intros [-> | He]%elem_of_cons; [by left|right; by apply IH].
Qed.
Lemma sent_to_elem handle sender ds a rs b sent e :
  sent_to handle sender ds a rs b sent -> e ∈ sent -> exists r, r ∈ rs /\ e ∈ forwards_of handle r sender 0 ds.
Proof.
  induction 1 as [|a a1 r rest b b' piece sent Sp _ IH]; [by intros ?%elem_of_nil|]. intros [He | He]%elem_of_app.
  - exists r. split; [by left|by eapply sends_elem].
  - destruct (IH He) as (r' & Hr & Hf). exists r'. split; [by right|done].
Qed.

(** ** What a message becomes *)

(** The message in what the phone sent. *)
Definition message_of (event : Event) (raw : bytes) : result Message :=
  if EqualFoldText (evMessageType event) (str "MMS") then ParseMMS (ParseBMessage raw) (cfMediaMaxBytes cfg) else Ok (ParseBMessage raw).
Definition text_of (event : Event) (m : Message) : bytes :=
  if EqualFoldText (evMessageType event) (str "MMS") then msBody m else StripMMSEnvelope (msBody m) (evMessageType event).
Definition parts_of (event : Event) (m : Message) : list bytes :=
  if text_of event m =s? [] then [] else VisibleParts (text_of event m) (evDateTime event).
(** The text goes with the first picture when the two fit into one message. *)
Definition captioned (text : bytes) (ds : list Descriptor) : bool :=
  match ds with d :: _ => negb (text =s? []) && (len (MarshalSignal text d) <=? MaxBodyBytes) | [] => false end.
(** One message for each picture, then the text in its parts unless it is the first picture's caption. *)
Definition deliveries_of (text : bytes) (parts : list bytes) (ds : list Descriptor) : list sipDelivery :=
  imap (fun i d => mkDelivery (MarshalSignal (if Nat.eqb i 0 && captioned text ds then text else []) d) SignalContentType (Z.of_nat i)) ds ++
  (if captioned text ds then [] else (fun part => mkDelivery part (str "text/plain") (-1)) <$> parts).

Lemma media_rest index clean ds :
  match media_deliveries (Datatypes.S index) clean ds with
  | Some (l, included) => included = false /\
      l = imap (fun i d => mkDelivery (MarshalSignal [] d) SignalContentType (Z.of_nat (Datatypes.S index + i))) ds
  | None => exists d, d ∈ ds /\ MaxBodyBytes < len (MarshalSignal [] d)
  end.
Proof.
  revert index. induction ds as [|d ds IH]; intros index; cbn [media_deliveries]; [done|]. cbn [Nat.eqb].
  destruct (Z.ltb_spec MaxBodyBytes (len (MarshalSignal [] d))) as [L|L].
  - rewrite (proj2 (Z.ltb_lt _ _) L). exists d. split; [by left|done].
  - rewrite (proj2 (Z.ltb_ge _ _) L). specialize (IH (Datatypes.S index)).
    destruct (media_deliveries (Datatypes.S (Datatypes.S index)) clean ds) as [[l included]|].
    + destruct IH as [-> ->]. cbn. split; [done|]. rewrite Nat.add_0_r. f_equal. apply imap_ext. intros i x _. cbn. by rewrite Nat.add_succ_r.
    + destruct IH as (d' & Hd & Ld). exists d'. split; [by right|done].
Qed.
Lemma build_deliveries_spec clean parts ds :
  match build_deliveries clean parts ds with
  | Some l => l = deliveries_of clean parts ds
  | None => exists d, d ∈ ds /\ MaxBodyBytes < len (MarshalSignal [] d)
  end.
Proof.
  unfold build_deliveries, deliveries_of. destruct ds as [|d ds]; [done|]. cbn [media_deliveries Nat.eqb captioned]. pose proof (media_rest 0 clean ds) as M.
  assert (MaxBodyBytes < len (MarshalSignal [] d) -> exists d', d' ∈ d :: ds /\ MaxBodyBytes < len (MarshalSignal [] d')) as Too by (intros L; exists d; split; [by left|done]).
  assert ((exists d', d' ∈ ds /\ MaxBodyBytes < len (MarshalSignal [] d')) -> exists d', d' ∈ d :: ds /\ MaxBodyBytes < len (MarshalSignal [] d')) as Rest
    by (intros (d' & Hd & L); exists d'; split; [by right|done]).
  rewrite Z.leb_antisym. destruct (MaxBodyBytes <? len (MarshalSignal clean d)) eqn:L; cbn [negb]; rewrite ?andb_false_r, ?andb_true_r.
  - destruct (Z.ltb_spec MaxBodyBytes (len (MarshalSignal [] d))) as [L'|L']; [by apply Too|].
    destruct (media_deliveries 1 clean ds) as [[l included]|]; [|by apply Rest]. destruct M as [-> ->]. done.
  - rewrite L. destruct (media_deliveries 1 clean ds) as [[l included]|]; [|by apply Rest]. destruct M as [-> ->]. cbn [mbind option_bind].
    rewrite orb_false_r. destruct (clean =s? []) eqn:Ec; [|done]. unfold str_eqb in Ec. apply bool_decide_eq_true in Ec as ->. done.
Qed.

(** Why a message cannot be handed on. *)
Inductive unfit (event : Event) (u : U) (m : Message) : Prop :=
| unfit_empty : msBody m = [] -> msAttachments m = [] -> unfit event u m
| unfit_long : MaxSIPParts < len (parts_of event m) -> unfit event u m
| unfit_signal ds d : uploads u (msAttachments m) (Some ds) -> d ∈ ds -> MaxBodyBytes < len (MarshalSignal [] d) -> unfit event u m
| unfit_nothing : parts_of event m = [] -> msAttachments m = [] -> unfit event u m.

(** ** One message *)
Definition mark_of (w : W) (handle : bytes) := MarkSeen (default None (head (wFaults w))) (wStore w) (wDisk w) handle.
Definition marked_as (handle : bytes) (delivered : bool) (w w' : W) : Prop :=
  mark_of w handle = (Some (wStore w'), wDisk w', Ok tt) /\ wStatus w' = inbound delivered (wStatus w).
(** The event asks for nothing now. *)
Definition not_due (event : Event) (w : W) : Prop :=
  evEventType event <> str "NewMessage" \/ evHandle event = [] \/ HasSeen (wStore w) (evHandle event) = true \/
  exists r, wRetries w !! evHandle event = Some r /\ wClock w < mrNext r.

(** The session was asked for the event's message [n] times, at most four, which is all that was done before its last answer [o]. *)
Definition fetches (event : Event) : W -> nat -> outcome bytes -> list effect -> Prop :=
  fetched_in (length fetchDelays) (folder_of event) (evHandle event).

(** What [processEvent] does: the world it leaves, its outcome, and what it did outside. *)
Inductive processed (event : Event) (w w' : W) (o : outcome unit) (new : list effect) : Prop :=
| pr_ignored : not_due event w -> w' = w -> o = Returns (Ok tt) -> new = [] -> processed event w w' o new
| pr_interrupted :
    undecided w w' -> silent new ->
    (o = Returns (Error Canceled) /\ wCancelAt w <> None \/ o = Panics /\ (exists n, fetches event w n Panics new) \/
     o = Pending /\ exists n, fetches event w n Pending new) -> processed event w w' o new
| pr_deferred n raw m r :
    fetches event w n (Returns (Ok raw)) new -> message_of event raw = Ok m -> uploads (wMedia w) (msAttachments m) None ->
    undecided w w' -> o = Returns (Ok tt) -> wRetries w' !! evHandle event = Some r -> wClock w' + 30 * second <= mrNext r ->
    processed event w w' o new
| pr_unsaved e :
    mark_of w (evHandle event) = (Some (wStore w'), wDisk w', Error e) -> o = Returns (Error e) -> wStatus w' = wStatus w -> silent new ->
    processed event w w' o new
| pr_killed r :
    mark_of w (evHandle event) = (None, wDisk w', r) -> wStore w' = wStore w -> o = Panics -> silent new -> processed event w w' o new
| pr_unfetched e :
    fetches event w (length fetchDelays) (Returns (Error e)) new ->
    marked_as (evHandle event) false w w' -> o = (if IsTransportError e then Returns (Error e) else Returns (Ok tt)) -> processed event w w' o new
| pr_refused n raw :
    fetches event w n (Returns (Ok raw)) new ->
    ((exists e, message_of event raw = Error e) \/ exists m, message_of event raw = Ok m /\ unfit event (wMedia w) m) ->
    marked_as (evHandle event) false w w' -> o = Returns (Ok tt) -> processed event w w' o new
| pr_forwarded n raw m ds delivered fetched sent :
    fetches event w n (Returns (Ok raw)) fetched -> message_of event raw = Ok m ->
    uploads (wMedia w) (msAttachments m) (Some ds) -> len (parts_of event m) <= MaxSIPParts ->
    marked_as (evHandle event) delivered w w' -> new = fetched ++ sent ->
    deliveries_of (text_of event m) (parts_of event m) ds <> [] ->
    sent_to (evHandle event) (NormalizeSender (msSenderNumber m)) (deliveries_of (text_of event m) (parts_of event m) ds) (wAmi w) (cfRecipients cfg) delivered sent ->
    (delivered = true -> sent = cfRecipients cfg ≫= fun r =>
      forwards_of (evHandle event) r (NormalizeSender (msSenderNumber m)) 0 (deliveries_of (text_of event m) (parts_of event m) ds)) ->
    o = Returns (Ok tt) -> processed event w w' o new.

(** Giving a message up: marked as failed, or the save failed or was the end. *)
Lemma consume_failed_spec event w0 w w' o (k : MW unit) new r0 :
  undecided w0 w -> wTrace w = wTrace w0 ++ new -> silent new -> (forall x, k x = (x, Returns r0)) ->
  (let* _ := consume_failed (evHandle event) in k) w = (w', o) ->
  (forall w1, marked_as (evHandle event) false w0 w1 -> processed event w0 w1 (Returns r0) new) ->
  wTrace w' = wTrace w0 ++ new /\ processed event w0 w' o new.
Proof.
  intros [U1 U2 U3 U4] T F K E P.
  assert (mark_of w (evHandle event) = mark_of w0 (evHandle event)) as M by (unfold mark_of; by rewrite U1, U2, U3).
  unfold bind, consume_failed, bind, markSeen, on_store in E. fold (mark_of w (evHandle event)) in E. rewrite M in E.
  destruct (mark_of w0 (evHandle event)) as [[[s|] dk] r] eqn:Em.
  - destruct r as [[]|e].
    + cbn in E. rewrite K in E. injection E as <- <-. split; [done|]. apply P. split; [done|]. cbn. by rewrite U4.
    + injection E as <- <-. split; [done|]. by apply (pr_unsaved _ _ _ _ _ e).
  - injection E as <- <-. split; [done|]. by apply (pr_killed _ _ _ _ _ r).
Qed.
Lemma consume_failed_last event w0 w w' o new :
  undecided w0 w -> wTrace w = wTrace w0 ++ new -> silent new -> consume_failed (evHandle event) w = (w', o) ->
  (forall w1, marked_as (evHandle event) false w0 w1 -> processed event w0 w1 (Returns (Ok tt)) new) ->
  wTrace w' = wTrace w0 ++ new /\ processed event w0 w' o new.
Proof.
  intros Un T F E P. apply (consume_failed_spec event w0 w w' o (ret tt) new (Ok tt)); try done.
  unfold bind. rewrite E. by destruct o as [[[]|]| |].
Qed.

Lemma defer_delay attempts :
  30 * second <= nth (Z.to_nat (if len retry_delays <=? attempts then len retry_delays - 1 else attempts)) retry_delays 0.
Proof.
  change (len retry_delays) with 5. assert (forall i, (i < 5)%nat -> 30 * second <= nth i retry_delays 0) as G.
  { intros i Hi. do 5 (destruct i as [|i]; [vm_compute; discriminate|]). lia. }
  apply G. destruct (Z.leb_spec 5 attempts); lia.
Qed.

Lemma defer_waits handle w :
  exists w' delay r, deferMedia handle w = (w', Returns (Ok delay)) /\ undecided w w' /\ wTrace w' = wTrace w /\
    wRetries w' !! handle = Some r /\ wClock w' + 30 * second <= mrNext r.
Proof.
  unfold deferMedia. do 3 eexists. split; [reflexivity|]. split_and!; [done|done|apply lookup_insert_eq|].
  match goal with |- context [nth (Z.to_nat (if _ <=? ?a then _ else _))] => pose proof (defer_delay a) as D end. revert D.
  generalize (nth (Z.to_nat (if len retry_delays <=? mrAttempts (default (mkRetry 0 0) (wRetries w !! handle)) + 1 - 1 then len retry_delays - 1 else mrAttempts (default (mkRetry 0 0) (wRetries w !! handle)) + 1 - 1)) retry_delays 0).
  intros d D. cbn. lia.
Qed.

Lemma forward_spec event n raw parsed w0 w w' o fetched :
  offline w0 w -> wMedia w = wMedia w0 -> wTrace w = wTrace w0 ++ fetched -> silent fetched ->
  fetches event w0 n (Returns (Ok raw)) fetched -> message_of event raw = Ok parsed ->
  forward event parsed w = (w', o) ->
  exists new, wTrace w' = wTrace w0 ++ new /\ processed event w0 w' o new.
Proof.
  intros [Un Am] Me T F An Mo E. unfold forward in E. fold (text_of event parsed) in E. cbv zeta in E. fold (parts_of event parsed) in E.
  assert (unfit event (wMedia w0) parsed -> forall w1, marked_as (evHandle event) false w0 w1 -> processed event w0 w1 (Returns (Ok tt)) fetched) as Unfit.
  { intros X w1 Mk. eapply pr_refused; try done. right. by exists parsed. }
  destruct ((msBody parsed =s? []) && (len (msAttachments parsed) =? 0)) eqn:Em.
  { unfold str_eqb in Em. bool_prop. exists fetched. eapply consume_failed_last; try done. apply Unfit, unfit_empty; [done|by apply len_0_nil]. }
  clear Em. destruct (Z.ltb_spec MaxSIPParts (len (parts_of event parsed))) as [L|L].
  { exists fetched. eapply consume_failed_last; try done. by apply Unfit, unfit_long. }
  destruct (upload_all_spec (msAttachments parsed) w) as (r & w1 & Eu & [U1 Am1] & T1 & C1 & M1). rewrite (bind_ok _ _ _ _ _ Eu) in E. rewrite Me in M1.
  destruct r as [ds|].
  2: { destruct (defer_waits (evHandle event) w1) as (w2 & delay & r & Ed & U2 & T2 & Rt & Nx).
       rewrite (bind_ok _ _ _ _ _ Ed) in E. injection E as <- <-. exists fetched. split; [by rewrite T2, T1|].
       eapply pr_deferred; try done. transitivity w1; [by transitivity w|done]. }
  set (w2 := w1 <| wRetries := delete (evHandle event) (wRetries w1) |>) in *. rewrite (bind_ok _ _ w1 w2 tt) in E by done.
  assert (undecided w0 w2) as U2 by (transitivity w1; [by transitivity w|done]). assert (wTrace w2 = wTrace w0 ++ fetched) as T2 by (cbn; by rewrite T1). assert (wAmi w2 = wAmi w0) as Am2 by (cbn; by rewrite Am1).
  clearbody w2. clear Un T U1 T1 C1 Eu. pose proof (build_deliveries_spec (text_of event parsed) (parts_of event parsed) ds) as Bd.
  destruct (build_deliveries _ _ ds) as [dl|].
  2: { destruct Bd as (d & Hd & Ld). exists fetched. eapply consume_failed_last; try done. by eapply Unfit, unfit_signal. }
  destruct (decide (dl = [])) as [->|Nd].
  { symmetry in Bd. apply app_eq_nil in Bd as [B1 B2]. assert (ds = []) as -> by (destruct ds; [done|discriminate B1]).
    assert (msAttachments parsed = []) by (inversion M1 as [| |? ? ? ? ? [] ? ? X]; by simplify_eq). cbn in B2. apply fmap_nil_inv in B2. exists fetched. eapply consume_failed_last; try done. by apply Unfit, unfit_nothing. }
  assert ((let* _ := markSeen (evHandle event) in
    let* delivered := deliver_all (cfRecipients cfg) (evHandle event) (NormalizeSender (msSenderNumber parsed)) dl true in on_status (inbound delivered)) w2 = (w', o)) as E2
    by (by destruct dl). clear E. rename E2 into E.
  destruct U2 as [U1 U2 U3 U4]. assert (mark_of w2 (evHandle event) = mark_of w0 (evHandle event)) as M by (unfold mark_of; by rewrite U1, U2, U3).
  unfold bind at 1, markSeen, on_store in E. fold (mark_of w2 (evHandle event)) in E. rewrite M in E.
  destruct (mark_of w0 (evHandle event)) as [[[s|] dk] [[]|e]] eqn:Emark.
  - match type of E with bind _ _ ?w3 = _ =>
      destruct (deliver_all_spec (cfRecipients cfg) (evHandle event) (NormalizeSender (msSenderNumber parsed)) dl true w3) as (b & w4 & sent & Ed & [V1 V2 V3 V4] & Td & b1 & Eb & St) end.
    cbn in Eb. subst b1. rewrite (bind_ok _ _ _ _ _ Ed) in E. injection E as <- <-. cbn in V1, V2, V4, Td.
    exists (fetched ++ sent). split; [cbn; by rewrite Td, T2, app_assoc|]. subst dl.
    cbn in St. eapply pr_forwarded; try done.
    + split; [rewrite Emark; cbn; by rewrite V1, V2|cbn; by rewrite V4, U4].
    + rewrite <- Am2. exact St.
    + by apply (sent_to_all _ _ _ _ _ _ _ St).
  - injection E as <- <-. exists fetched. split; [done|]. by apply (pr_unsaved _ _ _ _ _ e).
  - injection E as <- <-. exists fetched. split; [done|]. by apply (pr_killed _ _ _ _ _ (Ok tt)).
  - injection E as <- <-. exists fetched. split; [done|]. by apply (pr_killed _ _ _ _ _ (Error e)).
Qed.

Lemma processEvent_spec event w w' o :
  processEvent event w = (w', o) -> exists new, wTrace w' = wTrace w ++ new /\ processed event w w' o new.
Proof.
  intros E. unfold processEvent in E. rewrite gets_bind in E.
  assert (not_due event w -> (w, Returns (Ok tt)) = (w', o) -> exists new, wTrace w' = wTrace w ++ new /\ processed event w w' o new) as Skip.
  { intros N [= <- <-]. exists []. rewrite app_nil_r. split; [done|by apply pr_ignored]. }
  destruct (_ || HasSeen _ _) eqn:G.
  { apply Skip; [|done]. rewrite !orb_true_iff in G. unfold str_eqb in G. destruct G as [[G|G]|G]; [left|right; left|right; right; by left]; by bool_prop. }
  rewrite gets_bind in E. destruct (match wRetries w !! evHandle event with Some r => wClock w <? mrNext r | None => false end) eqn:Wt.
  { apply Skip; [|done]. right. right. right. destruct (wRetries w !! evHandle event) as [r|]; [|done]. bool_prop. by exists r. }
  apply bind_inv in E as [(w1 & got & Ef & E) | (o1 & Ef & Fo)]; apply fetch_spec in Ef as (new & Un & Me & T & Si & Fe); try done; cbn [fetch_ends] in Fe.
  - destruct Fe as (n & Ft & Fe). fold (fetches event) in Ft. destruct got as [raw|lastErr].
    + unfold message_of in *. destruct (EqualFoldText _ _) eqn:Mm.
      * destruct (ParseMMS _ _) as [parsed|e] eqn:Ep; [eapply forward_spec; try done; unfold message_of; by rewrite Mm|].
        exists new. eapply (consume_failed_last _ _ w1); [apply Un|done..|]. intros w2 Mk. eapply pr_refused; try done. left. exists e. unfold message_of. by rewrite Mm.
      * eapply forward_spec; try done. unfold message_of. by rewrite Mm.
    + subst n. exists new.
      eapply (consume_failed_spec _ _ _ _ _ _ _ (if IsTransportError lastErr then Error lastErr else Ok tt)); [apply Un|done|done| |exact E|].
      * intros x. by destruct (IsTransportError lastErr).
      * intros w2 Mk. eapply pr_unfetched; try done. by destruct (IsTransportError lastErr).
  - exists new. split; [done|]. apply pr_interrupted; [apply Un|done|].
    destruct o1 as [[|e]| |], o as [[|e']| |]; try done; cbn in Fo, Fe; [destruct Fe as [-> C]; subst e'; by left|..];
      right; [left|right]; by split.
Qed.


(** ** At most one delivery *)
#[local] Abbreviation seen w := (dsSeenHandles (stData (wStore w))).

(** While nothing has been evicted, the handles seen only grow. *)
Definition grows (s s' : Store) : Prop :=
  store_ok s' /\ len (dsSeenHandles (stData s)) <= len (dsSeenHandles (stData s')) /\
  (len (dsSeenHandles (stData s')) < maximumSeenHandles -> stSeen s ⊆ stSeen s').

Lemma marked_grows s hs :
  store_ok s -> forallb validHandle hs = true ->
  grows s (marked s hs) /\
  (len (dsSeenHandles (stData (marked s hs))) < maximumSeenHandles -> forall h, h ∈ hs -> h ∈ stSeen (marked s hs)).
Proof.
  intros K V. set (order := dsSeenHandles (stData s)). set (l := order ++ fresh hs order).
  assert (dsSeenHandles (stData (marked s hs)) = newest maximumSeenHandles l) as E by done.
  assert (len (newest maximumSeenHandles l) = Z.min (len l) maximumSeenHandles) as L.
  { unfold newest, len. rewrite length_drop. unfold maximumSeenHandles. lia. }
  pose proof (ok_seen_bound _ K) as B. fold order in B.
  assert (len l = len order + len (fresh hs order)) as Ll by (unfold l; by rewrite len_app). pose proof (len_nonneg (fresh hs order)).
  assert (len (newest maximumSeenHandles l) < maximumSeenHandles -> stSeen (marked s hs) = list_to_set l) as Full.
  { intros Lt. cbn. fold order. fold l. rewrite newest_all by lia. done. }
  split; [split; [by apply marked_ok|split]|].
  - rewrite E. fold order. lia.
  - rewrite E. intros Lt. rewrite (Full Lt), (ok_index _ K). fold order. unfold l. set_solver.
  - rewrite E. intros Lt h Hh. rewrite (Full Lt). apply elem_of_list_to_set. unfold l. apply elem_of_app.
    destruct (decide (h ∈ order)); [by left|right]. by apply fresh_spec.
Qed.
Lemma grows_refl s : store_ok s -> grows s s.
Proof. intros K. by split_and!. Qed.

Lemma MarkSeenMany_grows f (s : Store) (dk : disk File) hs s' dk' r :
  store_ok s -> MarkSeenMany f s dk hs = (Some s', dk', r) ->
  grows s s' /\ (r = Ok tt -> len (dsSeenHandles (stData s')) < maximumSeenHandles -> forall h, h ∈ hs -> h ∈ stSeen s').
Proof.
  intros K E. rewrite MarkSeenMany_unfold in E by done. destruct hs as [|h0 hs].
  { injection E as <- <- <-. split; [by apply grows_refl|set_solver]. }
  destruct (forallb validHandle (h0 :: hs)) eqn:V; cbn [negb] in E; [|injection E as <- <- <-; split; [by apply grows_refl|done]].
  case_bool_decide as F.
  - injection E as <- <- <-. split; [by apply grows_refl|]. intros _ _ h Hh. rewrite (ok_index _ K). apply elem_of_list_to_set.
    destruct (decide (h ∈ dsSeenHandles (stData s))) as [|N]; [done|]. assert (h ∈ fresh (h0 :: hs) (dsSeenHandles (stData s))) as C by (by apply fresh_spec).
    rewrite F in C. by apply elem_of_nil in C.
  - destruct (saveLocked f dk _) as [dk1 []]; try discriminate E; injection E as <- <- <-; [|split; [by apply grows_refl|done]].
    destruct (marked_grows s (h0 :: hs) K V) as [G I]. split; [done|]. by intros _.
Qed.
Lemma TakeOutbound_grows f (s : Store) (dk : disk File) s' dk' r :
  store_ok s -> TakeOutbound f s dk = (Some s', dk', r) -> grows s s'.
Proof.
  intros K E. unfold TakeOutbound in E. destruct (dsOutbound (stData s)) as [|item rest] eqn:Q; [injection E as <- <- <-; by apply grows_refl|].
  destruct (saveLocked f dk _) as [dk1 []]; try discriminate E; injection E as <- <- <-; [|by apply grows_refl].
  split; [|done]. pose proof (ok_queue_bound _ K) as B. pose proof (ok_items _ K) as F. rewrite Q in B, F. apply Forall_cons in F as [_ F].
  apply with_outbound_ok; [done| |done]. unfold len in *. cbn [length] in B. lia.
Qed.
Lemma SetInitialized_grows f (s : Store) (dk : disk File) s' dk' r :
  store_ok s -> SetInitialized f s dk = (Some s', dk', r) -> grows s s'.
Proof.
  intros K E. unfold SetInitialized in E. case_match; [injection E as <- <- <-; by apply grows_refl|]. cbv zeta in E.
  assert (store_ok (mkStore ((stData s) <| dsInitialized := true |>) (stSeen s))) as K' by (constructor; cbn; apply K).
  destruct (saveLocked f dk _) as [dk1 []]; try discriminate E; injection E as <- <- <-; by split.
Qed.

(** The handles forwarded by a list of effects. *)
Definition forwarded (new : list effect) : list bytes :=
  new ≫= fun e => match e with Forwarded h _ _ _ _ _ => [h] | _ => [] end.
Lemma forwarded_app a b : forwarded (a ++ b) = forwarded a ++ forwarded b.
Proof. apply bind_app. Qed.

(** A run forwards only handles that were not seen before it and are seen after it. *)
Definition advances (w w' : W) : Prop :=
  store_ok (wStore w) ->
  grows (wStore w) (wStore w') /\
  (exists new, wTrace w' = wTrace w ++ new /\
    (len (seen w') < maximumSeenHandles -> forall h, h ∈ forwarded new -> (h ∉ stSeen (wStore w)) /\ (h ∈ stSeen (wStore w')))).
#[local] Instance advances_preorder : PreOrder advances.
Proof.
  split.
  - intros w K. split; [by apply grows_refl|]. exists []. rewrite app_nil_r. split; [done|]. intros _ h Hh. by apply elem_of_nil in Hh.
  - intros a b c R1 R2 K. destruct (R1 K) as ((K1 & L1 & G1) & n1 & T1 & F1). destruct (R2 K1) as ((K2 & L2 & G2) & n2 & T2 & F2).
    assert (len (seen c) < maximumSeenHandles -> len (seen b) < maximumSeenHandles) as Lb by lia. split.
    + split; [done|]. split; [lia|]. intros Lt. etrans; [apply G1; auto|by apply G2].
    + exists (n1 ++ n2). split; [by rewrite T2, T1, app_assoc|]. intros Lt h. rewrite forwarded_app, elem_of_app.
      intros [Hh | Hh].
      * destruct (F1 (Lb Lt) h Hh) as [A1 B1]. split; [done|]. by apply (G2 Lt).
      * destruct (F2 Lt h Hh) as [A2 B2]. split; [|done]. intros A1. by apply A2, (G1 (Lb Lt)).
Qed.
#[local] Abbreviation runs := (respects advances).

Lemma advances_silent (w w' : W) new :
  wStore w' = wStore w -> wTrace w' = wTrace w ++ new -> forwarded new = [] -> advances w w'.
Proof.
  intros E T F K. rewrite E. split; [by apply grows_refl|]. exists new. split; [done|]. rewrite F. intros _ h Hh. by apply elem_of_nil in Hh.
Qed.
Lemma advances_plain (w w' : W) : wStore w' = wStore w -> wTrace w' = wTrace w -> advances w w'.
Proof. intros E T. apply (advances_silent w w' []); [done|by rewrite app_nil_r|done]. Qed.
Lemma runs_modify (f : W -> W) : (forall w, wStore (f w) = wStore w /\ wTrace (f w) = wTrace w) -> runs (modify f).
Proof. intros F. apply respects_modify. intros w. apply advances_plain; apply F. Qed.
Lemma runs_session {X} (m : M S X) : runs (on_session m).
Proof. apply respects_session. intros w s'. by apply advances_plain. Qed.
Lemma runs_status f : runs (on_status f).
Proof. by apply runs_modify. Qed.
Lemma runs_sleep delay : runs (sleepContext delay).
Proof.
  intros w w' o E. destruct (sleep_quiet delay w) as (b & w1 & E1 & [U1 _ _ _] & T & _). rewrite E in E1. injection E1 as -> _.
  by apply advances_plain.
Qed.
Lemma runs_note e : forwarded [e] = [] -> runs (note e).
Proof. intros F w w' o [= <- _]. by apply (advances_silent _ _ [e]). Qed.
Lemma runs_store {X} (op : option fault -> Store -> disk File -> option Store * disk File * result X) :
  (forall f s dk s' dk' r, store_ok s -> op f s dk = (Some s', dk', r) -> grows s s') -> runs (on_store op).
Proof.
  intros G w w' o E. unfold on_store in E. destruct (op _ (wStore w) (wDisk w)) as [[[s|] dk] r] eqn:Eo; injection E as <- _.
  - intros K. split; [by eapply G|]. exists []. cbn. rewrite app_nil_r. split; [done|]. intros _ h Hh. by apply elem_of_nil in Hh.
  - by apply advances_plain.
Qed.

Lemma forwarded_silent new : silent new -> forwarded new = [].
Proof. induction 1 as [|e new He F IH]; [done|]. by destruct e. Qed.
Lemma forwards_of_handle handle recipient sender ti ds e : e ∈ forwards_of handle recipient sender ti ds -> forwarded [e] = [handle].
Proof.
  revert ti. induction ds as [|d ds IH]; intros ti He; cbn in He; [by apply elem_of_nil in He|].
  apply elem_of_cons in He as [-> | He]; [done|by eapply IH].
Qed.

Lemma sent_to_handle handle sender ds a recipients b sent h : sent_to handle sender ds a recipients b sent -> h ∈ forwarded sent -> h = handle.
Proof.
  intros St (e & Hh & He)%list_elem_of_bind. destruct (sent_to_elem _ _ _ _ _ _ _ _ St He) as (r & _ & Hf).
  apply forwards_of_handle in Hf. unfold forwarded in Hf. cbn in Hf. rewrite app_nil_r in Hf. rewrite Hf in Hh. by apply list_elem_of_singleton in Hh.
Qed.
Lemma runs_processEvent event : runs (processEvent event).
Proof.
  intros w w' o E. destruct (HasSeen (wStore w) (evHandle event)) eqn:Sn.
  { unfold processEvent in E. rewrite gets_bind, Sn, orb_true_r in E. injection E as <- _. done. }
  apply processEvent_spec in E as (new & T & P).
  assert (forall r, mark_of w (evHandle event) = (Some (wStore w'), wDisk w', r) -> silent new -> advances w w') as Marked.
  { intros r M Si K. unfold mark_of, MarkSeen in M. apply MarkSeenMany_grows in M as [G _]; [|done]. split; [done|]. exists new. split; [done|].
    rewrite forwarded_silent by done. intros _ h Hh. by apply elem_of_nil in Hh. }
  assert (forall n o' l, fetches event w n o' l -> silent l) as Quiet by (intros n o' l (_ & -> & _); by apply Forall_replicate).
  destruct P as [_ -> _ -> | [U1 _ _ _] Si _ | n raw m r Si%Quiet _ _ [U1 _ _ _] _ _ _ | e M _ _ Si | r M E _ Si | e Si%Quiet [M _] _ | n raw Si%Quiet _ [M _] _
    | n raw m ds delivered fetched sent Si%Quiet _ _ _ [M _] -> _ St _ _].
  - done.
  - eapply advances_silent; [done|exact T|by apply forwarded_silent].
  - eapply advances_silent; [done|exact T|by apply forwarded_silent].
  - by eapply Marked.
  - eapply advances_silent; [done|exact T|by apply forwarded_silent].
  - by eapply Marked.
  - by eapply Marked.
  - intros K. unfold mark_of, MarkSeen in M. apply MarkSeenMany_grows in M as [G I]; [|done]. split; [done|]. exists (fetched ++ sent). split; [done|].
    intros Lt h. rewrite forwarded_app, forwarded_silent by done. cbn [app]. intros Hh. apply (sent_to_handle _ _ _ _ _ _ _ _ St) in Hh as ->.
    split; [|apply I; [done|done|by left]]. unfold HasSeen in Sn. by apply bool_decide_eq_false in Sn.
Qed.

Ltac run :=
  repeat first
    [ match goal with |- runs (bind _ _) => apply (respects_bind advances); [|intros] end
    | apply (respects_ret advances) | apply (respects_throw advances) | apply (respects_pending advances)
    | apply (respects_gets advances) | apply (respects_attempt advances)
    | apply runs_session | apply runs_status | apply runs_sleep | match goal with |- runs (processEvent _) => apply runs_processEvent end
    | apply runs_note; reflexivity | apply runs_modify; intros; split; reflexivity
    | apply runs_store; intros; first [by eapply TakeOutbound_grows | by eapply SetInitialized_grows | by eapply MarkSeenMany_grows]
    | case_match ].

Lemma runs_poll_items items : runs (poll_items items).
Proof. induction items as [|item items IH]; cbn [poll_items]; run; apply IH. Qed.
Lemma runs_drain fuel : runs (drain fuel).
Proof. induction fuel as [|fuel IH]; cbn [drain]; unfold send_item; run; apply IH. Qed.
Lemma runs_drainOutbound : runs drainOutbound.
Proof. intros w w' o E. by eapply runs_drain. Qed.
Lemma runs_executeCommand c : runs (executeCommand c).
Proof. unfold executeCommand, command_response, respond. run. all: apply runs_modify; intros w; by destruct (wResponses w !! cmRequest c). Qed.
Lemma runs_bootstrap : runs bootstrap.
Proof. unfold bootstrap. run. Qed.
Lemma runs_trigger t : runs (on_trigger t).
Proof.
  destruct t; cbn [on_trigger]; run.
  - apply runs_drainOutbound.
  - apply runs_executeCommand.
  - unfold poll. run. apply runs_poll_items.
Qed.
Lemma runs_connected triggers : runs (connected_loop triggers).
Proof. induction triggers as [|t triggers IH]; cbn [connected_loop]; run; [apply runs_trigger|apply IH]. Qed.
Lemma runs_mapLoop turns backoff : runs (mapLoop turns backoff).
Proof.
  revert backoff. induction turns as [|[r triggers] turns IH]; intros backoff; cbn [mapLoop]; run; try apply IH; try apply runs_bootstrap.
  unfold runConnected. run; [apply runs_drainOutbound|apply runs_connected].
Qed.

(** What the service may be doing: one turn of a session, or whole sessions. *)
Inductive activity := Turn (t : trigger) | Sessions (turns : list (result S * list trigger)) (backoff : Z).
Definition act (a : activity) : MW unit :=
  match a with
  | Turn t => let* _ := on_trigger t in ret tt
  | Sessions turns backoff => mapLoop turns backoff
  end.
(** Activities one after the other, whatever each ended with. *)
Fixpoint acts (l : list activity) (w : W) : W :=
  match l with [] => w | a :: l => acts l (act a w).1 end.

Lemma acts_advance l w : advances w (acts l w).
Proof.
  revert w. induction l as [|a l IH]; intros w; [done|]. cbn [acts]. transitivity (act a w).1; [|apply IH].
  assert (runs (act a)) as R by (destruct a; [cbn [act]; run; apply runs_trigger|apply runs_mapLoop]).
  destruct (act a w) as [w' o] eqn:E. by eapply R.
Qed.

(** A message is forwarded at most once: over any history of sessions, events,
    polls, commands and failing saves, a message forwarded in one part of the history is not
    forwarded again in a later part, as long as fewer than 4096 handles are remembered at
    the end (so that none was evicted); and it was not known before. *)
Theorem forwarded_at_most_once before after w new1 new2 h :
  store_ok (wStore w) ->
  wTrace (acts before w) = wTrace w ++ new1 ->
  wTrace (acts after (acts before w)) = wTrace (acts before w) ++ new2 ->
  len (seen (acts after (acts before w))) < maximumSeenHandles ->
  h ∈ forwarded new1 -> HasSeen (wStore w) h = false /\ h ∉ forwarded new2.
Proof.
  intros K T1 T2 L Hh. destruct (acts_advance before w K) as ((K1 & L1 & G1) & n1 & E1 & F1).
  destruct (acts_advance after _ K1) as ((K2 & L2 & G2) & n2 & E2 & F2).
  rewrite E1 in T1. apply app_inv_head in T1 as <-. rewrite E2 in T2. apply app_inv_head in T2 as <-.
  destruct (F1 ltac:(lia) h Hh) as [N S1]. split; [by apply bool_decide_eq_false_2|].
  intros Hn. by destruct (F2 L h Hn) as [N2 _].
Qed.

(** ** The outbound queue *)
#[local] Abbreviation queue w := (dsOutbound (stData (wStore w))).

Lemma take_queue f s (dk : disk File) s' dk' r :
  TakeOutbound f s dk = (Some s', dk', r) ->
  match r with
  | Ok None => dsOutbound (stData s) = [] /\ s' = s
  | Ok (Some item) => dsOutbound (stData s) = item :: dsOutbound (stData s')
  | Error _ => s' = s
  end.
Proof.
  unfold TakeOutbound. destruct (dsOutbound (stData s)) as [|item rest] eqn:Q; [by intros [= <- <- <-]|].
  destruct (saveLocked f dk _) as [dk1 []]; intros E; try discriminate E; by injection E as <- <- <-.
Qed.

(** The items handed to [SendSMS], and what it returned for them. *)
Definition attempted (tr : list effect) : list Outbound := tr ≫= fun e => match e with Attempted i => [i] | _ => [] end.
Definition results (tr : list effect) : list (Outbound * result unit) := tr ≫= fun e => match e with Confirmed i r => [(i, r)] | _ => [] end.
Lemma attempted_app a b : attempted (a ++ b) = attempted a ++ attempted b.
Proof. apply bind_app. Qed.
Lemma results_app a b : results (a ++ b) = results a ++ results b.
Proof. apply bind_app. Qed.
Lemma send_item_spec item w w' o :
  send_item item w = (w', o) ->
  exists notes, wTrace w' = wTrace w ++ Attempted item :: notes /\
    wStore w' = wStore w /\ wWake w' = wWake w /\ wEnded w' = wEnded w /\ wResponses w' = wResponses w /\
    (exists s, (msSendSMS (obTo item) (obText item) s).2 = o) /\ match o with Returns r => notes = [Confirmed item r] | _ => notes = [] end.
Proof.
  unfold send_item, bind, note, modify, attempt, on_session. cbn. destruct (msSendSMS _ _ (wSession w)) as [s [[u|e]| |]] eqn:Es; intros [= <- <-]; cbn.
  - exists [Confirmed item (Ok u)]. rewrite <- app_assoc. destruct u. split_and!; try done. exists (wSession w). by rewrite Es.
  - exists [Confirmed item (Error e)]. rewrite <- app_assoc. split_and!; try done. exists (wSession w). by rewrite Es.
  - exists []. split_and!; try done. exists (wSession w). by rewrite Es.
  - exists []. split_and!; try done. exists (wSession w). by rewrite Es.
Qed.

Definition drained (w w' : W) (o : outcome unit) : Prop :=
  exists n new, (n <= length (queue w))%nat /\ wTrace w' = wTrace w ++ new /\ attempted new = take n (queue w) /\
    (forall r, o = Returns r -> (results new).*1 = take n (queue w) /\ queue w' = drop n (queue w)) /\
    (o = Returns (Ok tt) -> n = length (queue w)) /\
    (o = Pending -> exists to text s, (msSendSMS to text s).2 = Pending).
Lemma drain_spec fuel w w' o : (length (queue w) < fuel)%nat -> drain fuel w = (w', o) -> drained w w' o.
Proof.
  revert w. induction fuel as [|fuel IH]; intros w L E; [lia|]. cbn [drain] in E. unfold bind at 1, on_store in E.
  assert (forall w1, queue w1 = queue w -> wTrace w1 = wTrace w -> o <> Returns (Ok tt) \/ queue w = [] -> o <> Pending -> drained w w1 o) as Nothing.
  { intros w1 Q T N P. exists 0%nat, []. rewrite app_nil_r. split_and!; [lia|done|done|by rewrite Q| |done]. intros ->. destruct N as [? | ->]; done. }
  destruct (TakeOutbound _ (wStore w) (wDisk w)) as [[[s|] dk] r] eqn:Et; [|injection E as <- <-; apply Nothing; try done; by left].
  apply take_queue in Et. destruct r as [[item|]|e].
  2: { destruct Et as [Q ->]. injection E as <- <-. apply Nothing; try done. by right. }
  2: { injection E as <- <-. apply Nothing; cbn; [by rewrite Et|done|by left|done]. }
  apply bind_inv in E as [(w2 & [] & Es & E) | (o1 & Es & Fo)]; apply send_item_spec in Es as (notes & T & St & _ & _ & _ & (s1 & X) & No).
  - apply IH in E as (n & new & Ln & T2 & At & Rs & Al & Pe); rewrite St in *; cbn in *; [|rewrite Et in L; cbn in L; lia].
    exists (Datatypes.S n), (Attempted item :: notes ++ new). rewrite Et. cbn [length take drop]. subst notes. split_and!; [lia|by rewrite T2, T, <- app_assoc| |..|done].
    + cbn. by rewrite <- At.
    + intros r Hr. destruct (Rs r Hr) as [R1 R2]. split; [|done]. cbn. by rewrite <- R1.
    + intros Ho. by rewrite (Al Ho).
  - exists 1%nat, (Attempted item :: notes). rewrite Et. cbn [length take drop]. split_and!; [lia|done| |..].
    + destruct o1; by subst notes.
    + intros r ->. destruct o1 as [[|e]| |]; try done. subst notes. split; [done|]. rewrite St. done.
    + intros ->. by destruct o1 as [[|e]| |].
    + intros ->. destruct o1 as [[|e]| |]; try done. by exists (obTo item), (obText item), s1.
Qed.

(** The queue is sent first in, first out and the loop ends: [drainOutbound] hands
    the MAP session a first part of the queue, in order and each item once, whatever the session returns; it returns success
    exactly with the queue empty, and after an error the items not yet handed out are
    still queued.  It is unfinished only when a send is. *)
Theorem drainOutbound_spec w w' o : drainOutbound w = (w', o) -> drained w w' o.
Proof. intros E. apply (drain_spec _ _ _ _ (Nat.lt_succ_diag_r _) E). Qed.

Lemma outbound_item_ok identifier to text now item :
  outbound_item identifier to text now = Ok item ->
  exists n id, NormalizeDestination to = Ok n /\ identifier = Some id /\ TrimSpace text <> [] /\ len text <= 16384 /\
    item = mkOutbound (hex_string id) n text now.
Proof.
  unfold outbound_item. intros (n & En & E)%result_bind_ok. destruct (_ || _) eqn:G; [done|]. destruct identifier as [id|]; [|done].
  apply Ok_inj in E as <-. unfold str_eqb in G. change (Z.shiftl 16 10) with 16384 in G. bool_prop. by exists n, id.
Qed.
(** What [add_outbound] leaves: the item at the end of the queue and on disk, or an item with
    its identifier already there, or an error and nothing changed, or a dead process. *)
Inductive adding (item : Outbound) (w w' : W) : outcome unit -> Prop :=
| adding_new :
    validOutbound item = true -> len (queue w) < maximumOutbound ->
    stData (wStore w') = (stData (wStore w)) <| dsOutbound := queue w ++ [item] |> -> stSeen (wStore w') = stSeen (wStore w) ->
    dkState (wDisk w') = Some (encode (stData (wStore w'))) -> wTrace w' = wTrace w ++ [Queued item] ->
    adding item w w' (Returns (Ok tt))
| adding_known old :
    validOutbound item = true -> old ∈ queue w -> obID old = obID item -> wStore w' = wStore w -> wTrace w' = wTrace w ->
    adding item w w' (Returns (Ok tt))
| adding_failed e : wStore w' = wStore w -> wTrace w' = wTrace w -> adding item w w' (Returns (Error e))
| adding_killed : wStore w' = wStore w -> wTrace w' = wTrace w -> adding item w w' Panics.

Lemma add_outbound_frame item w w' o :
  add_outbound item w = (w', o) ->
  w' = w <| wStore := wStore w' |> <| wDisk := wDisk w' |> <| wFaults := wFaults w' |> <| wTrace := wTrace w' |>.
Proof.
  unfold add_outbound, on_store. destruct (AddOutbound _ _ _ _) as [[[s|] dk] [[]|e]]; [destruct (negb _)|..]; by intros [= <- <-].
Qed.
Lemma add_outbound_spec item w w' o : add_outbound item w = (w', o) -> adding item w w' o.
Proof.
  unfold add_outbound, on_store, AddOutbound. destruct (validOutbound item) eqn:V; cbn [negb]; [|intros [= <- <-]; by apply adding_failed].
  destruct (Z.leb_spec maximumOutbound (len (queue w))); [intros [= <- <-]; by apply adding_failed|].
  destruct (existsb _ (queue w)) eqn:X; cbn [negb].
  - intros [= <- <-]. apply existsb_exists in X as (old & Ho & X). apply list_elem_of_In in Ho. unfold str_eqb in X. bool_prop.
    by apply (adding_known _ _ _ old).
  - cbv zeta. pose proof saveLocked_cases as C.
    match goal with |- context [saveLocked ?f ?dk ?d] => specialize (C f dk d); destruct (saveLocked f dk d) as [dk1 []] end;
      intros [= <- <-]; [|by apply adding_failed|by apply adding_killed].
    apply adding_new; cbn; try done. apply C.
Qed.

(** ** The baseline *)
Lemma poll_items_seen items w :
  Forall (fun item => HasSeen (wStore w) (lmHandle item) = true) items -> poll_items items w = (w, Returns (Ok tt)).
Proof. induction 1 as [|item items Hs F IH]; [done|]. cbn [poll_items]. rewrite gets_bind, Hs. done. Qed.

(** What is in the inbox at the first connection is not forwarded: when [bootstrap]
    succeeds on a store that was not initialised, the store is, and every message the phone
    listed counts as seen, so a poll that lists only those touches neither the phone's
    messages nor the recipients. *)
Theorem bootstrap_baseline w w' :
  store_ok (wStore w) -> IsInitialized (wStore w) = false -> bootstrap w = (w', Returns (Ok tt)) ->
  len (seen w') < maximumSeenHandles ->
  IsInitialized (wStore w') = true /\
  exists s messages, msListMessages inbox (cfPollMaxCount cfg) 0 (wSession w) = (s, Returns (Ok messages)) /\
    forall items, incl items messages -> poll_items items w' = (w', Returns (Ok tt)).
Proof.
  intros K I E L. unfold bootstrap in E. rewrite gets_bind, I in E.
  apply bind_inv in E as [(w1 & messages & E1 & E) | (o1 & E1 & Fo)]; [|destruct o1 as [[|]| |]; done].
  unfold on_session in E1. destruct (msListMessages _ _ _ (wSession w)) as [s r] eqn:El. injection E1 as <- ->.
  apply bind_inv in E as [(w2 & [] & E2 & E) | (o1 & E2 & Fo)]; [|destruct o1 as [[|]| |]; done].
  unfold on_store in E2. cbn [wStore wDisk wFaults] in E2.
  destruct (MarkSeenMany _ _ _ _) as [[[s2|] dk2] r2] eqn:Em in E2; [|done]. injection E2 as <- ->.
  apply MarkSeenMany_grows in Em as [(K2 & _ & G2) M2]; [|done]. specialize (M2 eq_refl).
  unfold on_store in E. destruct (SetInitialized _ _ _) as [[[s3|] dk3] r3] eqn:Ei in E; [|done]. injection E as <- ->.
  assert (IsInitialized s3 = true) as I3.
  { unfold SetInitialized in Ei. cbn in Ei. destruct (dsInitialized (stData s2)) eqn:D; [by injection Ei as <- _|].
    destruct (saveLocked _ _ _) as [? []]; try discriminate Ei. by injection Ei as <- _. }
  apply SetInitialized_grows in Ei as (K3 & L3 & G3); [|done]. cbn in L, G3, L3. split; [done|]. exists s, messages. split; [done|].
  intros items Hi. apply poll_items_seen. apply Forall_forall. intros item Hit. apply bool_decide_eq_true_2. cbn. apply (G3 L). cbn.
  apply M2; [lia|]. apply list_elem_of_fmap_2. apply list_elem_of_In, Hi, list_elem_of_In, Hit.
Qed.

(** ** What reaches the manager client *)

(** Every effect of a run satisfies [P]. *)
Definition emits (P : effect -> Prop) {X} (m : MW X) : Prop :=
  forall w w' o, m w = (w', o) -> exists new, wTrace w' = wTrace w ++ new /\ Forall P new.
Section Emits.
Variable P : effect -> Prop.
Lemma emits_none {X} (m : MW X) : (forall w, wTrace (m w).1 = wTrace w) -> emits P m.
Proof. intros F w w' o E. exists []. rewrite app_nil_r. split; [|constructor]. specialize (F w). by rewrite E in F. Qed.
Lemma emits_bind {X Y} (m : MW X) (k : X -> MW Y) : emits P m -> (forall a, emits P (k a)) -> emits P (bind m k).
Proof.
  intros Rm Rk w w' o E. apply bind_inv in E as [(w1 & a & E1 & E2) | (o1 & E1 & _)]; [|by eapply Rm].
  destruct (Rm _ _ _ E1) as (n1 & T1 & F1), (Rk _ _ _ _ E2) as (n2 & T2 & F2). exists (n1 ++ n2).
  split; [by rewrite T2, T1, app_assoc|by apply Forall_app].
Qed.
Lemma emits_note e : P e -> emits P (note e).
Proof. intros Pe w w' o [= <- _]. exists [e]. split; [done|by apply Forall_singleton]. Qed.
Lemma emits_store {X} (op : option fault -> Store -> disk File -> option Store * disk File * result X) : emits P (on_store op).
Proof. apply emits_none. intros w. unfold on_store. by destruct (op _ (wStore w) (wDisk w)) as [[[s|] dk] r]. Qed.
Lemma emits_consume_failed handle : emits P (consume_failed handle).
Proof. apply emits_bind; [apply emits_store|]. intros _. by apply emits_none. Qed.
Lemma emits_upload attachments : emits P (upload_all attachments).
Proof.
  induction attachments as [|a attachments IH]; cbn [upload_all]; [by apply emits_none|]. apply emits_bind.
  - apply emits_none. intros w. by destruct (mediaUpload (wMedia w) a).
  - intros [d|e]; [|by apply emits_none]. apply emits_bind; [done|]. intros. by apply emits_none.
Qed.
Lemma emits_deliver handle recipient sender ti ds :
  (forall e, e ∈ forwards_of handle recipient sender ti ds -> P e) -> emits P (deliver handle recipient sender ti ds).
Proof.
  intros Q w w' o E. destruct (deliver_spec handle recipient sender ti ds w) as (b & w1 & new & E1 & _ & T & Se).
  rewrite E1 in E. injection E as <- _. exists new. split; [done|]. apply Forall_forall. intros e He. apply Q. by eapply sends_elem.
Qed.
Lemma emits_deliver_all recipients handle sender ds b :
  (forall r e, r ∈ recipients -> e ∈ forwards_of handle r sender 0 ds -> P e) -> emits P (deliver_all recipients handle sender ds b).
Proof.
  intros Q. revert b. induction recipients as [|r recipients IH]; intros b; cbn [deliver_all]; [by apply emits_none|].
  apply emits_bind; [apply emits_deliver; intros; eapply Q; [by left|done]|]. intros ok. apply IH. intros r' e Hr. apply Q. by right.
Qed.
End Emits.

(** A delivery the client takes: a body within its bound and a type it knows. *)
Definition good_delivery (d : sipDelivery) : Prop :=
  0 < len (sdBody d) <= MaxBodyBytes /\ (sdContentType d = str "text/plain" \/ sdContentType d = SignalContentType).
Lemma MarshalSignal_pos body d : 0 < len (MarshalSignal body d).
Proof.
  unfold MarshalSignal, Marshal, signal_json, omit_empty. destruct (len body =? 0); cbn [app]; rewrite print_obj, len_app; change (len [123]) with 1;
    match goal with |- 0 < 1 + len ?l => pose proof (len_nonneg l) end; lia.
Qed.
Lemma media_deliveries_good index clean descriptors ds included :
  media_deliveries index clean descriptors = Some (ds, included) -> Forall good_delivery ds.
Proof.
  revert index ds included. induction descriptors as [|d descriptors IH]; intros index ds included E; cbn [media_deliveries] in E.
  { injection E as <- _. constructor. }
  set (caption := if Nat.eqb index 0 then clean else []) in *. cbv zeta in E.
  assert (exists c, (if MaxBodyBytes <? len (MarshalSignal caption d) then (MarshalSignal [] d, []) else (MarshalSignal caption d, caption)) =
    (MarshalSignal c d, c)) as [c Ec]
    by (destruct (MaxBodyBytes <? len (MarshalSignal caption d)); [by exists []|by exists caption]).
  rewrite Ec in E. destruct (Z.ltb_spec MaxBodyBytes (len (MarshalSignal c d))); [done|].
  destruct (media_deliveries (Datatypes.S index) clean descriptors) as [[rest inc]|] eqn:Er; [|done]. cbn [mbind option_bind] in E. injection E as <- _.
  constructor; [|by eapply IH]. split; [pose proof (MarshalSignal_pos c d); cbn [sdBody]; lia|by right].
Qed.
Lemma build_deliveries_good clean parts descriptors ds :
  Forall (fun p => 1 <= len p <= MaxSIPPartBytes) parts -> build_deliveries clean parts descriptors = Some ds -> Forall good_delivery ds.
Proof.
  intros F E. unfold build_deliveries in E. destruct (media_deliveries 0 clean descriptors) as [[media inc]|] eqn:Em; [|done]. cbn in E. injection E as <-.
  apply media_deliveries_good in Em. apply Forall_app. split; [done|]. destruct inc; [constructor|]. apply Forall_fmap.
  eapply Forall_impl; [done|]. intros p Hp. split; [cbn; unfold MaxBodyBytes, MaxSIPPartBytes in *; lia|by left].
Qed.

(** A failed upload is tried again, not at once and not too rarely: [deferMedia]
    sets the message aside for 30 seconds to one hour, and until that
    time has passed an event for it is ignored without touching the phone; the message stays
    unmarked, so a later poll takes it up again. *)
Theorem deferred_media_waits handle event w w1 delay w2 :
  (forall r, wRetries w !! handle = Some r -> 0 <= mrAttempts r) ->
  deferMedia handle w = (w1, Returns (Ok delay)) -> evHandle event = handle ->
  wRetries w2 = wRetries w1 -> wClock w2 < wClock w + delay ->
  30 * second <= delay <= 3600 * second /\ HasSeen (wStore w1) handle = HasSeen (wStore w) handle /\
  processEvent event w2 = (w2, Returns (Ok tt)).
Proof.
  intros P E Eh R L. unfold deferMedia in E. set (old := default (mkRetry 0 0) (wRetries w !! handle)) in *.
  assert (0 <= mrAttempts old) as Po by (unfold old; destruct (wRetries w !! handle) eqn:Er; [by apply P|done]).
  cbv zeta in E. set (index := if len retry_delays <=? _ then _ else _) in *.
  assert (0 <= index < 5) as Hi by (unfold index; change (len retry_delays) with 5; destruct (Z.leb_spec 5 (mrAttempts old + 1 - 1)); lia).
  assert (30 * second <= nth (Z.to_nat index) retry_delays 0 <= 3600 * second) as B.
  { assert (index = 0 \/ index = 1 \/ index = 2 \/ index = 3 \/ index = 4) as [-> | [-> | [-> | [-> | ->]]]] by lia; vm_compute; split; discriminate. }
  set (d := nth (Z.to_nat index) retry_delays 0) in *. clearbody d. injection E as <- <-.
  split; [done|]. split; [done|]. unfold processEvent. rewrite gets_bind, Eh.
  destruct (negb (evEventType event =s? str "NewMessage") || _ || _); [done|]. rewrite gets_bind, R. cbn.
  rewrite lookup_insert_eq. cbn. by rewrite (proj2 (Z.ltb_lt _ _)).
Qed.
End Service.

(** C39.  A raw message for a folder with an overlong name ends the process: the command runs in
    the MAP loop, nothing before [NameHeader] bounds the folder's name, and [MustHeader]
    panics there (64 KiB of JSON are enough for such a name). *)
Theorem raw_folder_crashes {File A U} `{StateFile File} xml fuel request folder body transparent retry (w : World File (Session Phone) A U) :
  let _ : MapClient (Session Phone) := session_client xml fuel in
  request ∉ wEnded w -> ssPath (wSession w) = [] -> 0 < len body <= Z.shiftl 60 10 ->
  existsb bad_part (SplitByte (trim_slashes folder) 47) = false ->
  (exists part rest, SplitByte (trim_slashes folder) 47 = part :: rest /\ 0xffff < len (name_value part) + 3) ->
  (executeCommand (mkCommand request commandRaw folder [] 0 0 body transparent retry) w).2 = Panics.
Proof.
  intros C N P B G O. pose proof (long_folder_panics folder (wSession w) P G O) as X.
  unfold executeCommand. rewrite gets_bind. cbn [cmRequest]. rewrite bool_decide_eq_false_2 by done.
  unfold command_response. cbn [cmKind cmFolder cmBody cmTransparent cmRetry].
  assert ((PushBMessage folder body transparent retry (wSession w)).2 = Panics) as Y.
  { unfold PushBMessage. rewrite (proj2 (Z.eqb_neq _ _)), (proj2 (Z.ltb_ge _ _)) by lia. cbn [orb]. unfold bind.
    destruct (gotoFolder folder (wSession w)) as [s o]. cbn in X. by subst o. }
  unfold bind, attempt, on_session. cbn [msPushBMessage C session_client].
  destruct (PushBMessage folder body transparent retry (wSession w)) as [s o]. cbn in Y. by subst o.
Qed.

(** The checks at the top of [SendMessage] pass. *)
Definition sendable (e : effect) : Prop :=
  match e with
  | Forwarded _ recipient sender body contentType actionID =>
      forall c m, mgAccepts m = true -> (SendMessage c m recipient sender body contentType actionID).1 <> []
  | _ => True
  end.

Lemma hex_string_clean s : all_bytes s -> Ami.clean (hex_string s) /\ Forall (fun c => c <> 0) (hex_string s).
Proof.
  intros F. enough (Forall (fun c => 48 <= c <= 102) (hex_string s)) as G.
  { split; (eapply Forall_impl; [exact G|]); intros c Hc; cbv beta in Hc |- *; lia. }
  induction F as [|b s Hb F IH]; [constructor|]. unfold in_width in Hb. change (2 ^ 8) with 256 in Hb.
  assert (forall d, 0 <= d < 16 -> 48 <= hex_lower d <= 102) as D by (intros d Hd; unfold hex_lower; destruct (Z.ltb_spec d 10); lia).
  change (hex_string (b :: s)) with (hex_lower (b / 16) :: hex_lower (b mod 16) :: hex_string s).
  constructor; [apply D; euclid|]. constructor; [apply D; euclid|done].
Qed.
Lemma action_id_fine prefix s :
  all_bytes s -> ContainsAny (str prefix) [0; 13; 10] = false -> str prefix <> [] ->
  (len (str prefix ++ hex_string (take 20 s)) =? 0) || ContainsAny (str prefix ++ hex_string (take 20 s)) [0; 13; 10] = false.
Proof.
  intros B C N. destruct (hex_string_clean (take 20 s) (Forall_take _ _ _ B)) as [C1 C2].
  apply orb_false_iff. split; [apply Z.eqb_neq; rewrite len_app; pose proof (len_nonneg (hex_string (take 20 s))); destruct (str prefix); [done|]; unfold len in *; cbn [length]; lia|].
  apply ContainsAny_controls, Forall_app. split.
  - unfold ContainsAny, IndexAny in C. destruct (index_where _ (str prefix)) eqn:E; [done|]. apply index_where_Forall in E.
    eapply Forall_impl; [done|]. intros c Hc. cbn [existsb] in Hc. by bool_prop.
  - apply Forall_forall. intros c Hc. split; [by eapply (proj1 (Forall_forall _ _) C2)|by eapply (proj1 (Forall_forall _ _) C1)].
Qed.

Lemma forwards_of_sendable handle recipient value ti ds e :
  good_recipient recipient -> Forall good_delivery ds ->
  e ∈ forwards_of handle recipient (NormalizeSender value) ti ds -> sendable e.
Proof.
  pose proof Sum256_bytes as HB. intros (Lr & Dr & _) F. revert ti. induction F as [|d ds [Bd Cd] F IH]; intros ti He; cbn [forwards_of] in He; [by apply elem_of_nil in He|].
  apply elem_of_cons in He as [-> | He]; [|by eapply IH]. intros c m A. unfold SendMessage.
  set (id := if 0 <=? sdMediaIndex d then _ else _).
  assert ((len id =? 0) || ContainsAny id [0; 13; 10] = false) as Hid
    by (unfold id; case_match; by apply action_id_fine).
  assert (digits recipient = true) as Dg.
  { unfold digits. apply andb_true_iff. split; [apply negb_true_iff, Z.eqb_neq; lia|by apply forallb_Forall_true]. }
  rewrite Dg, (proj2 (Z.ltb_ge 32 _)), (proj2 (Z.eqb_neq (len (sdBody d)) 0)), (proj2 (Z.ltb_ge MaxBodyBytes _)) by lia. cbn [negb orb].
  assert (negb (sdContentType d =s? str "text/plain") && negb (sdContentType d =s? str "application/x-acro-filetransfer+json") = false) as ->
    by (destruct Cd as [-> | ->]; done).
  assert ((len (NormalizeSender value) =? 0) || ContainsAny (NormalizeSender value) [0; 13; 10] = false) as Hs.
  { destruct (NormalizeSender_spec value) as (ph & [Fd Hn] & Ld). apply orb_false_iff. split.
    - apply Z.eqb_neq. destruct Hn as [-> | ->]; unfold len in *; cbn [length]; lia.
    - apply ContainsAny_controls. assert (Forall (fun c => c <> 0 /\ c <> 13 /\ c <> 10) ph) as G
        by (eapply Forall_impl; [exact Fd|]; intros x Hx%is_digit_spec; lia).
      destruct Hn as [-> | ->]; [done|by constructor]. }
  cbn [existsb]. rewrite Hs, Hid, A. cbn [orb negb]. cbv zeta.
  repeat case_match; done.
Qed.

(** Everything the service hands to the manager client passes the client's own checks:
    for a valid configuration and any message text, every delivery goes to a recipient of
    digits, has a sender and an action identifier fit for a header, a known content type
    and a body of 1 to 1200 bytes; so when the manager accepts the connection the message is
    written, never dropped on this side. *)
Theorem forward_sendable {File S A U} `{StateFile File} `{AmiSender A} `{Uploader U} cfg event parsed
    (w w' : World File S A U) o new :
  config_ok cfg -> all_bytes (msBody parsed) -> len (msBody parsed) < 10 ^ 18 ->
  forward cfg event parsed w = (w', o) -> wTrace w' = wTrace w ++ new -> Forall sendable new.
Proof.
  intros CK B L E T.
  assert (emits sendable (forward (File := File) (S := S) (A := A) (U := U) cfg event parsed)) as Em.
  { unfold forward. case_match; [apply emits_consume_failed|].
    set (clean := if EqualFoldText _ _ then _ else _). set (parts := if clean =s? [] then _ else _).
    assert (all_bytes clean /\ len clean < 10 ^ 18) as [Cb Cl].
    { unfold clean. case_match; [done|]. destruct (StripMMSEnvelope_keeps (msBody parsed) (evMessageType event) B). split; [done|lia]. }
    assert (Forall (fun p => 1 <= len p <= MaxSIPPartBytes) parts) as Fp.
    { unfold parts, str_eqb. case_bool_decide; [constructor|]. by apply VisibleParts_bound. }
    case_match; [apply emits_consume_failed|]. apply emits_bind; [apply emits_upload|]. intros [descriptors|].
    2: { apply emits_bind; [by apply emits_none|]. intros. by apply emits_none. }
    apply emits_bind; [by apply emits_none|]. intros _.
    destruct (build_deliveries clean parts descriptors) as [[|d ds]|] eqn:Eb; [apply emits_consume_failed| |apply emits_consume_failed].
    apply emits_bind; [apply emits_store|]. intros _. apply emits_bind; [|intros; by apply emits_none].
    apply emits_deliver_all. intros r e Hr. apply forwards_of_sendable; [|by eapply build_deliveries_good].
    by apply (proj1 (Forall_forall _ _) (proj2 (proj2 (co_recipients _ CK)))). }
  destruct (Em _ _ _ E) as (new' & T' & F). rewrite T' in T. by apply app_inv_head in T as <-.
Qed.
