(* ===== verification/SmsHttp.v ===== *)
(** * The SMS bridge's HTTP interfaces

    Models src/callbridge-sms-go/internal/bridge/http.go and the health report of
    status.go and service.go: the internal interface on loopback, the outbox interface
    with its list of allowed sources, and the bound on concurrent requests.

    A handler runs on the service's [World] and gives a status and a value, which [writeJSON]
    turns into the bytes of the response; a request's body is read with the JSON decoder of
    [GoJson]. *)

From S2P Require Import Prelude GoStd GoText GoJson GoTime Obex SmsStore StateJson Message MapSession Ami GoNet SmsConfig Media SmsService.

Definition maximumHTTPBody : Z := Z.shiftl 64 10.

(** ** The health report *)
Record leAudioHealth := mkLEAudio {
  laMode : bytes; laReady : bool; laEndpointsRegistered : bool; laAdvertising : bool; laDiscoverable : bool;
  laExtendedAdvertising : bool; laBAPAnnouncement : bool; laCAPAnnouncement : bool; laTMAPAnnouncement : bool;
  laHeadsetAppearance : bool; laSinkConfigured : bool; laSourceConfigured : bool; laSinkAcquired : bool;
  laSourceAcquired : bool; laBidirectionalCIS : bool
}.
Record healthSnapshot := mkHealth {
  heOK : bool; heReady : bool; heService : bytes; heVersion : bytes; heClassicProfileMode : bytes; heClassicProfilesEnabled : bool;
  heMNSRegistered : bool; heMNSConnected : bool; heMAPConnected : bool; heNotificationsEnabled : bool;
  heInitialized : bool; heSeenHandles : Z; heOutboundDepth : Z; heLastPollUnix : Z;
  heInboundConsumed : Z; heInboundFailed : Z; heOutboundConsumed : Z; heOutboundFailed : Z; heDropped : Z;
  heUptimeSeconds : Z; heLEAudio : leAudioHealth
}.

Definition classicProfileMode (cfg : Config) : bytes :=
  if cfClassicProfileMode cfg =s? ClassicProfileIsolated then ClassicProfileIsolated else ClassicProfileNormal.
Definition classicProfilesEnabled (cfg : Config) : bool := classicProfileMode cfg =s? ClassicProfileNormal.

(** [status.snapshot]. *)
Definition status_snapshot (st : status) (version mode : bytes) (initialized : bool) (seen outbound uptime : Z) (la : leAudioHealth) : healthSnapshot :=
  mkHealth true (stRegistered st && stMAPConnected st && stNotifications st && initialized)
    (str "sms-bridge-go") version mode (mode =s? str "normal") (stRegistered st) (stMNSConnected st) (stMAPConnected st) (stNotifications st)
    initialized seen outbound (match stLastPoll st with Some t => t / nanos | None => 0 end)
    (stInboundConsumed st) (stInboundFailed st) (stOutboundConsumed st) (stOutboundFailed st) (stDropped st) uptime la.

(** The broker's report: its flags in the order of [leAudioHealth], when there is a broker. *)
Definition le_audio_health (mode : bytes) (broker : option leAudioHealth) : leAudioHealth :=
  match broker with
  | None => mkLEAudio mode false false false false false false false false false false false false false false
  | Some b => mkLEAudio mode (laEndpointsRegistered b && laAdvertising b && laBidirectionalCIS b)
      (laEndpointsRegistered b) (laAdvertising b) (laDiscoverable b) (laExtendedAdvertising b) (laBAPAnnouncement b)
      (laCAPAnnouncement b) (laTMAPAnnouncement b) (laHeadsetAppearance b) (laSinkConfigured b) (laSourceConfigured b)
      (laSinkAcquired b) (laSourceAcquired b) (laBidirectionalCIS b)
  end.
Definition readinessCode (h : healthSnapshot) : Z := if heReady h then 200 else 503.

(** ** Requests and responses *)
Record HttpRequest := mkHttp {
  hrMethod : bytes; hrPath : bytes; hrRemote : bytes; hrQuery : list (bytes * bytes); hrBody : option bytes
}.
(** [Query().Get]: the first value of a name. *)
Definition query (r : HttpRequest) (name : string) : bytes :=
  match list_find (fun kv => kv.1 = str name) (hrQuery r) with Some (_, kv) => kv.2 | None => [] end.

Inductive payload :=
| Failure (error : bytes)
| Health (h : healthSnapshot)
| QueuedOK
| ListingOf (count : Z) (isNil : bool) (items : list ListingMessage)
| MessageOf (handle : bytes) (m : Message)
| SentOK.
Definition response : Type := Z * payload.
Definition failure (status : Z) (error : string) : response := (status, Failure (str error)).

(** ** Writing

    [writeJSON] marshals a value with two blanks of indentation.  The values of the handlers have
    the names of the maps in http.go, sorted as [encoding/json] sorts them, and of the tags in
    status.go and model.go. *)
Definition when (present : bool) (name : string) (v : json) : list (bytes * json) := if present then [(str name, v)] else [].
Definition field (name : string) (v : json) : list (bytes * json) := [(str name, v)].
Definition not_empty (s : bytes) : bool := negb (s =s? []).

Definition message_json (m : Message) : json :=
  JObj (field "body" (jstr (msBody m)) ++ when (not_empty (msSenderName m)) "sender_name" (jstr (msSenderName m)) ++
        when (not_empty (msSenderNumber m)) "sender_number" (jstr (msSenderNumber m))).

(** A map's entries, by name; the last value of a name is the one it has. *)
Fixpoint bytes_leb (a b : bytes) : bool :=
  match a, b with
  | [], _ => true
  | _, [] => false
  | x :: a, y :: b => (x <? y) || (x =? y) && bytes_leb a b
  end.
Definition name_le (a b : bytes * bytes) : Prop := bytes_leb a.1 b.1 = true.
#[export] Instance name_le_dec a b : Decision (name_le a b) := decide (_ = true).
Definition map_json (attrs : list (bytes * bytes)) : json :=
  JObj ((fun kv => (kv.1, jstr kv.2)) <$> merge_sort name_le (map_to_list (list_to_map (rev attrs) : gmap bytes bytes))).
Definition listing_json (m : ListingMessage) : json :=
  JObj (field "handle" (jstr (lmHandle m)) ++ when (not_empty (lmType m)) "type" (jstr (lmType m)) ++
        when (not_empty (lmDateTime m)) "datetime" (jstr (lmDateTime m)) ++
        when (negb (bool_decide (lmAttrs m = []))) "attrs" (map_json (lmAttrs m))).

Definition le_audio_json (a : leAudioHealth) : list (bytes * json) :=
  field "le_audio_mode" (jstr (laMode a)) ++ field "le_audio_ready" (JBool (laReady a)) ++
  field "le_audio_endpoints_registered" (JBool (laEndpointsRegistered a)) ++ field "le_audio_advertising" (JBool (laAdvertising a)) ++
  field "le_audio_discoverable" (JBool (laDiscoverable a)) ++ field "le_audio_extended_advertising" (JBool (laExtendedAdvertising a)) ++
  field "le_audio_bap_announcement" (JBool (laBAPAnnouncement a)) ++ field "le_audio_cap_announcement" (JBool (laCAPAnnouncement a)) ++
  field "le_audio_tmap_announcement" (JBool (laTMAPAnnouncement a)) ++ field "le_audio_headset_appearance" (JBool (laHeadsetAppearance a)) ++
  field "le_audio_sink_configured" (JBool (laSinkConfigured a)) ++ field "le_audio_source_configured" (JBool (laSourceConfigured a)) ++
  field "le_audio_sink_acquired" (JBool (laSinkAcquired a)) ++ field "le_audio_source_acquired" (JBool (laSourceAcquired a)) ++
  field "le_audio_bidirectional_cis" (JBool (laBidirectionalCIS a)).
Definition health_json (h : healthSnapshot) : json :=
  JObj (field "ok" (JBool (heOK h)) ++ field "ready" (JBool (heReady h)) ++ field "service" (jstr (heService h)) ++
        field "version" (jstr (heVersion h)) ++ field "classic_profile_mode" (jstr (heClassicProfileMode h)) ++
        field "classic_profiles_enabled" (JBool (heClassicProfilesEnabled h)) ++ field "mns_registered" (JBool (heMNSRegistered h)) ++
        field "mns_connected" (JBool (heMNSConnected h)) ++ field "map_connected" (JBool (heMAPConnected h)) ++
        field "notifications_enabled" (JBool (heNotificationsEnabled h)) ++ field "initialized" (JBool (heInitialized h)) ++
        field "seen_handles" (jint (heSeenHandles h)) ++ field "outbound_depth" (jint (heOutboundDepth h)) ++
        when (negb (heLastPollUnix h =? 0)) "last_poll_unix" (jint (heLastPollUnix h)) ++
        field "inbound_consumed" (jint (heInboundConsumed h)) ++ field "inbound_failed" (jint (heInboundFailed h)) ++
        field "outbound_consumed" (jint (heOutboundConsumed h)) ++ field "outbound_failed" (jint (heOutboundFailed h)) ++
        field "dropped_mns_events" (jint (heDropped h)) ++ field "uptime_seconds" (jint (heUptimeSeconds h)) ++ le_audio_json (heLEAudio h)).

Definition payload_json (p : payload) : json :=
  match p with
  | Failure e => JObj (field "error" (jstr e) ++ field "ok" (JBool false))
  | Health h => health_json h
  | QueuedOK => JObj (field "ok" (JBool true) ++ field "queued" (JBool true))
  | ListingOf count isNil items =>
      JObj (field "count" (jint count) ++ field "messages" (if isNil then JNull else JArr (listing_json <$> items)) ++ field "ok" (JBool true))
  | MessageOf handle m => JObj (field "handle" (jstr handle) ++ field "message" (message_json m) ++ field "ok" (JBool true))
  | SentOK => JObj (field "ok" (JBool true))
  end.

(** What goes out; none of these values can fail to marshal. *)
Record written := mkWritten { wrStatus : Z; wrHeader : list (bytes * bytes); wrBody : bytes }.
Definition http_error (status : Z) (text : string) : written :=
  mkWritten status [(str "Content-Type", str "text/plain; charset=utf-8"); (str "X-Content-Type-Options", str "nosniff")] (str text ++ [10]).
Definition marshal (p : payload) : option bytes := Some (MarshalIndent (payload_json p)).
Definition writeJSON (r : response) : written :=
  match marshal r.2 with
  | None => http_error 500 "internal error"
  | Some raw => mkWritten r.1 [(str "Content-Type", str "application/json; charset=utf-8"); (str "Cache-Control", str "no-store")] raw
  end.

(** [newHTTPServer]: the limits of a connection. *)
Record http_server := mkHttpServer { hsReadHeader : Z; hsRead : Z; hsWrite : Z; hsIdle : Z; hsMaxHeaderBytes : Z }.
Definition newHTTPServer : http_server := mkHttpServer (3 * second) (5 * second) (15 * second) (30 * second) (Z.shiftl 8 10).

Definition queryInt (r : HttpRequest) (name : string) (fallback minimum maximum : Z) : result Z :=
  let raw := query r name in
  if raw =s? [] then Ok fallback
  else match Atoi raw with
       | None => fail! "query outside bounds"
       | Some value => if (value <? minimum) || (maximum <? value) then fail! "query outside bounds" else Ok value
       end.

Definition sourceAllowed (cfg : Config) (remote : bytes) : bool :=
  match SplitHostPort remote with
  | None => false
  | Some (host, _) =>
      match ParseAddr host with
      | None => false
      | Some address => existsb (fun prefix => PrefixContains prefix address) (cfAllowedSources cfg)
      end
  end.

(** The structs requests are decoded into, and [decodeJSON]: a decoder that refuses unknown names
    and anything after the value. *)
Definition send_setters : list (bytes * setter (bytes * bytes)) :=
  [(str "to", fun v x => (fun s => (s, x.2)) <$> set_string v x.1); (str "text", fun v x => (fun s => (x.1, s)) <$> set_string v x.2)].
Record raw_request := mkRaw { rwBMessage : bytes; rwFolder : bytes; rwTransparent : bool; rwRetry : bool }.
#[export] Instance raw_request_fields : Fields raw_request := {|
  fields x := mkRaw (rwBMessage x) (rwFolder x) (rwTransparent x) (rwRetry x) |}.
Definition raw_setters : list (bytes * setter raw_request) :=
  [(str "bmessage", fun v x => (fun s => x <| rwBMessage := s |>) <$> set_string v (rwBMessage x));
   (str "folder", fun v x => (fun s => x <| rwFolder := s |>) <$> set_string v (rwFolder x));
   (str "transparent", fun v x => (fun b => x <| rwTransparent := b |>) <$> set_bool v (rwTransparent x));
   (str "retry", fun v x => (fun b => x <| rwRetry := b |>) <$> set_bool v (rwRetry x))].
Definition decodeJSON {X} (setters : list (bytes * setter X)) (zero : X) (r : HttpRequest) : result X :=
  match hrBody r with
  | None => fail! "empty body"
  | Some body =>
      match parse_one (take (Z.to_nat (maximumHTTPBody + 1)) body) with
      | None => fail! "invalid JSON"
      | Some (v, rest) =>
          match fill true setters v zero with
          | None => fail! "cannot unmarshal"
          | Some x => if negb (len (skip_white rest) =? 0) then fail! "trailing JSON" else Ok x
          end
      end
  end.
Definition decode_send : HttpRequest -> result (bytes * bytes) := decodeJSON send_setters ([], []).
Definition decode_raw : HttpRequest -> result raw_request := decodeJSON raw_setters (mkRaw [] [] false false).

Section Handlers.
Context {File S A U : Type} `{StateFile File}.
#[local] Abbreviation W := (World File S A U).
Variable cfg : Config.
Variable broker : option leAudioHealth.
Variable uptime : W -> Z.
Definition snapshot (w : W) : healthSnapshot :=
  let '(seen, outbound) := Counts (wStore w) in
  status_snapshot (wStatus w) Version (classicProfileMode cfg) (IsInitialized (wStore w)) seen outbound (uptime w)
    (le_audio_health (cfLEAudioMode cfg) broker).

(** What a handler does with a request: it answers at once, it enqueues a message and answers
    what came of it, or it submits a command and answers what comes back, looking at the store
    as it is then. *)
Inductive handling :=
| Responds (r : response)
| Enqueues (to text : bytes)
| Submits (c : mapCommand) (finish : commandResponse -> Store -> response).

Definition handleSend (r : HttpRequest) : handling :=
  match decode_send r with
  | Error _ => Responds (failure 400 "invalid request")
  | Ok (to, text) => Enqueues to text
  end.
(** The answer once [enqueue] has returned. *)
Definition enqueue_answer (r : result unit) : response :=
  match r with Ok _ => (200, QueuedOK) | Error _ => failure 503 "queue rejected" end.

Definition list_answer (onlyNew : bool) (reply : commandResponse) (s : Store) : response :=
  match reErr reply with
  | Some _ => failure 503 "MAP unavailable"
  | None =>
      let items := if onlyNew then filter (fun item => HasSeen s (lmHandle item) = false) (reListing reply) else reListing reply in
      (200, ListingOf (len items) (bool_decide (reListing reply = [])) items)
  end.
Definition handleList (request : nat) (r : HttpRequest) (onlyNew : bool) : handling :=
  match queryInt r "max" 20 1 500 with
  | Error _ => Responds (failure 400 "invalid max")
  | Ok maximum =>
      match queryInt r "offset" 0 0 65535 with
      | Error _ => Responds (failure 400 "invalid offset")
      | Ok offset =>
          let folder := if query r "folder" =s? [] then inbox else query r "folder" in
          Submits (mkCommand request commandList folder [] maximum offset [] false false) (list_answer onlyNew)
      end
  end.

Definition get_answer (handle : bytes) (reply : commandResponse) (_ : Store) : response :=
  match reErr reply with
  | Some _ => failure 503 "MAP unavailable"
  | None => (200, MessageOf handle (reMessage reply))
  end.
Definition handleGet (request : nat) (r : HttpRequest) : handling :=
  let handle := TrimPrefix (hrPath r) (str "/messages/") in
  let folder := if query r "folder" =s? [] then inbox else query r "folder" in
  Submits (mkCommand request commandGet folder handle 0 0 [] false false) (get_answer handle).

Definition raw_answer (reply : commandResponse) (_ : Store) : response :=
  match reErr reply with Some _ => failure 503 "MAP send failed" | None => (200, SentOK) end.
Definition handleRaw (request : nat) (r : HttpRequest) : handling :=
  match decode_raw r with
  | Error _ => Responds (failure 400 "invalid request")
  | Ok payload =>
      if rwBMessage payload =s? [] then Responds (failure 400 "invalid request")
      else
        let folder := if rwFolder payload =s? [] then str "telecom/msg/outbox" else rwFolder payload in
        Submits (mkCommand request commandRaw folder [] 0 0 (rwBMessage payload) (rwTransparent payload) (rwRetry payload)) raw_answer
  end.

Definition is_request (r : HttpRequest) (method path : string) : bool := (hrMethod r =s? str method) && (hrPath r =s? str path).

Definition internalHandler (request : nat) (r : HttpRequest) (w : W) : handling :=
  if is_request r "GET" "/health" then Responds (200, Health (snapshot w))
  else if is_request r "GET" "/ready" then Responds (readinessCode (snapshot w), Health (snapshot w))
  else if is_request r "GET" "/messages" then handleList request r false
  else if (hrMethod r =s? str "GET") && HasPrefix (hrPath r) (str "/messages/") then handleGet request r
  else if is_request r "GET" "/poll" then handleList request r true
  else if is_request r "POST" "/send/sms" then handleSend r
  else if is_request r "POST" "/send/raw" then handleRaw request r
  else if is_request r "POST" "/send/mms" then Responds (failure 501 "MMS sending is not enabled")
  else Responds (failure 404 "not found").

Definition outboxHandler (r : HttpRequest) (w : W) : handling :=
  if negb (sourceAllowed cfg (hrRemote r)) then Responds (failure 403 "source not allowed")
  else if is_request r "GET" "/health" then Responds (200, Health (snapshot w))
  else if is_request r "GET" "/ready" then Responds (readinessCode (snapshot w), Health (snapshot w))
  else if negb (is_request r "POST" "/send/sms") then Responds (failure 404 "not found")
  else handleSend r.

(** A handler run by itself: a command waits for the MAP loop. *)
Definition complete (identifier : option bytes) (h : handling) (w : W) : W * option response :=
  match h with
  | Responds r => (w, Some r)
  | Enqueues to text =>
      match enqueue identifier to text w with
      | (w, Returns r) => (w, Some (enqueue_answer r))
      | (w, _) => (w, None)
      end
  | Submits _ _ => (w, None)
  end.
End Handlers.

(** ** The bound on concurrent requests

    [bounded] keeps a semaphore of 16 places.  A request that finds a place holds it until its
    handler returns; any other is refused at once. *)
Record gate := mkGate { gaRunning : gset nat; gaRefused : gset nat }.
Definition gateCapacity : nat := 16.
Definition bounded_enter (g : gate) (request : nat) : gate :=
  if (size (gaRunning g) <? gateCapacity)%nat then mkGate ({[request]} ∪ gaRunning g) (gaRefused g)
  else mkGate (gaRunning g) ({[request]} ∪ gaRefused g).
Definition bounded_leave (g : gate) (request : nat) : gate := mkGate (gaRunning g ∖ {[request]}) (gaRefused g).
Inductive gate_step : gate -> gate -> Prop :=
| gate_enter g request : request ∉ gaRunning g -> gate_step g (bounded_enter g request)
| gate_leave g request : request ∈ gaRunning g -> gate_step g (bounded_leave g request).

(** ** Who may use the outbox *)

(** The peer is the machine itself or one of the configured addresses. *)
Definition local_or_listed (cfg : Config) (remote : bytes) : Prop :=
  exists host port address, SplitHostPort remote = Some (host, port) /\ ParseAddr host = Some address /\
    (IsLoopback address = true \/ exists p, p ∈ cfAllowedSources cfg /\ pxBits p = 32 /\ pxAddr p = address).

Lemma sourceAllowed_spec cfg remote : config_ok cfg -> sourceAllowed cfg remote = true -> local_or_listed cfg remote.
Proof.
  intros CK. unfold sourceAllowed. destruct (SplitHostPort remote) as [[host port]|] eqn:Es; [|done].
  destruct (ParseAddr host) as [address|] eqn:Ea; [|done]. intros (p & Hp & C)%existsb_exists.
  exists host, port, address. split_and!; [done|done|]. apply list_elem_of_In in Hp.
  destruct (proj1 (Forall_forall _ _) (proj2 (proj2 (co_sources _ CK))) p Hp) as [B [[L8 L] | E32]].
  - left. eapply PrefixContains_loopback; [|done|done]. lia.
  - right. exists p. split_and!; [done|done|]. symmetry. by apply PrefixContains_exact.
Qed.

Section Guards.
Context {File S A U : Type} `{StateFile File} (cfg : Config) (broker : option leAudioHealth) (uptime : World File S A U -> Z).

(** C35.  The outbox serves only the machine itself and the addresses listed one by one:
    with a valid configuration any other peer gets 403 and changes nothing, and the only
    request that changes anything is a POST of a message. *)
Theorem outbox_guarded r identifier (w w' : World File S A U) st p :
  config_ok cfg -> complete identifier (outboxHandler cfg broker uptime r w) w = (w', Some (st, p)) ->
  (st = 403 /\ w' = w) \/
  (local_or_listed cfg (hrRemote r) /\ (w' = w \/ hrMethod r = str "POST" /\ hrPath r = str "/send/sms")).
Proof.
  intros CK E. unfold outboxHandler in E. destruct (sourceAllowed cfg (hrRemote r)) eqn:Sa; cbn [negb] in E.
  2: { cbn in E. injection E as <- <- _. by left. }
  right. split; [by apply sourceAllowed_spec|]. repeat (case_match; [cbn [complete] in E; injection E as <- _ _; by left|]).
  match goal with G : negb (is_request r "POST" "/send/sms") = false |- _ => unfold is_request, str_eqb in G; bool_prop end.
  by right.
Qed.

(** A message the API accepts is on disk: when [handleSend] answers 200, the
    destination is 3 to 20 digits with an optional plus sign, the text is not blank and at most 16 KiB,
    and either the item was appended to the queue and the state file holds exactly the new
    state, or an item with the same identifier was queued already; and the loop is woken. *)
Theorem accepted_is_queued r identifier (w w' : World File S A U) p :
  complete identifier (handleSend r) w = (w', Some (200, p)) ->
  wWake w' = true /\
  exists to text n id,
    decode_send r = Ok (to, text) /\ NormalizeDestination to = Ok n /\ identifier = Some id /\
    TrimSpace text <> [] /\ len text <= 16384 /\
    let item := mkOutbound (hex_string id) n text (wClock w) in
    validOutbound item = true /\
    ((dsOutbound (stData (wStore w')) = dsOutbound (stData (wStore w)) ++ [item] /\
      dkState (wDisk w') = Some (encode (stData (wStore w')))) \/
     (wStore w' = wStore w /\ exists old, old ∈ dsOutbound (stData (wStore w)) /\ obID old = hex_string id)).
Proof.
  intros E. unfold handleSend in E. destruct (decode_send r) as [[to text]|] eqn:D; [|done]. cbn [complete] in E.
  destruct (enqueue identifier to text w) as [w1 o] eqn:Eq.
  assert (o = Returns (Ok tt) /\ w1 = w') as [-> ->] by (destruct o as [[[]|]| |]; by injection E as <-).
  clear E. unfold enqueue in Eq. rewrite gets_bind in Eq.
  apply bind_inv in Eq as [(w0 & item & En & Eq) | (o1 & En & Fo)]; [|by destruct o1 as [[|]| |]].
  injection En as <- En. apply outbound_item_ok in En as (n & id & Nd & -> & Tr & Lt & ->).
  apply bind_inv in Eq as [(w2 & [] & Ea & Eq) | (o1 & Ea & Fo)]; [|by destruct o1 as [[|]| |]].
  injection Eq as <-. split; [done|]. exists to, text, n, id. split_and!; [done..|]. cbv zeta.
  apply add_outbound_spec in Ea. inversion Ea as [V _ Q _ Dk _ | old V Ho Hid St _ | |]; (split; [done|]).
  - left. cbn. by rewrite Q in *.
  - right. split; [done|]. by exists old.
Qed.
End Guards.

(** At most 16 requests are handled at once, and one is refused only while 16 are. *)
Theorem gate_bounded g :
  rtc gate_step (mkGate ∅ ∅) g ->
  (size (gaRunning g) <= gateCapacity)%nat /\
  forall g' request, request ∉ gaRefused g -> g' = bounded_enter g request -> request ∈ gaRefused g' -> size (gaRunning g) = gateCapacity.
Proof.
  intros R. assert (size (gaRunning g) <= gateCapacity)%nat as B.
  { assert (size (gaRunning (mkGate ∅ ∅)) <= gateCapacity)%nat as B0 by (cbn [gaRunning]; rewrite size_empty; unfold gateCapacity; lia). revert B0.
    induction R as [|g g1 g2 St R IH]; [done|]. intros B0. apply IH. destruct St as [g request N|g request I].
    - unfold bounded_enter. destruct (Nat.ltb_spec (size (gaRunning g)) gateCapacity); cbn [gaRunning]; [|done].
      rewrite size_union by set_solver. rewrite size_singleton. lia.
    - cbn [bounded_leave gaRunning]. etrans; [apply subseteq_size|exact B0]. set_solver. }
  split; [done|]. intros g' request N -> I. unfold bounded_enter in I.
  destruct (Nat.ltb_spec (size (gaRunning g)) gateCapacity); cbn in I; [done|]. lia.
Qed.
