(* ===== verification/HttpAnswers.v ===== *)
(** * The answers of the SMS bridge's HTTP interfaces

    src/callbridge-sms-go/internal/bridge/http.go, [writeJSON]: the supervision of the container
    looks for one exact fragment in the text of an answer.  The file shows that the fragment
    tells good answers from refusals, and that every answer is JSON. *)

From S2P Require Import Prelude GoStd GoText GoJson GoTime Obex SmsStore StateJson Message MapSession Ami GoNet SmsConfig Media SmsService SmsHttp.

(** ** The fragment that shows a good answer, and where it occurs *)
Definition ok_fragment : bytes := json_text "'ok': true".
Definition contains (s sub : bytes) : Prop := exists a b, s = a ++ sub ++ b.

Lemma contains_r a s sub : contains s sub -> contains (a ++ s) sub.
Proof. intros (x & y & ->). exists (a ++ x), y. by rewrite <- app_assoc. Qed.
Lemma contains_l s b sub : contains s sub -> contains (s ++ b) sub.
Proof. intros (x & y & ->). exists x, (y ++ b). by rewrite <- !app_assoc. Qed.
Lemma contains_self s : contains s s.
Proof. exists [], []. by rewrite app_nil_r. Qed.
Lemma contains_lookup s sub : contains s sub -> exists i, forall k x, sub !! k = Some x -> s !! (i + k)%nat = Some x.
Proof. intros (a & b & ->). exists (length a). intros k x E. rewrite lookup_app_r by lia. replace (length a + k - length a)%nat with k by lia. by apply lookup_app_l_Some. Qed.

(** Inside a quoted string every double quote follows a backslash. *)
Definition guarded (t : bytes) : Prop := forall i, t !! i = Some 34 -> exists j, i = S j /\ t !! j = Some 92.
Lemma guarded_app a b : guarded a -> guarded b -> guarded (a ++ b).
Proof.
  intros Ga Gb i E. apply lookup_app_Some in E as [E | [L E]].
  - destruct (Ga i E) as (j & -> & Ej). exists j. split; [done|]. by apply lookup_app_l_Some.
  - destruct (Gb _ E) as (j & Ej & E92). exists (length a + j)%nat. split; [lia|]. rewrite lookup_app_r by lia. by replace (length a + j - length a)%nat with j by lia.
Qed.
Lemma guarded_free t : Forall (fun c => c <> 34) t -> guarded t.
Proof. intros F i E. rewrite Forall_lookup in F. by apply F in E. Qed.
Lemma quote_byte_guarded html c : 0 <= c < RuneSelf -> guarded (quote_byte html c).
Proof.
  intros Hc. unfold RuneSelf in Hc. unfold quote_byte. destruct (Z.eqb_spec c 34) as [->|N].
  { intros [|[|i]] E; [done|by exists 0%nat|done]. }
  destruct (Z.eqb_spec c 92) as [->|]; [by apply guarded_free; repeat constructor|]. cbn [orb].
  assert (forall d, 0 <= d -> hex_lower d <> 34) as Hx by (intros d Hd; unfold hex_lower; case_match; lia).
  repeat case_match; apply guarded_free; repeat constructor; try done; apply Hx; euclid.
Qed.
Lemma encoded_high r : RuneSelf <= r -> Forall (fun c => c <> 34) (encode_rune r).
Proof.
  intros L. unfold RuneSelf in L. unfold encode_rune. assert (128 <= (if valid_rune r then r else RuneError) /\ (if valid_rune r then r else RuneError) <= 0x10ffff) as [L1 L2].
  { destruct (valid_rune r) eqn:V; [apply valid_rune_spec in V; lia|by vm_compute]. }
  set (r' := if valid_rune r then r else RuneError) in *. clearbody r'. repeat case_match; bool_prop; repeat constructor; euclid.
Qed.
Lemma quote_guarded html n s : all_bytes s -> guarded (quote_loop html n s).
Proof.
  revert s. induction n as [|n IH]; intros s B; [by destruct s|]. destruct s as [|c s]; [done|]. cbn [quote_loop].
  apply Forall_cons in B as B'. destruct B' as [Bc Bs]. unfold in_width in Bc. destruct (Z.ltb_spec c RuneSelf) as [L|L].
  { apply guarded_app; [apply quote_byte_guarded; lia|by apply IH]. }
  destruct (DecodeRune (c :: s)) as [r size] eqn:D. destruct ((r =? RuneError) && (size =? 1)%nat) eqn:Er; [apply guarded_app; [by apply guarded_free; repeat constructor|by apply IH]|].
  destruct (DecodeRune_take (c :: s) r size B D Er ltac:(done)) as [Tk V]. pose proof (DecodeRune_high c s L) as Hh. rewrite D in Hh. cbn in Hh.
  destruct ((r =? 0x2028) || (r =? 0x2029)) eqn:Sp.
  - rewrite app_assoc. apply guarded_app; [|by apply IH, Forall_drop]. apply guarded_free. apply orb_true_iff in Sp as [->%Z.eqb_eq | ->%Z.eqb_eq]; by repeat constructor.
  - rewrite Tk. apply guarded_app; [by apply guarded_free, encoded_high, Hh|by apply IH, Forall_drop].
Qed.

(** A refusal never looks like a good answer, whatever its text. *)
Lemma failure_text e :
  MarshalIndent (payload_json (Failure e)) =
  (123 :: 10 :: json_text "  'error': '") ++ quote_loop true (length e) e ++ (json_text "'," ++ 10 :: json_text "  'ok': false" ++ [10; 125]).
Proof.
  unfold MarshalIndent. change (payload_json (Failure e)) with (JObj [(str "error", jstr e); (str "ok", JBool false)]). rewrite print_obj.
  cbn [print_fields print jstr]. unfold quote at 2. rewrite <- !app_assoc. reflexivity.
Qed.
Lemma failure_clean e : all_bytes e -> ~ contains (MarshalIndent (payload_json (Failure e))) ok_fragment.
Proof.
  intros B C. rewrite failure_text in C. apply contains_lookup in C as [i L]. pose proof (quote_guarded true (length e) e B) as G.
  set (q := quote_loop true (length e) e) in *. clearbody q. set (before := 123 :: _) in L. set (after := _ ++ 10 :: _) in L.
  pose proof (L 2%nat 107 eq_refl) as L2. pose proof (L 3%nat 34 eq_refl) as L3. pose proof (L 4%nat 58 eq_refl) as L4. pose proof (L 6%nat 116 eq_refl) as L6. clear L.
  apply lookup_app_Some in L3 as [L3 | [N3 L3]].
  { assert (before !! (i + 2)%nat = Some 107) as E2.
    { apply lookup_lt_Some in L3. rewrite lookup_app_l in L2 by lia. done. }
    vm_compute in E2, L3. do 20 (destruct i as [|i]; [done|]). done. }
  apply lookup_app_Some in L3 as [L3 | [N3' L3]].
  { destruct (G _ L3) as (j & Ej & E92). rewrite lookup_app_r in L2 by lia. replace (i + 2 - length before)%nat with j in L2 by lia.
    rewrite lookup_app_l in L2 by (by apply lookup_lt_Some in E92). congruence. }
  assert (forall k, (3 <= k)%nat -> (before ++ q ++ after) !! (i + k)%nat = after !! (i + 3 - length before - length q + (k - 3))%nat) as At.
  { intros k Hk. rewrite !lookup_app_r by lia. f_equal. lia. }
  rewrite At in L4, L6 by lia. revert L3 L4 L6. generalize (i + 3 - length before - length q)%nat as m. intros m L3 L4 L6.
  vm_compute in L3, L4, L6. do 30 (destruct m as [|m]; [done|]). done.
Qed.

Definition healthy (p : payload) : Prop := match p with Health h => heOK h = true | _ => True end.
Definition refuses (p : payload) : bool := match p with Failure _ => true | _ => false end.
Lemma fields_contain html indent dep fields k v :
  (k, v) ∈ fields -> contains (print_fields html indent dep fields) (quote html k ++ colon indent ++ print html indent (S dep) v).
Proof.
  induction fields as [|[k' v'] fields IH]; intros E; [by apply elem_of_nil in E|].
  assert (print_fields html indent dep ((k', v') :: fields) = gap indent (S dep) ++ (quote html k' ++ colon indent ++ print html indent (S dep) v') ++
    match fields with [] => [] | _ => [44] ++ print_fields html indent dep fields end) as -> by (destruct fields; rewrite <- ?app_assoc, ?app_nil_r; done).
  apply contains_r. apply elem_of_cons in E as [[= -> ->] | E]; [apply contains_l, contains_self|]. apply contains_r.
  destruct fields; [by apply elem_of_nil in E|]. by apply contains_r, IH.
Qed.
Lemma answer_shows p : healthy p -> refuses p = false -> contains (MarshalIndent (payload_json p)) ok_fragment.
Proof.
  intros Hp R. assert (exists kv fields, payload_json p = JObj (kv :: fields) /\ (str "ok", JBool true) ∈ kv :: fields) as (kv & fields & E & In).
  { destruct p as [e|h| |n isNil items|handle m|]; try done; cbn [healthy] in Hp; do 2 eexists; (split; [reflexivity|]); rewrite ?Hp; set_solver. }
  unfold MarshalIndent. rewrite E, print_obj. apply contains_r, contains_l. exact (fields_contain true true 0 _ _ _ In).
Qed.

Lemma obj_nesting n fields : Forall (fun kv => nesting kv.2 <= n)%nat fields -> (nesting (JObj fields) <= S n)%nat.
Proof. induction 1 as [|kv fields H F IH]; cbn [nesting] in *; lia. Qed.
Lemma arr_nesting n items : Forall (fun v => nesting v <= n)%nat items -> (nesting (JArr items) <= S n)%nat.
Proof. induction 1 as [|v items H F IH]; cbn [nesting] in *; lia. Qed.
Ltac each_field := repeat (apply Forall_app; split); unfold field, when; repeat case_match; repeat (apply Forall_cons; split); try apply Forall_nil_2; cbn [snd].
Lemma listing_nesting m : (nesting (listing_json m) <= 2)%nat.
Proof.
  apply obj_nesting. each_field; try (cbn; lia). transitivity 1%nat; [|lia]. apply obj_nesting, Forall_fmap, Forall_forall. intros kv _. cbn. lia.
Qed.
Lemma payload_nesting p : (nesting (payload_json p) <= 4)%nat.
Proof.
  destruct p as [e|h| |n isNil items|handle m|]; apply obj_nesting; try (each_field; cbn; lia).
  - repeat (apply Forall_app; split); try (each_field; cbn; lia). apply Forall_singleton. cbn [snd]. destruct isNil; [cbn; lia|].
    apply arr_nesting, Forall_fmap, Forall_forall. intros m _. apply listing_nesting.
  - repeat (apply Forall_app; split); try (each_field; cbn; lia). apply Forall_singleton. cbn [snd]. transitivity 1%nat; [|lia]. apply obj_nesting. each_field; cbn; lia.
Qed.

(** What a handler answers: at once, after [enqueue], after [submit], or when all places are taken. *)
Section Contract.
Context {File S A U : Type} `{StateFile File} (cfg : Config) (broker : option leAudioHealth) (uptime : World File S A U -> Z).
Inductive served (h : handling) : response -> Prop :=
| served_now r : h = Responds r -> served h r
| served_queued to text res : h = Enqueues to text -> served h (enqueue_answer res)
| served_command c finish reply s : h = Submits c finish -> served h (finish reply s).
Inductive http_answer : response -> Prop :=
| internal_answer request r (w : World File S A U) resp : served (internalHandler cfg broker uptime request r w) resp -> http_answer resp
| outbox_answer r (w : World File S A U) resp : served (outboxHandler cfg broker uptime r w) resp -> http_answer resp
| busy_answer : http_answer (failure 503 "busy").

(** A good answer has status 200, or is the health report of a service that is not ready. *)
Definition well_answered (r : response) : Prop :=
  match r.2 with
  | Failure _ => 400 <= r.1
  | Health h => heOK h = true /\ (r.1 = 200 \/ r.1 = 503 /\ heReady h = false)
  | _ => r.1 = 200
  end.
Lemma snapshot_answered w : well_answered (200, Health (snapshot cfg broker uptime w)) /\ well_answered (readinessCode (snapshot cfg broker uptime w), Health (snapshot cfg broker uptime w)).
Proof.
  unfold well_answered, readinessCode, snapshot. destruct (Counts (wStore w)). cbn [fst snd status_snapshot heOK heReady]. split; [by split; [|left]|]. split; [done|].
  destruct (_ && _); [by left|by right].
Qed.
Lemma send_answered r resp : served (handleSend r) resp -> well_answered resp.
Proof. unfold handleSend. destruct (decode_send r) as [[to text]|]; intros [? [= <-]|? ? [[]|] ?|? ? ? ? ?]; done. Qed.
Lemma list_answered request r onlyNew resp : served (handleList request r onlyNew) resp -> well_answered resp.
Proof.
  unfold handleList. destruct (queryInt r "max" 20 1 500); [destruct (queryInt r "offset" 0 0 65535)|]; intros [? [= <-]|? ? ? ?|? ? reply ? [= _ <-]]; try done.
  unfold list_answer. by destruct (reErr reply).
Qed.
Lemma get_answered request r resp : served (handleGet request r) resp -> well_answered resp.
Proof. intros [? [=]|? ? ? [=]|? ? reply ? [= _ <-]]. unfold get_answer. by destruct (reErr reply). Qed.
Lemma raw_answered request r resp : served (handleRaw request r) resp -> well_answered resp.
Proof.
  unfold handleRaw. destruct (decode_raw r); [case_match|]; intros [? [= <-]|? ? ? ?|? ? reply ? [= _ <-]]; try done. unfold raw_answer. by destruct (reErr reply).
Qed.
Lemma http_answered resp : http_answer resp -> well_answered resp.
Proof.
  assert (forall r resp, served (Responds r) resp -> well_answered r -> well_answered resp) as Now by (intros r resp' [? [= <-]|? ? ? ?|? ? ? ? ?]; done).
  intros [request r w resp' Sv|r w resp' Sv|]; [| |done].
  - unfold internalHandler in Sv. destruct (snapshot_answered w) as [S1 S2].
    repeat (case_match; [first [by eapply Now|by eapply list_answered|by eapply get_answered|by eapply send_answered|by eapply raw_answered]|]). by eapply Now.
  - unfold outboxHandler in Sv. destruct (snapshot_answered w) as [S1 S2]. repeat (case_match; [by eapply Now|]). by eapply send_answered.
Qed.

(** C28.  The supervision contract of [writeJSON]: the body of every answer is JSON that decodes to the
    value the handler gave, and it has the fragment ["ok": true] exactly when the answer is not a
    refusal, whatever the text of a refusal; a refusal has a status of 400 or more, and anything else
    200, or 503 when it is the health report of a service that is not ready. *)
Theorem answer_contract resp :
  http_answer resp -> readable (payload_json resp.2) ->
  parse_json (wrBody (writeJSON resp)) = Some (cleaned true (payload_json resp.2)) /\ wrStatus (writeJSON resp) = resp.1 /\ well_answered resp /\
  (contains (wrBody (writeJSON resp)) ok_fragment <-> refuses resp.2 = false).
Proof.
  intros Ha R. apply http_answered in Ha. destruct resp as [st p]. cbn [writeJSON marshal wrBody wrStatus fst snd] in *. split_and!; [|done|done|].
  - unfold parse_json, MarshalIndent. pose proof (payload_nesting p) as N.
    rewrite <- (app_nil_r (print true true 0 (payload_json p))), parse_one_print by (done || unfold maxNestingDepth; lia). done.
  - split; [|intros Rf; apply answer_shows; [by destruct p; try done; apply Ha|done]]. intros C. destruct p as [e| | | | |]; try done. exfalso. apply (failure_clean e); [apply R|done].
Qed.
End Contract.

(** ** What the API accepts can be stored

    The texts of a decoded request are UTF-8 and a destination is ASCII, so that the item queued
    for a request reads back from the state file as it was. *)
Lemma decode_send_text r body to text : hrBody r = Some body -> all_bytes body -> decode_send r = Ok (to, text) -> utf8 to /\ utf8 text.
Proof.
  intros E B D. unfold decode_send, decodeJSON in D. rewrite E in D. revert D. generalize (Z.to_nat (maximumHTTPBody + 1)) as n. intros n D.
  destruct (parse_one (take n body)) as [[v rest]|] eqn:P; [|done]. apply parse_one_spec in P as [U _]; [|by apply Forall_take].
  destruct (fill true send_setters v _) as [x|] eqn:F; [|done]. split_if_in D; [done|]. apply Ok_inj in D. subst x.
  apply (fill_keeps (fun x => utf8 x.1 /\ utf8 x.2)) in F; [done| |done|done]. unfold send_setters. each_setter.
Qed.
Lemma valid_destination item : validOutbound item = true -> utf8 (obTo item).
Proof.
  intros V. unfold validOutbound in V. repeat (split_if_in V; [done|]). apply orb_true_iff in V. rewrite !bool_decide_eq_true in V. bool_prop.
  assert (Forall (fun c => 0 <= c < RuneSelf) (TrimPrefix (obTo item) [43])) as F.
  { apply runes_low. eapply Forall_impl; [by apply forallb_Forall_true|]. intros c Hc%is_digit_spec. unfold RuneSelf. lia. }
  apply utf8_ascii. destruct V as [-> | ->]; [done|]. constructor; [done|done].
Qed.
Lemma accepted_storable r body to text n id now :
  hrBody r = Some body -> all_bytes body -> decode_send r = Ok (to, text) -> all_bytes id -> time_ok now = true ->
  validOutbound (mkOutbound (hex_string id) n text now) = true -> storable (mkOutbound (hex_string id) n text now) = true.
Proof.
  intros E B D Bi T V. destruct (decode_send_text _ _ _ _ E B D) as [_ U]. unfold storable. cbn [obID obTo obText obQueuedAt].
  pose proof (hex_string_utf8 id Bi) as Ui. pose proof (valid_destination _ V) as Ud. cbn [obTo] in Ud. unfold utf8 in *. by rewrite Ui, Ud, U, T.
Qed.

(** [decodeJSON] reads one byte over its bound but never looks whether it got it: after a request
    and blanks up to the bound anything may follow, although nothing may follow within it. *)
Theorem long_body_accepted method path remote query more :
  decode_send (mkHttp method path remote query (Some (json_text "{'to':'112','text':'hi'}" ++ replicate (Z.to_nat maximumHTTPBody) 32 ++ more))) =
  Ok (str "112", str "hi").
Proof. vm_compute. reflexivity. Qed.
Example trailing_refused : is_ok (decode_send (mkHttp [] [] [] [] (Some (json_text "{'to':'112','text':'hi'} x")))) = false.
Proof. vm_compute. reflexivity. Qed.

(** ** Instances *)
Example refused_text :
  wrBody (writeJSON (failure 404 "not found")) = 123 :: 10 :: json_text "  'error': 'not found'," ++ 10 :: json_text "  'ok': false" ++ [10; 125].
Proof. vm_compute. reflexivity. Qed.
Example queued_text :
  wrBody (writeJSON (200, QueuedOK)) = 123 :: 10 :: json_text "  'ok': true," ++ 10 :: json_text "  'queued': true" ++ [10; 125].
Proof. vm_compute. reflexivity. Qed.
(** Attributes are written in the order of their names; an empty listing is [null]. *)
Example listing_text :
  Marshal (listing_json (mkListing (str "0a") [] (str "d") [(str "b", str "<"); (str "a", str "1"); (str "b", str "2")])) =
  json_text "{'handle':'0a','datetime':'d','attrs':{'a':'1','b':'2'}}".
Proof. vm_compute. reflexivity. Qed.
Example no_messages : Marshal (payload_json (ListingOf 0 true [])) = json_text "{'count':0,'messages':null,'ok':true}".
Proof. vm_compute. reflexivity. Qed.
