(* ===== verification/SmsLoop.v ===== *)
(** * The MAP loop, one step at a time

    Models [mapLoop], [runConnected], [bootstrap], [drainOutbound] and [poll] of
    src/callbridge-sms-go/internal/bridge/service.go again, as a machine whose steps are what
    other goroutines can come between: each step takes the state store's lock for writing at
    most once, waits at most once in [select], and the rest of it is private to the loop (its
    session, the manager and media clients, the retry times).  A command is taken from the queue, executed
    ([Executing]) and answered ([Responding]) in three steps.  What [processEvent] and
    [executeCommand] read of the shared state, no other goroutine writes: the handles seen and
    whether the store is initialised are written by the loop only.

    The machine has every run of the loop as [SmsService] writes it ([mapLoop_steps], which ties
    the two forms together); [SmsSystem] composes it with the goroutines of the requests. *)

From S2P Require Import Prelude GoStd GoText Obex SmsStore Message MapSession Ami GoNet SmsConfig Media SmsService.

(** Where the loop is. *)
Inductive mode :=
| Top (backoff : Z)
| Resting (backoff : Z)
| Registering (backoff : Z)
| Booting | Initialising
| Draining | Sending (item : Outbound)
| Serving | Polling (items : list ListingMessage)
| Executing (c : mapCommand) | Responding (c : mapCommand) (r : commandResponse)
| Leaving (backoff : Z)
| Stopped | Crashed | Hung.
(** What a step may depend on: the answer of [connect], what [select] receives. *)
Inductive input (S : Type) := Connects (r : result S) | Proceeds | Receives (t : trigger).
Arguments Connects {_} _.
Arguments Proceeds {_}.
Arguments Receives {_} _.

Section Loop.
Context {File S A U : Type} `{StateFile File} `{MapClient S} `{AmiSender A} `{Uploader U} `{MimeLib}.
Variable cfg : Config.
#[local] Abbreviation W := (World File S A U).
#[local] Abbreviation MW := (M W).

(** Where the loop goes after a call that may fail: an error ends the session. *)
Definition goes {X} (fail : error -> mode) (ok : X -> mode) (r : W * outcome X) : W * mode :=
  let '(w, o) := r in
  (w, match o with Returns (Ok x) => ok x | Returns (Error e) => fail e | Panics => Crashed | Pending => Hung end).
Definition ends_session (e : error) : mode := Leaving second.
(** In [runConnected], an error of [poll] ends the session only when it is one of the transport. *)
Definition poll_fails (e : error) : mode := if IsTransportError e then Leaving second else Serving.

Definition cancelled (w : W) : bool := match wCancelAt w with Some t => t <=? wClock w | None => false end.

Definition baseline : MW unit :=
  let* messages := on_session (msListMessages inbox (cfPollMaxCount cfg) 0) in
  on_store (fun f s dk => MarkSeenMany f s dk (lmHandle <$> messages)).
Definition poll_list : MW (list ListingMessage) :=
  let* items := on_session (msListMessages inbox (cfPollMaxCount cfg) 0) in
  let* now := gets wClock in
  let* _ := on_status (polled now) in
  ret items.
Definition poll_item (item : ListingMessage) : MW unit :=
  let* seen := gets (fun w => HasSeen (wStore w) (lmHandle item)) in
  if seen || negb (supportedType (lmType item)) then ret tt
  else processEvent cfg (mkEvent (str "NewMessage") (lmHandle item) inbox (defaultType (lmType item)) (lmDateTime item) (str "poll")).

Definition receive (t : trigger) (w : W) : W * mode :=
  match t with
  | OnDone => (w, Leaving second)
  | OnEvent e => goes ends_session (fun _ => Serving) (processEvent cfg e w)
  | OnWake => (w <| wWake := false |>, Draining)
  | OnCommand c => (w, Executing c)
  | OnPoll => goes poll_fails (fun items => Polling (rev items)) (poll_list w)
  | OnKeepalive => goes ends_session (fun _ => Serving) (on_session msKeepalive w)
  end.

Definition loop_step (i : input S) (m : mode) (w : W) : option (W * mode) :=
  match m, i with
  | Top backoff, Connects r =>
      Some (if cancelled w then (w, Stopped)
            else match r with
                 | Error _ => (w, Resting backoff)
                 | Ok session => (w <| wSession := session |> <| wStatus := setMAP true (wStatus w) |>, Registering backoff)
                 end)
  | Resting backoff, Proceeds => Some (goes ends_session (fun _ => Top (nextBackoff backoff)) (sleepContext backoff w))
  | Registering backoff, Proceeds =>
      Some (goes (fun _ => Leaving backoff) (fun _ => Booting)
        ((let* _ := on_session (msRegisterNotifications true) in on_status (setNotifications true)) w))
  | Booting, Proceeds =>
      Some (if IsInitialized (wStore w) then (w, Draining) else goes ends_session (fun _ => Initialising) (baseline w))
  | Initialising, Proceeds => Some (goes ends_session (fun _ => Draining) (on_store SetInitialized w))
  | Draining, Proceeds =>
      Some (goes ends_session (fun item => match item with Some item => Sending item | None => Serving end) (on_store TakeOutbound w))
  | Sending item, Proceeds => Some (goes ends_session (fun _ => Draining) (send_item item w))
  | Serving, Receives t => Some (receive t w)
  | Polling [], Proceeds => Some (w, Serving)
  | Polling (item :: items), Proceeds => Some (goes poll_fails (fun _ => Polling items) (poll_item item w))
  | Executing c, Proceeds =>
      Some (if bool_decide (cmRequest c ∈ wEnded w) then (w, Serving) else goes ends_session (Responding c) (command_response c w))
  | Responding c r, Proceeds => Some (goes ends_session (fun _ => Serving) (respond c r w))
  | Leaving backoff, Proceeds =>
      Some (goes (fun _ => Resting backoff) (fun _ => Resting backoff)
        ((let* _ := on_status (setMAP false) in on_session msClose) w))
  | _, _ => None
  end.
Definition loop_rel (a b : W * mode) : Prop := exists i, loop_step i a.2 a.1 = Some b.

(** ** The loop of [SmsService] runs on the machine *)
Lemma loop_once i m w w' m' (c : W * mode) : loop_step i m w = Some (w', m') -> rtc loop_rel (w', m') c -> rtc loop_rel (w, m) c.
Proof. intros E R. eapply rtc_l; [by exists i|exact R]. Qed.
(** [m] takes the loop from [start] to the mode [goes] says. *)
Definition drives {X} (m : MW X) (start : mode) (fail : error -> mode) (ok : X -> mode) : Prop :=
  forall w w' o, m w = (w', o) -> exists m', rtc loop_rel (w, start) (w', m') /\ (o <> Pending -> m' = (goes fail ok (w', o)).2).
Lemma drives_step {X} (m : MW X) i start fail ok :
  (forall w, loop_step i start w = Some (goes fail ok (m w))) -> drives m start fail ok.
Proof.
  intros St w w' o E. specialize (St w). rewrite E in St. eexists. split; [|done].
  eapply loop_once; [exact St|apply rtc_refl].
Qed.
Lemma drives_ret {X} (x : X) start fail (ok : X -> mode) : ok x = start -> drives (ret x) start fail ok.
Proof. intros Ex w w' o [= <- <-]. exists start. by split; [apply rtc_refl|]. Qed.
Lemma drives_bind {X Y} (m : MW X) (k : X -> MW Y) start fail ok1 ok :
  drives m start fail ok1 -> (forall a, drives (k a) (ok1 a) fail ok) -> drives (bind m k) start fail ok.
Proof.
  intros Dm Dk w w' o E. apply bind_inv in E as [(w1 & a & E1 & E2) | (o1 & E1 & Fo)].
  - destruct (Dm _ _ _ E1) as (m1 & R1 & N1). rewrite N1 in R1 by done. destruct (Dk _ _ _ _ E2) as (m2 & R2 & N2).
    exists m2. split; [by etrans|done].
  - destruct (Dm _ _ _ E1) as (m1 & R1 & N1). exists m1. split; [done|]. intros N.
    destruct o1 as [[|]| |], o as [[|]| |]; try done; cbn in Fo; simplify_eq; by apply N1.
Qed.
Lemma drives_ext {X} (m m' : MW X) start fail ok : (forall w, m w = m' w) -> drives m start fail ok -> drives m' start fail ok.
Proof. intros Eq D w w' o E. apply D. by rewrite Eq. Qed.
Lemma bind_assoc {X Y Z} (m : MW X) (k : X -> MW Y) (h : Y -> MW Z) w : bind (bind m k) h w = bind m (fun x => bind (k x) h) w.
Proof. unfold bind. by destruct (m w) as [w1 [[x|e]| |]]. Qed.

Lemma drives_drain fuel : drives (drain fuel) Draining ends_session (fun _ => Serving).
Proof.
  induction fuel as [|fuel IH]; cbn [drain]; [intros w w' o [= <- <-]; exists Draining; by split; [apply rtc_refl|]|].
  eapply drives_bind; [by apply (drives_step _ Proceeds)|]. intros [item|]; [|by apply drives_ret].
  eapply drives_bind; [by apply (drives_step _ Proceeds)|]. intros []. apply IH.
Qed.
Lemma drives_poll_items items : drives (poll_items cfg items) (Polling items) poll_fails (fun _ => Serving).
Proof.
  induction items as [|item items IH]; cbn [poll_items].
  { eapply (drives_step _ Proceeds). by intros w. }
  eapply (drives_ext (let* _ := poll_item item in poll_items cfg items)).
  - intros w. unfold poll_item. rewrite bind_assoc. rewrite !gets_bind. by destruct (_ || _).
  - eapply drives_bind; [by apply (drives_step _ Proceeds)|]. intros []. apply IH.
Qed.
Lemma drives_poll : drives (poll cfg) Serving poll_fails (fun _ => Serving).
Proof.
  eapply (drives_ext (let* items := poll_list in poll_items cfg (rev items))).
  - intros w. unfold poll_list, poll, bind, on_session. by destruct (msListMessages _ _ _ _) as [s [[l|e]| |]].
  - eapply drives_bind; [by apply (drives_step _ (Receives OnPoll))|]. intros items. apply drives_poll_items.
Qed.

Lemma drives_command c : drives (executeCommand c) Serving ends_session (fun _ => Serving).
Proof.
  intros w w' o E. unfold executeCommand in E. rewrite gets_bind in E.
  assert (forall m', rtc loop_rel (w, Executing c) (w', m') -> rtc loop_rel (w, Serving) (w', m')) as Take.
  { intros m' R. by eapply (loop_once (Receives (OnCommand c))). }
  case_bool_decide as En.
  - injection E as <- <-. exists Serving. split; [|done]. apply Take. eapply (loop_once Proceeds); [|apply rtc_refl].
    cbn [loop_step]. by rewrite bool_decide_eq_true_2.
  - apply bind_inv in E as [(w1 & r & E1 & E2) | (o1 & E1 & Fo)].
    + destruct (drives_step (respond c r) Proceeds (Responding c r) ends_session (fun _ => Serving) (fun _ => eq_refl) _ _ _ E2) as (m' & R & N).
      exists m'. split; [|done]. apply Take. eapply (loop_once Proceeds); [|exact R]. cbn [loop_step]. rewrite bool_decide_eq_false_2 by done. by rewrite E1.
    + eexists. split; [apply Take; eapply (loop_once Proceeds); [|apply rtc_refl]; cbn [loop_step]; rewrite bool_decide_eq_false_2 by done; by rewrite E1|].
      intros N. destruct o1 as [[|]| |], o as [[|]| |]; try done; cbn in Fo; by subst.
Qed.

(** What [connected_loop] does next. *)
Definition after_trigger (stop : option unit) : mode := match stop with Some _ => Leaving second | None => Serving end.
Lemma drives_trigger t : drives (on_trigger cfg t) Serving ends_session after_trigger.
Proof.
  destruct t; cbn [on_trigger].
  - intros w w' o [= <- <-]. exists (Leaving second). split; [|done]. by eapply (loop_once (Receives OnDone)); [|apply rtc_refl].
  - eapply drives_bind; [by apply (drives_step _ (Receives (OnEvent e)))|]. intros []. by apply drives_ret.
  - eapply (drives_bind _ _ _ _ (fun _ => Draining)); [by apply (drives_step _ (Receives OnWake))|]. intros [].
    eapply (drives_bind _ _ _ _ (fun _ => Serving)); [|intros []; by apply drives_ret]. intros w w' o E. by eapply drives_drain.
  - eapply drives_bind; [apply drives_command|]. intros []. by apply drives_ret.
  - intros w w' o E. unfold bind, attempt in E. destruct (poll cfg w) as [w1 o1] eqn:Ep.
    destruct (drives_poll _ _ _ Ep) as (m' & R & N). destruct o1 as [[u|e]| |].
    + injection E as <- <-. exists m'. split; [done|]. intros _. by apply N.
    + specialize (N ltac:(done)). cbn in N. unfold poll_fails in N. exists m'. destruct (IsTransportError e); injection E as <- <-; by subst.
    + injection E as <- <-. exists m'. split; [done|]. intros _. by apply N.
    + injection E as <- <-. by exists m'.
  - eapply drives_bind; [by apply (drives_step _ (Receives OnKeepalive))|]. intros []. by apply drives_ret.
Qed.
Lemma drives_connected triggers : drives (connected_loop cfg triggers) Serving ends_session (fun _ => Leaving second).
Proof.
  induction triggers as [|t triggers IH]; cbn [connected_loop].
  { intros w w' o [= <- <-]. exists Serving. by split; [apply rtc_refl|]. }
  eapply drives_bind; [apply drives_trigger|]. intros [u|]; [by apply drives_ret|apply IH].
Qed.
Lemma drives_bootstrap : drives (bootstrap cfg) Booting ends_session (fun _ => Draining).
Proof.
  intros w w' o E. unfold bootstrap in E. rewrite gets_bind in E. destruct (IsInitialized (wStore w)) eqn:I.
  - injection E as <- <-. exists Draining. split; [|done]. eapply (loop_once Proceeds); [cbn; by rewrite I|apply rtc_refl].
  - assert ((let* _ := baseline in on_store SetInitialized) w = (w', o)) as E'.
    { rewrite <- E. unfold baseline. by rewrite bind_assoc. }
    apply bind_inv in E' as [(w1 & [] & E1 & E2) | (o1 & E1 & Fo)].
    + eexists. split; [|done]. eapply (loop_once Proceeds); [cbn; by rewrite I, E1|]. cbn.
      eapply (loop_once Proceeds); [cbn; by rewrite E2|apply rtc_refl].
    + eexists. split; [eapply (loop_once Proceeds); [cbn; by rewrite I, E1|apply rtc_refl]|].
      intros _. destruct o1 as [[|]| |], o as [[|]| |]; try done; cbn in Fo; by subst.
Qed.

Lemma drives_sleep {X} (k : MW X) backoff ok :
  drives k (Top (nextBackoff backoff)) ends_session ok -> drives (let* _ := sleepContext backoff in k) (Resting backoff) ends_session ok.
Proof. intros D. eapply drives_bind; [by apply (drives_step _ Proceeds)|]. by intros. Qed.
Lemma drives_leave {X} (k : MW X) backoff ok :
  drives k (Resting backoff) ends_session ok ->
  drives (let* _ := on_status (setMAP false) in let* _ := attempt (on_session msClose) in k) (Leaving backoff) ends_session ok.
Proof.
  intros D w w' o E. set (w1 := w <| wStatus := setMAP false (wStatus w) |>). rewrite (bind_ok _ _ w w1 tt) in E by done.
  unfold bind, attempt in E. destruct (on_session msClose w1) as [w2 o2] eqn:Ec.
  assert (rtc loop_rel (w, Leaving backoff) (w2, (goes (fun _ => Resting backoff) (fun _ : unit => Resting backoff) (w2, o2)).2)) as R.
  { eapply (loop_once Proceeds); [|apply rtc_refl]. unfold loop_step. do 2 f_equal. unfold bind, on_status, modify. fold w1. by rewrite Ec. }
  destruct o2 as [r| |]; [|injection E as <- <-; by eexists..].
  destruct (D _ _ _ E) as (m' & R' & N). exists m'. split; [|done]. etrans; [|exact R']. by destruct r.
Qed.
(** A session from [bootstrap] on: however it ends, the loop leaves it. *)
Lemma drives_session {X} (k : MW X) triggers ok :
  drives k (Leaving second) ends_session ok ->
  drives (let* ready := attempt (bootstrap cfg) in
          let* _ := (match ready with Ok _ => let* _ := attempt (runConnected cfg triggers) in ret tt | Error _ => ret tt end) in k)
    Booting ends_session ok.
Proof.
  intros D w w' o E. unfold bind at 1, attempt at 1 in E. destruct (bootstrap cfg w) as [w1 o1] eqn:Eb.
  destruct (drives_bootstrap _ _ _ Eb) as (m1 & R1 & N1).
  destruct o1 as [[u|e]| |]; [|specialize (N1 ltac:(done)); cbn in N1; subst m1..|].
  2: { destruct (D _ _ _ E) as (m' & R' & N). exists m'. split; [by etrans|done]. }
  2: { injection E as <- <-. by exists Crashed. }
  2: { injection E as <- <-. by exists m1. }
  specialize (N1 ltac:(done)). cbn in N1. subst m1.
  unfold bind at 1 2, attempt in E. destruct (runConnected cfg triggers w1) as [w2 o2] eqn:Er.
  assert (drives (runConnected cfg triggers) Draining ends_session (fun _ => Leaving second)) as Dr.
  { eapply (drives_bind _ _ _ _ (fun _ => Serving)); [|intros []; apply drives_connected]. intros x x' q Q. by eapply drives_drain. }
  destruct (Dr _ _ _ Er) as (m2 & R2 & N2). assert (rtc loop_rel (w, Booting) (w2, m2)) as R by by etrans.
  destruct o2 as [r| |]; [|injection E as <- <-; exists m2; split; [done|]; by intros; apply N2|injection E as <- <-; by exists m2].
  specialize (N2 ltac:(done)). assert (m2 = Leaving second) as -> by by destruct r.
  destruct (D _ _ _ E) as (m' & R' & N). exists m'. split; [by etrans|done].
Qed.
Lemma drives_mapLoop turns backoff : drives (mapLoop cfg turns backoff) (Top backoff) ends_session (fun _ => Stopped).
Proof.
  revert backoff. induction turns as [|[r triggers] turns IH]; intros backoff; cbn [mapLoop].
  { intros w w' o [= <- <-]. exists (Top backoff). by split; [apply rtc_refl|]. }
  intros w w' o E. rewrite gets_bind in E. fold (cancelled w) in E. destruct (cancelled w) eqn:C.
  { injection E as <- <-. exists Stopped. split; [|done]. eapply (loop_once (Connects r)); [cbn; by rewrite C|apply rtc_refl]. }
  destruct r as [session|e].
  2: { destruct (drives_sleep _ backoff _ (IH (nextBackoff backoff)) _ _ _ E) as (m' & R & N). exists m'. split; [|done].
       eapply (loop_once (Connects (Error e))); [cbn; by rewrite C|exact R]. }
  set (w1 := w <| wSession := session |> <| wStatus := setMAP true (wStatus w) |>).
  enough (exists m', rtc loop_rel (w1, Registering backoff) (w', m') /\ (o <> Pending -> m' = (goes ends_session (fun _ => Stopped) (w', o)).2)) as (m' & R & N).
  { exists m'. split; [|done]. eapply (loop_once (Connects (Ok session))); [cbn; by rewrite C|exact R]. }
  rewrite (bind_ok _ _ w (w <| wSession := session |>) tt), (bind_ok _ _ _ w1 tt) in E by done. clearbody w1. clear C w.
  unfold bind at 1, attempt at 1 in E. destruct (on_session (msRegisterNotifications true) w1) as [w2 o2] eqn:Er.
  destruct o2 as [[u|e]| |].
  - rewrite (bind_ok _ _ w2 (w2 <| wStatus := setNotifications true (wStatus w2) |>) tt) in E by done.
    apply drives_session with (ok := fun _ => Stopped) in E as (m' & R & N); [|apply drives_leave, drives_sleep, IH].
    exists m'. split; [|done]. eapply (loop_once Proceeds); [|exact R]. cbn [loop_step]. unfold bind at 1. rewrite Er. done.
  - destruct (drives_leave _ backoff _ (drives_sleep _ backoff _ (IH (nextBackoff backoff))) _ _ _ E) as (m' & R & N).
    exists m'. split; [|done]. eapply (loop_once Proceeds); [|exact R]. cbn [loop_step]. unfold bind at 1. by rewrite Er.
  - injection E as <- <-. exists Crashed. split; [|done]. eapply (loop_once Proceeds); [|apply rtc_refl]. cbn [loop_step]. unfold bind at 1. by rewrite Er.
  - injection E as <- <-. exists Hung. split; [|done]. eapply (loop_once Proceeds); [|apply rtc_refl]. cbn [loop_step]. unfold bind at 1. by rewrite Er.
Qed.

(** The machine has every run of the loop: whatever [mapLoop] does over a list of sessions and of
    what they receive, the machine does in steps, and it ends where the loop does: stopped
    when the loop returns, dead when it panics. *)
Theorem mapLoop_steps turns backoff w w' o :
  mapLoop cfg turns backoff w = (w', o) ->
  exists m', rtc loop_rel (w, Top backoff) (w', m') /\
    (o = Returns (Ok tt) -> m' = Stopped) /\ (o = Panics -> m' = Crashed).
Proof.
  intros E. destruct (drives_mapLoop turns backoff w w' o E) as (m' & R & N). exists m'. split; [exact R|].
  split; intros ->; by apply N.
Qed.
End Loop.
