(* ===== verification/SmsSystem.v ===== *)
(** * The SMS bridge as a whole

    The goroutines of src/callbridge-sms-go/internal/bridge (service.go, http.go) together: the MAP
    loop ([SmsLoop]), the handlers of the two HTTP servers, and the notification server that
    fills the event channel.  They share the state store, the status, the channels [events] (256
    places), [commands] (32) and [outboundWake] (1), and the response channel of each request.

    A label names the goroutine that moves; [sys_step] is its move, which touches shared state
    once: [enqueue] adds to the store in one step and signals in the next, [submit] sends on
    [commands] in one step and waits in another.  A request's context may end at any time.
    Any interleaving is a path of [sys_rel]. *)

From S2P Require Import Prelude GoStd GoText GoJson Obex SmsStore Message MapSession Mns Ami GoNet SmsConfig Media SmsService SmsHttp SmsLoop.

Definition commandCapacity : Z := 32.
Inductive listener := Internal | Outbox.
#[export] Instance listener_eq_dec : EqDecision listener.
Proof. solve_decision. Defined.

(** Where the goroutine of a request is: before [AddOutbound], between it and the signal, in the
    first and the second [select] of [submit], or done. *)
Inductive stage :=
| Enqueuing (to text : bytes)
| Signalling
| Submitting (c : mapCommand) (finish : commandResponse -> Store -> response)
| Awaiting (c : mapCommand) (finish : commandResponse -> Store -> response)
| Answered (r : response).

Record Sys (File S A U : Type) := mkSys {
  syWorld : World File S A U; syMode : mode;
  syEvents : list Event; syCommands : list mapCommand;
  syRequests : gmap nat stage;
  syInternal : gate; syOutbox : gate
}.
Arguments mkSys {_ _ _ _} _ _ _ _ _ _ _.
Arguments syWorld {_ _ _ _} _.
Arguments syMode {_ _ _ _} _.
Arguments syEvents {_ _ _ _} _.
Arguments syCommands {_ _ _ _} _.
Arguments syRequests {_ _ _ _} _.
Arguments syInternal {_ _ _ _} _.
Arguments syOutbox {_ _ _ _} _.
#[export] Instance Sys_fields File S A U : Fields (Sys File S A U) := {|
  fields x := mkSys (syWorld x) (syMode x) (syEvents x) (syCommands x) (syRequests x) (syInternal x) (syOutbox x) |}.

Inductive label (S : Type) :=
| LoopMoves (i : input S)
| LoopTakesEvent
| LoopTakesCommand
| Notified (e : Event)
| MNSStatus (registered connected : bool)
| Arrives (id : nat) (l : listener) (r : HttpRequest)
| Adds (id : nat) (identifier : option bytes)
| Signals (id : nat)
| SendsCommand (id : nat)
| ContextEnds (id : nat)
| GivesUp (id : nat)
| TakesResponse (id : nat)
| TimePasses (d : Z).
Arguments LoopMoves {_} _.
Arguments LoopTakesEvent {_}.
Arguments LoopTakesCommand {_}.
Arguments Notified {_} _.
Arguments MNSStatus {_} _ _.
Arguments Arrives {_} _ _ _.
Arguments Adds {_} _ _.
Arguments Signals {_} _.
Arguments SendsCommand {_} _.
Arguments ContextEnds {_} _.
Arguments GivesUp {_} _.
Arguments TakesResponse {_} _.
Arguments TimePasses {_} _.

Definition unavailable : commandResponse := mkResponse [] no_message (Some (New "MAP session unavailable")).
Definition gave_up : commandResponse := mkResponse [] no_message (Some Canceled).

Section System.
Context {File S A U : Type} `{StateFile File} `{MapClient S} `{AmiSender A} `{Uploader U} `{MimeLib}.
Variable cfg : Config.
Variable broker : option leAudioHealth.
Variable uptime : World File S A U -> Z.
#[local] Abbreviation W := (World File S A U).
#[local] Abbreviation System := (Sys File S A U).

(** ** Steps of a request *)

(** The handler returns: the semaphore's place is free and the request's context over. *)
Definition answer (id : nat) (r : response) (s : System) : System :=
  s <| syRequests := <[id := Answered r]> (syRequests s) |>
    <| syWorld := (syWorld s) <| wEnded := {[id]} ∪ wEnded (syWorld s) |> |>
    <| syInternal := bounded_leave (syInternal s) id |> <| syOutbox := bounded_leave (syOutbox s) id |>.
Definition becomes (id : nat) (st : stage) (s : System) : System := s <| syRequests := <[id := st]> (syRequests s) |>.

(** [bounded]: each handler has its semaphore. *)
Definition gate_of (l : listener) (s : System) : gate := match l with Internal => syInternal s | Outbox => syOutbox s end.
Definition enter (l : listener) (id : nat) (s : System) : System :=
  match l with
  | Internal => s <| syInternal := bounded_enter (syInternal s) id |>
  | Outbox => s <| syOutbox := bounded_enter (syOutbox s) id |>
  end.
Definition route (l : listener) (id : nat) (r : HttpRequest) (w : W) : handling :=
  match l with
  | Internal => internalHandler cfg broker uptime id r w
  | Outbox => outboxHandler cfg broker uptime r w
  end.
(** The handler up to its first wait: [submit] refuses at once when there is no session. *)
Definition dispatch (id : nat) (h : handling) (s : System) : System :=
  match h with
  | Responds resp => answer id resp s
  | Enqueues to text => becomes id (Enqueuing to text) s
  | Submits c finish =>
      if negb (connected (wStatus (syWorld s))) then answer id (finish unavailable (wStore (syWorld s))) s
      else becomes id (Submitting c finish) s
  end.
Definition arrive (l : listener) (id : nat) (r : HttpRequest) (s : System) : System :=
  if (size (gaRunning (gate_of l s)) <? gateCapacity)%nat
  then dispatch id (route l id r (syWorld s)) (enter l id s)
  else answer id (failure 503 "busy") (enter l id s).

(** [enqueue] up to [AddOutbound]; a process killed in the save is dead for every goroutine. *)
Definition add (id : nat) (identifier : option bytes) (to text : bytes) (s : System) : System :=
  match outbound_item identifier to text (wClock (syWorld s)) with
  | Error e => answer id (enqueue_answer (Error e)) s
  | Ok item =>
      let '(w, o) := add_outbound item (syWorld s) in
      let s := s <| syWorld := w |> in
      match o with
      | Returns (Ok _) => becomes id Signalling s
      | Returns (Error e) => answer id (enqueue_answer (Error e)) s
      | _ => s <| syMode := Crashed |>
      end
  end.

(** A send of the notification server, which does not wait for room. *)
Definition notify (e : Event) (s : System) : System :=
  if len (syEvents s) <? queueCapacity then s <| syEvents := syEvents s ++ [e] |>
  else s <| syWorld := (syWorld s) <| wStatus := dropped (wStatus (syWorld s)) |> |>.

Definition loop_moves (i : input S) (s : System) : option System :=
  '(w, m) ← loop_step cfg i (syMode s) (syWorld s); Some (s <| syWorld := w |> <| syMode := m |>).

(** What [select] may receive apart from the two queues. *)
Definition ready (t : trigger) (w : W) : bool :=
  match t with OnDone => cancelled w | OnWake => wWake w | OnPoll | OnKeepalive => true | OnEvent _ | OnCommand _ => false end.

Definition live_step (l : label S) (s : System) : option System :=
  match l with
  | LoopMoves i =>
      match i with
      | Receives t => if ready t (syWorld s) then loop_moves i s else None
      | _ => loop_moves i s
      end
  | LoopTakesEvent =>
      match syEvents s with e :: rest => loop_moves (Receives (OnEvent e)) (s <| syEvents := rest |>) | [] => None end
  | LoopTakesCommand =>
      match syCommands s with c :: rest => loop_moves (Receives (OnCommand c)) (s <| syCommands := rest |>) | [] => None end
  | Notified e => Some (notify e s)
  | MNSStatus registered connected =>
      Some (s <| syWorld := (syWorld s) <| wStatus := setMNSConnected connected (setMNSRegistered registered (wStatus (syWorld s))) |> |>)
  | Arrives id l r => match syRequests s !! id with None => Some (arrive l id r s) | Some _ => None end
  | Adds id identifier => match syRequests s !! id with Some (Enqueuing to text) => Some (add id identifier to text s) | _ => None end
  | Signals id =>
      match syRequests s !! id with
      | Some Signalling => Some (answer id (enqueue_answer (Ok tt)) (s <| syWorld := (signal (syWorld s)).1 |>))
      | _ => None
      end
  | SendsCommand id =>
      match syRequests s !! id with
      | Some (Submitting c finish) =>
          if len (syCommands s) <? commandCapacity then Some (becomes id (Awaiting c finish) (s <| syCommands := syCommands s ++ [c] |>)) else None
      | _ => None
      end
  | ContextEnds id =>
      match syRequests s !! id with
      | Some (Answered _) | None => None
      | Some _ => Some (s <| syWorld := (syWorld s) <| wEnded := {[id]} ∪ wEnded (syWorld s) |> |>)
      end
  | GivesUp id =>
      match syRequests s !! id with
      | Some (Submitting c finish) | Some (Awaiting c finish) =>
          if bool_decide (id ∈ wEnded (syWorld s)) then Some (answer id (finish gave_up (wStore (syWorld s))) s) else None
      | _ => None
      end
  | TakesResponse id =>
      match syRequests s !! id, wResponses (syWorld s) !! id with
      | Some (Awaiting c finish), Some r =>
          Some (answer id (finish r (wStore (syWorld s))) (s <| syWorld := (syWorld s) <| wResponses := delete id (wResponses (syWorld s)) |> |>))
      | _, _ => None
      end
  | TimePasses d => if 0 <=? d then Some (s <| syWorld := (syWorld s) <| wClock := wClock (syWorld s) + d |> |>) else None
  end.
Definition sys_step (l : label S) (s : System) : option System :=
  match syMode s with Crashed => None | _ => live_step l s end.
Definition sys_rel (s s' : System) : Prop := exists l, sys_step l s = Some s'.

(** The service as [New] leaves it, on a given store. *)
Definition started (w : W) : System := mkSys w (Top second) [] [] ∅ (mkGate ∅ ∅) (mkGate ∅ ∅).

(** ** What the steps of the loop leave alone *)
#[local] Abbreviation queue w := (dsOutbound (stData (wStore w))).
Definition queued (tr : list effect) : list Outbound := tr ≫= fun e => match e with Queued i => [i] | _ => [] end.
Definition responses (tr : list effect) : list (mapCommand * commandResponse) :=
  tr ≫= fun e => match e with Responded c r => [(c, r)] | _ => [] end.
Lemma queued_app a b : queued (a ++ b) = queued a ++ queued b.
Proof. apply bind_app. Qed.
Lemma responses_app a b : responses (a ++ b) = responses a ++ responses b.
Proof. apply bind_app. Qed.

(** The parts the loop shares with the requests. *)
Record stays (w w' : W) : Prop := {
  sta_queue : queue w' = queue w; sta_wake : wWake w' = wWake w; sta_ended : wEnded w' = wEnded w;
  sta_responses : wResponses w' = wResponses w;
  sta_queued : queued (wTrace w') = queued (wTrace w); sta_attempted : attempted (wTrace w') = attempted (wTrace w);
  sta_results : results (wTrace w') = results (wTrace w);
  sta_responded : responses (wTrace w') = responses (wTrace w)
}.
#[local] Instance stays_preorder : PreOrder stays.
Proof. split; [done|]. intros a b c [] []. split; congruence. Qed.
Lemma stays_note e : queued [e] = [] -> attempted [e] = [] -> results [e] = [] -> responses [e] = [] -> respects stays (note e).
Proof.
  intros Q T Re R. apply respects_modify. intros w.
  split; try done; cbn; rewrite ?queued_app, ?attempted_app, ?results_app, ?responses_app, ?Q, ?T, ?Re, ?R; apply app_nil_r.
Qed.
Lemma stays_store {X} (op : option fault -> Store -> disk File -> option Store * disk File * result X) :
  (forall f s dk s' dk' r, op f s dk = (Some s', dk', r) -> dsOutbound (stData s') = dsOutbound (stData s)) -> respects stays (on_store op).
Proof.
  intros G w w' o E. unfold on_store in E. destruct (op _ (wStore w) (wDisk w)) as [[[s|] dk] r] eqn:Eo; injection E as <- _; [|done].
  apply G in Eo. by split.
Qed.
Lemma MarkSeenMany_queue f (s : Store) (dk : disk File) hs s' dk' r :
  MarkSeenMany f s dk hs = (Some s', dk', r) -> dsOutbound (stData s') = dsOutbound (stData s).
Proof.
  unfold MarkSeenMany. destruct hs; [by intros [= <- _ _]|]. case_match; [by intros [= <- _ _]|].
  destruct (add_handles _ _ _ _) as [[order seen] changed]. case_match; [by intros [= <- _ _]|].
  repeat case_match; intros E; simplify_eq; done.
Qed.
Lemma SetInitialized_queue f (s : Store) (dk : disk File) s' dk' r :
  SetInitialized f s dk = (Some s', dk', r) -> dsOutbound (stData s') = dsOutbound (stData s).
Proof. unfold SetInitialized. repeat case_match; intros E; simplify_eq; done. Qed.

Ltac stay :=
  repeat first
    [ match goal with |- respects stays (bind _ _) => apply (respects_bind stays); [|intros] end
    | apply (respects_ret stays) | apply (respects_throw stays) | apply (respects_pending stays)
    | apply (respects_gets stays) | apply (respects_attempt stays)
    | apply respects_session; intros; split; reflexivity
    | apply stays_note; reflexivity | apply respects_modify; intros; split; reflexivity
    | apply stays_store; intros; first [by eapply MarkSeenMany_queue | by eapply SetInitialized_queue]
    | case_match ].

Lemma stays_sleep delay : respects stays (sleepContext delay).
Proof. intros w w' o. unfold sleepContext. repeat case_match; intros [= <- _]; by split. Qed.
Lemma stays_fetch delays folder handle last : respects stays (fetch delays folder handle last).
Proof. revert last. induction delays as [|d delays IH]; intros last; cbn [fetch]; stay; [apply stays_sleep|apply IH]. Qed.
Lemma stays_consume handle : respects stays (consume_failed handle).
Proof. unfold consume_failed, markSeen, MarkSeen, on_status. stay. Qed.
Lemma stays_upload attachments : respects stays (upload_all attachments).
Proof.
  induction attachments as [|a attachments IH]; cbn [upload_all]; stay; [|apply IH].
  intros w w' o E. destruct (mediaUpload (wMedia w) a) as [u r]. injection E as <- _. by split.
Qed.
Lemma stays_deliver handle recipient sender ti ds : respects stays (deliver handle recipient sender ti ds).
Proof.
  revert ti. induction ds as [|d ds IH]; intros ti; cbn [deliver]; cbv zeta; [apply (respects_ret stays)|].
  apply (respects_bind stays); [by apply stays_note|intros _]. apply (respects_bind stays); [|intros [|e]; [apply IH|apply (respects_ret stays)]].
  intros w w' o E. destruct (amiSendMessage _ _ _ _ _ _) as [a r]. injection E as <- _. by split.
Qed.
Lemma stays_deliver_all recipients handle sender ds b : respects stays (deliver_all recipients handle sender ds b).
Proof. revert b. induction recipients as [|r recipients IH]; intros b; cbn [deliver_all]; stay; [apply stays_deliver|apply IH]. Qed.
Lemma stays_defer handle : respects stays (deferMedia handle).
Proof. intros w w' o [= <- _]. by split. Qed.
Lemma stays_forward event parsed : respects stays (forward cfg event parsed).
Proof.
  unfold forward, markSeen, MarkSeen, on_status. cbv zeta.
  stay; auto using stays_consume, stays_upload, stays_defer, stays_deliver_all.
Qed.
Lemma stays_processEvent event : respects stays (processEvent cfg event).
Proof. unfold processEvent. cbv zeta. stay; auto using stays_consume, stays_fetch, stays_forward. Qed.

(** ** What a step of the loop may do *)
Definition in_flight (m : mode) : list Outbound := match m with Sending item => [item] | _ => [] end.
(** The command being executed. *)
Definition current (m : mode) : list mapCommand := match m with Executing c | Responding c _ => [c] | _ => [] end.
(** In [select], or handling what it received without looking at the outbound queue. *)
Definition attentive (m : mode) : bool := match m with Serving | Polling _ | Executing _ | Responding _ _ => true | _ => false end.
Definition gone (m : mode) : Prop := m = Crashed \/ m = Hung.
Definition no_command (i : input S) : Prop := forall c, i <> Receives (OnCommand c).

Inductive moved (i : input S) (m : mode) (w : W) (m' : mode) (w' : W) : Prop :=
| mv_stays lost :
    stays w w' -> in_flight m = [] -> in_flight m' = [] -> (attentive m' = true -> attentive m = true \/ queue w = []) ->
    current m = lost ++ current m' -> Forall (fun c => cmRequest c ∈ wEnded w \/ gone m') lost -> no_command i -> moved i m w m' w'
| mv_taken item :
    m = Draining -> m' = Sending item -> queue w = item :: queue w' -> wWake w' = wWake w -> wEnded w' = wEnded w ->
    wResponses w' = wResponses w -> wTrace w' = wTrace w -> no_command i -> moved i m w m' w'
| mv_sent item notes :
    m = Sending item -> in_flight m' = [] -> current m' = [] -> attentive m' = false -> queue w' = queue w -> wWake w' = wWake w -> wEnded w' = wEnded w ->
    wResponses w' = wResponses w -> wTrace w' = wTrace w ++ Attempted item :: notes ->
    (notes = [] /\ gone m' \/ exists r, notes = [Confirmed item r]) -> no_command i -> moved i m w m' w'
| mv_woken : i = Receives OnWake -> m = Serving -> m' = Draining -> w' = w <| wWake := false |> -> moved i m w m' w'
| mv_took c : i = Receives (OnCommand c) -> m = Serving -> m' = Executing c -> w' = w -> moved i m w m' w'
| mv_command c r :
    no_command i -> m = Responding c r -> in_flight m' = [] -> current m' = [] -> queue w' = queue w -> wWake w' = wWake w -> wEnded w' = wEnded w ->
    wTrace w' = wTrace w ++ [Responded c r] ->
    wResponses w' = match wResponses w !! cmRequest c with None => <[cmRequest c := r]> (wResponses w) | Some _ => wResponses w end ->
    moved i m w m' w'.
(** A step that keeps the command it executes, or has none. *)
Lemma mv_keeps i m w m' w' :
  stays w w' -> in_flight m = [] -> in_flight m' = [] -> (attentive m' = true -> attentive m = true \/ queue w = []) -> current m = current m' ->
  no_command i -> moved i m w m' w'.
Proof. intros. by apply (mv_stays _ _ _ _ _ []). Qed.

(** A command changes nothing but the session until it has its response, and does not fail. *)
Lemma command_response_cases c (w : W) :
  exists s, (exists r, command_response c w = (w <| wSession := s |>, Returns (Ok r))) \/
    command_response c w = (w <| wSession := s |>, Panics) \/ command_response c w = (w <| wSession := s |>, Pending).
Proof.
  assert (forall X (m : M S X) (k : result X -> commandResponse), exists s,
    (exists r, (let* r := attempt (on_session m) in ret (k r)) w = (w <| wSession := s |>, Returns (Ok r))) \/
    (let* r := attempt (on_session m) in ret (k r)) w = (w <| wSession := s |>, Panics) \/
    (let* r := attempt (on_session m) in ret (k r)) w = (w <| wSession := s |>, Pending)) as G.
  { intros X m k. unfold bind, attempt, on_session. destruct (m (wSession w)) as [s [r| |]]; exists s; [left; by eexists|right; by left|right; by right]. }
  unfold command_response. destruct (cmKind c); [apply G..|]. exists (wSession w). left. eexists. by destruct w.
Qed.
Lemma Executing_moves c w w' m' :
  (if bool_decide (cmRequest c ∈ wEnded w) then (w, Serving) else goes ends_session (Responding c) (command_response c w)) = (w', m') ->
  moved Proceeds (Executing c) w m' w'.
Proof.
  case_bool_decide as En.
  { intros [= <- <-]. apply (mv_stays _ _ _ _ _ [c]); try done; [by left|]. apply Forall_singleton. by left. }
  destruct (command_response_cases c w) as (s & [[r E] | [E | E]]); rewrite E; intros [= <- <-].
  - apply mv_keeps; try done. by left.
  - apply (mv_stays _ _ _ _ _ [c]); try done. apply Forall_singleton. right. by left.
  - apply (mv_stays _ _ _ _ _ [c]); try done. apply Forall_singleton. right. by right.
Qed.
Lemma Responding_moves c r w w' m' :
  goes ends_session (fun _ => Serving) (respond c r w) = (w', m') -> moved Proceeds (Responding c r) w m' w'.
Proof.
  unfold respond, bind, note, send_response, modify. intros X. apply (mv_command _ _ _ _ _ c r); try done.
  all: destruct (reErr r) as [e|]; [destruct (IsTransportError e)|]; injection X as <- <-; try done.
  all: cbn; by destruct (wResponses w !! cmRequest c).
Qed.

Lemma goes_stays {X} i m (fail : error -> mode) (ok : X -> mode) (op : M W X) w w' m' :
  respects stays op -> goes fail ok (op w) = (w', m') -> in_flight m = [] -> current m = [] ->
  (forall e, in_flight (fail e) = [] /\ current (fail e) = [] /\ (attentive (fail e) = true -> attentive m = true)) ->
  (forall x, in_flight (ok x) = [] /\ current (ok x) = [] /\ (attentive (ok x) = true -> attentive m = true)) ->
  no_command i -> moved i m w m' w'.
Proof.
  intros St E F Cm Fa Ok_ N. unfold goes in E. destruct (op w) as [w1 o] eqn:Eo. injection E as <- <-.
  apply St in Eo. apply mv_keeps; [done|done|..|done].
  - destruct o as [[x|e]| |]; [apply Ok_|apply Fa|done..].
  - intros At. left. destruct o as [[x|e]| |]; [by apply (Ok_ x)|by apply (Fa e)|done..].
  - rewrite Cm. destruct o as [[x|e]| |]; [by destruct (Ok_ x) as (_ & -> & _)|by destruct (Fa e) as (_ & -> & _)|done..].
Qed.
Lemma Draining_moves w w' m' :
  goes ends_session (fun item => match item with Some item => Sending item | None => Serving end) (on_store TakeOutbound w) = (w', m') ->
  moved Proceeds Draining w m' w'.
Proof.
  unfold goes, on_store. destruct (TakeOutbound _ (wStore w) (wDisk w)) as [[[s|] dk] r] eqn:Et; [|intros [= <- <-]; by apply mv_keeps].
  apply take_queue in Et. intros [= <- <-]. destruct r as [[item|]|e].
  - by apply (mv_taken _ _ _ _ _ item).
  - destruct Et as [Q ->]. apply mv_keeps; try done. intros _. by right.
  - subst s. by apply mv_keeps.
Qed.
Lemma Sending_moves item w w' m' :
  goes ends_session (fun _ => Draining) (send_item item w) = (w', m') -> moved Proceeds (Sending item) w m' w'.
Proof.
  unfold goes. destruct (send_item item w) as [w1 o] eqn:E. intros [= <- <-].
  apply send_item_spec in E as (notes & T & St & Wk & En & Rs & _ & No).
  apply (mv_sent _ _ _ _ _ item notes); try done; [by destruct o as [[]| |]..|by rewrite St|].
  destruct o as [r| |]; [right; by exists r|left; split; [done|by left]|left; split; [done|by right]].
Qed.
Lemma receive_moves t w w' m' : receive cfg t w = (w', m') -> moved (Receives t) Serving w m' w'.
Proof.
  destruct t as [|e| |c| |]; cbn [receive].
  - intros [= <- <-]. by apply mv_keeps.
  - intros E. eapply goes_stays; [apply (stays_processEvent e)|exact E|done..].
  - intros [= <- <-]. by apply mv_woken.
  - intros [= <- <-]. by apply (mv_took _ _ _ _ _ c).
  - intros E. eapply goes_stays; [|exact E|done|done|intros e; unfold poll_fails; by case_match|done..]. unfold poll_list, on_status. stay.
  - intros E. eapply (goes_stays _ _ _ _ (on_session msKeepalive)); [stay|exact E|done..].
Qed.
Lemma poll_item_stays item : respects stays (poll_item cfg item).
Proof. unfold poll_item. stay. apply stays_processEvent. Qed.

Lemma loop_moved i m w w' m' : loop_step cfg i m w = Some (w', m') -> moved i m w m' w'.
Proof.
  destruct m as [b|b|b| | | |item| |[|item items]|c|c rr|b| | |], i as [r| |t]; cbn [loop_step]; intros E; try discriminate E; apply (inj Some) in E.
  - destruct (cancelled w); [injection E as <- <-; by apply mv_keeps|]. destruct r as [session|e]; injection E as <- <-; by apply mv_keeps.
  - eapply goes_stays; [apply (stays_sleep b)|exact E|done..].
  - eapply goes_stays; [|exact E|done..]. unfold on_status. stay.
  - destruct (IsInitialized (wStore w)); [injection E as <- <-; by apply mv_keeps|].
    eapply (goes_stays _ _ _ _ (baseline cfg)); [|exact E|done..]. unfold baseline. stay.
  - eapply (goes_stays _ _ _ _ (on_store SetInitialized)); [stay|exact E|done..].
  - by apply Draining_moves.
  - by apply Sending_moves.
  - by apply receive_moves.
  - injection E as <- <-. apply mv_keeps; try done. by left.
  - eapply goes_stays; [apply (poll_item_stays item)|exact E|done|done|intros e; unfold poll_fails; by case_match|done..].
  - by apply Executing_moves.
  - by apply Responding_moves.
  - eapply goes_stays; [|exact E|done..]. unfold on_status. stay.
Qed.

(** ** The steps by what they do *)

(** The steps of a request on the world, [AddOutbound] and the signal apart. *)
Record aside (w w' : W) : Prop := {
  as_store : wStore w' = wStore w; as_wake : wWake w' = wWake w; as_trace : wTrace w' = wTrace w;
  as_responses : wResponses w' = wResponses w; as_ended : wEnded w ⊆ wEnded w'
}.
Inductive stepped (s s' : System) : Prop :=
| st_loop i :
    ~ gone (syMode s) -> moved i (syMode s) (syWorld s) (syMode s') (syWorld s') -> syRequests s' = syRequests s ->
    match i with Receives (OnCommand c) => syCommands s = c :: syCommands s' | _ => syCommands s' = syCommands s end -> stepped s s'
| st_added id to text item :
    syRequests s !! id = Some (Enqueuing to text) -> adding item (syWorld s) (syWorld s') (Returns (Ok tt)) ->
    wWake (syWorld s') = wWake (syWorld s) -> wEnded (syWorld s') = wEnded (syWorld s) -> wResponses (syWorld s') = wResponses (syWorld s) ->
    syMode s' = syMode s -> syRequests s' = <[id := Signalling]> (syRequests s) -> syCommands s' = syCommands s -> stepped s s'
| st_killed :
    aside (syWorld s) (syWorld s') -> syMode s' = Crashed ->
    syRequests s' = syRequests s -> syCommands s' = syCommands s -> stepped s s'
| st_signalled id r :
    syRequests s !! id = Some Signalling -> wStore (syWorld s') = wStore (syWorld s) -> wWake (syWorld s') = true ->
    wTrace (syWorld s') = wTrace (syWorld s) -> wResponses (syWorld s') = wResponses (syWorld s) ->
    wEnded (syWorld s') = {[id]} ∪ wEnded (syWorld s) -> syMode s' = syMode s ->
    syRequests s' = <[id := Answered r]> (syRequests s) -> syCommands s' = syCommands s -> stepped s s'
| st_moves id from to :
    aside (syWorld s) (syWorld s') -> syMode s' = syMode s -> syCommands s' = syCommands s ->
    syRequests s !! id = from -> from <> Some Signalling -> syRequests s' = <[id := to]> (syRequests s) ->
    match to with
    | Enqueuing _ _ => from = None
    | Submitting c _ => from = None /\ cmRequest c = id
    | Signalling | Awaiting _ _ => False
    | Answered _ => id ∈ wEnded (syWorld s')
    end -> stepped s s'
| st_sent id c finish :
    aside (syWorld s) (syWorld s') -> syMode s' = syMode s -> syRequests s !! id = Some (Submitting c finish) ->
    syRequests s' = <[id := Awaiting c finish]> (syRequests s) -> syCommands s' = syCommands s ++ [c] ->
    len (syCommands s) < commandCapacity -> stepped s s'
| st_took id c finish r :
    syRequests s !! id = Some (Awaiting c finish) -> wResponses (syWorld s) !! id = Some r ->
    wStore (syWorld s') = wStore (syWorld s) -> wWake (syWorld s') = wWake (syWorld s) -> wTrace (syWorld s') = wTrace (syWorld s) ->
    wResponses (syWorld s') = delete id (wResponses (syWorld s)) -> wEnded (syWorld s') = {[id]} ∪ wEnded (syWorld s) ->
    syMode s' = syMode s -> syRequests s' = <[id := Answered (finish r (wStore (syWorld s)))]> (syRequests s) ->
    syCommands s' = syCommands s -> stepped s s'
| st_aside :
    aside (syWorld s) (syWorld s') -> syMode s' = syMode s -> syRequests s' = syRequests s -> syCommands s' = syCommands s -> stepped s s'.

Lemma answer_moves id r (s0 s : System) from :
  syWorld s = syWorld s0 -> syMode s = syMode s0 -> syCommands s = syCommands s0 -> syRequests s = syRequests s0 ->
  syRequests s0 !! id = from -> from <> Some Signalling -> stepped s0 (answer id r s).
Proof.
  intros Ew Em Ec Er F N. eapply (st_moves _ _ id from (Answered r)); try done; cbn; rewrite ?Ew, ?Er; try done; [|set_solver].
  split; cbn; try done. set_solver.
Qed.
Lemma route_request l id r w : match route l id r w with Submits c _ => cmRequest c = id | _ => True end.
Proof. destruct l; unfold route, internalHandler, outboxHandler, handleList, handleGet, handleSend, handleRaw; repeat case_match; simplify_eq; done. Qed.
Lemma loop_moves_stepped i (s0 s s' : System) :
  loop_moves i s = Some s' -> syWorld s = syWorld s0 -> syMode s = syMode s0 -> syRequests s = syRequests s0 ->
  match i with Receives (OnCommand c) => syCommands s0 = c :: syCommands s | _ => syCommands s = syCommands s0 end -> stepped s0 s'.
Proof.
  unfold loop_moves. destruct (loop_step cfg i (syMode s) (syWorld s)) as [[w m]|] eqn:El; [|done]. cbn. intros [= <-] Ew Em Er Ec.
  assert (~ gone (syMode s0)) as Ng by (rewrite <- Em; intros [G | G]; rewrite G in El; by destruct i).
  apply loop_moved in El. rewrite Ew, Em in El. by apply (st_loop _ _ i).
Qed.
Lemma arrive_stepped l id r s : syRequests s !! id = None -> stepped s (arrive l id r s).
Proof.
  intros N. unfold arrive. assert (syWorld (enter l id s) = syWorld s /\ syMode (enter l id s) = syMode s /\
    syCommands (enter l id s) = syCommands s /\ syRequests (enter l id s) = syRequests s) as (E1 & E2 & E3 & E4) by by destruct l.
  destruct (_ <? gateCapacity)%nat; [|by eapply answer_moves]. pose proof (route_request l id r (syWorld s)) as Hr.
  assert (forall st, match st with Enqueuing _ _ => True | Submitting c _ => cmRequest c = id | _ => False end ->
    stepped s (becomes id st (enter l id s))) as B.
  { intros st Hst. eapply (st_moves _ _ id None st); cbn; rewrite ?E1, ?E4; try done. by destruct st. }
  unfold dispatch. destruct (route l id r (syWorld s)) as [resp|to text|c finish]; [by eapply answer_moves|by apply B|].
  destruct (negb _); [by eapply answer_moves|by apply B].
Qed.
Lemma add_stepped id identifier to text s :
  syRequests s !! id = Some (Enqueuing to text) -> stepped s (add id identifier to text s).
Proof.
  intros E. unfold add. destruct (outbound_item _ _ _ _) as [item|e]; [|by eapply answer_moves].
  destruct (add_outbound item (syWorld s)) as [w o] eqn:Ea. pose proof (add_outbound_frame _ _ _ _ Ea) as F. apply add_outbound_spec in Ea.
  assert (wWake w = wWake (syWorld s) /\ wEnded w = wEnded (syWorld s) /\ wResponses w = wResponses (syWorld s)) as (F1 & F2 & F3) by by rewrite F.
  destruct o as [[[]|e]| |].
  - by apply (st_added _ _ id to text item).
  - inversion Ea. eapply (st_moves _ _ id (Some (Enqueuing to text)) (Answered _)); try done; cbn; [|set_solver]. split; cbn; try done. set_solver.
  - inversion Ea. apply st_killed; try done. split; try done. cbn. by rewrite F2.
  - inversion Ea.
Qed.
Lemma sys_stepped s s' : sys_rel s s' -> stepped s s'.
Proof.
  intros [l E]. unfold sys_step in E. assert (live_step l s = Some s') as L by by destruct (syMode s).
  clear E. destruct l as [i| | |e|reg con|id l r|id identifier|id|id|id|id|id|d]; cbn [live_step] in L.
  - destruct i as [r| |t]; [by eapply loop_moves_stepped..|]. destruct (ready t (syWorld s)) eqn:Rd; [|done].
    eapply loop_moves_stepped; [exact L|done..|]. by destruct t.
  - destruct (syEvents s) as [|e rest]; [done|]. by eapply loop_moves_stepped.
  - destruct (syCommands s) as [|c rest] eqn:Ec; [done|]. by eapply loop_moves_stepped.
  - injection L as <-. unfold notify. destruct (_ <? _); by apply st_aside.
  - injection L as <-. by apply st_aside.
  - destruct (syRequests s !! id) eqn:Er; [done|]. injection L as <-. by apply arrive_stepped.
  - destruct (syRequests s !! id) as [[]|] eqn:Er; try done. injection L as <-. by apply add_stepped.
  - destruct (syRequests s !! id) as [[]|] eqn:Er; try done. injection L as <-. by eapply (st_signalled _ _ id).
  - destruct (syRequests s !! id) as [[]|] eqn:Er; try done. destruct (Z.ltb_spec (len (syCommands s)) commandCapacity); [|done].
    injection L as <-. by eapply (st_sent _ _ id).
  - assert (s' = s <| syWorld := (syWorld s) <| wEnded := {[id]} ∪ wEnded (syWorld s) |> |>) as -> by (destruct (syRequests s !! id) as [[]|]; by simplify_eq).
    apply st_aside; try done. split; cbn; try done. set_solver.
  - destruct (syRequests s !! id) as [[]|] eqn:Er; try done; case_bool_decide; try done; injection L as <-; by eapply answer_moves.
  - destruct (syRequests s !! id) as [[]|] eqn:Er; try done. destruct (wResponses (syWorld s) !! id) eqn:Ew; [|done].
    injection L as <-. by eapply (st_took _ _ id).
  - destruct (0 <=? d); [|done]. injection L as <-. by apply st_aside.
Qed.

(** ** The outbound queue over all interleavings *)

(** What was queued at the start and since is what was handed to [SendSMS], what the loop holds in
    its hands, and what is queued, in this order. *)
Definition flow (q0 : list Outbound) (s : System) : Prop :=
  exists held, q0 ++ queued (wTrace (syWorld s)) = attempted (wTrace (syWorld s)) ++ held ++ queue (syWorld s) /\
    (length held <= 1)%nat /\ (syMode s <> Crashed -> held = in_flight (syMode s)).
(** Every item handed to [SendSMS] has its one result, the last one unless the loop is gone. *)
Definition settled (s : System) : Prop :=
  exists last, attempted (wTrace (syWorld s)) = (results (wTrace (syWorld s))).*1 ++ last /\ (length last <= 1)%nat /\ (last <> [] -> gone (syMode s)).
(** While the loop waits in [select] or handles something else, a queued message has it woken. *)
Definition woken (s : System) : Prop :=
  attentive (syMode s) = true -> queue (syWorld s) = [] \/ wWake (syWorld s) = true \/ exists id, syRequests s !! id = Some Signalling.

Lemma in_flight_short m : (length (in_flight m) <= 1)%nat.
Proof. destruct m; cbn; lia. Qed.
Lemma flow_intro q0 s :
  q0 ++ queued (wTrace (syWorld s)) = attempted (wTrace (syWorld s)) ++ in_flight (syMode s) ++ queue (syWorld s) -> flow q0 s.
Proof. intros E. exists (in_flight (syMode s)). split_and!; [done|apply in_flight_short|done]. Qed.
Lemma flow_same q0 s s' :
  flow q0 s -> queue (syWorld s') = queue (syWorld s) -> queued (wTrace (syWorld s')) = queued (wTrace (syWorld s)) ->
  attempted (wTrace (syWorld s')) = attempted (wTrace (syWorld s)) -> (syMode s' <> Crashed -> syMode s' = syMode s) -> flow q0 s'.
Proof. intros (held & E & L & Hm) Q Qd Tr C. exists held. rewrite Q, Qd, Tr. split_and!; [done|done|]. intros N. rewrite C by done. apply Hm. by rewrite <- C. Qed.
(** The notes after an attempt. *)
Lemma sent_notes item (notes : list effect) m' :
  notes = [] /\ gone m' \/ (exists r, notes = [Confirmed item r]) -> queued notes = [] /\ attempted notes = [] /\ responses notes = [] /\
    ((results notes).*1 = [item] \/ results notes = [] /\ gone m').
Proof. intros [[-> G] | (r & ->)]; cbn; split_and!; try done; [by right|by left]. Qed.
Lemma flow_moved q0 i s s' :
  syMode s <> Crashed -> flow q0 s -> moved i (syMode s) (syWorld s) (syMode s') (syWorld s') -> flow q0 s'.
Proof.
  intros N (held & E & _ & Hm) M. rewrite (Hm N) in E. apply flow_intro. destruct M as
    [lost [Q _ _ _ Qd Tr _ _] F F' _ _ _ _ | item Em Em' Q _ _ _ T _ | item notes Em F' _ _ Q _ _ _ T No _ | _ Em Em' Ew | c _ Em Em' Ew | c r _ Em F' _ Q _ _ T _].
  - by rewrite Q, Qd, Tr, F', E, F.
  - rewrite T, E, Em, Em', Q. done.
  - apply sent_notes in No as (N1 & N2 & _). change (Attempted item :: notes) with ([Attempted item] ++ notes) in T.
    rewrite T, !queued_app, !attempted_app, N1, N2, Q, F', Em in *. cbn in *. rewrite !app_nil_r, E, <- app_assoc. done.
  - rewrite Ew, Em, Em' in *. done.
  - rewrite Ew, Em, Em' in *. done.
  - rewrite T, queued_app, attempted_app, Q, F', Em in *. cbn in *. by rewrite !app_nil_r.
Qed.
Lemma flow_step q0 s s' : syMode s <> Crashed -> flow q0 s -> stepped s s' -> flow q0 s'.
Proof.
  intros N F St. destruct St as [i _ M _ _ | id to text item _ Ad _ _ _ Em _ _ | [St _ T _ _] Em _ _ | id r _ St _ T _ _ Em _ _
    | id from to [St _ T _ _] Em _ _ _ _ _ | id c f [St _ T _ _] Em _ _ _ _ | id c f r _ _ St _ T _ _ Em _ _ | [St _ T _ _] Em _ _].
  - by eapply flow_moved.
  - inversion Ad as [_ _ Sd _ _ T | old _ _ _ St T | |].
    + destruct F as (held & E & L & Hm). exists held. rewrite T, queued_app, attempted_app, Sd, Em. cbn. split_and!; [|done|done].
      rewrite app_nil_r, app_assoc, E, <- !app_assoc. done.
    + eapply flow_same; [done|by rewrite ?St, ?T..|done].
  - eapply flow_same; [done|by rewrite ?St, ?T..|]. by rewrite Em.
  - eapply flow_same; [done|by rewrite ?St, ?T..|done].
  - eapply flow_same; [done|by rewrite ?St, ?T..|done].
  - eapply flow_same; [done|by rewrite ?St, ?T..|done].
  - eapply flow_same; [done|by rewrite ?St, ?T..|done].
  - eapply flow_same; [done|by rewrite ?St, ?T..|done].
Qed.
Lemma settled_same s s' :
  settled s -> attempted (wTrace (syWorld s')) = attempted (wTrace (syWorld s)) -> results (wTrace (syWorld s')) = results (wTrace (syWorld s)) ->
  (gone (syMode s) -> gone (syMode s')) -> settled s'.
Proof. intros (last & E & L & G) At Re C. exists last. rewrite At, Re. split_and!; [done|done|auto]. Qed.
Lemma settled_step s s' : settled s -> stepped s s' -> settled s'.
Proof.
  intros Se St. destruct St as [i Ng M _ _ | id to text item _ Ad _ _ _ Em _ _ | [St _ T _ _] Em _ _ | id r _ St _ T _ _ Em _ _
    | id from to [St _ T _ _] Em _ _ _ _ _ | id c f [St _ T _ _] Em _ _ _ _ | id c f r _ _ St _ T _ _ Em _ _ | [St _ T _ _] Em _ _];
    try (eapply settled_same; [done|by rewrite ?T..|by rewrite Em]).
  - destruct M as [lost [Q _ _ _ Qd Tr Re _] F F' _ _ _ _ | item Em Em' Q _ _ _ T _ | item notes Em F' _ _ Q _ _ _ T No _ | _ Em Em' Ew | c _ Em Em' Ew | c r _ Em F' _ Q _ _ T _].
    + by eapply settled_same.
    + eapply settled_same; [done|by rewrite ?T..|done].
    + destruct Se as (last & E & L & G). assert (last = []) as -> by (destruct last; [done|]; by destruct Ng; apply G). rewrite app_nil_r in E.
      apply sent_notes in No as (_ & N2 & _ & N4). change (Attempted item :: notes) with ([Attempted item] ++ notes) in T.
      exists (match results notes with [] => [item] | _ => [] end). rewrite T, !attempted_app, !results_app, fmap_app, fmap_app, N2, E. cbn.
      destruct N4 as [N4 | [N4 Gm]].
      * destruct (results notes); [discriminate N4|]. rewrite N4, app_nil_r. cbn. split_and!; [done|lia|done].
      * rewrite N4. cbn. rewrite !app_nil_r. split_and!; [done|lia|done].
    + eapply settled_same; [done|by rewrite Ew..|done].
    + eapply settled_same; [done|by rewrite Ew..|done].
    + eapply settled_same; [done|by rewrite T, ?attempted_app, ?results_app, app_nil_r..|done].
  - inversion Ad as [_ _ Sd _ _ T | old _ _ _ St T | |].
    + eapply settled_same; [done|by rewrite T, ?attempted_app, ?results_app, app_nil_r..|by rewrite Em].
    + eapply settled_same; [done|by rewrite ?T..|by rewrite Em].
  - eapply settled_same; [done|by rewrite ?T..|]. intros _. by left.
Qed.

(** A request that is signalling goes on signalling until it does. *)
Lemma woken_same s s' :
  woken s -> queue (syWorld s') = queue (syWorld s) -> wWake (syWorld s') = wWake (syWorld s) -> (attentive (syMode s') = true -> attentive (syMode s) = true) ->
  (forall id, syRequests s !! id = Some Signalling -> syRequests s' !! id = Some Signalling) -> woken s'.
Proof. intros Wo Q Wk At Rq A'. rewrite Q, Wk. destruct (Wo (At A')) as [? | [? | [id ?]]]; [by left|by right; left|right; right; by exists id; apply Rq]. Qed.
Lemma woken_moved i s s' :
  woken s -> moved i (syMode s) (syWorld s) (syMode s') (syWorld s') -> syRequests s' = syRequests s -> woken s'.
Proof.
  intros Wo M Rq. destruct M as
    [lost [Q Wk _ _ _ _ _ _] _ _ At _ _ _ | item _ Em' _ _ _ _ _ _ | item notes _ _ _ At _ _ _ _ _ _ _ | _ _ Em' _ | c _ Em Em' Ew | c r _ Em F' _ Q Wk _ _ _].
  - intros A'. destruct (At A') as [A0 | Q0]; [|left; by rewrite Q]. eapply woken_same; try done. by rewrite Rq.
  - intros A'. by rewrite Em' in A'.
  - intros A'. by rewrite At in A'.
  - intros A'. by rewrite Em' in A'.
  - eapply woken_same; try done; [by rewrite Ew..|by rewrite Em|by rewrite Rq].
  - eapply woken_same; try done; [by rewrite Em|by rewrite Rq].
Qed.
Lemma insert_signalling (rs : gmap nat stage) id st id' :
  rs !! id <> Some Signalling -> rs !! id' = Some Signalling -> <[id := st]> rs !! id' = Some Signalling.
Proof. intros N E. rewrite lookup_insert_ne; [done|]. by intros ->. Qed.
Lemma woken_step s s' : woken s -> stepped s s' -> woken s'.
Proof.
  intros Wo St. destruct St as [i _ M Rq _ | id to text item E Ad Wk _ _ Em Rq _ | _ Em _ _ | id r _ _ Wk _ _ _ _ _ _
    | id from to [St Wk _ _ _] Em _ E N Rq _ | id c f [St Wk _ _ _] Em E Rq _ _ | id c f r E _ St Wk _ _ _ Em Rq _ | [St Wk _ _ _] Em Rq _].
  - by eapply woken_moved.
  - intros _. right. right. exists id. by rewrite Rq, lookup_insert_eq.
  - intros At. by rewrite Em in At.
  - intros _. right. by left.
  - eapply woken_same; try done; [by rewrite St|by rewrite Em|]. intros id'. rewrite Rq. apply insert_signalling. by rewrite E.
  - eapply woken_same; try done; [by rewrite St|by rewrite Em|]. intros id'. rewrite Rq. apply insert_signalling. by rewrite E.
  - eapply woken_same; try done; [by rewrite St|by rewrite Em|]. intros id'. rewrite Rq. apply insert_signalling. by rewrite E.
  - eapply woken_same; try done; [by rewrite St|by rewrite Em|by rewrite Rq].
Qed.

(** Invariants of the stepped relation hold in every reachable state. *)
Lemma reachable_ind (P : System -> Prop) s s' :
  P s -> (forall a b, P a -> syMode a <> Crashed -> stepped a b -> P b) -> rtc sys_rel s s' -> P s'.
Proof.
  intros P0 St R. induction R as [|a b c Hab R IH]; [done|]. apply IH. eapply St; [exact P0| |by apply sys_stepped].
  destruct Hab as [l E]. unfold sys_step in E. by destruct (syMode a).
Qed.

(** C5.  Outgoing messages are tried at most once, in order, and none is forgotten.  Over every interleaving of requests, notifications,
    polls, sessions that come and go and failing saves: the messages queued at the start and those accepted since are, in this order, those handed
    to [SendSMS], at most one that the loop has just taken from the store, and those still queued.  Whatever [SendSMS] returns, the message is
    not tried again, and every message that was tried has exactly one result, but for a last one when the process has died or hangs in the
    call; so what the phone accepted is a part of the accepted messages in their order.  And whenever the loop waits or is busy with something else
    while a message is queued, it has been woken, or the request that queued the message is about to wake it. *)
Theorem outbound_in_order w s :
  wTrace w = [] -> rtc sys_rel (started w) s ->
  let tr := wTrace (syWorld s) in
  (exists held, queue w ++ queued tr = attempted tr ++ held ++ queue (syWorld s) /\
    (length held <= 1)%nat /\ (syMode s <> Crashed -> held = in_flight (syMode s))) /\
  (exists last, attempted tr = (results tr).*1 ++ last /\ (length last <= 1)%nat /\ (last <> [] -> gone (syMode s))) /\
  (attentive (syMode s) = true -> queue (syWorld s) <> [] ->
    wWake (syWorld s) = true \/ exists id, syRequests s !! id = Some Signalling).
Proof.
  intros T R tr. assert (flow (queue w) s /\ settled s /\ woken s) as (F & Se & Wo).
  { apply (reachable_ind (fun s => flow (queue w) s /\ settled s /\ woken s) (started w));
      [|intros a b (F & Se & Wo) N St; split_and!; [by eapply flow_step|by eapply settled_step|by eapply woken_step]|exact R].
    split_and!; [apply flow_intro; cbn; by rewrite T, app_nil_r|exists []; cbn; rewrite T; split_and!; [done|cbn; lia|done]|by intros At]. }
  split_and!; [exact F|exact Se|]. intros At Q. by destruct (Wo At).
Qed.

(** ** Commands and their responses *)
Definition asked (w : W) : list nat := (fun x => cmRequest x.1) <$> responses (wTrace w).
Lemma elem_of_asked w c r : (c, r) ∈ responses (wTrace w) -> cmRequest c ∈ asked w.
Proof. intros E. apply list_elem_of_fmap. by exists (c, r). Qed.

(** The commands that were sent and have no response: the one being executed and those in the queue. *)
Definition pipeline (s : System) : list mapCommand := current (syMode s) ++ syCommands s.
Record tidy (s : System) : Prop := {
  ti_distinct : NoDup (cmRequest <$> pipeline s);
  ti_room : len (syCommands s) <= commandCapacity;
  ti_stage id c f : syRequests s !! id = Some (Submitting c f) \/ syRequests s !! id = Some (Awaiting c f) -> cmRequest c = id;
  ti_command c : c ∈ pipeline s -> (cmRequest c ∉ asked (syWorld s)) /\
    ((exists f, syRequests s !! cmRequest c = Some (Awaiting c f)) \/ exists r, syRequests s !! cmRequest c = Some (Answered r));
  ti_answered id r : syRequests s !! id = Some (Answered r) -> id ∈ wEnded (syWorld s);
  ti_fresh id : match syRequests s !! id with Some (Awaiting _ _) | Some (Answered _) => False | _ => True end -> id ∉ asked (syWorld s);
  ti_once : NoDup (asked (syWorld s));
  ti_buffer id r : wResponses (syWorld s) !! id = Some r -> exists c, (c, r) ∈ responses (wTrace (syWorld s)) /\ cmRequest c = id;
  ti_own id c f c' r : syRequests s !! id = Some (Awaiting c f) -> (c', r) ∈ responses (wTrace (syWorld s)) -> cmRequest c' = id -> c' = c;
  ti_waiting id c f : syRequests s !! id = Some (Awaiting c f) ->
    c ∈ pipeline s \/ (exists r, wResponses (syWorld s) !! id = Some r) \/ id ∈ wEnded (syWorld s) \/ gone (syMode s)
}.

(** A step that neither answers a command nor moves a request; a command may be given up, its request being over or the loop gone. *)
Lemma tidy_same s s' lost :
  tidy s -> responses (wTrace (syWorld s')) = responses (wTrace (syWorld s)) -> wResponses (syWorld s') = wResponses (syWorld s) ->
  wEnded (syWorld s) ⊆ wEnded (syWorld s') -> pipeline s = lost ++ pipeline s' ->
  Forall (fun c => cmRequest c ∈ wEnded (syWorld s) \/ gone (syMode s')) lost -> len (syCommands s') <= len (syCommands s) ->
  syRequests s' = syRequests s -> (gone (syMode s) -> gone (syMode s')) -> tidy s'.
Proof.
  intros [T1 T2 T3 T4 T5 T6 T7 T8 T9 T10] Rs Rb En Ec Fl Ln Er G. assert (asked (syWorld s') = asked (syWorld s)) as As by (unfold asked; by rewrite Rs).
  rewrite Ec in T1, T4, T10. split; rewrite ?As, ?Rs, ?Rb, ?Er; try done.
  - rewrite fmap_app in T1. by apply NoDup_app in T1 as (_ & _ & T1).
  - lia.
  - intros c Hc. apply T4. apply elem_of_app. by right.
  - intros id r E. apply En. by eapply T5.
  - intros id c f E. destruct (T10 _ _ _ E) as [[Hc | ?]%elem_of_app | [? | [? | ?]]]; auto.
    rewrite Forall_forall in Fl. destruct (Fl c Hc) as [He | ?]; [|auto]. rewrite (T3 id c f) in He by by right. auto.
Qed.
(** A command gets its response. *)
Lemma tidy_executed s s' c r :
  tidy s -> wTrace (syWorld s') = wTrace (syWorld s) ++ [Responded c r] ->
  wResponses (syWorld s') = match wResponses (syWorld s) !! cmRequest c with None => <[cmRequest c := r]> (wResponses (syWorld s)) | Some _ => wResponses (syWorld s) end ->
  wEnded (syWorld s') = wEnded (syWorld s) -> pipeline s = c :: pipeline s' -> syCommands s' = syCommands s -> syRequests s' = syRequests s ->
  ~ gone (syMode s) -> tidy s'.
Proof.
  intros [T1 T2 T3 T4 T5 T6 T7 T8 T9 T10] Tr Rb En Ec Es Er Ng. rewrite Ec in T1, T4, T10.
  destruct (T4 c) as [Na Hst]; [by left|].
  assert (wResponses (syWorld s) !! cmRequest c = None) as Nb.
  { destruct (wResponses (syWorld s) !! cmRequest c) eqn:Eb; [|done]. destruct (T8 _ _ Eb) as (c' & Hc & Ei). destruct Na. rewrite <- Ei. by eapply elem_of_asked. }
  rewrite Nb in Rb. assert (responses (wTrace (syWorld s')) = responses (wTrace (syWorld s)) ++ [(c, r)]) as Rs by by rewrite Tr, responses_app.
  assert (asked (syWorld s') = asked (syWorld s) ++ [cmRequest c]) as As by (unfold asked; by rewrite Rs, fmap_app).
  rewrite fmap_cons in T1. apply NoDup_cons in T1 as [Nc T1].
  split; rewrite ?As, ?Rs, ?Rb, ?En, ?Er; try done.
  - by rewrite Es.
  - intros c' Hc. destruct (T4 c') as [Na' Hs]; [by right|]. split; [|done]. intros [? | Eq%list_elem_of_singleton]%elem_of_app; [done|].
    destruct Nc. rewrite <- Eq. by apply list_elem_of_fmap_2.
  - intros id Hid. intros [? | ->%list_elem_of_singleton]%elem_of_app; [by eapply T6|]. by destruct Hst as [[f Ea] | [r' Ea]]; rewrite Ea in Hid.
  - apply NoDup_app. split_and!; [done| |apply NoDup_singleton]. intros x Hx ->%list_elem_of_singleton. done.
  - intros id r0. destruct (decide (id = cmRequest c)) as [->|Ni].
    + rewrite lookup_insert_eq. intros [= <-]. exists c. split; [|done]. apply elem_of_app. right. by left.
    + rewrite lookup_insert_ne by done. intros Eb. destruct (T8 _ _ Eb) as (c' & Hc & Ei). exists c'. split; [|done]. apply elem_of_app. by left.
  - intros id c0 f0 c' r0 E [? | [= -> ->]%list_elem_of_singleton]%elem_of_app Ei; [by eapply T9|]. destruct Hst as [[f Ea] | [r' Ea]]; rewrite <- Ei, Ea in E; by injection E.
  - intros id c0 f0 E. destruct (decide (id = cmRequest c)) as [->|Ni]; [right; left; exists r; by rewrite lookup_insert_eq|].
    rewrite lookup_insert_ne by done. destruct (T10 _ _ _ E) as [[-> | ?]%elem_of_cons | [? | [? | ?]]]; auto; [|done].
    destruct Ni. symmetry. apply (T3 id c f0). by right.
Qed.
(** A request moves, the queue of commands and the responses staying as they are. *)
Lemma tidy_moves s s' id to :
  tidy s -> responses (wTrace (syWorld s')) = responses (wTrace (syWorld s)) -> wResponses (syWorld s') ⊆ wResponses (syWorld s) ->
  (forall id', id' <> id -> wResponses (syWorld s') !! id' = wResponses (syWorld s) !! id') ->
  wEnded (syWorld s) ⊆ wEnded (syWorld s') -> syCommands s' = syCommands s -> syRequests s' = <[id := to]> (syRequests s) ->
  syMode s' = syMode s ->
  match to with
  | Enqueuing _ _ | Signalling => match syRequests s !! id with Some (Awaiting _ _) | Some (Answered _) => False | _ => True end
  | Submitting c _ => syRequests s !! id = None /\ cmRequest c = id
  | Awaiting _ _ => False
  | Answered _ => id ∈ wEnded (syWorld s')
  end -> tidy s'.
Proof.
  intros [T1 T2 T3 T4 T5 T6 T7 T8 T9 T10] Rs Rb Rb' En Ec Er Em Hto. assert (asked (syWorld s') = asked (syWorld s)) as As by (unfold asked; by rewrite Rs).
  assert (pipeline s' = pipeline s) as Ep by (unfold pipeline; by rewrite Em, Ec).
  split; rewrite ?As, ?Rs, ?Ep, ?Ec, ?Er, ?Em; try done.
  - intros id' c f. destruct (decide (id' = id)) as [->|Ni]; [|rewrite lookup_insert_ne by done; apply T3].
    rewrite lookup_insert_eq. destruct to; intros [E|E]; simplify_eq; [apply Hto|done].
  - intros c Hc. destruct (T4 c Hc) as [Na Hs]. split; [done|]. destruct (decide (cmRequest c = id)) as [<-|Ni]; [|by rewrite lookup_insert_ne].
    right. rewrite lookup_insert_eq. destruct to; [..|by eexists]; exfalso; destruct Hs as [[f E] | [r E]]; try done; rewrite E in Hto; try done; by destruct Hto.
  - intros id' r. destruct (decide (id' = id)) as [->|Ni].
    + rewrite lookup_insert_eq. intros [= ->]. done.
    + rewrite lookup_insert_ne by done. intros E. apply En. by eapply T5.
  - intros id'. destruct (decide (id' = id)) as [->|Ni]; [|rewrite lookup_insert_ne by done; apply T6].
    rewrite lookup_insert_eq. intros Hm. apply T6. destruct to; try done. destruct Hto as [-> _]. done.
  - intros id' r E. apply T8. by eapply lookup_weaken.
  - intros id' c f c' r. destruct (decide (id' = id)) as [->|Ni]; [|rewrite lookup_insert_ne by done; apply T9].
    rewrite lookup_insert_eq. intros [= ->]. done.
  - intros id' c f. destruct (decide (id' = id)) as [->|Ni]; [rewrite lookup_insert_eq; intros [= ->]; done|].
    rewrite lookup_insert_ne by done. intros E. rewrite Rb' by done. destruct (T10 _ _ _ E) as [? | [? | [? | ?]]]; auto.
Qed.
Lemma tidy_sent s s' id c f :
  tidy s -> responses (wTrace (syWorld s')) = responses (wTrace (syWorld s)) -> wResponses (syWorld s') = wResponses (syWorld s) ->
  wEnded (syWorld s) ⊆ wEnded (syWorld s') -> syRequests s !! id = Some (Submitting c f) ->
  syRequests s' = <[id := Awaiting c f]> (syRequests s) -> syCommands s' = syCommands s ++ [c] -> len (syCommands s) < commandCapacity ->
  syMode s' = syMode s -> tidy s'.
Proof.
  intros [T1 T2 T3 T4 T5 T6 T7 T8 T9 T10] Rs Rb En Ei Er Ec Lt Em. assert (asked (syWorld s') = asked (syWorld s)) as As by (unfold asked; by rewrite Rs).
  assert (pipeline s' = pipeline s ++ [c]) as Ep by (unfold pipeline; by rewrite Em, Ec, app_assoc).
  assert (cmRequest c = id) as Ci by (apply (T3 id c f); by left). assert (id ∉ asked (syWorld s)) as Na by (apply T6; by rewrite Ei).
  assert (id ∉ cmRequest <$> pipeline s) as Nc.
  { intros (c' & -> & Hc)%list_elem_of_fmap. destruct (T4 _ Hc) as [_ [[? E] | [? E]]]; by rewrite E in Ei. }
  split; rewrite ?As, ?Rs, ?Rb, ?Ep, ?Ec, ?Er, ?Em; try done.
  - rewrite fmap_app. apply NoDup_app. split_and!; [done| |apply NoDup_singleton]. intros x Hx ->%list_elem_of_singleton. by rewrite Ci in Hx.
  - rewrite len_app. change (len [c]) with 1. lia.
  - intros id' c' f'. destruct (decide (id' = id)) as [->|Ni]; [|rewrite lookup_insert_ne by done; apply T3].
    rewrite lookup_insert_eq. intros [E | E]; by simplify_eq.
  - intros c' [Hc | ->%list_elem_of_singleton]%elem_of_app; [|rewrite Ci, lookup_insert_eq; split; [done|left; by eexists]].
    destruct (T4 _ Hc) as [? ?]. rewrite lookup_insert_ne; [done|]. intros ->. destruct Nc. by apply list_elem_of_fmap_2.
  - intros id' r. destruct (decide (id' = id)) as [->|Ni]; [by rewrite lookup_insert_eq|]. rewrite lookup_insert_ne by done. intros E. apply En. by eapply T5.
  - intros id'. destruct (decide (id' = id)) as [->|Ni]; [by rewrite lookup_insert_eq|]. rewrite lookup_insert_ne by done. apply T6.
  - intros id' c0 f0 c' r. destruct (decide (id' = id)) as [->|Ni]; [|rewrite lookup_insert_ne by done; apply T9].
    intros _ Hc Eq. destruct Na. rewrite <- Eq. by eapply elem_of_asked.
  - intros id' c0 f0. rewrite elem_of_app. destruct (decide (id' = id)) as [->|Ni].
    + rewrite lookup_insert_eq. intros [= <- <-]. left. right. by left.
    + rewrite lookup_insert_ne by done. intros E. destruct (T10 _ _ _ E) as [? | [? | [? | ?]]]; auto.
Qed.
Lemma tidy_moved i s s' :
  tidy s -> ~ gone (syMode s) -> moved i (syMode s) (syWorld s) (syMode s') (syWorld s') -> syRequests s' = syRequests s ->
  match i with Receives (OnCommand c) => syCommands s = c :: syCommands s' | _ => syCommands s' = syCommands s end -> tidy s'.
Proof.
  intros T Ng M Er Ec.
  assert (no_command i -> syCommands s' = syCommands s) as Ec' by (intros Ni; destruct i as [r| |[|e| |c| |]]; try done; by destruct (Ni c)).
  destruct M as [lost [_ _ En Rb _ _ _ Rs] _ _ _ Cu Fl Ni | item Em Em' _ _ En Rb Tr Ni | item notes Em _ Cu _ _ _ En Rb Tr No Ni | -> Em Em' Ew
    | c -> Em Em' Ew | c r Ni Em _ Cu _ _ En Tr Rb].
  - apply (tidy_same s s' lost); try done; [by rewrite En|unfold pipeline; by rewrite Cu, Ec', app_assoc|by rewrite Ec'].
  - apply (tidy_same s s' []); try done; [by rewrite Tr|by rewrite En|unfold pipeline; by rewrite Em, Em', Ec'|by rewrite Ec'].
  - apply (tidy_same s s' []); try done; [|by rewrite En|unfold pipeline; by rewrite Em, Cu, Ec'|by rewrite Ec'].
    apply sent_notes in No as (_ & _ & N3 & _). change (Attempted item :: notes) with ([Attempted item] ++ notes) in Tr. by rewrite Tr, !responses_app, N3, app_nil_r.
  - apply (tidy_same s s' []); try done; [by rewrite Ew..|unfold pipeline; by rewrite Em, Em', Ec|by rewrite Ec].
  - apply (tidy_same s s' []); try done; [by rewrite Ew..|unfold pipeline; by rewrite Em, Em', Ec|rewrite Ec; unfold len; cbn [length]; lia].
  - apply (tidy_executed s s' c r); try done; [|by apply Ec']. unfold pipeline. by rewrite Em, Cu, Ec'.
Qed.
Lemma tidy_step s s' : tidy s -> stepped s s' -> tidy s'.
Proof.
  intros T St. destruct St as [i Ng M Rq Ec | id to text item E Ad Wk En Rb Em Rq Ec | [St _ Tr Rb En] Em Rq Ec | id r E St Wk Tr Rb En Em Rq Ec
    | id from to [St Wk Tr Rb En] Em Ec E N Rq Hto | id c f [St Wk Tr Rb En] Em E Rq Ec Lt | id c f r E Er St Wk Tr Rb En Em Rq Ec | [St Wk Tr Rb En] Em Rq Ec].
  - by eapply tidy_moved.
  - eapply (tidy_moves _ _ id Signalling); try done; [|by rewrite Rb|by rewrite Rb|by rewrite En|by rewrite E].
    inversion Ad as [_ _ _ _ _ T' | old _ _ _ _ T' | |]; rewrite T'; [by rewrite responses_app, app_nil_r|done].
  - apply (tidy_same s s' (current (syMode s))); try done; [by rewrite Tr|unfold pipeline; by rewrite Em, Ec| |by rewrite Ec|intros _; by left].
    apply Forall_forall. intros c _. right. by left.
  - eapply (tidy_moves _ _ id); try done; [by rewrite Tr|by rewrite Rb|by rewrite Rb|rewrite En; set_solver|cbn; rewrite En; set_solver].
  - eapply (tidy_moves _ _ id); try done; [by rewrite Tr|by rewrite Rb|by rewrite Rb|].
    rewrite E. destruct to; try done. by rewrite Hto.
  - eapply (tidy_sent _ _ id c f); try done. by rewrite Tr.
  - eapply (tidy_moves _ _ id); try done; [by rewrite Tr|rewrite Rb; apply delete_subseteq| |rewrite En; set_solver|cbn; rewrite En; set_solver].
    intros id' Ni. rewrite Rb. by rewrite lookup_delete_ne.
  - apply (tidy_same s s' []); try done; [by rewrite Tr|unfold pipeline; by rewrite Em, Ec|by rewrite Ec|by rewrite Em].
Qed.

Lemma tidy_started w : wTrace w = [] -> wResponses w = ∅ -> tidy (started w).
Proof.
  intros T R. assert (asked w = []) as As by (unfold asked; by rewrite T).
  assert (forall id st, (∅ : gmap nat stage) !! id <> Some st) as Em by (intros id st; by rewrite lookup_empty).
  split; cbn [pipeline current app started syCommands syRequests syWorld syMode]; rewrite ?As, ?T, ?R.
  - constructor.
  - done.
  - intros id c f [E | E]; by apply Em in E.
  - by intros c Hc%elem_of_nil.
  - intros id r E. by apply Em in E.
  - intros id _. apply not_elem_of_nil.
  - constructor.
  - intros id r E. by rewrite lookup_empty in E.
  - intros id c f c' r E. by apply Em in E.
  - intros id c f E. by apply Em in E.
Qed.
Lemma reachable_tidy w s : wTrace w = [] -> wResponses w = ∅ -> rtc sys_rel (started w) s -> tidy s.
Proof.
  intros T Rb R. apply (reachable_ind tidy (started w)); [by apply tidy_started| |exact R]. intros a b Ta _ St. by eapply tidy_step.
Qed.
Lemma answered_once s c r c' r' :
  tidy s -> (c, r) ∈ responses (wTrace (syWorld s)) -> (c', r') ∈ responses (wTrace (syWorld s)) -> cmRequest c = cmRequest c' -> (c, r) = (c', r').
Proof.
  intros T Hc Hc' Eq. apply list_elem_of_lookup in Hc as [i Hi], Hc' as [j Hj].
  assert (i = j) as ->; [|congruence].
  eapply NoDup_lookup; [apply (ti_once _ T)|unfold asked; by rewrite list_lookup_fmap, Hi|unfold asked; rewrite list_lookup_fmap, Hj; cbn; by rewrite Eq].
Qed.

(** C13.  Every request gets the answer to its own command, and no answer is lost.  Over every
    interleaving, with requests whose time runs out at any moment: a request that takes a response
    takes the one the phone gave to exactly its command, the only one there is for it, and
    answers with it; a request that waits has its command in the queue (of at most 32) or being
    executed, or its response ready, or its time is up, or else the loop hangs in a call to the phone or has died with
    the process. *)
Theorem response_is_own w s :
  wTrace w = [] -> wResponses w = ∅ -> rtc sys_rel (started w) s ->
  len (syCommands s) <= commandCapacity /\
  (forall id c f, syRequests s !! id = Some (Awaiting c f) ->
    c ∈ syCommands s \/ c ∈ current (syMode s) \/ (exists r, wResponses (syWorld s) !! id = Some r) \/ id ∈ wEnded (syWorld s) \/
    gone (syMode s)) /\
  (forall id s', sys_step (TakesResponse id) s = Some s' -> exists c f r,
    syRequests s !! id = Some (Awaiting c f) /\ syRequests s' !! id = Some (Answered (f r (wStore (syWorld s)))) /\
    (c, r) ∈ responses (wTrace (syWorld s)) /\ cmRequest c = id /\
    forall c' r', (c', r') ∈ responses (wTrace (syWorld s)) -> cmRequest c' = id -> (c', r') = (c, r)).
Proof.
  intros T Rb R. apply reachable_tidy in R as K; [|done..]. split_and!; [apply K| |].
  { intros id c f E. destruct (ti_waiting _ K _ _ _ E) as [[? | ?]%elem_of_app | ?]; auto. }
  intros id s' E. unfold sys_step in E. assert (live_step (TakesResponse id) s = Some s') as L by by destruct (syMode s). clear E. cbn [live_step] in L.
  destruct (syRequests s !! id) as [[| | |c f|]|] eqn:Er; try done. destruct (wResponses (syWorld s) !! id) as [r|] eqn:Eb; [|done]. injection L as <-.
  destruct (ti_buffer _ K _ _ Eb) as (c' & Hc & Ei). assert (c' = c) as -> by (by eapply (ti_own _ K)).
  exists c, f, r. split_and!; try done; [cbn; by rewrite lookup_insert_eq|]. intros c' r' Hc' Ei'. eapply answered_once; try done. by rewrite Ei'.
Qed.

(** ** Bounds *)
Definition pending (st : stage) : Prop := match st with Answered _ => False | _ => True end.
Record within (s : System) : Prop := {
  wi_events : len (syEvents s) <= queueCapacity;
  wi_gates l : (size (gaRunning (gate_of l s)) <= gateCapacity)%nat;
  wi_running id st : syRequests s !! id = Some st -> pending st -> exists l, id ∈ gaRunning (gate_of l s)
}.
Lemma within_same s s' :
  within s -> len (syEvents s') <= len (syEvents s) -> syInternal s' = syInternal s -> syOutbox s' = syOutbox s ->
  (forall id st, syRequests s' !! id = Some st -> pending st -> exists st0, syRequests s !! id = Some st0 /\ pending st0) -> within s'.
Proof.
  intros [W1 W2 W3] Le E1 E2 Rq. assert (forall l, gate_of l s' = gate_of l s) as G by (intros []; cbn; congruence). split.
  - lia.
  - intros l. rewrite G. apply W2.
  - intros id st E P. destruct (Rq _ _ E P) as (st0 & E0 & P0). destruct (W3 _ _ E0 P0) as [l Hl]. exists l. by rewrite G.
Qed.
Lemma within_becomes s id st :
  within s -> (exists st0, syRequests s !! id = Some st0 /\ pending st0) -> within (becomes id st s).
Proof.
  intros K E. eapply within_same; try done. intros id' st'. cbn. destruct (decide (id' = id)) as [->|N]; [done|].
  rewrite lookup_insert_ne by done. by eexists.
Qed.
Lemma within_answer s id r : within s -> within (answer id r s).
Proof.
  intros [W1 W2 W3]. split; [done| |].
  - intros l. etrans; [|apply (W2 l)]. apply subseteq_size. destruct l; cbn; set_solver.
  - intros id' st. cbn. destruct (decide (id' = id)) as [->|N]; [rewrite lookup_insert_eq; by intros [= <-]|]. rewrite lookup_insert_ne by done.
    intros E P. destruct (W3 _ _ E P) as [l Hl]. exists l. destruct l; cbn in *; set_solver.
Qed.
Lemma enter_running l id s l' :
  gaRunning (gate_of l' (enter l id s)) =
    if decide (l' = l /\ (size (gaRunning (gate_of l s)) < gateCapacity)%nat) then {[id]} ∪ gaRunning (gate_of l s) else gaRunning (gate_of l' s).
Proof.
  destruct (decide (l' = l)) as [->|N].
  - assert (gate_of l (enter l id s) = bounded_enter (gate_of l s) id) as -> by by destruct l. unfold bounded_enter.
    destruct (Nat.ltb_spec (size (gaRunning (gate_of l s))) gateCapacity); [rewrite decide_True by done|rewrite decide_False by lia]; done.
  - rewrite decide_False by (by intros [? _]). by destruct l, l'.
Qed.
Lemma within_enter l id s : within s -> within (enter l id s).
Proof.
  intros [W1 W2 W3]. split.
  - by destruct l.
  - intros l'. rewrite enter_running. case_decide as D; [|apply W2]. destruct D as [-> D]. rewrite size_union_alt, size_singleton.
    assert (size (gaRunning (gate_of l s) ∖ {[id]}) <= size (gaRunning (gate_of l s)))%nat by (apply subseteq_size; set_solver). lia.
  - intros id' st E P. assert (syRequests s !! id' = Some st) as E' by (by destruct l). destruct (W3 _ _ E' P) as [l' Hl]. exists l'.
    rewrite enter_running. case_decide as D; [|done]. destruct D as [-> _]. set_solver.
Qed.
Lemma within_arrive l id r s : within s -> within (arrive l id r s).
Proof.
  intros K. unfold arrive. apply (within_enter l id) in K as Ke. destruct (Nat.ltb_spec (size (gaRunning (gate_of l s))) gateCapacity) as [Lt|]; [|by apply within_answer].
  assert (forall st, pending st -> within (becomes id st (enter l id s))) as B.
  { intros st P. destruct Ke as [W1 W2 W3]. split; [done|intros l'; apply (W2 l')|]. intros id' st'. cbn [becomes syRequests].
    change (gate_of ?l' (becomes id st (enter l id s))) with (gate_of l' (enter l id s)).
    intros E P'. destruct (decide (id' = id)) as [->|N].
    - exists l. change (id ∈ gaRunning (gate_of l (enter l id s))). rewrite enter_running. rewrite decide_True by done. set_solver.
    - cbn in E. rewrite lookup_insert_ne in E by done. by eapply W3. }
  unfold dispatch. destruct (route _ _ _ _); [by apply within_answer|by apply B|]. destruct (negb _); [by apply within_answer|by apply B].
Qed.
Lemma within_loop i s s' : within s -> loop_moves i s = Some s' -> within s'.
Proof.
  intros K. unfold loop_moves. destruct (loop_step _ _ _ _) as [[w m]|]; [|done]. intros [= <-]. eapply within_same; try done. by eexists.
Qed.
Lemma within_step s s' : within s -> sys_rel s s' -> within s'.
Proof.
  intros K [l E]. unfold sys_step in E. assert (live_step l s = Some s') as L by by destruct (syMode s). clear E.
  assert (forall w, within (s <| syWorld := w |>)) as Kw by (intros w; eapply within_same; try done; by eexists).
  destruct l as [i| | |e|reg con|id l r|id identifier|id|id|id|id|id|d]; cbn [live_step] in L.
  - destruct i as [r| |t]; [by eapply within_loop..|]. destruct (ready t (syWorld s)); [by eapply within_loop|done].
  - destruct (syEvents s) as [|e rest] eqn:Ee; [done|]. eapply within_loop; [|exact L]. eapply within_same; try done; [|by eexists].
    cbn. rewrite Ee. unfold len. cbn [length]. lia.
  - destruct (syCommands s) as [|c rest]; [done|]. eapply within_loop; [|exact L]. eapply within_same; try done. by eexists.
  - injection L as <-. unfold notify. destruct (Z.ltb_spec (len (syEvents s)) queueCapacity); [|apply Kw].
    destruct K as [W1 W2 W3]. split; [|done..]. cbn [syEvents]. cbn. rewrite len_app. change (len [e]) with 1. lia.
  - injection L as <-. apply Kw.
  - destruct (syRequests s !! id); [done|]. injection L as <-. by apply within_arrive.
  - destruct (syRequests s !! id) as [[]|] eqn:Er; try done. injection L as <-. unfold add. destruct (outbound_item _ _ _ _); [|by apply within_answer].
    destruct (add_outbound _ _) as [w [[|]| |]]; [apply within_becomes; [apply Kw|by eexists]|by apply within_answer|..]; eapply within_same; try done; by eexists.
  - destruct (syRequests s !! id) as [[]|] eqn:Er; try done. injection L as <-. apply within_answer, Kw.
  - destruct (syRequests s !! id) as [[]|] eqn:Er; try done. destruct (_ <? _); [|done]. injection L as <-. apply within_becomes; [|by eexists].
    eapply within_same; try done. by eexists.
  - destruct (syRequests s !! id) as [[]|]; try done; injection L as <-; apply Kw.
  - destruct (syRequests s !! id) as [[]|]; try done; case_bool_decide; try done; injection L as <-; by apply within_answer.
  - destruct (syRequests s !! id) as [[]|]; try done. destruct (_ !! id); [|done]. injection L as <-. apply within_answer, Kw.
  - destruct (0 <=? d); [|done]. injection L as <-. apply Kw.
Qed.

(** The service's queues and goroutines are bounded whatever its clients and the phone do: at
    most 256 events and 32 commands wait, each server has at most 16 requests running, and a
    request that has not been answered is one of these. *)
Theorem service_bounded w s :
  wTrace w = [] -> wResponses w = ∅ -> rtc sys_rel (started w) s ->
  len (syEvents s) <= queueCapacity /\ len (syCommands s) <= commandCapacity /\
  (size (gaRunning (syInternal s)) <= gateCapacity)%nat /\ (size (gaRunning (syOutbox s)) <= gateCapacity)%nat /\
  forall id st, syRequests s !! id = Some st -> pending st -> id ∈ gaRunning (syInternal s) ∪ gaRunning (syOutbox s).
Proof.
  intros T Rb R. assert (within s) as [W1 W2 W3].
  { assert (within (started w)) as K.
    { split; [done| |by intros id st E; change ((∅ : gmap nat stage) !! id = Some st) in E; rewrite lookup_empty in E].
      intros l. destruct l; cbn [gate_of started syInternal syOutbox gaRunning]; rewrite size_empty; unfold gateCapacity; lia. }
    revert K. generalize (started w) R. clear. intros s0 R K. induction R as [|a b c Hab R IH]; [done|]. apply IH. by eapply within_step. }
  split_and!; [done|by apply (ti_room _ (reachable_tidy w s T Rb R))|apply (W2 Internal)|apply (W2 Outbox)|].
  intros id st E P. destruct (W3 _ _ E P) as [[] Hl]; cbn in Hl; set_solver.
Qed.

(** ** Forwarding over all interleavings *)
#[local] Existing Instance advances_preorder.
Ltac advance :=
  repeat first
    [ match goal with |- respects advances (bind _ _) => apply (respects_bind advances); [|intros] end
    | apply (respects_ret advances) | apply (respects_throw advances) | apply (respects_gets advances) | apply (respects_attempt advances)
    | apply runs_session | apply runs_status | apply runs_processEvent | apply runs_note; reflexivity
    | apply runs_store; intros; first [by eapply TakeOutbound_grows | by eapply SetInitialized_grows | by eapply MarkSeenMany_grows]
    | case_match ].
Lemma goes_advances {X} (fail : error -> mode) (ok : X -> mode) (op : M W X) w w' m' :
  respects advances op -> goes fail ok (op w) = (w', m') -> advances w w'.
Proof. intros Ad E. unfold goes in E. destruct (op w) as [w1 o] eqn:Eo. injection E as <- _. by eapply Ad. Qed.
Lemma receive_advances t w w' m' : receive cfg t w = (w', m') -> advances w w'.
Proof.
  destruct t as [|e| |c| |]; cbn [receive].
  - by intros [= <- _].
  - apply goes_advances, runs_processEvent.
  - intros [= <- _]. by apply advances_plain.
  - by intros [= <- _].
  - apply goes_advances. unfold poll_list. advance.
  - apply goes_advances, runs_session.
Qed.
Lemma loop_advances i m w w' m' : loop_step cfg i m w = Some (w', m') -> advances w w'.
Proof.
  destruct m as [b|b|b| | | |item| |[|item items]|c|c rr|b| | |], i as [r| |t]; cbn [loop_step]; intros E; try discriminate E; apply (inj Some) in E; revert E.
  - destruct (cancelled w); [by intros [= <- _]|]. destruct r as [session|e]; intros [= <- _]; by apply advances_plain.
  - apply goes_advances, runs_sleep.
  - apply goes_advances. advance.
  - destruct (IsInitialized (wStore w)); [by intros [= <- _]|]. apply goes_advances. unfold baseline. advance.
  - apply goes_advances. advance.
  - apply goes_advances. advance.
  - apply goes_advances. unfold send_item. advance.
  - apply receive_advances.
  - by intros [= <- _].
  - apply goes_advances. unfold poll_item. advance.
  - case_bool_decide; [by intros [= <- _]|]. apply goes_advances. unfold command_response. advance.
  - apply goes_advances. unfold respond, send_response. advance. apply runs_modify. intros w0. by destruct (wResponses w0 !! cmRequest c).
  - apply goes_advances. advance.
Qed.
Lemma add_advances item (w w' : W) o : add_outbound item w = (w', o) -> advances w w'.
Proof.
  intros E. apply add_outbound_spec in E. destruct E as [V B D Sn _ T | old _ _ _ St T | e St T | St T]; try by apply advances_plain.
  intros K. split.
  - assert (wStore w' = mkStore ((stData (wStore w)) <| dsOutbound := queue w ++ [item] |>) (stSeen (wStore w))) as ->
      by (destruct (wStore w') as [d sn]; cbn in *; by subst).
    split_and!; [|done|done]. apply with_outbound_ok; [done|rewrite len_app; change (len [item]) with 1; lia|].
    apply Forall_app. split; [apply K|by apply Forall_singleton].
  - exists [Queued item]. split; [done|]. intros _ h Hh. by apply elem_of_nil in Hh.
Qed.
Lemma sys_advances s s' : sys_rel s s' -> advances (syWorld s) (syWorld s').
Proof.
  intros [l E]. unfold sys_step in E. assert (live_step l s = Some s') as L by by destruct (syMode s). clear E.
  assert (forall i s0, syWorld s0 = syWorld s -> loop_moves i s0 = Some s' -> advances (syWorld s) (syWorld s')) as Lp.
  { intros i s0 Ew E. unfold loop_moves in E. destruct (loop_step _ _ _ _) as [[w m]|] eqn:El; [|done]. injection E as <-.
    apply loop_advances in El. by rewrite Ew in El. }
  assert (forall w', wStore w' = wStore (syWorld s) -> wTrace w' = wTrace (syWorld s) -> advances (syWorld s) w') as Pl by (intros; by apply advances_plain).
  destruct l as [i| | |e|reg con|id l r|id identifier|id|id|id|id|id|d]; cbn [live_step] in L.
  - destruct i as [r| |t]; [by eapply Lp..|]. destruct (ready t (syWorld s)); [by eapply Lp|done].
  - destruct (syEvents s); [done|]. by eapply Lp; [|exact L].
  - destruct (syCommands s); [done|]. by eapply Lp; [|exact L].
  - injection L as <-. unfold notify. destruct (_ <? _); by apply Pl.
  - injection L as <-. by apply Pl.
  - destruct (syRequests s !! id); [done|]. injection L as <-. unfold arrive, dispatch.
    destruct (_ <? gateCapacity)%nat; [|by destruct l; apply Pl]. destruct (route _ _ _ _); [..|destruct (negb _)]; by destruct l; apply Pl.
  - destruct (syRequests s !! id) as [[]|]; try done. injection L as <-. unfold add. destruct (outbound_item _ _ _ _); [|by apply Pl].
    destruct (add_outbound _ _) as [w o] eqn:Ea. apply add_advances in Ea. by destruct o as [[|]| |].
  - destruct (syRequests s !! id) as [[]|]; try done. injection L as <-. by apply Pl.
  - destruct (syRequests s !! id) as [[]|]; try done. destruct (_ <? _); [|done]. injection L as <-. by apply Pl.
  - destruct (syRequests s !! id) as [[]|]; try done; injection L as <-; by apply Pl.
  - destruct (syRequests s !! id) as [[]|]; try done; case_bool_decide; try done; injection L as <-; by apply Pl.
  - destruct (syRequests s !! id) as [[]|]; try done. destruct (_ !! id); [|done]. injection L as <-. by apply Pl.
  - destruct (0 <=? d); [|done]. injection L as <-. by apply Pl.
Qed.
Lemma run_advances s s' : rtc sys_rel s s' -> advances (syWorld s) (syWorld s').
Proof. induction 1 as [|a b c Hab R IH]; [done|]. etrans; [by apply sys_advances|done]. Qed.

(** C8.  A message is forwarded at most once, in the whole service: over every interleaving of the
    MAP loop with requests and notifications, over any number of sessions, events, polls and
    failing saves, a message forwarded in one part of the history is not forwarded again in a
    later part, and was not known before, as long as fewer than 4096 handles are remembered at
    the end (so that none was evicted). *)
Theorem forwarded_once_overall w s1 s2 new1 new2 h :
  store_ok (wStore w) -> rtc sys_rel (started w) s1 -> rtc sys_rel s1 s2 ->
  wTrace (syWorld s1) = wTrace w ++ new1 -> wTrace (syWorld s2) = wTrace (syWorld s1) ++ new2 ->
  len (dsSeenHandles (stData (wStore (syWorld s2)))) < maximumSeenHandles ->
  h ∈ forwarded new1 -> HasSeen (wStore w) h = false /\ h ∉ forwarded new2.
Proof.
  intros K R1 R2 T1 T2 L Hh. apply run_advances in R1, R2.
  destruct (R1 K) as ((K1 & L1 & G1) & n1 & E1 & F1). destruct (R2 K1) as ((K2 & L2 & G2) & n2 & E2 & F2). cbn in E1, F1, L1, G1.
  rewrite E1 in T1. apply app_inv_head in T1 as <-. rewrite E2 in T2. apply app_inv_head in T2 as <-.
  destruct (F1 ltac:(lia) h Hh) as [N S1]. split; [by apply bool_decide_eq_false_2|]. intros Hn. by destruct (F2 L h Hn) as [N2 _].
Qed.

(** ** Requests end *)
Fixpoint sys_run (ls : list (label S)) (s : System) : option System :=
  match ls with [] => Some s | l :: ls => s' ← sys_step l s; sys_run ls s' end.
Lemma sys_run_rtc ls s s' : sys_run ls s = Some s' -> rtc sys_rel s s'.
Proof.
  revert s. induction ls as [|l ls IH]; intros s E; cbn [sys_run] in E; [injection E as <-; apply rtc_refl|].
  destruct (sys_step l s) as [s1|] eqn:Es; [|done]. eapply rtc_l; [by exists l|by apply IH].
Qed.
(** Steps a request's goroutine takes by itself; [identifier] is what [rand.Read] gives it. *)
Definition own_step (id : nat) (identifier : option bytes) (l : label S) : Prop :=
  l = Adds id identifier \/ l = Signals id \/ l = GivesUp id.

(** C34.  No request waits for ever: from every state, in at most two steps of its own and whatever the MAP
    loop and the other requests do not do, a request whose context has ended is answered,
    unless the process is killed while it saves. *)
Theorem requests_end s id st identifier :
  syMode s <> Crashed -> syRequests s !! id = Some st -> pending st -> id ∈ wEnded (syWorld s) ->
  exists ls s', (length ls <= 2)%nat /\ Forall (own_step id identifier) ls /\ sys_run ls s = Some s' /\
    ((exists r, syRequests s' !! id = Some (Answered r)) \/ syMode s' = Crashed).
Proof.
  intros N E P En. assert (forall l s0, syMode s0 <> Crashed -> sys_step l s0 = live_step l s0) as St by (intros l s0 N0; unfold sys_step; by destruct (syMode s0)).
  assert (forall s0, syMode s0 <> Crashed -> syRequests s0 !! id = Some Signalling ->
    exists s', sys_run [Signals id] s0 = Some s' /\ exists r, syRequests s' !! id = Some (Answered r)) as Sg.
  { intros s0 N0 E0. cbn [sys_run]. rewrite St by done. cbn [live_step]. rewrite E0. eexists. split; [done|]. eexists. cbn. apply lookup_insert_eq. }
  assert (forall c f, st = Submitting c f \/ st = Awaiting c f ->
    exists s', sys_run [GivesUp id] s = Some s' /\ exists r, syRequests s' !! id = Some (Answered r)) as Gv.
  { intros c f Hst. cbn [sys_run]. rewrite St by done. cbn [live_step]. rewrite E, bool_decide_eq_true_2 by done.
    destruct Hst as [-> | ->]; (eexists; split; [done|]; eexists; cbn; apply lookup_insert_eq). }
  destruct st as [to text| |c f|c f|r]; [|..|done].
  - assert (sys_step (Adds id identifier) s = Some (add id identifier to text s)) as Ea by (rewrite St by done; cbn [live_step]; by rewrite E).
    assert ((exists r, syRequests (add id identifier to text s) !! id = Some (Answered r)) \/ syMode (add id identifier to text s) = Crashed \/
      syMode (add id identifier to text s) <> Crashed /\ syRequests (add id identifier to text s) !! id = Some Signalling) as [X | [X | [X1 X2]]].
    { unfold add. destruct (outbound_item _ _ _ _); [destruct (add_outbound _ _) as [w [[|]| |]]|]; cbn; rewrite ?lookup_insert_eq; eauto. }
    + exists [Adds id identifier], (add id identifier to text s). cbn [sys_run]. rewrite Ea. split_and!; [cbn; lia| |done|by left].
      apply Forall_singleton. by left.
    + exists [Adds id identifier], (add id identifier to text s). cbn [sys_run]. rewrite Ea. split_and!; [cbn; lia| |done|by right].
      apply Forall_singleton. by left.
    + destruct (Sg _ X1 X2) as (s' & R & A'). exists [Adds id identifier; Signals id], s'. split_and!; [cbn; lia| | |by left].
      * apply Forall_cons_2; [by left|]. apply Forall_singleton. right. by left.
      * cbn [sys_run]. rewrite Ea. exact R.
  - destruct (Sg s N E) as (s' & R & A'). exists [Signals id], s'. split_and!; [cbn; lia| |done|by left]. apply Forall_singleton. right. by left.
  - destruct (Gv c f) as (s' & R & A'); [by left|]. exists [GivesUp id], s'. split_and!; [cbn; lia| |done|by left]. apply Forall_singleton. right. by right.
  - destruct (Gv c f) as (s' & R & A'); [by right|]. exists [GivesUp id], s'. split_and!; [cbn; lia| |done|by left]. apply Forall_singleton. right. by right.
Qed.
End System.
