(* ===== verification/SmsExamples.v ===== *)
(** * The SMS bridge on concrete inputs

    A phone with a fixed inbox, a manager that takes everything and a media service that
    refuses, for running the service's theorems on. *)

From S2P Require Import Prelude GoStd GoText GoJson GoXml Obex SmsStore Message GoMime MapSession Ami GoNet SmsConfig Media SmsService SmsHttp HttpAnswers SmsLoop SmsSystem.
Import SmsStore.Plain.
#[local] Existing Instance Mime.go_mime.

(** ** Peers *)
Record Desk := mkDesk { dkInbox : list ListingMessage; dkText : bytes; dkSends : list (result unit) }.
#[export] Instance desk_client : MapClient Desk := {|
  msRegisterNotifications _ := ret tt;
  msKeepalive := ret tt;
  msListMessages _ _ _ := gets dkInbox;
  msGetMessage _ _ := gets dkText;
  msSendSMS _ _ := fun d => (mkDesk (dkInbox d) (dkText d) (tail (dkSends d)), Returns (default (Ok tt) (head (dkSends d))));
  msPushBMessage _ _ _ _ := ret tt;
  msClose := ret tt
|}.
#[export] Instance easy_sender : AmiSender unit := {| amiSendMessage _ _ _ _ _ _ := (tt, Ok tt) |}.
#[export] Instance closed_uploader : Uploader unit := {| mediaUpload _ _ := (tt, fail! "unavailable") |}.

Definition two_recipients : Config :=
  match Load (fun name => if String.eqb name "SMS_RECIPIENTS" then str "1002;1003" else minimal_env name) with
  | Ok c => c
  | Error _ => mkConfig [] [] 0 0 0 0 0 0 [] [] [] [] [] [] [] [] 0 0 [] [] 0 [] [] [] [] [] [] []
  end.
Lemma two_recipients_ok : config_ok two_recipients.
Proof.
  apply (Load_valid (fun name => if String.eqb name "SMS_RECIPIENTS" then str "1002;1003" else minimal_env name)). vm_compute. reflexivity.
Qed.

Definition sms_text : bytes := MakeSMSBMessage (str "112") (str "hello").
Definition listed (h : string) : ListingMessage := mkListing (str h) [] (str "20260723T102719") [].
Definition desk : Desk := mkDesk [listed "0A"; listed "0B"] sms_text [Ok tt; fail! "rejected"].
Definition desk_world : World diskState Desk unit unit :=
  mkWorld new_store new_saved [] desk tt tt newStatus ∅ false ∅ ∅ 0 None [].
Definition arrival : Event := mkEvent (str "NewMessage") (str "42") [] (str "SMS_GSM") (str "20260723T102719") (str "mns").

Lemma new_store_ok : store_ok new_store.
Proof. constructor; vm_compute; try reflexivity; try discriminate; constructor. Qed.


Lemma forwarded_witness :
  let w1 := acts two_recipients [Turn (OnEvent arrival)] desk_world in
  let w2 := acts two_recipients [Turn (OnEvent arrival); Turn OnPoll] w1 in
  str "42" ∉ forwarded (drop 3 (wTrace w2)).
Proof.
  intros w1 w2.
  refine (proj2 (forwarded_at_most_once two_recipients [Turn (OnEvent arrival)] [Turn (OnEvent arrival); Turn OnPoll]
    desk_world (wTrace w1) (drop 3 (wTrace w2)) (str "42") new_store_ok _ _ _ _)).
  - vm_compute. reflexivity.
  - vm_compute. reflexivity.
  - vm_compute. reflexivity.
  - vm_compute. left.
Defined.

Definition busy_world : World diskState Desk unit unit :=
  desk_world <| wStore := mkStore (mkDiskState 1 true [] [item 65; item 66; item 67]) ∅ |>.
Lemma drainOutbound_witness :
  exists n new, wTrace (drainOutbound busy_world).1 = [] ++ new /\ attempted new = take n [item 65; item 66; item 67] /\ n = 2%nat /\
    results new = [(item 65, Ok tt); (item 66, fail! "rejected")] /\ dsOutbound (stData (wStore (drainOutbound busy_world).1)) = [item 67].
Proof.
  destruct (drainOutbound_spec busy_world _ _ (surjective_pairing (drainOutbound busy_world))) as (n & new & L & T & At & Q & _).
  assert (new = wTrace (drainOutbound busy_world).1) as En by (by rewrite T).
  assert (n = 2%nat) as ->.
  { assert (length (attempted new) = 2%nat) as X by (rewrite En; vm_compute; reflexivity).
    rewrite At in X. cbn in L, X. rewrite length_take in X. cbn in X. lia. }
  exists 2%nat, new. split; [exact T|]. split; [exact At|]. split; [reflexivity|]. split; [rewrite En; vm_compute; reflexivity|].
  refine (proj2 (Q (fail! "rejected") _)). vm_compute. reflexivity.
Defined.

Lemma bootstrap_witness :
  exists s messages, msListMessages inbox (cfPollMaxCount two_recipients) 0 desk = (s, Returns (Ok messages)) /\
    length messages = 2%nat /\
    poll_items two_recipients messages (bootstrap two_recipients desk_world).1 = ((bootstrap two_recipients desk_world).1, Returns (Ok tt)).
Proof.
  destruct (bootstrap_baseline two_recipients desk_world (bootstrap two_recipients desk_world).1) as (_ & s & messages & E & P).
  - exact new_store_ok.
  - reflexivity.
  - vm_compute. reflexivity.
  - vm_compute. reflexivity.
  - exists s, messages. split; [exact E|]. split; [vm_compute in E; injection E as _ <-; reflexivity|]. apply P. apply incl_refl.
Defined.

Lemma forward_sendable_witness :
  Forall sendable (wTrace (forward two_recipients arrival (ParseBMessage sms_text) desk_world).1).
Proof.
  destruct (forward two_recipients arrival (ParseBMessage sms_text) desk_world) as [w' o] eqn:E.
  apply (forward_sendable two_recipients arrival (ParseBMessage sms_text) desk_world w' o (wTrace w')).
  - exact two_recipients_ok.
  - apply (bool_decide_unpack (all_bytes (msBody (ParseBMessage sms_text)))). vm_compute. exact I.
  - vm_compute. reflexivity.
  - exact E.
  - reflexivity.
Defined.

Lemma deferred_witness :
  let w1 := (deferMedia (str "42") desk_world).1 in
  30 * second <= 30 * second <= 3600 * second /\ HasSeen (wStore w1) (str "42") = HasSeen (wStore desk_world) (str "42") /\
  processEvent two_recipients arrival w1 = (w1, Returns (Ok tt)).
Proof.
  intros w1. apply (deferred_media_waits two_recipients (str "42") arrival desk_world w1 (30 * second) w1).
  - intros r E. vm_compute in E. discriminate E.
  - vm_compute. reflexivity.
  - reflexivity.
  - reflexivity.
  - vm_compute. reflexivity.
Defined.

Definition crash_world : World diskState (Session Phone) unit unit :=
  mkWorld new_store new_saved [] at_root tt tt newStatus ∅ false ∅ ∅ 0 None [].
Lemma raw_folder_witness :
  let _ : MapClient (Session Phone) := session_client Xml.no_wide 10 in
  (executeCommand (mkCommand 1 commandRaw (replicate (S (Z.to_nat 32766)) 97) [] 0 0 (str "x") false false) crash_world).2 = Panics.
Proof.
  apply raw_folder_crashes; [apply not_elem_of_empty|reflexivity|split; reflexivity || discriminate|apply letters_good|].
  exists (replicate (S (Z.to_nat 32766)) 97), []. rewrite letters_trim, letters_part. split; [reflexivity|].
  rewrite letters_value. lia.
Defined.

(** ** The API *)
Definition send_request (remote : string) : HttpRequest :=
  mkHttp (str "POST") (str "/send/sms") (str remote) [] (Some (json_text "{'to': '112', 'text': 'hello'}")).

Lemma outbox_witness :
  let h := outboxHandler two_recipients None (fun _ => 0) (send_request "10.0.0.9:4711") desk_world in
  exists w' p, complete (Some [7]) h desk_world = (w', Some (403, p)) /\
    ((403 = 403 /\ w' = desk_world) \/
     (local_or_listed two_recipients (str "10.0.0.9:4711") /\ (w' = desk_world \/ str "POST" = str "POST" /\ str "/send/sms" = str "/send/sms"))).
Proof.
  intros h. exists desk_world, (Failure (str "source not allowed")).
  assert (complete (Some [7]) h desk_world = (desk_world, Some (403, Failure (str "source not allowed")))) as E by (vm_compute; reflexivity).
  split; [exact E|].
  apply (outbox_guarded two_recipients None (fun _ => 0) (send_request "10.0.0.9:4711") (Some [7]) desk_world desk_world 403
    (Failure (str "source not allowed")) two_recipients_ok E).
Defined.

Lemma accepted_witness :
  let w' := (complete (Some [7]) (handleSend (send_request "127.0.0.1:4711")) desk_world).1 in
  wWake w' = true /\ exists to text n id,
    decode_send (send_request "127.0.0.1:4711") = Ok (to, text) /\ NormalizeDestination to = Ok n /\ Some [7] = Some id /\
    dsOutbound (stData (wStore w')) = [mkOutbound (str "07") (str "112") (str "hello") 0].
Proof.
  intros w'.
  destruct (accepted_is_queued (send_request "127.0.0.1:4711") (Some [7]) desk_world w' QueuedOK)
    as (Wk & to & text & n & id & D & N & I & _).
  - vm_compute. reflexivity.
  - split; [exact Wk|]. exists to, text, n, id. split; [exact D|]. split; [exact N|]. split; [exact I|]. vm_compute. reflexivity.
Defined.

(** A listing asked of a phone that is not there. *)
Lemma answer_contract_witness :
  contains (wrBody (writeJSON (failure 503 "MAP unavailable"))) ok_fragment <-> refuses (Failure (str "MAP unavailable")) = false.
Proof.
  apply (answer_contract two_recipients None (fun _ : World diskState Desk unit unit => 0) (failure 503 "MAP unavailable")).
  - apply (internal_answer two_recipients None (fun _ => 0) 1 (mkHttp (str "GET") (str "/messages") [] [] None) desk_world).
    exact (served_command _ (mkCommand 1 commandList inbox [] 20 0 [] false false) (list_answer false) (mkResponse [] no_message (Some (New "x"))) new_store eq_refl).
  - repeat split; repeat constructor; discriminate.
Defined.

(** ** The whole service *)
#[local] Abbreviation demo_run := (sys_run two_recipients None (fun _ : World diskState Desk unit unit => 0)).
#[local] Abbreviation demo_rel := (sys_rel two_recipients None (fun _ : World diskState Desk unit unit => 0)).
(** From the start to the loop waiting in [select]. *)
Definition connects : list (label Desk) := [LoopMoves (Connects (Ok desk)); LoopMoves Proceeds; LoopMoves Proceeds; LoopMoves Proceeds; LoopMoves Proceeds].
Definition list_request : HttpRequest := mkHttp (str "GET") (str "/messages") (str "127.0.0.1:4711") [] None.

(** A message has been queued and its request is about to wake the loop. *)
Definition queueing : list (label Desk) := connects ++ [Arrives 1 Outbox (send_request "127.0.0.1:4711"); Adds 1 (Some [7])].
Lemma outbound_in_order_witness :
  exists s, demo_run queueing (started desk_world) = Some s /\ syMode s = Serving /\
    dsOutbound (stData (wStore (syWorld s))) = [mkOutbound (str "07") (str "112") (str "hello") 0] /\
    (wWake (syWorld s) = true \/ exists id, syRequests s !! id = Some Signalling).
Proof.
  destruct (demo_run queueing (started desk_world)) as [s|] eqn:E; [|vm_compute in E; discriminate E]. exists s.
  destruct (outbound_in_order two_recipients None (fun _ => 0) desk_world s eq_refl (sys_run_rtc _ _ _ _ _ _ E)) as (_ & _ & Wo).
  vm_compute in E. injection E as <-. split; [reflexivity|]. split; [reflexivity|]. split; [vm_compute; reflexivity|]. apply Wo; [reflexivity|discriminate].
Defined.

(** A listing has been asked for and the phone has answered. *)
Definition listing : list (label Desk) := connects ++ [Arrives 2 Internal list_request; SendsCommand 2; LoopTakesCommand; LoopMoves Proceeds; LoopMoves Proceeds].
Lemma response_is_own_witness :
  exists s s', demo_run listing (started desk_world) = Some s /\
    sys_step two_recipients None (fun _ => 0) (TakesResponse 2) s = Some s' /\
    exists c f r, syRequests s !! 2%nat = Some (Awaiting c f) /\ syRequests s' !! 2%nat = Some (Answered (f r (wStore (syWorld s)))) /\
      (c, r) ∈ responses (wTrace (syWorld s)).
Proof.
  destruct (demo_run listing (started desk_world)) as [s|] eqn:E; [|vm_compute in E; discriminate E].
  destruct (response_is_own two_recipients None (fun _ => 0) desk_world s eq_refl eq_refl (sys_run_rtc _ _ _ _ _ _ E))
    as (_ & _ & Own).
  destruct (sys_step two_recipients None (fun _ => 0) (TakesResponse 2) s) as [s'|] eqn:Es.
  2: { vm_compute in E. injection E as <-. vm_compute in Es. discriminate Es. }
  exists s, s'. split; [reflexivity|]. split; [exact Es|]. destruct (Own 2%nat s' Es) as (c & f & r & A1 & A2 & A3 & _).
  exists c, f, r. split; [exact A1|]. split; [exact A2|exact A3].
Defined.

Lemma service_bounded_witness :
  exists s, demo_run listing (started desk_world) = Some s /\ (size (gaRunning (syInternal s)) <= gateCapacity)%nat.
Proof.
  destruct (demo_run listing (started desk_world)) as [s|] eqn:E; [|vm_compute in E; discriminate E]. exists s. split; [reflexivity|].
  apply (service_bounded two_recipients None (fun _ => 0) desk_world s eq_refl eq_refl (sys_run_rtc _ _ _ _ _ _ E)).
Defined.

(** A message has been forwarded; a poll meets it again. *)
Definition forwarding : list (label Desk) := connects ++ [Notified arrival; LoopTakesEvent].
Lemma forwarded_once_witness :
  exists s1 s2 new1 new2, demo_run forwarding (started desk_world) = Some s1 /\ demo_run [Notified arrival; LoopTakesEvent] s1 = Some s2 /\
    wTrace (syWorld s1) = [] ++ new1 /\ wTrace (syWorld s2) = wTrace (syWorld s1) ++ new2 /\ str "42" ∈ forwarded new1 /\ str "42" ∉ forwarded new2.
Proof.
  destruct (demo_run forwarding (started desk_world)) as [s1|] eqn:E1; [|vm_compute in E1; discriminate E1].
  destruct (demo_run [Notified arrival; LoopTakesEvent] s1) as [s2|] eqn:E2.
  2: { vm_compute in E1. injection E1 as <-. vm_compute in E2. discriminate E2. }
  exists s1, s2, (wTrace (syWorld s1)), []. split; [reflexivity|]. split; [exact E2|]. split; [reflexivity|].
  assert (wTrace (syWorld s2) = wTrace (syWorld s1) ++ []) as T2.
  { vm_compute in E1. injection E1 as <-. vm_compute in E2. injection E2 as <-. reflexivity. }
  split; [exact T2|]. assert (str "42" ∈ forwarded (wTrace (syWorld s1))) as Hf.
  { vm_compute in E1. injection E1 as <-. vm_compute. left. }
  split; [exact Hf|].
  refine (proj2 (forwarded_once_overall two_recipients None (fun _ => 0) desk_world s1 s2 _ _ (str "42")
    new_store_ok (sys_run_rtc _ _ _ _ _ _ E1) (sys_run_rtc _ _ _ _ _ _ E2) eq_refl T2 _ Hf)).
  vm_compute in E1. injection E1 as <-. vm_compute in E2. injection E2 as <-. vm_compute. reflexivity.
Defined.

Lemma requests_end_witness :
  exists s ls s', demo_run (queueing ++ [ContextEnds 1]) (started desk_world) = Some s /\ (length ls <= 2)%nat /\ demo_run ls s = Some s' /\
    ((exists r, syRequests s' !! 1%nat = Some (Answered r)) \/ syMode s' = Crashed).
Proof.
  destruct (demo_run (queueing ++ [ContextEnds 1]) (started desk_world)) as [s|] eqn:E; [|vm_compute in E; discriminate E].
  destruct (requests_end two_recipients None (fun _ => 0) s 1 Signalling None) as (ls & s' & L & _ & R & X).
  - vm_compute in E. injection E as <-. discriminate.
  - vm_compute in E. injection E as <-. vm_compute. reflexivity.
  - exact I.
  - vm_compute in E. injection E as <-. rewrite <- (bool_decide_eq_true (_ ∈ _)). vm_compute. reflexivity.
  - exists s, ls, s'. split; [reflexivity|]. split; [exact L|]. split; [exact R|exact X].
Defined.

Lemma mapLoop_steps_witness :
  exists w' m', mapLoop two_recipients [(Ok desk, [OnPoll; OnDone])] second desk_world = (w', Pending) /\
    rtc (loop_rel two_recipients) (desk_world, Top second) (w', m').
Proof.
  destruct (mapLoop two_recipients [(Ok desk, [OnPoll; OnDone])] second desk_world) as [w' o] eqn:E.
  destruct (mapLoop_steps two_recipients _ _ _ _ _ E) as (m' & R & _). exists w', m'. split; [|exact R].
  assert (o = Pending) as -> by (vm_compute in E; injection E as _ <-; reflexivity). reflexivity.
Defined.
