(* ===== verification/SafeLog.v ===== *)
(** * The rotating log writer

    Models src/callbridge-sms-go/internal/safelog/writer.go.  Every method runs under the writer's
    mutex.  The file system is the file at the path and its predecessor ".1"; the system calls of
    an operation may fail as [faults] says, and a write may be cut short. *)

From S2P Require Import Prelude GoStd GoText.

Inductive file_handle := HNil | HOpen | HClosed.
Record Log := mkLog { lgFile : file_handle; lgWritten : Z; lgMaximum : Z; lgCurrent : option bytes; lgOld : option bytes }.
#[export] Instance Log_fields : Fields Log := {|
  fields x := mkLog (lgFile x) (lgWritten x) (lgMaximum x) (lgCurrent x) (lgOld x) |}.

(** Which calls fail; [flOpen] is how opening fails: before or after the file was created;
    [flShort] is the number of bytes written before a write fails. *)
Inductive open_fault := Opens | NotOpened | NotChecked.
Record faults := mkFaults { flClose : bool; flRemove : bool; flRename : bool; flOpen : open_fault; flShort : option nat }.

Definition contents (f : option bytes) : bytes := default [] f.

(** [open]: the file is created when it is missing, and its size is where writing goes on.  A
    failing [Chmod] or [Stat] closes the file again, which is there now. *)
Definition open_log (f : faults) (l : Log) : Log * result unit :=
  let current := contents (lgCurrent l) in
  match flOpen f with
  | NotOpened => (l, fail! "open")
  | NotChecked => (l <| lgCurrent := Some current |>, fail! "chmod")
  | Opens => (l <| lgCurrent := Some current |> <| lgFile := HOpen |> <| lgWritten := len current |>, Ok tt)
  end.

(** [Open] of a path with [current] and [old] on disk. *)
Definition OpenLog (f : faults) (absolute : bool) (mkdir : bool) (maximum : Z) (current old : option bytes) : result Log :=
  if negb absolute || (maximum <? Z.shiftl 64 10) || (Z.shiftl 64 20 <? maximum) then fail! "invalid log writer configuration"
  else if negb mkdir then fail! "mkdir"
  else match open_log f (mkLog HNil 0 maximum current old) with
       | (l, Ok _) => Ok l
       | (_, Error e) => Error e
       end.

(** [rotate]. *)
Definition rotate (f : faults) (l : Log) : Log * result unit :=
  let close := match lgFile l with HNil => Ok l | HOpen => if flClose f then fail! "close" else Ok (l <| lgFile := HNil |>) | HClosed => fail! "file already closed" end in
  match close with
  | Error e => (l <| lgFile := HClosed |>, Error e)
  | Ok l =>
      let l := if flRemove f then l else l <| lgOld := None |> in
      match lgCurrent l with
      | None => open_log f l
      | Some current =>
          if flRename f then (l, fail! "rename")
          else open_log f (l <| lgCurrent := None |> <| lgOld := Some current |>)
      end
  end.

(** [os.File.Write]: the bytes that reached the file, and whether all did. *)
Definition file_write (f : faults) (l : Log) (data : bytes) : Log * Z * result unit :=
  match lgFile l with
  | HOpen =>
      let count := match flShort f with Some k => Nat.min k (length data) | None => length data end in
      (l <| lgCurrent := Some (contents (lgCurrent l) ++ take count data) |>, Z.of_nat count,
       if bool_decide (flShort f = None) then Ok tt else fail! "short write")
  | _ => (l, 0, fail! "invalid argument")
  end.

Definition WriteLog (f : faults) (l : Log) (data : bytes) : Log * Z * result unit :=
  let write l :=
    let '(l, count, r) := file_write f l data in (l <| lgWritten := lgWritten l + count |>, count, r) in
  if lgMaximum l <? lgWritten l + len data then
    match rotate f l with
    | (l, Error e) => (l, 0, Error e)
    | (l, Ok _) => write l
    end
  else write l.

Definition CloseLog (f : faults) (l : Log) : Log * result unit :=
  match lgFile l with
  | HNil => (l, Ok tt)
  | HOpen => (l <| lgFile := HNil |>, if flClose f then fail! "close" else Ok tt)
  | HClosed => (l <| lgFile := HNil |>, fail! "file already closed")
  end.

(** ** What the two files hold *)

(** Writes one after the other, each with its own faults; with the bytes that were taken. *)
Fixpoint write_all (ws : list (faults * bytes)) (l : Log) : Log * bytes :=
  match ws with
  | [] => (l, [])
  | (f, data) :: ws =>
      let '(l, count, _) := WriteLog f l data in
      let '(l, rest) := write_all ws l in
      (l, take (Z.to_nat count) data ++ rest)
  end.

(** An open file's length is what the writer believes, and both files stay within [bound]. *)
Record log_ok (bound : Z) (l : Log) : Prop := {
  lo_written : lgFile l = HOpen -> exists c, lgCurrent l = Some c /\ lgWritten l = len c;
  lo_maximum : lgMaximum l <= bound;
  lo_current : len (contents (lgCurrent l)) <= bound;
  lo_old : len (contents (lgOld l)) <= bound
}.
Definition both (l : Log) : bytes := contents (lgOld l) ++ contents (lgCurrent l).

Lemma open_log_ok bound f l l' r :
  log_ok bound l -> open_log f l = (l', r) -> log_ok bound l' /\ both l' = both l /\ lgMaximum l' = lgMaximum l /\
    (is_ok r = true -> lgCurrent l' = Some (contents (lgCurrent l))).
Proof.
  intros [K1 K2 K3 K4] E. unfold open_log in E. destruct (flOpen f); injection E as <- <-; split; try done; constructor; cbn; try done.
  - intros _. by eexists.
  - intros Fi. destruct (K1 Fi) as (c & -> & W). by exists c.
Qed.

Lemma rotate_ok bound f l l' r :
  log_ok bound l -> rotate f l = (l', r) ->
  log_ok bound l' /\ both l' `suffix_of` both l /\ lgMaximum l' = lgMaximum l /\ (is_ok r = true -> lgCurrent l' = Some []).
Proof.
  intros [K1 K2 K3 K4] E. unfold rotate in E.
  assert (forall e, (l <| lgFile := HClosed |>, Error e : result unit) = (l', r) ->
    log_ok bound l' /\ both l' `suffix_of` both l /\ lgMaximum l' = lgMaximum l /\ (is_ok r = true -> lgCurrent l' = Some [])) as Stuck.
  { intros e [= <- <-]. split_and!; [by constructor|done|done|done]. }
  assert (forall l0, lgWritten l0 = lgWritten l -> lgMaximum l0 = lgMaximum l -> lgCurrent l0 = lgCurrent l -> lgOld l0 = lgOld l -> lgFile l0 = HNil ->
    (let l1 := if flRemove f then l0 else l0 <| lgOld := None |> in
     match lgCurrent l1 with
     | None => open_log f l1
     | Some current => if flRename f then (l1, fail! "rename") else open_log f (l1 <| lgCurrent := None |> <| lgOld := Some current |>)
     end) = (l', r) ->
    log_ok bound l' /\ both l' `suffix_of` both l /\ lgMaximum l' = lgMaximum l /\ (is_ok r = true -> lgCurrent l' = Some [])) as Go.
  { clear E Stuck. intros l0 E1 E2 E3 E4 E5 E. cbv zeta in E. set (l1 := if flRemove f then l0 else _) in *.
    assert (log_ok bound l1 /\ both l1 `suffix_of` both l /\ lgMaximum l1 = lgMaximum l /\ lgCurrent l1 = lgCurrent l /\ lgFile l1 = HNil /\
      len (contents (lgOld l1)) <= bound) as (K & Su & Mx & Cu & Fi & Ol).
    { unfold l1. unfold both. destruct (flRemove f); cbn; rewrite ?E2, ?E3, ?E4, ?E5; split_and!; try done; try (by constructor; cbn; rewrite ?E2, ?E3, ?E4, ?E5).
      - constructor; cbn; rewrite ?E2, ?E3, ?E5; try done. pose proof (len_nonneg (contents (lgCurrent l))). change (len []) with 0. lia.
      - by apply suffix_app_r.
      - pose proof (len_nonneg (contents (lgCurrent l))). change (len []) with 0. lia. }
    clearbody l1. rewrite Cu in E. destruct (lgCurrent l) as [current|] eqn:C.
    - destruct (flRename f); [injection E as <- <-; done|].
      apply (open_log_ok bound) in E as (K' & Bo & Mx' & Cu').
      + split_and!; [done| |by rewrite Mx', <- Mx|intros Hr; by rewrite (Cu' Hr)].
        rewrite Bo. unfold both. cbn. rewrite app_nil_r, C. by apply suffix_app_r.
      + constructor; cbn; [by rewrite Fi|by rewrite Mx|change (len []) with 0; pose proof (len_nonneg (contents (Some current))); lia|done].
    - apply (open_log_ok bound) in E as (K' & Bo & Mx' & Cu'); [|done].
      split_and!; [done|by rewrite Bo|by rewrite Mx', <- Mx|intros Hr; rewrite (Cu' Hr), Cu; done]. }
  destruct (lgFile l) eqn:Fi.
  - by apply (Go l).
  - destruct (flClose f); [by apply (Stuck (New "close"))|]. by apply (Go (l <| lgFile := HNil |>)).
  - by apply (Stuck (New "file already closed")).
Qed.

Lemma WriteLog_ok bound f l data l' count r :
  log_ok bound l -> len data <= bound -> WriteLog f l data = (l', count, r) ->
  log_ok bound l' /\ lgMaximum l' = lgMaximum l /\ 0 <= count <= len data /\ (is_ok r = true -> count = len data) /\
  both l' `suffix_of` both l ++ take (Z.to_nat count) data.
Proof.
  intros K D E. unfold WriteLog in E.
  assert (forall l0, log_ok bound l0 -> lgMaximum l0 = lgMaximum l -> both l0 `suffix_of` both l ->
    (lgFile l0 = HOpen -> len (contents (lgCurrent l0)) + len data <= bound) ->
    (let '(l1, c, r) := file_write f l0 data in (l1 <| lgWritten := lgWritten l1 + c |>, c, r)) = (l', count, r) ->
    log_ok bound l' /\ lgMaximum l' = lgMaximum l /\ 0 <= count <= len data /\ (is_ok r = true -> count = len data) /\
    both l' `suffix_of` both l ++ take (Z.to_nat count) data) as Go.
  { clear E. intros l0 [K1 K2 K3 K4] Mx Su R E. unfold file_write in E. pose proof (len_nonneg data).
    assert (lgFile l0 <> HOpen -> (l0 <| lgWritten := lgWritten l0 + 0 |>, 0, fail! "invalid argument" : result unit) = (l', count, r) ->
      log_ok bound l' /\ lgMaximum l' = lgMaximum l /\ 0 <= count <= len data /\ (is_ok r = true -> count = len data) /\
      both l' `suffix_of` both l ++ take (Z.to_nat count) data) as No.
    { intros N [= <- <- <-]. change (Z.to_nat 0) with 0%nat. rewrite take_0, app_nil_r. split_and!; try done; try lia. }
    destruct (lgFile l0) eqn:Fi; [by apply No| |by apply No]. clear No. destruct (K1 eq_refl) as (c & Cc & Wc). specialize (R eq_refl).
    set (k := match flShort f with Some k => _ | None => _ end) in *. assert (k <= length data)%nat as Hk by (unfold k; destruct (flShort f); lia).
    injection E as <- <- <-. rewrite Cc in R, K3 |- *. cbn [contents default] in *.
    assert (len (take k data) = Z.of_nat k) as Lk by (unfold len; rewrite length_take; lia).
    assert (len (take k data) <= len data) as Lt by (rewrite Lk; unfold len; lia).
    split_and!.
    - constructor; cbn; [|done|rewrite len_app; cbn in R; lia|done]. intros _. eexists. split; [done|]. rewrite Wc, len_app. lia.
    - done.
    - lia.
    - unfold len. lia.
    - case_bool_decide as Sh; [|done]. intros _. unfold k, len. by rewrite Sh.
    - rewrite Nat2Z.id. unfold both in *. cbn. rewrite Cc in Su. cbn in Su. rewrite app_assoc. by apply suffix_app. }
  destruct (Z.ltb_spec (lgMaximum l) (lgWritten l + len data)) as [Over|Fits].
  - destruct (rotate f l) as [l1 [[]|e]] eqn:Er; apply (rotate_ok bound) in Er as (K1 & Su & Mx & Cu); try done.
    + apply (Go l1); try done. intros _. rewrite (Cu eq_refl). cbn. change (len []) with 0. lia.
    + injection E as <- <- <-. change (Z.to_nat 0) with 0%nat. rewrite take_0, app_nil_r. pose proof (len_nonneg data). split_and!; done || lia.
  - apply (Go l); try done. intros Fi. destruct (lo_written _ _ K Fi) as (c & Cc & Wc). rewrite Cc. cbn. pose proof (lo_maximum _ _ K). lia.
Qed.

(** Everything works. *)
Definition fine : faults := mkFaults false false false Opens None.

(** A write for which everything works is taken whole; and it drops what is oldest only when
    what remains is more than the maximum. *)
Lemma WriteLog_fine bound l data l' count r :
  log_ok bound l -> lgFile l = HOpen -> WriteLog fine l data = (l', count, r) ->
  lgFile l' = HOpen /\ count = len data /\
  (both l' = both l ++ data \/ (lgMaximum l < len (both l') /\ exists lost, both l ++ data = lost ++ both l')).
Proof.
  intros K Fi E. destruct (lo_written _ _ K Fi) as (c & Cc & Wc). destruct l as [fi w mx cu ol]. cbn in *. subst.
  unfold WriteLog in E. cbn in E. destruct (Z.ltb_spec mx (len c + len data)) as [Over|Fits]; unfold rotate, file_write, open_log in E; cbn in E;
    injection E as <- <- <-; unfold both; cbn; rewrite firstn_all; (split; [done|]; split; [done|]).
  - right. rewrite len_app. split; [lia|]. exists (contents ol). by rewrite app_assoc.
  - left. by rewrite app_assoc.
Qed.

Lemma write_all_fine bound ws l l' taken :
  log_ok bound l -> lgFile l = HOpen -> Forall (fun w => len w.2 <= bound) ws -> Forall (fun w => w.1 = fine) ws ->
  write_all ws l = (l', taken) ->
  taken = concat ws.*2 /\ (both l' = both l ++ taken \/ lgMaximum l < len (both l')).
Proof.
  intros K Fi B F. revert l taken K Fi. induction F as [|[f data] ws Ff F IH]; intros l taken K Fi E; cbn [write_all] in E.
  { injection E as <- <-. rewrite app_nil_r. auto. }
  cbn in Ff. subst f. inversion B as [|? ? D B']; subst.
  destruct (WriteLog fine l data) as [[l1 count] r] eqn:Ew. destruct (write_all ws l1) as [l2 rest] eqn:Ea. injection E as <- <-.
  pose proof (WriteLog_fine _ _ _ _ _ _ K Fi Ew) as (F1 & -> & Bo).
  apply (WriteLog_ok bound) in Ew as (K1 & Mx & _ & _ & _); [|done|done].
  destruct (IH B' l1 rest K1 F1 Ea) as (-> & Bo2). replace (take (Z.to_nat (len data)) data) with data by (unfold len; by rewrite Nat2Z.id, firstn_all). split; [done|].
  rewrite Mx in Bo2. destruct Bo2 as [Bo2|]; [|by right]. rewrite Bo2. destruct Bo as [->|[Lt _]]; [left; by rewrite <- app_assoc|].
  right. rewrite len_app. pose proof (len_nonneg (concat ws.*2)). lia.
Qed.

Lemma write_all_ok bound ws l l' taken :
  log_ok bound l -> Forall (fun w => len w.2 <= bound) ws -> write_all ws l = (l', taken) ->
  log_ok bound l' /\ both l' `suffix_of` both l ++ taken.
Proof.
  intros K F. revert l taken K. induction F as [|[f data] ws D F IH]; intros l taken K E; cbn [write_all] in E.
  { injection E as <- <-. by rewrite app_nil_r. }
  destruct (WriteLog f l data) as [[l1 count] r] eqn:Ew. destruct (write_all ws l1) as [l2 rest] eqn:Ea. injection E as <- <-.
  apply (WriteLog_ok bound) in Ew as (K1 & _ & _ & _ & Su); [|done|done]. destruct (IH l1 rest K1 Ea) as (K2 & Su2).
  split; [done|]. etrans; [exact Su2|]. rewrite app_assoc. by apply suffix_app.
Qed.

Lemma OpenLog_ok f absolute mkdir maximum current old l bound :
  OpenLog f absolute mkdir maximum current old = Ok l -> Forall (fun n => n <= bound) [maximum; len (contents current); len (contents old)] ->
  log_ok bound l /\ lgFile l = HOpen /\ lgMaximum l = maximum /\ both l = contents old ++ contents current.
Proof.
  unfold OpenLog. intros E F. repeat (apply Forall_cons in F as [? F]). destruct (negb absolute || _ || _); [done|]. destruct mkdir; [|done].
  unfold open_log in E. destruct (flOpen f); cbn in E; try done. injection E as <-. split; [|done]. constructor; cbn; try done. intros _. by eexists.
Qed.

(** C31.  The log is bounded and loses only its oldest part.  From opening it on the files found, over
    any writes with any calls failing or cut short, neither file grows beyond the configured
    maximum or, where that is more, the longest single write and the sizes found at the start;
    and the older file followed by the current one is always an end of what was there and what
    was taken since, in order and without gaps.  While no call fails every write is taken whole,
    and something is dropped only when more than the maximum remains. *)
Theorem log_bounded_suffix f absolute mkdir maximum current old l ws l' taken bound :
  OpenLog f absolute mkdir maximum current old = Ok l ->
  Forall (fun n => n <= bound) [maximum; len (contents current); len (contents old)] ->
  Forall (fun w => len w.2 <= bound) ws ->
  write_all ws l = (l', taken) ->
  let before := contents old ++ contents current in
  len (contents (lgCurrent l')) <= bound /\ len (contents (lgOld l')) <= bound /\
  both l' `suffix_of` before ++ taken /\
  (Forall (fun w => w.1 = fine) ws ->
     taken = concat ws.*2 /\ (both l' = before ++ taken \/ maximum < len (both l'))).
Proof.
  intros E B F W before. apply OpenLog_ok with (bound := bound) in E as (K & Fi & <- & Bo); [|done]. unfold before. rewrite <- Bo.
  destruct (write_all_ok bound ws l l' taken K F W) as ([_ _ K3 K4] & Su). split_and!; [done|done|done|].
  intros Fine. by apply (write_all_fine bound).
Qed.

Definition full_log : bytes := replicate (Z.to_nat 65534) 97.
Definition some_writes : list (faults * bytes) :=
  [(fine, str "de"); (fine, str "fg"); (mkFaults false false false NotChecked (Some 1%nat), str "h"); (fine, str "i")].
Lemma log_witness :
  exists l, OpenLog fine true true 65536 (Some full_log) None = Ok l /\
  let r := write_all some_writes l in both r.1 `suffix_of` full_log ++ r.2.
Proof.
  eexists. split; [reflexivity|]. intros r.
  eapply (log_bounded_suffix fine true true 65536 (Some full_log) None _ some_writes r.1 r.2 65536); [reflexivity|..].
  - repeat (apply Forall_cons_2; [vm_compute; discriminate|]). apply Forall_nil_2.
  - repeat (apply Forall_cons_2; [vm_compute; discriminate|]). apply Forall_nil_2.
  - apply surjective_pairing.
Defined.
