(* ===== verification/Rfcomm.v ===== *)
(** * RFCOMM sockets

    Models src/callbridge-sms-go/internal/bt/rfcomm.go: the loops that turn [read] and [write]
    system calls into [ReadFull] and [WriteAll], opening a socket and adopting a descriptor.

    A socket is the bytes that will arrive, the bytes sent, and what the kernel answers to each
    call in turn: so many bytes, an interruption, end of file, or an error.  [socket_transport]
    makes it an instance of the OBEX [Transport]; the theorem says that it refines
    the reliable stream. *)

From S2P Require Import Prelude GoStd GoText Obex SmsConfig.

(** ** Addresses: the kernel wants the octets in reverse *)
Definition ParseAddress (value : bytes) : option bytes :=
  let parts := SplitByte value 58 in
  if negb (len parts =? 6) then None else (@rev Z) <$> hex_parts parts.

Lemma ParseAddress_reversed value : ParseAddress value = (@rev Z) <$> ParseBluetoothAddress value.
Proof. unfold ParseAddress, ParseBluetoothAddress. by case_match. Qed.

(** ** Reading and writing *)
Inductive kernel := Moves (n : nat) | Interrupted | Broken.
Record socket := mkSocket { skIncoming : bytes; skOutgoing : bytes; skReads : list kernel; skWrites : list kernel }.
Definition EAGAIN : error := Sentinel "net.Error" "resource temporarily unavailable".
Definition ErrShortWrite : error := Sentinel "io.ErrShortWrite" "short write".

(** One [read] of at most [want] bytes.  A read that moves nothing is end of file; a socket
    without an answer left runs into its receive timeout. *)
Fixpoint read_loop (script : list kernel) (want : nat) (inc : bytes) (got : bytes) : list kernel * bytes * result bytes :=
  match want with
  | O => (script, inc, Ok got)
  | _ =>
      match script with
      | [] => ([], inc, Error EAGAIN)
      | Interrupted :: script => read_loop script want inc got
      | Broken :: script => (script, inc, Error EAGAIN)
      | Moves n :: script =>
          let count := Nat.min (Nat.min n want) (length inc) in
          if Nat.eqb count 0 then (script, inc, Error ErrUnexpectedEOF)
          else read_loop script (want - count) (drop count inc) (got ++ take count inc)
      end
  end.
Fixpoint write_loop (script : list kernel) (rest : bytes) (out : bytes) : list kernel * bytes * result unit :=
  match rest with
  | [] => (script, out, Ok tt)
  | _ =>
      match script with
      | [] => ([], out, Error EAGAIN)
      | Interrupted :: script => write_loop script rest out
      | Broken :: script => (script, out, Error EAGAIN)
      | Moves n :: script =>
          let count := Nat.min n (length rest) in
          if Nat.eqb count 0 then (script, out, Error ErrShortWrite)
          else write_loop script (drop count rest) (out ++ take count rest)
      end
  end.
#[export] Instance socket_transport : Transport socket := {|
  ReadFull s n :=
    let '(script, inc, r) := read_loop (skReads s) n (skIncoming s) [] in
    (mkSocket inc (skOutgoing s) script (skWrites s), r);
  WriteAll s p :=
    let '(script, out, r) := write_loop (skWrites s) p (skOutgoing s) in
    (mkSocket (skIncoming s) out (skReads s) script, r)
|}.

(** ** Opening a socket *)
Inductive fd_action := SocketCreated | SocketClosed.
Record connect_answers := mkConnect {
  caSocket : bool;
  caConnect : option bool;     (** connected, refused ([Some false]) or in progress ([None]) *)
  caPoll : option Z;           (** the number of ready descriptors, or an error *)
  caSockError : option Z;      (** SO_ERROR, or that the option cannot be read *)
  caBlocking : bool;
  caReceiveTimeout : bool;
  caSendTimeout : bool
}.
Definition SetTimeout (receive send : bool) : result unit :=
  if negb receive then fail! "set RFCOMM receive timeout" else if negb send then fail! "set RFCOMM send timeout" else Ok tt.

(** The wait for a connection in progress. *)
Definition await_connection (a : connect_answers) : result unit :=
  match caConnect a with
  | Some true => Ok tt
  | Some false => fail! "connect RFCOMM"
  | None =>
      match caPoll a with
      | None => fail! "wait RFCOMM"
      | Some ready =>
          if negb (ready =? 1) then fail! "RFCOMM connection timed out"
          else match caSockError a with
               | None => fail! "inspect RFCOMM connection"
               | Some result => if negb (result =? 0) then fail! "connect RFCOMM" else Ok tt
               end
      end
  end.
(** [Connect]: what happens to the descriptor, the deferred close included. *)
Definition ConnectRFCOMM (address : bytes) (a : connect_answers) : list fd_action * result unit :=
  match ParseAddress address with
  | None => ([], fail! "invalid Bluetooth address")
  | Some _ =>
      if negb (caSocket a) then ([], fail! "create RFCOMM socket")
      else
        let r :=
          let! _ := await_connection a in
          if negb (caBlocking a) then fail! "set RFCOMM blocking mode"
          else SetTimeout (caReceiveTimeout a) (caSendTimeout a) in
        match r with
        | Ok _ => ([SocketCreated], Ok tt)
        | Error e => ([SocketCreated; SocketClosed], Error e)
        end
  end.
(** [FromFD] takes over an open descriptor. *)
Definition FromFD (fd : Z) (blocking receive send : bool) : list fd_action * result unit :=
  if fd <? 0 then ([], fail! "invalid RFCOMM descriptor")
  else if negb blocking then ([SocketClosed], fail! "set passed RFCOMM descriptor blocking")
  else match SetTimeout receive send with
       | Error e => ([SocketClosed], Error e)
       | Ok _ => ([], Ok tt)
       end.
(** [Close] through [sync.Once]: whether the descriptor was closed before. *)
Definition CloseOnce (closed : bool) : bool * list fd_action := if closed then (true, []) else (true, [SocketClosed]).

(** ** The loops *)
Lemma read_loop_spec script want inc got script' inc' r :
  read_loop script want inc got = (script', inc', r) ->
  exists k, inc' = drop k inc /\ (k <= want)%nat /\ (k <= length inc)%nat /\
    match r with Ok data => k = want /\ data = got ++ take want inc | Error _ => (k < want)%nat end.
Proof.
  revert want inc got. induction script as [|a script IH]; intros want inc got E; destruct want as [|want]; cbn [read_loop] in E.
  - injection E as <- <- <-. exists 0%nat. rewrite drop_0, take_0, app_nil_r. split_and!; done || lia.
  - injection E as <- <- <-. exists 0%nat. rewrite drop_0. split_and!; [done|lia..].
  - injection E as <- <- <-. exists 0%nat. rewrite drop_0, take_0, app_nil_r. split_and!; done || lia.
  - destruct a as [n| |].
    + set (count := Nat.min (Nat.min n (S want)) (length inc)) in *. destruct (Nat.eqb_spec count 0) as [Z0|Nz].
      { injection E as <- <- <-. exists 0%nat. rewrite drop_0. split_and!; [done|lia..]. }
      assert (1 <= count <= S want /\ count <= length inc)%nat as [B1 B2] by lia. clearbody count.
      apply IH in E as (k & -> & L1 & L2 & R). rewrite length_drop in L2. exists (count + k)%nat. rewrite drop_drop. split_and!; [done|lia|lia|].
      destruct r as [data|e]; [|lia]. destruct R as [Ek ->]. split; [lia|]. rewrite <- app_assoc. f_equal.
      replace (S want) with (count + (S want - count))%nat at 2 by lia. by rewrite <- take_take_drop.
    + by apply IH.
    + injection E as <- <- <-. exists 0%nat. rewrite drop_0. split_and!; [done|lia..].
Qed.
Lemma write_loop_spec script rest out script' out' r :
  write_loop script rest out = (script', out', r) ->
  exists k, out' = out ++ take k rest /\ match r with Ok _ => k = length rest | Error _ => (k < length rest)%nat end.
Proof.
  revert rest out. induction script as [|a script IH]; intros rest out E; destruct rest as [|b rest]; cbn [write_loop] in E.
  - injection E as <- <- <-. exists 0%nat. by rewrite app_nil_r.
  - injection E as <- <- <-. exists 0%nat. rewrite app_nil_r. split; [done|cbn; lia].
  - injection E as <- <- <-. exists 0%nat. by rewrite app_nil_r.
  - destruct a as [n| |].
    + set (count := Nat.min n (length (b :: rest))) in *. destruct (Nat.eqb_spec count 0) as [Z0|Nz].
      { injection E as <- <- <-. exists 0%nat. rewrite app_nil_r. split; [done|cbn; lia]. }
      assert (1 <= count <= length (b :: rest))%nat as B by lia. clearbody count.
      apply IH in E as (k & -> & R). rewrite length_drop in R. exists (count + k)%nat. rewrite <- app_assoc, take_take_drop. split; [done|].
      destruct r; lia.
    + by apply IH.
    + injection E as <- <- <-. exists 0%nat. rewrite app_nil_r. split; [done|cbn; lia].
Qed.

(** What a socket's peer sees of it. *)
Definition as_stream (s : socket) : stream := mkStream (skIncoming s) (skOutgoing s).

(** C24.  A socket is a byte stream: whatever way the kernel splits, interrupts and fails the
    system calls, a [ReadFull] or [WriteAll] that succeeds does exactly what the reliable stream
    does, and one that fails has read fewer bytes than asked for, or written a proper
    beginning of the buffer.  So the OBEX framing proved on streams holds on sockets until
    the first error. *)
Theorem socket_refines_stream (s s' : socket) n p :
  (forall r, ReadFull s n = (s', r) ->
    match r with
    | Ok data => ReadFull (as_stream s) n = (as_stream s', Ok data)
    | Error _ => exists k, (k < n)%nat /\ as_stream s' = mkStream (drop k (skIncoming s)) (skOutgoing s)
    end) /\
  (forall r, WriteAll s p = (s', r) ->
    match r with
    | Ok _ => WriteAll (as_stream s) p = (as_stream s', Ok tt)
    | Error _ => exists k, (k < length p)%nat /\ as_stream s' = mkStream (skIncoming s) (skOutgoing s ++ take k p)
    end).
Proof.
  split; intros r E; cbn [ReadFull WriteAll socket_transport] in E.
  - destruct (read_loop (skReads s) n (skIncoming s) []) as [[script inc] r1] eqn:R. injection E as <- <-.
    apply read_loop_spec in R as (k & -> & L1 & L2 & R). destruct r1 as [data|e]; [|by exists k]. destruct R as [-> ->].
    cbn [ReadFull stream_transport as_stream incoming outgoing skIncoming skOutgoing].
    rewrite (proj2 (Nat.ltb_ge _ _)) by done. done.
  - destruct (write_loop (skWrites s) p (skOutgoing s)) as [[script out] r1] eqn:R. injection E as <- <-.
    apply write_loop_spec in R as (k & -> & R). destruct r1 as [[]|e]; [|by exists k]. subst k.
    rewrite firstn_all. done.
Qed.

(** Descriptors: on every path [Connect] has closed the socket it created exactly once
    when it fails and leaves it open when it succeeds, and [FromFD] closes the descriptor it
    was given exactly when it fails (unless it was no descriptor at all). *)
Theorem descriptors_accounted address a fd blocking receive send :
  (let '(actions, r) := ConnectRFCOMM address a in
   actions = [] /\ is_ok r = false \/
   actions = [SocketCreated; SocketClosed] /\ is_ok r = false \/ actions = [SocketCreated] /\ is_ok r = true) /\
  (let '(actions, r) := FromFD fd blocking receive send in
   actions = (if is_ok r || (fd <? 0) then [] else [SocketClosed])).
Proof.
  split.
  - unfold ConnectRFCOMM. destruct (ParseAddress address); [|by left]. destruct (negb (caSocket a)); [by left|]. cbv zeta.
    match goal with |- context [match ?r with Ok _ => _ | Error _ => _ end] => destruct r end; auto.
  - unfold FromFD. destruct (fd <? 0); [done|]. destruct blocking; [|done]. by destruct receive, send.
Qed.
