(* ===== verification/SinkNudge.v ===== *)
(** * The Sink nudge

    Models src/callbridge-sms-go/internal/bluez/sink_nudge.go, the endpoint properties it
    shares with the broker, and the argument check of
    src/callbridge-le-call-go/cmd/le-sink-nudge/main.go: a temporary Sink endpoint is registered
    and removed at once, after checks of the paired device.  The registrar is an interface, as
    in the code; its D-Bus implementation keeps the calls made and takes BlueZ's replies in turn. *)

From S2P Require Import Prelude GoStd GoText GoNet SmsConfig Inventory GtbsClient Lc3 Handoff Qos Broker Advert.

(** ** Checks of the arguments *)

(** [strconv.ParseUint(s, 10, 31)]. *)
Definition ParseUint31 (s : bytes) : option Z :=
  match s with
  | [] => None
  | _ => v ← digits_value s 0; if 2 ^ 31 <=? v then None else Some v
  end.
Definition validAdapterName (adapter : bytes) : bool :=
  if negb (HasPrefix adapter (str "hci")) || (len adapter =? 3) then false
  else isSome (ParseUint31 (TrimPrefix adapter (str "hci"))).
Definition validBluetoothAddress (address : bytes) : bool :=
  let parts := SplitByte address 58 in
  if negb (len parts =? 6) then false
  else forallb (fun part => (len part =? 2) && isSome (parse_hex_octet part)) parts.

(** The command's own check. *)
Definition nudge_arguments (device : bytes) (timeout : Z) : bool :=
  negb ((len device =? 0) || (timeout <=? 0) || (30 * Second <? timeout)).

(** ** Endpoint properties *)
Record endpoint_properties := mkEndpoint {
  epUUID : bytes; epCodec : Z; epCapabilities : bytes; epMetadata : bytes; epLocations : Z;
  epSupportedContext : Z; epContext : Z; epFraming : Z; epPHY : Z; epRetransmissions : Z;
  epSupportedFeatures : list (bytes * list bytes)
}.
Definition PACSinkUUID : bytes := str "00002bc9-0000-1000-8000-00805f9b34fb".
Definition PACSourceUUID : bytes := str "00002bcb-0000-1000-8000-00805f9b34fb".
Definition TMASUUID : bytes := str "00001855-0000-1000-8000-00805f9b34fb".
Definition LC3Codec : Z := 0x06.
Definition endpointProperties (uuid : bytes) : endpoint_properties :=
  mkEndpoint uuid LC3Codec LC3Capabilities [0x03; 0x01; 0x02; 0x00] FrontLeftLocation
    SupportedContexts SupportedContexts 0 2 2 [(TMASUUID, [str "ct"])].
Definition sinkNudgeEndpointProperties : endpoint_properties :=
  let p := endpointProperties PACSinkUUID in
  mkEndpoint (epUUID p) (epCodec p) (epCapabilities p) (epMetadata p) (epLocations p)
    MediaContext MediaContext (epFraming p) (epPHY p) (epRetransmissions p) (epSupportedFeatures p).

(** The temporary endpoint's methods: what BlueZ gets back from each. *)
Inductive endpoint_method := MSelectConfiguration | MSelectProperties | MSetConfiguration | MClearConfiguration | MRelease | MReconfigure.
Definition sinkNudgeNotSupported : error := Sentinel "org.bluez.Error.NotSupported" "temporary Sink nudge endpoint".
Definition sinkNudgeEndpoint (m : endpoint_method) : result unit :=
  match m with
  | MClearConfiguration | MRelease => Ok tt
  | _ => Error sinkNudgeNotSupported
  end.

(** ** The registrar *)
Definition sinkNudgeEndpointPath : bytes := str "/callbridge/leaudio/sink_nudge".
Class sinkNudgeRegistrar (R : Type) := {
  Register : R -> bytes -> endpoint_properties -> R * result unit;
  Unregister : R -> bytes -> R * result unit
}.
Definition performSinkNudge {R} `{sinkNudgeRegistrar R} (registrar : option R) : option R * result unit :=
  match registrar with
  | None => (None, fail! "nil Sink nudge registrar")
  | Some r =>
      let '(r, reg) := Register r sinkNudgeEndpointPath sinkNudgeEndpointProperties in
      match reg with
      | Error e => (Some r, Error (Wrap "register temporary Sink endpoint" e))
      | Ok _ =>
          let '(r, unreg) := Unregister r sinkNudgeEndpointPath in
          match unreg with
          | Error e => (Some r, Error (Wrap "unregister temporary Sink endpoint" e))
          | Ok _ => (Some r, Ok tt)
          end
      end
  end.

Inductive media_call := RegisterEndpoint (p : bytes) (props : endpoint_properties) | UnregisterEndpoint (p : bytes).
Record dbusSinkNudgeRegistrar := mkRegistrar { drCalls : list media_call; drReply : media_call -> result unit }.
Definition media_Call (r : dbusSinkNudgeRegistrar) (c : media_call) : dbusSinkNudgeRegistrar * result unit :=
  (mkRegistrar (drCalls r ++ [c]) (drReply r), drReply r c).
#[export] Instance dbus_registrar : sinkNudgeRegistrar dbusSinkNudgeRegistrar := {|
  Register r p props := media_Call r (RegisterEndpoint p props);
  Unregister r p := media_Call r (UnregisterEndpoint p)
|}.

(** ** The nudge *)
Definition readDeviceBoolean (r : reply variant) : result bool :=
  match r with
  | CallErr e => Error e
  | StoreErr e => Error e
  | Reply (VBool enabled) => Ok enabled
  | Reply _ => fail! "BlueZ device property is not boolean"
  end.
Definition readLEBearerConnected (r : reply variant) : result bool :=
  match r with
  | CallErr e => Error e
  | StoreErr e => Error e
  | Reply (VBool connected) => Ok connected
  | Reply _ => fail! "LE bearer Connected property is not boolean"
  end.
(** What BlueZ says, by property name and by call. *)
Record nudge_answers := mkNudge {
  naBus : result unit;
  naObjects : result (list (bytes * interfaces));
  naProperty : string -> reply variant;
  naBearer : reply variant;
  naExport : result unit;
  naMedia : media_call -> result unit
}.
Fixpoint check_baseline (read : string -> reply variant) (names : list string) : result unit :=
  match names with
  | [] => Ok tt
  | property :: names =>
      match readDeviceBoolean (read property) with
      | Error e => Error (Wrap ("read Sink nudge baseline " ++ property) e)
      | Ok ready => if negb ready then fail! ("Sink nudge baseline " ++ property ++ " is false")%string else check_baseline read names
      end
  end.
Definition baseline_names : list string := ["Paired"; "Bonded"; "Trusted"]%string.
(** [SinkNudge]: the calls on the media interface, and the result. *)
Definition SinkNudge (adapter device : bytes) (a : nudge_answers) : list media_call * result unit :=
  let early r := ([], r) in
  if negb (validAdapterName adapter) || negb (validBluetoothAddress device) then early (fail! "invalid LE Audio Sink nudge configuration")
  else match naBus a with
  | Error e => early (Error (Wrap "connect system bus for Sink nudge" e))
  | Ok _ =>
  match resolveDevicePath (naObjects a) adapter device with
  | Error e => early (Error (Wrap "resolve Sink nudge target" e))
  | Ok _ =>
  match check_baseline (naProperty a) baseline_names with
  | Error e => early (Error e)
  | Ok _ =>
  match readLEBearerConnected (naBearer a) with
  | Error e => early (Error (Wrap "read Sink nudge LE bearer" e))
  | Ok leConnected =>
      if negb leConnected then early (fail! "Sink nudge baseline LE bearer is disconnected")
      else match naExport a with
           | Error e => early (Error (Wrap "export temporary Sink endpoint" e))
           | Ok _ =>
               let '(media, r) := performSinkNudge (Some (mkRegistrar [] (naMedia a))) in
               (match media with Some m => drCalls m | None => [] end, r)
           end
  end end end end.
(** [main] of the command after the flags are read: the calls it makes, and how the process ends ([signal] or the
    timeout only bound the waiting for BlueZ's answers). *)
Inductive process_end := ExitZero (printed : option bytes) | LogFatal (e : error).
Definition nudge_main (showVersion : bool) (adapter device : bytes) (timeout : Z) (a : nudge_answers) : list media_call * process_end :=
  if showVersion then ([], ExitZero (Some (str "0.1.0-v4" ++ [10])))
  else if negb (nudge_arguments device timeout)
  then ([], LogFatal (New "-device is required and -timeout must be greater than zero and at most 30s"))
  else let '(calls, r) := SinkNudge adapter device a in
       (calls, match r with Ok _ => ExitZero None | Error e => LogFatal e end).

(** ** What the checks mean *)
Lemma hex_parts_forallb parts :
  isSome (hex_parts parts) = forallb (fun part => (len part =? 2) && isSome (parse_hex_octet part)) parts.
Proof.
  induction parts as [|part parts IH]; [done|]. cbn [hex_parts forallb]. rewrite <- IH. destruct (len part =? 2); [|done]. cbn [negb andb].
  destruct (parse_hex_octet part) as [v|]; [|done]. by destruct (hex_parts parts).
Qed.
Lemma validBluetoothAddress_parses device : validBluetoothAddress device = isSome (ParseBluetoothAddress device).
Proof.
  unfold validBluetoothAddress, ParseBluetoothAddress. destruct (negb (len (SplitByte device 58) =? 6)); [done|].
  by rewrite hex_parts_forallb.
Qed.
Lemma check_baseline_ok read names :
  check_baseline read names = Ok tt -> Forall (fun n => read n = Reply (VBool true)) names.
Proof.
  induction names as [|n names IH]; cbn [check_baseline]; [constructor|].
  destruct (readDeviceBoolean (read n)) as [[|]|e] eqn:R; try done. intros E. constructor; [|by apply IH].
  destruct (read n) as [| |v]; try done. cbn in R. destruct v; try done. by injection R as ->.
Qed.
(** The aggregate of the contexts the endpoints announce changes when the temporary
    endpoint appears and is back to what it was when it goes. *)
Lemma nudge_moves_contexts :
  let own := Z.lor (epContext (endpointProperties PACSinkUUID)) (epContext (endpointProperties PACSourceUUID)) in
  Z.lor own (epContext sinkNudgeEndpointProperties) <> own /\
  Z.land own (epContext sinkNudgeEndpointProperties) = 0.
Proof. split; vm_compute; congruence. Qed.

(** The nudge leaves nothing behind and does nothing without cause: BlueZ is asked to
    register the temporary endpoint only for a well-formed adapter and an address the
    bridge's own parser accepts, when exactly one device object has that address and it is
    paired, bonded, trusted and connected; a registration that succeeded is always followed
    by its removal, whether that succeeds or not; and the result is success exactly when
    both calls succeeded. *)
Theorem SinkNudge_balanced adapter device a calls r :
  SinkNudge adapter device a = (calls, r) ->
  let reg := RegisterEndpoint sinkNudgeEndpointPath sinkNudgeEndpointProperties in
  let unreg := UnregisterEndpoint sinkNudgeEndpointPath in
  (calls = [] /\ is_ok r = false) \/
  (validAdapterName adapter = true /\ isSome (ParseBluetoothAddress device) = true /\
   (exists objects p, naObjects a = Ok objects /\ selectDevicePath objects adapter device = Ok p) /\
   Forall (fun n => naProperty a n = Reply (VBool true)) baseline_names /\ naBearer a = Reply (VBool true) /\
   calls = reg :: (if is_ok (naMedia a reg) then [unreg] else []) /\
   is_ok r = is_ok (naMedia a reg) && is_ok (naMedia a unreg)).
Proof.
  intros E reg unreg. unfold SinkNudge in E. cbv zeta in E.
  destruct (negb (validAdapterName adapter) || negb (validBluetoothAddress device)) eqn:V; [injection E as <- <-; by left|].
  bool_prop. destruct (naBus a) as [[]|]; [|injection E as <- <-; by left].
  unfold resolveDevicePath in E. destruct (naObjects a) as [objects|] eqn:O; cbn [result_bind] in E; [|injection E as <- <-; by left].
  destruct (selectDevicePath objects adapter device) as [p|] eqn:P; [|injection E as <- <-; by left].
  destruct (check_baseline _ _) as [[]|] eqn:F; [|injection E as <- <-; by left].
  destruct (readLEBearerConnected (naBearer a)) as [[|]|] eqn:B; [|injection E as <- <-; by left..]. cbn [negb] in E.
  destruct (naExport a) as [[]|]; [|injection E as <- <-; by left]. right.
  split_and!; [done|by rewrite <- validBluetoothAddress_parses|by exists objects, p|by apply check_baseline_ok| |..].
  { destruct (naBearer a) as [| |v]; try done. cbn in B. destruct v; try done. by injection B as ->. }
  all: cbn [performSinkNudge Register Unregister dbus_registrar media_Call drReply drCalls app] in E; fold reg unreg in E.
  all: destruct (naMedia a reg) as [[]|]; [destruct (naMedia a unreg) as [[]|]|]; by injection E as <- <-.
Qed.

(** The command exits with success, apart from printing its version, exactly when it registered and removed the endpoint. *)
Lemma nudge_main_success adapter device timeout a :
  (nudge_main false adapter device timeout a).2 = ExitZero None <->
  nudge_arguments device timeout = true /\ is_ok (SinkNudge adapter device a).2 = true.
Proof.
  unfold nudge_main. destruct (nudge_arguments device timeout); [|split; [done|by intros [? _]]]. cbn [negb].
  destruct (SinkNudge adapter device a) as [calls [[]|e]]; split; try done; by intros [_ ?].
Qed.

Definition nudge_objects : ManagedObjects :=
  {[ str "/x" := {[ DeviceIface :=
    {[ str "Address" := VString (str "C0:DE:00:12:34:56"); str "Adapter" := VPath (str "/org/bluez/hci0") ]} ]} ]}.
Definition demo_nudge : nudge_answers :=
  mkNudge (Ok tt) (Ok (map_to_list nudge_objects)) (fun _ => Reply (VBool true)) (Reply (VBool true)) (Ok tt)
    (fun c => match c with RegisterEndpoint _ _ => Ok tt | UnregisterEndpoint _ => Error (New "gone") end).
Lemma SinkNudge_witness :
  (SinkNudge (str "hci0") (str "c0:de:00:12:34:56") demo_nudge).1 =
    [RegisterEndpoint sinkNudgeEndpointPath sinkNudgeEndpointProperties; UnregisterEndpoint sinkNudgeEndpointPath] /\
  is_ok (SinkNudge (str "hci0") (str "c0:de:00:12:34:56") demo_nudge).2 = false.
Proof.
  destruct (SinkNudge_balanced (str "hci0") (str "c0:de:00:12:34:56") demo_nudge
    (SinkNudge (str "hci0") (str "c0:de:00:12:34:56") demo_nudge).1 (SinkNudge (str "hci0") (str "c0:de:00:12:34:56") demo_nudge).2)
    as [[C _] | (_ & _ & _ & _ & _ & C & R)].
  - vm_compute. reflexivity.
  - exfalso. vm_compute in C. discriminate C.
  - split; [rewrite C; vm_compute; reflexivity | rewrite R; vm_compute; reflexivity].
Defined.
