(* ===== verification/Sockets.v ===== *)
(** * The two socket servers: creating, serving and removing the socket file

    Models [Run] and [close] of the call-control server
    (src/callbridge-le-call-go/internal/control/server.go) and of the media hand-off server
    (src/callbridge-sms-go/internal/bluez/handoff.go).  Both follow one scheme: refuse a path that
    exists, create and bind a socket there, prepare it, poll until the context ends or a call
    fails, close what is open and remove the file.  The scheme is written once over the class
    [SocketServer]; the turns of the two loops are its instances, with what the other goroutines of the process do to
    the server meanwhile: publishing a pair, broadcasting, whose failing sends also close the client.  The answers of the system
    calls are inputs. *)

From S2P Require Import Prelude GoStd GtbsState Protocol Handoff Control.

(** ** The scheme *)

(** What the path names. *)
Inductive node := NoFile | SocketFile | OtherFile.
#[export] Instance node_eq_dec : EqDecision node.
Proof. solve_decision. Defined.

Record socket_texts := mkTexts {
  txDirectory : string; txNotSocket : string; txExists : string; txInspect : string;
  txOpen : string; txBind : string; txRunning : string
}.
(** The answers: of [MkdirAll], of [Lstat] when the path does not exist, of [socket], what
    another process puts at the path before [bind], of [bind], of the calls that prepare
    the socket, whether [Remove] works when one of these fails, what another process puts at the path while the
    server runs, if it does, and whether the final [Lstat] and [Remove] work. *)
Record listen_env := mkListenEnv {
  leMkdir : result unit; leInspect : option error; leSocket : result Z; leIntruder : node;
  leBind : result unit; lePrepare : list (result unit); leRemove : bool; leReplaced : option node; leCleanup : bool
}.

Class SocketServer (T P : Type) := {
  listening : T -> Z;
  listen_at : T -> Z -> T;
  serving : T -> Z;
  hang_up : T -> T;
  texts : socket_texts;
  preparations : list string;
  turn : T -> P -> T * list Z * list Z * option error
}.

Section Scheme.
Context {T P : Type} `{SocketServer T P}.

Fixpoint prepare (names : list string) (answers : list (result unit)) : result unit :=
  match names, answers with
  | name :: names, Error e :: _ => Error (Wrap name e)
  | _ :: names, Ok _ :: answers => prepare names answers
  | _, _ => Ok tt
  end.

(** From the start of [Run] to the loop: the descriptors opened and closed, the path, and
    the listener. *)
Definition open_listener (e : listen_env) (n : node) (running : bool) : list Z * list Z * node * result Z :=
  let removed := if leRemove e then NoFile else SocketFile in
  match leMkdir e with
  | Error err => ([], [], n, Error (Wrap (txDirectory texts) err))
  | Ok _ =>
  match n with
  | OtherFile => ([], [], n, Error (New (txNotSocket texts)))
  | SocketFile => ([], [], n, Error (New (txExists texts)))
  | NoFile =>
  match leInspect e with
  | Some err => ([], [], n, Error (Wrap (txInspect texts) err))
  | None =>
  match leSocket e with
  | Error err => ([], [], n, Error (Wrap (txOpen texts) err))
  | Ok fd =>
      if negb (bool_decide (leIntruder e = NoFile)) then ([fd], [fd], leIntruder e, Error (New (txBind texts)))
      else match leBind e with
      | Error err => ([fd], [fd], NoFile, Error (Wrap (txBind texts) err))
      | Ok _ =>
          match prepare preparations (lePrepare e) with
          | Error err => ([fd], [fd], removed, Error err)
          | Ok _ => if running then ([fd], [fd], removed, Error (New (txRunning texts))) else ([fd], [], SocketFile, Ok fd)
          end
      end
  end end end end.

(** The loop: [polls] is what each [poll] led to while the context lasted. *)
Fixpoint serve (t : T) (polls : list P) : T * list Z * list Z * result unit :=
  match polls with
  | [] => (t, [], [], Ok tt)
  | p :: polls =>
      let '(t, opened, closed, stop) := turn t p in
      match stop with
      | Some err => (t, opened, closed, Error err)
      | None => let '(t, o, c, r) := serve t polls in (t, opened ++ o, closed ++ c, r)
      end
  end.

Definition clients (t : T) : list Z := if serving t =? -1 then [] else [serving t].
(** [close]. *)
Definition shut (cleanup : bool) (t : T) (n : node) : T * list Z * node :=
  let closed := clients t in
  let t := hang_up t in
  (listen_at t (-1), closed ++ (if listening t =? -1 then [] else [listening t]),
   if cleanup && bool_decide (n = SocketFile) then NoFile else n).

Record run_outcome := mkRun { roServer : T; roNode : node; roOpened : list Z; roClosed : list Z; roResult : result unit }.
Definition RunServer (e : listen_env) (n : node) (t : T) (polls : list P) : run_outcome :=
  let '(opened, closed, n, r) := open_listener e n (negb (listening t =? -1)) in
  match r with
  | Error err => mkRun t n opened closed (Error err)
  | Ok fd =>
      let '(t, o, c, r) := serve (listen_at t fd) polls in
      let '(t, last, n) := shut (leCleanup e) t (default n (leReplaced e)) in
      mkRun t n (opened ++ o) (closed ++ c ++ last) r
  end.

(** A run that leaves nothing behind: every descriptor opened is closed once; a file that was
    at the path before is not touched and the run fails; otherwise, if its own removals work, at the end the path is free
    or names what another process put there meanwhile; and the server can run again. *)
Definition clean_run (e : listen_env) (n : node) (t : T) (o : run_outcome) : Prop :=
  roOpened o ≡ₚ roClosed o /\
  (n <> NoFile -> roNode o = n /\ roOpened o = [] /\ is_ok (roResult o) = false) /\
  (n = NoFile -> leRemove e = true -> leCleanup e = true -> roNode o = NoFile \/ roNode o = leIntruder e \/ leReplaced e = Some (roNode o)) /\
  (listening t = -1 -> listening (roServer o) = -1 /\ serving (roServer o) = -1).

(** What an implementation owes: the listener and the client are fields of their own, and a
    turn keeps the books of the client descriptors. *)
Class SocketServerLaws := {
  listening_set t fd : listening (listen_at t fd) = fd;
  serving_set t fd : serving (listen_at t fd) = serving t;
  hang_up_serving t : serving (hang_up t) = -1;
  hang_up_listening t : listening (hang_up t) = listening t;
  turn_books t p t' opened closed stop :
    turn t p = (t', opened, closed, stop) -> Forall (fun fd => 0 <= fd) opened ->
    listening t' = listening t /\ clients t ++ opened ≡ₚ closed ++ clients t'
}.
Context `{!SocketServerLaws}.

Lemma serve_books polls t t' opened closed r :
  serve t polls = (t', opened, closed, r) -> Forall (fun fd => 0 <= fd) opened ->
  listening t' = listening t /\ clients t ++ opened ≡ₚ closed ++ clients t'.
Proof.
  revert t t' opened closed r. induction polls as [|p polls IH]; intros t t' opened closed r E F; cbn [serve] in E.
  - injection E as <- <- <- <-. by rewrite app_nil_r.
  - destruct (turn t p) as [[[t1 o1] c1] [err|]] eqn:Tn.
    + injection E as <- <- <- <-. by eapply turn_books.
    + destruct (serve t1 polls) as [[[t2 o2] c2] r2] eqn:Sv. injection E as <- <- <- <-. apply Forall_app in F as [F1 F2].
      destruct (turn_books _ _ _ _ _ _ Tn F1) as [L1 P1]. destruct (IH _ _ _ _ _ Sv F2) as [L2 P2]. split; [congruence|].
      by rewrite app_assoc, P1, <- app_assoc, P2, app_assoc.
Qed.

Lemma open_listener_spec e n running opened closed n' r :
  open_listener e n running = (opened, closed, n', r) ->
  match r with
  | Ok fd => opened = [fd] /\ closed = [] /\ n = NoFile /\ n' = SocketFile /\ running = false /\ leIntruder e = NoFile
  | Error _ => opened = closed /\ (n <> NoFile -> n' = n /\ opened = []) /\ (n = NoFile -> leRemove e = true -> n' = NoFile \/ n' = leIntruder e)
  end.
Proof.
  unfold open_listener. intros E. destruct (leMkdir e) as [[]|]; [|injection E as <- <- <- <-; naive_solver].
  destruct n; [|injection E as <- <- <- <-; naive_solver..]. destruct (leInspect e); [injection E as <- <- <- <-; auto|].
  destruct (leSocket e) as [fd|]; [|injection E as <- <- <- <-; naive_solver].
  destruct (bool_decide (leIntruder e = NoFile)) eqn:I; [|injection E as <- <- <- <-; naive_solver]. apply bool_decide_eq_true in I.
  cbn [negb] in E. destruct (leBind e) as [[]|]; [|injection E as <- <- <- <-; naive_solver].
  destruct (prepare preparations (lePrepare e)) as [[]|]; [|destruct (leRemove e); injection E as <- <- <- <-; naive_solver].
  destruct running; [destruct (leRemove e)|]; injection E as <- <- <- <-; naive_solver.
Qed.

Lemma clients_listen_at t fd : clients (listen_at t fd) = clients t.
Proof. unfold clients. by rewrite serving_set. Qed.

Lemma run_clean e n t polls o :
  RunServer e n t polls = o -> Forall (fun fd => 0 <= fd) (roOpened o) -> (listening t = -1 -> serving t = -1) ->
  clean_run e n t o.
Proof.
  unfold RunServer, clean_run. intros <- F Q. destruct (open_listener e n (negb (listening t =? -1))) as [[[opened closed] n'] r] eqn:O.
  apply open_listener_spec in O. destruct r as [fd|err].
  - destruct O as (-> & -> & -> & -> & R & I). apply negb_false_iff, Z.eqb_eq in R. specialize (Q R).
    destruct (serve (listen_at t fd) polls) as [[[t1 o] c] r] eqn:Sv. cbn [shut roOpened roClosed roNode roServer roResult] in *.
    apply Forall_app in F as [F1 F2]. destruct (serve_books _ _ _ _ _ _ Sv F2) as [L Pm].
    rewrite clients_listen_at in Pm. unfold clients in Pm at 1. rewrite Q in Pm. change (-1 =? -1) with true in Pm. cbn [app] in Pm.
    rewrite listening_set in L. rewrite hang_up_listening, L. apply Forall_inv in F1.
    destruct (fd =? -1) eqn:E; [apply Z.eqb_eq in E; lia|]. split_and!.
    + cbn [app]. rewrite Pm, app_assoc. by rewrite (Permutation_app_comm (c ++ clients t1) [fd]).
    + done.
    + intros _ _ ->. destruct (leReplaced e) as [[]|]; cbn; auto.
    + intros _. by rewrite listening_set, serving_set, hang_up_serving.
  - destruct O as (-> & O1 & O2). cbn [roOpened roClosed roNode roServer roResult]. split_and!; auto.
    + intros Hn. by destruct (O1 Hn).
    + intros Hn Hr _. destruct (O2 Hn Hr); auto.
Qed.
End Scheme.
#[global] Arguments run_outcome : clear implicits.
#[global] Arguments SocketServerLaws T P {_}.

(** ** The hand-off server *)
Inductive listener_event := LQuiet | LBroken | LAgain | LAcceptError (e : error) | LAccepted (client : Z) (credential : option Z).
(** A turn of the loop, or a publication by the broker between two of them.  One in the middle of a turn has the same effect
    before it: it can only take the client away, and the turn then finds the client gone. *)
Inductive handoff_poll :=
  | HpInterrupted | HpFailed (e : error) | HpTimeout | HpReady (readable : bool) (l : listener_event)
  | HpPublished (env : publish_env) (sinkFD : Z) (sink : Descriptor) (sourceFD : Z) (source : Descriptor).
Definition closed_of (events : list handoff_event) : list Z :=
  omap (fun ev => match ev with HClose fd => Some fd | _ => None end) events.
Definition handoff_loop_turn (s : HandoffServer) (p : handoff_poll) : HandoffServer * list Z * list Z * option error :=
  match p with
  | HpInterrupted | HpTimeout => (s, [], [], None)
  | HpFailed e => (s, [], [], Some (Wrap "poll LE Audio handoff socket" e))
  | HpReady readable l =>
      let accepted := match l with LAccepted client credential => Some (client, credential) | _ => None end in
      let '(s, events) := handoff_turn s readable accepted in
      (s, match accepted with Some (client, _) => [client] | None => [] end, closed_of events,
       match l with
       | LBroken => Some (New "LE Audio handoff listener failed")
       | LAcceptError e => Some (Wrap "accept LE Audio handoff peer" e)
       | _ => None
       end)
  | HpPublished env sinkFD sink sourceFD source =>
      let '(_, s, events) := PublishPair s env sinkFD sink sourceFD source in (s, [], closed_of events, None)
  end.
Definition hs_with_listener (s : HandoffServer) (fd : Z) : HandoffServer :=
  {| hs_path := hs_path s; hs_peerUID := hs_peerUID s; hs_listenerFD := fd;
     hs_clientFD := hs_clientFD s; hs_lastGen := hs_lastGen s; hs_lastBundle := hs_lastBundle s;
     hs_disconnectHandler := hs_disconnectHandler s |}.
#[export] Instance handoff_socket : SocketServer HandoffServer handoff_poll := {|
  listening := hs_listenerFD;
  listen_at := hs_with_listener;
  serving := hs_clientFD;
  hang_up s := hs_with_client s (-1);
  texts := mkTexts "create LE Audio runtime directory" "LE Audio handoff path exists and is not a socket"
    "LE Audio handoff socket already exists; refusing replacement" "inspect LE Audio handoff path"
    "open LE Audio handoff socket" "bind LE Audio handoff socket" "LE Audio handoff server already running";
  preparations := ["protect LE Audio handoff socket"; "listen on LE Audio handoff socket"; "configure LE Audio handoff socket"]%string;
  turn := handoff_loop_turn
|}.

Lemma closed_of_app a b : closed_of (a ++ b) = closed_of a ++ closed_of b.
Proof. apply omap_app. Qed.
(** A publication closes the client or leaves it. *)
Lemma PublishPair_client s env sinkFD sink sourceFD source :
  let '(_, s', ev) := PublishPair s env sinkFD sink sourceFD source in
  hs_listenerFD s' = hs_listenerFD s /\
  (hs_clientFD s' = hs_clientFD s /\ closed_of ev = [] \/ hs_clientFD s <> -1 /\ hs_clientFD s' = -1 /\ closed_of ev = [hs_clientFD s]).
Proof.
  unfold PublishPair. cbv zeta. destruct (validateDescriptorPair _ _) as [[]|e]; [|auto].
  destruct (encodeDescriptor _) as [p1|e]; [|auto]. destruct (encodeDescriptor _) as [p2|e]; [|auto].
  destruct (_ || _ || _); [auto|]. destruct (pe_socketpair env) as [[l0 l1]|e]; [|auto]. unfold publish_locked.
  destruct (_ || _ || _); [cbn; auto|]. destruct (hs_clientFD s =? -1) eqn:C; [cbn; auto|]. apply Z.eqb_neq in C.
  unfold sendDescriptorLocked. destruct (pe_send1 env) as [e1|k1]; [cbn; auto|]. destruct (k1 =? len p1); [|cbn; auto].
  destruct (pe_send2 env) as [e2|k2]; [cbn; auto|]. destruct (k2 =? len p2); cbn; auto.
Qed.
#[export] Instance handoff_socket_laws : SocketServerLaws HandoffServer handoff_poll.
Proof.
  split; try done. intros s p s' opened closed stop E F. cbn [turn handoff_socket] in E. unfold handoff_loop_turn in E.
  destruct p as [| | |readable l|env sinkFD sink sourceFD source]; [by injection E as <- <- <- <-; rewrite app_nil_r..| |].
  2: { pose proof (PublishPair_client s env sinkFD sink sourceFD source) as C.
       destruct (PublishPair s env sinkFD sink sourceFD source) as [[r s1] ev]. injection E as <- <- <- _. destruct C as [L C]. split; [done|].
       unfold clients. cbn [serving handoff_socket]. rewrite app_nil_r. destruct C as [[-> ->] | (N & -> & ->)]; [done|]. by rewrite (proj2 (Z.eqb_neq _ _) N). }
  set (accepted := match l with LAccepted c u => Some (c, u) | _ => None end) in *.
  destruct (handoff_turn s readable accepted) as [s1 events] eqn:Tn. injection E as <- <- <- _.
  unfold handoff_turn in Tn. unfold clients. cbn [serving listening handoff_socket].
  assert (forall x : Z, 0 <= x -> (x =? -1) = false) as Pos by (intros; apply Z.eqb_neq; lia).
  destruct (hs_clientFD s =? -1) eqn:C; cbn [negb andb] in Tn.
  - destruct accepted as [[c u]|]; [|injection Tn as <- <-; by rewrite C].
    destruct (negb (bool_decide _)); [injection Tn as <- <-; by rewrite C|]. rewrite C in Tn. injection Tn as <- <-.
    apply Forall_inv in F. cbn. by rewrite Pos.
  - destruct readable; cbn [hs_with_client hs_clientFD] in Tn.
    + destruct accepted as [[c u]|].
      * destruct (negb (bool_decide _)); injection Tn as <- <-; apply Forall_inv in F; cbn; destruct (hs_disconnectHandler s); cbn; by rewrite ?Pos.
      * injection Tn as <- <-. cbn. by destruct (hs_disconnectHandler s).
    + destruct accepted as [[c u]|]; [|injection Tn as <- <-; by rewrite C].
      destruct (negb (bool_decide _)); [|rewrite C in Tn]; injection Tn as <- <-; cbn; rewrite C; split; try done; apply Permutation_swap.
Qed.

(** ** The call-control server *)
Section ControlServer.
Context {St : Type} (handler : Message -> St -> result unit * St) (snapshot : St -> Snapshot).

(** What the goroutines of the GTBS client do to the server, under its mutex. *)
Inductive control_other := OSnapshot (sn : Snapshot) | OReady (r : bool) | OBroadcastReady (r : bool) | OResult (opcode index res token : Z).
Definition meanwhile (w : World) (o : control_other) : World :=
  match o with
  | OSnapshot sn => BroadcastSnapshot w sn
  | OReady r => SetReady w r
  | OBroadcastReady r => BroadcastReady w r
  | OResult opcode index res token => BroadcastResult w opcode index res token
  end.
(** [poll_turn] with what happens after the loop has read the client's descriptor, after it has accepted, and after it has received. *)
Definition control_turn (w : World) (st : St) (p : polled) (accepted : option (Z * option Z)) (r : received) (o1 o2 o3 : list control_other) : World * St :=
  let client := clientFD (srv w) in
  let w := foldl meanwhile w o1 in
  let w := if p_listener p then accept w accepted (snapshot st) else w in
  let w := foldl meanwhile w o2 in
  if client =? -1 then (foldl meanwhile w o3, st)
  else
    let '(w, st) := if p_client p then receive handler w client r st else (w, st) in
    let w := foldl meanwhile w o3 in
    (if p_hangup p then dropClient w client else w, st).
Lemma control_turn_alone w st p accepted r : control_turn w st p accepted r [] [] [] = poll_turn handler snapshot w st p accepted r.
Proof. done. Qed.
Inductive control_poll :=
  | CpInterrupted | CpFailed (e : error) | CpTimeout | CpMeanwhile (o : control_other)
  | CpReady (p : polled) (accepted : option (Z * option Z)) (r : received) (o1 o2 o3 : list control_other).
Definition closed_in (outputs : list output) : list Z :=
  omap (fun o => match o with Closed fd => Some fd | _ => None end) outputs.
Definition control_loop_turn (t : World * St) (p : control_poll) : (World * St) * list Z * list Z * option error :=
  match p with
  | CpInterrupted | CpTimeout => (t, [], [], None)
  | CpFailed e => (t, [], [], Some (Wrap "poll LE call-control socket" e))
  | CpMeanwhile o => let w := meanwhile t.1 o in ((w, t.2), [], closed_in (drop (length (trace t.1)) (trace w)), None)
  | CpReady p accepted r o1 o2 o3 =>
      let '(w, st) := control_turn t.1 t.2 p accepted r o1 o2 o3 in
      ((w, st), if p_listener p then match accepted with Some (client, _) => [client] | None => [] end else [],
       closed_in (drop (length (trace t.1)) (trace w)), None)
  end.
#[local] Instance control_socket : SocketServer (World * St) control_poll := {|
  listening t := listenerFD (srv t.1);
  listen_at t fd := (on_srv t.1 (fun s => with_listener s fd), t.2);
  serving t := clientFD (srv t.1);
  hang_up t := (closeClientLocked t.1, t.2);
  texts := mkTexts "create LE call-control runtime directory" "LE call-control path exists and is not a socket"
    "LE call-control socket already exists; refusing replacement" "inspect LE call-control socket"
    "open LE call-control socket" "bind LE call-control socket" "LE call-control server already running";
  preparations := ["protect LE call-control socket"; "listen on LE call-control socket"]%string;
  turn := control_loop_turn
|}.

Definition client_fds (w : World) : list Z := if clientFD (srv w) =? -1 then [] else [clientFD (srv w)].
(** A part of a turn: what it adds to the trace closes what is no longer served. *)
Definition accounts (w w' : World) : Prop :=
  listenerFD (srv w') = listenerFD (srv w) /\
  exists new, trace w' = trace w ++ new /\ client_fds w ≡ₚ closed_in new ++ client_fds w'.
#[local] Instance accounts_preorder : PreOrder accounts.
Proof.
  split.
  - intros w. split; [done|]. exists []. by rewrite app_nil_r.
  - intros a b c (L1 & n1 & T1 & P1) (L2 & n2 & T2 & P2). split; [congruence|]. exists (n1 ++ n2).
    split; [by rewrite T2, T1, app_assoc|]. unfold closed_in in *. by rewrite omap_app, P1, P2, app_assoc.
Qed.
Lemma accounts_quiet w w' :
  listenerFD (srv w') = listenerFD (srv w) -> clientFD (srv w') = clientFD (srv w) -> trace w' = trace w -> accounts w w'.
Proof. intros L C T. split; [done|]. exists []. unfold client_fds. by rewrite C, T, app_nil_r. Qed.
Lemma accounts_close w : accounts w (closeClientLocked w).
Proof.
  unfold closeClientLocked. destruct (clientFD (srv w) =? -1) eqn:C; [done|]. split; [done|].
  exists [Closed (clientFD (srv w))]. split; [done|]. unfold client_fds. by rewrite C.
Qed.
Lemma accounts_send w m : accounts w (sendMessageLocked w m).
Proof.
  unfold sendMessageLocked. destruct (clientFD (srv w) =? -1) eqn:C; [done|]. destruct (Encode m) as [packet|]; [|done].
  unfold take_send. destruct (sends w) as [|[|] rest]; cbn.
  - split; [done|]. by exists [Sent (clientFD (srv w)) packet].
  - split; [done|]. by exists [Sent (clientFD (srv w)) packet].
  - etrans; [|apply accounts_close]. by apply accounts_quiet.
Qed.
Lemma accounts_sends ms w : accounts w (sendMessagesLocked w ms).
Proof.
  revert w. induction ms as [|m ms IH]; intros w; [done|]. cbn [sendMessagesLocked]. etrans; [apply accounts_send|].
  destruct (clientFD (srv (sendMessageLocked w m)) =? -1); [done|apply IH].
Qed.
Lemma accounts_drop w c : accounts w (dropClient w c).
Proof. unfold dropClient. destruct (clientFD (srv w) =? c); [apply accounts_close|done]. Qed.
Lemma accounts_receive w c r st : accounts w (receive handler w c r st).1.
Proof.
  unfold receive. destruct r as [| |truncated p]; [done|apply accounts_drop|]. destruct (truncated || _); [apply accounts_drop|].
  destruct (Decode p) as [m|]; [|apply accounts_drop]. destruct (_ || _); [apply accounts_drop|].
  destruct (handler m st) as [res st']. apply accounts_sends.
Qed.
Lemma accounts_sequence w : accounts w (nextSequence w).2.
Proof. by apply accounts_quiet. Qed.
Lemma accounts_meanwhile w o : accounts w (meanwhile w o).
Proof.
  destruct o as [sn|r|r|opcode index res token]; cbn [meanwhile].
  - apply accounts_sends.
  - unfold SetReady. set (w1 := on_srv w _). assert (accounts w w1) as A by by apply accounts_quiet.
    destruct (negb _); [|done]. etrans; [exact A|]. etrans; [apply accounts_sequence|]. apply accounts_send.
  - unfold BroadcastReady. etrans; [apply accounts_sequence|]. apply accounts_sends.
  - unfold BroadcastResult. etrans; [apply accounts_sequence|]. apply accounts_sends.
Qed.
Lemma accounts_others os w : accounts w (foldl meanwhile w os).
Proof. revert w. induction os as [|o os IH]; intros w; [done|]. cbn. etrans; [apply accounts_meanwhile|apply IH]. Qed.
(** Accepting adds the descriptor, and closes it again unless it becomes the client. *)
Lemma accept_accounts w client credential sn :
  0 <= client -> let w' := accept w (Some (client, credential)) sn in
  listenerFD (srv w') = listenerFD (srv w) /\
  exists new, trace w' = trace w ++ new /\ client_fds w ++ [client] ≡ₚ closed_in new ++ client_fds w'.
Proof.
  intros Pos w'. assert (refused : let x := emit w (Closed client) in listenerFD (srv x) = listenerFD (srv w) /\
    exists new, trace x = trace w ++ new /\ client_fds w ++ [client] ≡ₚ closed_in new ++ client_fds x).
  { split; [done|]. exists [Closed client]. split; [done|]. by rewrite Permutation_app_comm. }
  subst w'. cbn [accept]. destruct (negb (bool_decide _)); [exact refused|].
  destruct (clientFD (srv w) =? -1) eqn:C; [|exact refused]. cbn [negb]. cbv zeta.
  set (w1 := on_srv w (fun s => with_client s client)). destruct (nextSequence w1) as [q w2] eqn:N.
  assert (accounts w1 w2) as A1 by (injection N as _ <-; by apply accounts_quiet).
  pose proof (accounts_sends (snapshotMessages (sv_device (srv w1)) sn ++ [ready_message (sv_device (srv w2)) q (sv_ready (srv w2))]) w2) as A2.
  destruct (transitivity A1 A2) as (L & new & Tr & Pm). split; [exact L|]. exists new. split; [exact Tr|].
  rewrite <- Pm. unfold client_fds. rewrite C. cbn. by rewrite (proj2 (Z.eqb_neq client (-1))) by lia.
Qed.

#[local] Instance control_socket_laws : SocketServerLaws (World * St) control_poll.
Proof.
  split; try done.
  { intros [w st]. cbn. unfold closeClientLocked. destruct (clientFD (srv w) =? -1) eqn:C; [by apply Z.eqb_eq|done]. }
  { intros [w st]. cbn. unfold closeClientLocked. by destruct (clientFD (srv w) =? -1). }
  intros [w st] p t' opened closed stop E F. cbn [turn control_socket] in E. unfold control_loop_turn in E.
  destruct p as [| | |o|p accepted r o1 o2 o3]; [by injection E as <- <- <- <-; rewrite app_nil_r..| |]; cbn [fst snd] in E.
  { injection E as <- <- <- _. destruct (accounts_meanwhile w o) as (L & new & Tr & Pm). split; [done|]. rewrite Tr, drop_app_length, app_nil_r. exact Pm. }
  destruct (control_turn w st p accepted r o1 o2 o3) as [w2 st2] eqn:Pt. injection E as <- <- <- _.
  change (clients (T := World * St) (w, st)) with (client_fds w). change (clients (T := World * St) (w2, st2)) with (client_fds w2).
  cbn [listening control_socket fst]. unfold control_turn in Pt. destruct (accounts_others o1 w) as (L0 & n0 & T0 & P0).
  set (w0 := foldl meanwhile w o1) in *. set (w1 := if p_listener p then accept w0 accepted (snapshot st) else w0) in *.
  assert (listenerFD (srv w1) = listenerFD (srv w0) /\ exists new, trace w1 = trace w0 ++ new /\
    client_fds w0 ++ (if p_listener p then match accepted with Some (c, _) => [c] | None => [] end else []) ≡ₚ closed_in new ++ client_fds w1)
    as (L1 & n1 & T1 & P1).
  { subst w1. destruct (p_listener p); [|split; [done|]; exists []; by rewrite !app_nil_r].
    destruct accepted as [[c u]|]; [|split; [done|]; exists []; by rewrite !app_nil_r]. apply accept_accounts. by apply Forall_inv in F. }
  assert (accounts w1 w2) as (L2 & n2 & T2 & P2).
  { clearbody w1. etrans; [apply (accounts_others o2)|]. set (w3 := foldl meanwhile w1 o2) in *. clearbody w3.
    destruct (clientFD (srv w) =? -1); [injection Pt as <- _; apply accounts_others|].
    assert (accounts w3 (if p_client p then receive handler w3 (clientFD (srv w)) r st else (w3, st)).1) as A by (destruct (p_client p); [apply accounts_receive|done]).
    destruct (if p_client p then _ else _) as [w4 st4]. cbn [fst] in A. injection Pt as <- _. etrans; [exact A|].
    etrans; [apply (accounts_others o3)|]. destruct (p_hangup p); [apply accounts_drop|done]. }
  split; [congruence|]. rewrite T2, T1, T0, <- !app_assoc, drop_app_length. unfold closed_in in *. rewrite !omap_app, P0, <- !app_assoc, P1, P2.
  done.
Qed.
Definition RunControl := RunServer (T := World * St) (P := control_poll).
Lemma RunControl_clean e n t polls :
  Forall (fun fd => 0 <= fd) (roOpened (RunControl e n t polls)) -> (listenerFD (srv t.1) = -1 -> clientFD (srv t.1) = -1) ->
  clean_run e n t (RunControl e n t polls).
Proof. intros F Q. exact (run_clean e n t polls _ eq_refl F Q). Qed.
End ControlServer.
Definition RunHandoff := RunServer (T := HandoffServer) (P := handoff_poll).

(** C25.  The two socket servers leave nothing behind: for every sequence of poll results and
    every failing system call, with the broker publishing and the GTBS client broadcasting at any moment, a run that starts with no client served closes every descriptor
    it opened, listener, clients and refused peers, exactly once; never touches a file that
    was at the path before; and afterwards the server is idle and, if its removal of the socket file works, the path is free again or names what
    another process put there. *)
Theorem sockets_left_clean {St} (handler : Message -> St -> result unit * St) snapshot e n (w : World) st cpolls s hpolls :
  (listenerFD (srv w) = -1 -> clientFD (srv w) = -1) -> (hs_listenerFD s = -1 -> hs_clientFD s = -1) ->
  let c := RunControl handler snapshot e n (w, st) cpolls in
  let h := RunHandoff e n s hpolls in
  (Forall (fun fd => 0 <= fd) (roOpened c) -> clean_run (H := control_socket handler snapshot) e n (w, st) c) /\
  (Forall (fun fd => 0 <= fd) (roOpened h) -> clean_run e n s h).
Proof.
  intros Q1 Q2 c h. split; intros F.
  - by apply RunControl_clean.
  - by apply (run_clean e n s hpolls).
Qed.

Definition quiet_env : listen_env := mkListenEnv (Ok tt) None (Ok 7) NoFile (Ok tt) [] true None true.
Definition demo_handoff : HandoffServer := mkHandoffServer (str "/run/h.sock") 1000 (-1) (-1) [0; 0; 0] 0 true.
Definition demo_polls : list handoff_poll :=
  [HpTimeout; HpReady false (LAccepted 8 (Some 1000)); HpReady false (LAccepted 9 (Some 1000)); HpReady true LQuiet;
   HpReady false (LAccepted 8 (Some 1000)); HpPublished (mkPublishEnv (Ok (20, 21)) (SendErr (New "broken pipe")) (Wrote 0)) 11 demo_sink 12 demo_source;
   HpReady false (LAccepted 8 (Some 1000)); HpReady false LBroken].
Lemma sockets_left_clean_witness :
  roOpened (RunHandoff quiet_env NoFile demo_handoff demo_polls) = [7; 8; 9; 8; 8] /\
  roClosed (RunHandoff quiet_env NoFile demo_handoff demo_polls) = [9; 8; 8; 8; 7] /\
  clean_run quiet_env NoFile demo_handoff (RunHandoff quiet_env NoFile demo_handoff demo_polls).
Proof.
  split; [vm_compute; reflexivity|]. split; [vm_compute; reflexivity|].
  refine (proj2 (sockets_left_clean (St := unit) (fun _ st => (Ok tt, st)) (fun _ => mkSnapshot 0 []) quiet_env NoFile
    (mkWorld (mkServer [] 0 [] (-1) (-1) false 0) [] []) tt [] demo_handoff demo_polls _ _) _).
  - intros _. vm_compute. reflexivity.
  - intros _. vm_compute. reflexivity.
  - vm_compute. repeat constructor; discriminate.
Defined.
