(* ===== verification/Endpoint.v ===== *)
(** * The edges of the broker: what BlueZ is told, asked and logged

    Models the remaining operations of src/callbridge-sms-go/internal/bluez/broker.go: the methods
    of the exported endpoints, the advertisement's properties, the reads of a transport's links,
    dropping the LE link, the waits for the hand-off server, and the text of D-Bus errors that
    goes to the log without the phone's address. *)

From S2P Require Import Prelude GoStd GoText GoNet Inventory GtbsClient Lc3 Handoff Qos Broker Advert SinkNudge.

(** ** Redacting error texts *)

(** [strings.ReplaceAll] for a non-empty [old]: the leftmost occurrence, then the rest. *)
Fixpoint replace_loop (fuel : nat) (s old new : bytes) : bytes :=
  match fuel with
  | O => s
  | S fuel =>
      match Index s old with
      | None => s
      | Some i => take i s ++ new ++ replace_loop fuel (drop (i + length old) s) old new
      end
  end.
Definition ReplaceAll (s old new : bytes) : bytes := replace_loop (S (length s)) s old new.

(** An error of a D-Bus call: a [dbus.Error], by value or by pointer, with the text its body
    begins with, if it does; or any other error with its text.  [Error()] of a [dbus.Error] is the
    library's and an input. *)
Inductive call_error := DBusError (name : bytes) (first : option bytes) (text : bytes) | OtherError (text : bytes).
Definition boundedDBusError (err : option call_error) (expectedDevice expectedAddress : bytes) : bytes * bytes :=
  match err with
  | None => (str "none", [])
  | Some err =>
      let '(name, message) :=
        match err with
        | DBusError name first text => (name, match first with Some t => t | None => text end)
        | OtherError text => (str "local.error", text)
        end in
      let message := if negb (expectedDevice =s? []) then ReplaceAll message expectedDevice (str "[device]") else message in
      let message := if negb (expectedAddress =s? []) then ReplaceAll message expectedAddress (str "[address]") else message in
      (name, message)
  end.

(** ** The endpoint object *)
Definition invalidArguments (e : error) : error := Wrap "org.bluez.Error.InvalidArguments" e.
Definition endpoint_SelectConfiguration (capabilities : bytes) : result bytes :=
  match SelectConfiguration capabilities with
  | Error e => Error (invalidArguments e)
  | Ok configuration => Ok configuration
  end.
Definition endpoint_ClearConfiguration (b : Broker) (transport : path) : Broker * list Z := clear b transport.
Definition endpoint_Reconfigure : result unit :=
  Error (Sentinel "org.bluez.Error.NotSupported" "P0 candidate does not reconfigure active streams").

(** ** The advertisement *)
Definition ASCSUUID : bytes := str "0000184e-0000-1000-8000-00805f9b34fb".
Definition PACSUUID : bytes := str "00001850-0000-1000-8000-00805f9b34fb".
Definition CASUUID : bytes := str "00001853-0000-1000-8000-00805f9b34fb".
Definition VCSUUID : bytes := str "00001844-0000-1000-8000-00805f9b34fb".
Definition headset_appearance : Z := 0x0942.
Record advertisement := mkAdvertisement {
  adType : bytes; adServiceUUIDs : list bytes; adServiceData : list (bytes * bytes); adAppearance : Z;
  adDiscoverable : bool; adDiscoverableTimeout : Z; adLocalName : bytes; adSecondaryChannel : bytes
}.
Definition advertisementProperties : advertisement :=
  let bapAnnouncement := [0x01; 0x00; 0x00; 0x00; 0x00; 0x00] in
  mkAdvertisement (str "peripheral") [ASCSUUID; PACSUUID; CASUUID; TMASUUID; VCSUUID]
    [(ASCSUUID, bapAnnouncement); (CASUUID, [0x01]); (TMASUUID, [0x02; 0x00])]
    headset_appearance true 0 (str "Callbridge-Asterisk") (str "1M").

(** ** Reads and waits *)
Inductive links_reply := LinksError (e : error) | LinksStore (e : error) | LinksValue (v : option pvalue).
Definition readTransportLinks (r : links_reply) : result (list path) :=
  match r with
  | LinksError e => Error (Wrap "read transport Links" e)
  | LinksStore e => Error (Wrap "decode transport Links" e)
  | LinksValue (Some (PPaths links)) => Ok links
  | LinksValue _ => fail! "invalid transport Links"
  end.
Definition invokeTransportRelease (conn : option Z) (p : path) (answer : result unit) : result unit :=
  if negb (isSome conn) || (p =s? []) then fail! "missing transport release target" else answer.
Definition closeTransportOwnerConnection (conn : option Z) (answer : result unit) : result unit :=
  if negb (isSome conn) then fail! "missing transport owner connection" else answer.
(** [DropLEBearer]: whether a request went out, and the result. *)
Definition DropLEBearer (b : Broker) (disconnect : result unit) (reads : list (result bool)) : bool * bool :=
  if negb (isSome (bConnection b)) || (bExpectedDevice b =s? []) then (false, false)
  else (true, is_ok (resetLEBearer disconnect reads)).
(** [waitHandoffExit]: what arrived on the channel within two seconds, if anything. *)
Definition waitHandoffExit (arrived : option (option error)) : result unit :=
  match arrived with
  | Some (Some e) => Error (Wrap "stop LE Audio handoff server" e)
  | Some None => Ok tt
  | None => fail! "LE Audio handoff server shutdown timed out"
  end.
(** [waitNormalRelease]: [finished] says that the session was done before the timer. *)
Definition waitNormalRelease (b : Broker) (i : nat) (finished : bool) : bool * Broker :=
  if finished then (false, b) else forceNormalReleaseTimeout b i.

(** ** Occurrences *)
Definition occurs (q s : bytes) : Prop := exists a b, s = a ++ q ++ b.

Lemma Index_Some s q i : Index s q = Some i -> s = take i s ++ q ++ drop (i + length q) s.
Proof.
  revert i. induction s as [|x s IH]; intros i; cbn [Index].
  - destruct (HasPrefix [] q) eqn:Pf; [|done]. intros [= <-]. apply HasPrefix_split in Pf as [r E]. destruct q; [done|by destruct r].
  - destruct (HasPrefix (x :: s) q) eqn:Pf.
    + intros [= <-]. apply HasPrefix_split in Pf as [r E]. rewrite E at 1. cbn [take app Nat.add]. by rewrite E, drop_app_length.
    + destruct (Index s q) as [j|]; [|done]. intros [= <-]. cbn. f_equal. by apply IH.
Qed.
(** Nothing begins before the index found. *)
Lemma Index_least a q b i : Index (a ++ q ++ b) q = Some i -> (i <= length a)%nat.
Proof.
  revert i. induction a as [|x a IH]; intros i; [cbn [app]; rewrite Index_here; by intros [= <-]|]. cbn [app Index].
  destruct (HasPrefix _ q); [intros [= <-]; lia|]. destruct (Index (a ++ q ++ b) q) as [j|] eqn:E; [|done].
  intros [= <-]. specialize (IH j eq_refl). cbn. lia.
Qed.
Lemma Index_None s q : Index s q = None -> ~ occurs q s.
Proof.
  intros E (a & b & ->). revert E. induction a as [|x a IH]; [cbn [app]; by rewrite Index_here|]. cbn [app Index].
  destruct (HasPrefix _ q); [done|]. destruct (Index (a ++ q ++ b) q); [done|]. intros _. by apply IH.
Qed.

(** A byte that does not occur in [q] separates: [q] lies before it or after it. *)
Lemma separated (x : bytes) c (z a q b : bytes) :
  x ++ c :: z = a ++ q ++ b -> c ∉ q -> (exists b', x = a ++ q ++ b') \/ (exists a', z = a' ++ q ++ b).
Proof.
  revert a q. induction x as [|x0 x IH]; intros a q E N.
  - destruct a as [|a0 a]; [|injection E as -> ->; right; by exists a]. destruct q as [|q0 q]; [left; by exists []|].
    injection E as -> _. exfalso. apply N. left.
  - destruct a as [|a0 a].
    + destruct q as [|q0 q]; [left; by exists (x0 :: x)|]. injection E as -> E.
      destruct (IH [] q E) as [[b' ->] | [a' Ez]]; [|left; by exists b'|].
      { intros Hc. apply N. by right. }
      exfalso. clear IH N. subst z. apply (f_equal (@length Z)) in E. rewrite !length_app in E. cbn in E. rewrite !length_app in E. lia.
    + injection E as -> E. destruct (IH a q E N) as [[b' ->] | R]; [left; by exists b'|by right].
Qed.

(** A pattern that the marks neither overlap nor contain. *)
Definition unmarked (mid q : bytes) : Prop := (91 ∉ q) /\ (93 ∉ q) /\ exists c, c ∈ q /\ c ∉ mid.
Lemma marked_split mid q x y : unmarked mid q -> occurs q (x ++ ([91] ++ mid ++ [93]) ++ y) -> occurs q x \/ occurs q y.
Proof.
  intros (N1 & N2 & c & C1 & C2) (a & b & E). rewrite <- !app_assoc in E. cbn [app] in E.
  destruct (separated _ _ _ _ _ _ E N1) as [[b' ->] | [a' E']]; [left; by exists a, b'|].
  destruct (separated _ _ _ _ _ _ E' N2) as [[b' ->] | [a2 E2]]; [|right; by exists a2, b].
  exfalso. apply C2. rewrite !elem_of_app. auto.
Qed.
Lemma occurs_drop q n s : occurs q (drop n s) -> occurs q s.
Proof. intros (a & b & E). exists (take n s ++ a), b. by rewrite <- app_assoc, <- E, take_drop. Qed.
Lemma occurs_take q n s : occurs q (take n s) -> occurs q s.
Proof. intros (a & b & E). exists a, (b ++ drop n s). by rewrite !app_assoc, <- (app_assoc a), <- E, take_drop. Qed.

Lemma replace_loop_occurs mid q old fuel s :
  unmarked mid q -> old <> [] -> (length s < fuel)%nat ->
  occurs q (replace_loop fuel s old ([91] ++ mid ++ [93])) -> occurs q s /\ q <> old.
Proof.
  intros U Ne. revert s. induction fuel as [|fuel IH]; intros s L O; [lia|]. cbn [replace_loop] in O.
  destruct (Index s old) as [i|] eqn:I.
  - pose proof (Index_Some _ _ _ I) as Es. apply marked_split in O; [|done].
    assert (i + length old <= length s)%nat as B.
    { apply (f_equal (@length Z)) in Es. rewrite !length_app, length_take, length_drop in Es. destruct old; [done|cbn [length] in *; lia]. }
    destruct O as [O | O].
    + split; [by eapply occurs_take|]. intros ->. destruct O as (a & b & Et).
      assert (s = a ++ old ++ (b ++ drop i s)) as E2 by (rewrite !app_assoc, <- (app_assoc a), <- Et; by rewrite take_drop).
      rewrite E2 in I. apply Index_least in I. apply (f_equal (@length Z)) in Et. rewrite !length_app, length_take in Et.
      destruct old; [done|]. cbn [length] in *. lia.
    + destruct (IH (drop (i + length old) s)) as [O2 N]; [rewrite length_drop; destruct old; [done|cbn [length] in *; lia]|exact O|].
      split; [by eapply occurs_drop|done].
  - split; [done|]. intros ->. by apply (Index_None s old).
Qed.
Lemma ReplaceAll_occurs mid q old s :
  unmarked mid q -> old <> [] -> occurs q (ReplaceAll s old ([91] ++ mid ++ [93])) -> occurs q s /\ q <> old.
Proof. intros U Ne. apply replace_loop_occurs; [done|done|lia]. Qed.

(** What a failed D-Bus call leaves in the log names no phone: whatever text the error
    carries, the message [boundedDBusError] returns contains neither the phone's object path
    nor its address (as BlueZ and the configuration spell them: a path has a slash, an
    address a colon, and neither has square brackets). *)
Theorem errors_redacted err device address name message :
  (91 ∉ device) -> (93 ∉ device) -> 47 ∈ device -> (91 ∉ address) -> (93 ∉ address) -> 58 ∈ address ->
  boundedDBusError (Some err) device address = (name, message) ->
  ~ occurs device message /\ ~ occurs address message.
Proof.
  intros D1 D2 D3 A1 A2 A3 E. cbn [boundedDBusError] in E.
  destruct (match err with DBusError n f t => (n, match f with Some t => t | None => t end) | OtherError t => (str "local.error", t) end) as [n m].
  assert (device <> [] /\ address <> []) as [Nd Na] by (split; intros ->; by eapply elem_of_nil).
  assert (forall s : bytes, s <> [] -> (s =s? []) = false) as NeB by (intros [|]; done).
  rewrite (NeB device Nd), (NeB address Na) in E. cbn [negb] in E. injection E as _ <-.
  assert (unmarked (str "device") device) as U1 by (split_and!; [done..|]; exists 47; split; [done|]; vm_compute; set_solver).
  assert (unmarked (str "address") device) as U2 by (split_and!; [done..|]; exists 47; split; [done|]; vm_compute; set_solver).
  assert (unmarked (str "address") address) as U3 by (split_and!; [done..|]; exists 58; split; [done|]; vm_compute; set_solver).
  change (str "[device]") with ([91] ++ str "device" ++ [93]). change (str "[address]") with ([91] ++ str "address" ++ [93]).
  split; intros O.
  - apply ReplaceAll_occurs in O as [O _]; [|done..]. by apply ReplaceAll_occurs in O as [_ []].
  - by apply ReplaceAll_occurs in O as [_ []].
Qed.

Lemma errors_redacted_witness :
  let device := str "/org/bluez/hci0/dev_00_11" in let address := str "00:11" in
  let err := DBusError (str "org.bluez.Error.Failed") (Some (str "x00:11/org/bluez/hci0/dev_00_110:11 00:11:1")) [] in
  let '(name, message) := boundedDBusError (Some err) device address in
  message = str "x[address][device]0:11 [address]:1" /\ ~ occurs device message /\ ~ occurs address message.
Proof.
  intros device address err.
  pose proof (errors_redacted err device address (str "org.bluez.Error.Failed") (str "x[address][device]0:11 [address]:1")) as R.
  split; [vm_compute; reflexivity|]. apply R.
  - vm_compute. set_solver.
  - vm_compute. set_solver.
  - apply (list_elem_of_here _ _).
  - vm_compute. set_solver.
  - vm_compute. set_solver.
  - right. right. left.
  - vm_compute. reflexivity.
Defined.

(** The advertisement carries data only for services it announces. *)
Lemma advertised_services : Forall (fun e => e.1 ∈ adServiceUUIDs advertisementProperties) (adServiceData advertisementProperties).
Proof. repeat constructor. Qed.

(** [DropLEBearer] reports success only when the link was seen to go. *)
Lemma await_disconnected_seen reads : await_disconnected reads = Ok tt -> Ok false ∈ reads.
Proof. induction reads as [|[[|]|e] reads IH]; cbn; try done; [right; auto|left]. Qed.
Lemma DropLEBearer_seen b disconnect reads sent :
  DropLEBearer b disconnect reads = (sent, true) -> sent = true /\ bConnection b <> None /\ Ok false ∈ reads.
Proof.
  unfold DropLEBearer. destruct (bConnection b); [|done]. cbn [isSome negb orb]. destruct (bExpectedDevice b =s? []); [done|].
  unfold resetLEBearer. destruct disconnect as [[]|]; [|done]. cbn [result_bind]. destruct (await_disconnected reads) as [[]|] eqn:A; [|done].
  intros [= <-]. split_and!; [done|done|]. by apply await_disconnected_seen.
Qed.
