(* ===== verification/MediaGate.v ===== *)
(** * Media only for calls this side may carry

    Composes the call store, the broker and their wiring in runServe of
    src/callbridge-le-call-go/cmd/le-call-go/main.go: the options, the construction of the three
    components, and the media gate over every interleaving of the broker's goroutines.  The
    broker asks the store's [CurrentCallToken] for a token before it publishes a pair; the
    theorem says that no session ever exists for a call that the running store did not offer. *)

From S2P Require Import Prelude GoStd Protocol GtbsState Inventory GtbsClient Control LeCall Lc3 Handoff Qos Broker Acquire Watch Sessions.

(** ** The wiring *)
Record options := mkOptions {
  opMode : bytes; opAdapter : bytes; opDevice : bytes; opMediaSocket : bytes; opControlSocket : bytes;
  opPeerUID : Z; opMediaStartupLease : Z; opMediaProgressLease : Z; opNormalReleaseWait : Z
}.
Definition default_options (device : bytes) : options :=
  mkOptions (str "serve") (str "hci0") device (str "/run/asterisk-leaudio/leaudio.sock")
    (str "/run/asterisk-leaudio/lecall.sock") 0 (60 * Second) (5 * Second) 0.

(** The construction in [runServe]: client, broker and its configuration, server. *)
Definition serve_setup (path_IsValid : bytes -> bool) (o : options) (started : Z) (unixNano : Z) : result (Client * Broker * Server) :=
  let! client := NewClient path_IsValid (opAdapter o) (opDevice o) (NewStore started) (mkCallbacks true true true) in
  let! b := NewBroker (opAdapter o) (opDevice o) (opMediaSocket o) (opPeerUID o) true in
  let '(r, b) := ConfigureMediaLeases b (opMediaStartupLease o) (opMediaProgressLease o) in
  let! _ := r in
  let '(r, b) := ConfigureNormalReleaseWait b (opNormalReleaseWait o) in
  let! _ := r in
  let '(r, b) := ConfigureCallControl b true true in
  let! _ := r in
  let! server := NewServer (opControlSocket o) (opPeerUID o) (device client) unixNano in
  Ok (client, b, server).

Inductive command_line := Fatal (text : string) | RunProbe | RunServe.
Definition main_mode (o : options) : command_line :=
  if opDevice o =s? [] then Fatal "-device is required"
  else if opMode o =s? str "probe" then RunProbe
  else if negb (opMode o =s? str "serve") then Fatal "invalid mode"
  else RunServe.

(** ** The gate is set once *)
Definition gate (b : Broker) : bool * bool := (bProvider b, bRequireToken b).
Ltac by_gate := repeat split_match; simplify_eq/=; done.

Lemma release_gate answer closed b paths : gate (release answer closed b paths) = gate b.
Proof.
  assert (metrics_only b (release answer closed b paths)) as M.
  { unfold release. pose proof (release_attempts_only answer closed transportReleaseRetries b [] ∅ paths) as R.
    unfold releaseTransportPaths. by destruct (release_attempts _ _ _ _ _ _ _) as [[[? ?] ?] ?]. }
  apply metrics_only_eq in M. by rewrite M.
Qed.
Lemma releasePaths_gate answer closed b paths : gate (releaseTransportPaths answer closed b paths).1.1.2 = gate b.
Proof.
  pose proof (release_gate answer closed b paths) as G. unfold release in G.
  by destruct (releaseTransportPaths answer closed b paths) as [[[? ?] ?] ?].
Qed.
Lemma clearActive_gate b i : gate (clearActiveSessionLocked b i) = gate b.
Proof. unfold clearActiveSessionLocked, signalActiveSessionDone. by_gate. Qed.
Lemma request_gate b i : gate (requestSpecificSessionRelease b i).2 = gate b.
Proof. unfold requestSpecificSessionRelease. by_gate. Qed.
Lemma requestActive_gate b : gate (requestActiveSessionRelease b).2 = gate b.
Proof.
  unfold requestActiveSessionRelease. destruct (bActiveSession b) as [i|]; [|done].
  pose proof (request_gate b i). by destruct (requestSpecificSessionRelease b i) as [[] ?].
Qed.
Lemma mark_gate b i e : gate (markNormalReleasePending b i e).2 = gate b.
Proof. unfold markNormalReleasePending. destruct e; by_gate. Qed.
Lemma begin_gate b i e : gate (beginNormalReleaseWait b i e).2 = gate b.
Proof. unfold beginNormalReleaseWait, requestSpecificSessionRelease. destruct e; by_gate. Qed.
Lemma force_gate b i : gate (forceNormalReleaseTimeout b i).2 = gate b.
Proof. unfold forceNormalReleaseTimeout. by_gate. Qed.
Lemma transport_idle_gate b p : gate (transport_idle b p) = gate b.
Proof. unfold transport_idle, clearActiveSessionLocked, signalActiveSessionDone. by_gate. Qed.
Lemma close_pending_gate b p : gate (close_pending b p).1 = gate b.
Proof. unfold close_pending. by_gate. Qed.
Lemma pairing_gate b s t : gate (clearPairingLocked b s t) = gate b.
Proof. unfold clearPairingLocked, clear_pairing. by_gate. Qed.
Lemma generation_gate b clock : gate (nextDescriptorGenerationLocked b clock).2 = gate b.
Proof. unfold nextDescriptorGenerationLocked. by_gate. Qed.
Lemma watch_op_gate i b b' next : watch_op i b b' next -> gate b' = gate b.
Proof.
  destruct 1 as [p now|p|m| |b' H|b' w H|b' H|b' H].
  - unfold recordLifecycleProgress. by_gate.
  - unfold recordLifecycleNormalEnd. repeat split_match; first [apply mark_gate|done].
  - done.
  - apply mark_gate.
  - pose proof (request_gate b i) as G. by rewrite H in G.
  - pose proof (begin_gate b i false) as G. by rewrite H in G.
  - pose proof (begin_gate b i false) as G. by rewrite H in G.
  - pose proof (begin_gate b i false) as G. by rewrite H in G.
Qed.
Lemma releaseActive_gate answer closed b i : gate (releaseActiveSession answer closed b i) = gate b.
Proof.
  unfold releaseActiveSession. destruct (bSessions b !! i) as [s|]; [|done].
  pose proof (releasePaths_gate answer closed b (sReleasePaths s)) as G.
  destruct (releaseTransportPaths answer closed b (sReleasePaths s)) as [[[ok b1] log] fell]. cbn in G.
  destruct ok; [unfold completeActiveSession; by rewrite clearActive_gate|]. unfold release_failed.
  destruct (current_session b1 i) as [s1|]; [|done].
  destruct (sRemoteIdleSeen s1); [by rewrite clearActive_gate|done].
Qed.
Lemma acquire_hold_gate answer closed order b conn held linked :
  gate (acquire_hold answer closed order b conn held linked).1.1 = gate b.
Proof.
  unfold acquire_hold, releasePendingTransports. repeat first [progress simplify_eq/= | split_match];
    rewrite ?release_gate; done.
Qed.
Lemma acquire_try_gate answer closed e b p conn cfg peer : gate (oBroker (acquire_try answer closed e b p conn cfg peer)) = gate b.
Proof.
  unfold acquire_try. destruct (te_acquire e) as [err|fds|fd rm wm]; [done|done|].
  assert (forall held linked opened, gate (oBroker (let '(b, next, fds) := acquire_hold answer closed (te_order e) b conn held linked in
    mkOutcome b (with_cleanup p (fst <$> peer) next) opened fds)) = gate b) as HF.
  { intros held linked opened. pose proof (acquire_hold_gate answer closed (te_order e) b conn held linked) as G.
    by destruct (acquire_hold _ _ _ _ _ _ _) as [[b1 next] fds]. }
  pose proof (release_gate answer closed b [p]) as GR.
  destruct (result_bind _ _) as [[q links]|err]; [|done]. destruct peer as [[pp pcfg]|]; [|apply HF].
  destruct (negb _); [done|]. destruct (result_bind _ _) as [[pq plinks]|err]; [|done].
  destruct (negb _); [done|]. destruct (te_dup e) as [pfd|err]; [apply HF|done].
Qed.

(** ** Tokens of the sessions *)

Lemma quiet_sessions b b' : quiet b b' -> bSessions b' = bSessions b.
Proof. intros [V _ _ _]. by injection V. Qed.

(** Publishing: either no session appears, or one with the token the polls gave. *)
Lemma publish_token answer closed e b p peer conn sink source :
  let o := acquire_publish answer closed e b p peer conn sink source in
  gate (oBroker o) = gate b /\
  (bSessions (oBroker o) = bSessions b \/
   exists s, bSessions (oBroker o) = <[pi_address e := s]> (bSessions b) /\
     (bRequireToken b = true -> correlate b (pi_polls e) = (sCallToken s, true))).
Proof.
  cbv zeta. unfold acquire_publish. destruct (correlate b (pi_polls e)) as [token cor].
  assert (forall b1, gate b1 = gate b -> bSessions b1 = bSessions b ->
    let o := mkOutcome (releasePendingTransports answer closed (clearPairingLocked b1 sink source) [sink; source])
               [GCleanup p peer] [] [ptFD sink; ptFD source] in
    gate (oBroker o) = gate b /\ bSessions (oBroker o) = bSessions b) as HG.
  { intros b1 G1 S1. cbn. unfold releasePendingTransports. rewrite release_gate, pairing_gate. split; [done|].
    rewrite (quiet_sessions _ _ (release_quiet answer closed _ _)).
    by rewrite (quiet_sessions _ _ (clearPairingLocked_quiet b1 sink source)). }
  destruct (bRequireToken b && negb cor) eqn:Rq; [destruct (HG b eq_refl eq_refl); auto|].
  destruct (negb (pairCurrentLocked b conn sink source)); [destruct (HG b eq_refl eq_refl); auto|].
  pose proof (generation_gate b (pi_clock1 e)) as G1. destruct (nextDescriptorGenerationLocked b (pi_clock1 e)) as [[g1|err] b1] eqn:E1;
    apply nextGeneration_rest in E1 as (V1 & _ & _); injection V1 as _ S1; cbn in G1; [|destruct (HG b1 G1 S1); auto].
  pose proof (generation_gate b1 (pi_clock2 e)) as G2. destruct (nextDescriptorGenerationLocked b1 (pi_clock2 e)) as [[g2|err] b2] eqn:E2;
    apply nextGeneration_rest in E2 as (V2 & _ & _); injection V2 as _ S2; cbn in G2;
    [|destruct (HG b2 ltac:(congruence) ltac:(congruence)); auto].
  destruct (PublishPair _ _ _ _ _ _) as [[[fd|err] h] ev];
    [|destruct (HG (b2 <| bHandoff := h |>)); [by rewrite <- G1, <- G2|by rewrite <- S1, <- S2|auto]].
  cbn [oBroker]. rewrite pairing_gate. split; [by rewrite <- G1, <- G2|]. right.
  eexists. split.
  - rewrite (quiet_sessions _ _ (clearPairingLocked_quiet _ sink source)). cbn. by rewrite S2, S1.
  - intros Tk. cbn. rewrite Tk in Rq. by destruct cor.
Qed.

Lemma runs_gate b g o : runs b g o -> gate (oBroker o) = gate b.
Proof.
  destruct 1 as [p|p links|a c e p conn cfg peer Ho Ty|a c e p peer conn sink source HF|p peer|a c p gen
    |a c i|i s Hs Hdone|i went b' H|i fd op op' b' next H|i fd op H].
  - done.
  - unfold acquire_reserve. by_gate.
  - apply acquire_try_gate.
  - by destruct (publish_token a c e b p peer conn sink source) as [G _].
  - done.
  - unfold expirePending, releasePendingTransports. repeat split_match; cbn; rewrite ?release_gate; done.
  - apply releaseActive_gate.
  - done.
  - pose proof (force_gate b i) as G. by rewrite H in G.
  - by eapply watch_op_gate.
  - done.
Qed.
Lemma signal_done_gate b i : gate (signalActiveSessionDone b i) = gate b.
Proof. unfold signalActiveSessionDone. by_gate. Qed.
Lemma reset_tables_gate b : gate (reset_tables b).1 = gate b.
Proof.
  unfold reset_tables, closePendingLocked. cbn [fst].
  match goal with |- gate ?x = _ => change (gate x) with (gate (signalActiveSessionDone
    (b <| bConfigured := ∅ |> <| bAcquiring := ∅ |> <| bAcquired := ∅ |> <| bPairing := ∅ |>) (bActiveSession b))) end.
  by rewrite signal_done_gate.
Qed.
Lemma connected_gate b conn device : gate (bluez_connected b conn device).1 = gate b.
Proof. unfold bluez_connected. by rewrite reset_tables_gate. Qed.
Lemma gone_gate b : gate (bluez_gone b).1 = gate b.
Proof.
  unfold bluez_gone. match goal with |- context [reset_tables ?x] => pose proof (reset_tables_gate x) as G; destruct (reset_tables x) end. exact G.
Qed.
Lemma SetConfiguration_gate V b d p props : gate (SetConfiguration V b d p props).1.2 = gate b.
Proof.
  unfold SetConfiguration, configure. destruct (set_configuration props) as [[codec qos]|e]; [|done].
  destruct (_ || _); [done|]. destruct (_ =? _); [done|]. cbv zeta.
  match goal with |- context [close_pending ?x p] => pose proof (close_pending_gate x p) as G; destruct (close_pending x p) as [b1 f1] end.
  exact G.
Qed.
Lemma clear_gate b p : gate (clear b p).1 = gate b.
Proof.
  unfold clear. pose proof (close_pending_gate b p) as G. destruct (close_pending b p) as [b1 f1]. cbn [fst] in *.
  repeat split_match; rewrite ?clearActive_gate; exact G.
Qed.
Lemma handleSignal_gate b sg : gate (handleSignal b sg).1 = gate b.
Proof.
  destruct (handleSignal b sg) as [b' p] eqn:H. unfold handleSignal in H.
  assert ((b' = b) \/ (exists q, b' = transport_idle b q)) as [->|(q & ->)] by (repeat split_match; simplify_eq; eauto);
    [done|apply transport_idle_gate].
Qed.
Lemma handoff_poll_gate b rd ac : gate (handoff_poll b rd ac).1 = gate b.
Proof.
  unfold handoff_poll. destruct (handoff_turn (bHandoff b) rd ac) as [h ev]. destruct (existsb _ ev); [|done].
  pose proof (requestActive_gate (b <| bHandoff := h |>)) as G.
  destruct (requestActiveSessionRelease (b <| bHandoff := h |>)) as [i b2]. exact G.
Qed.
Lemma ReleaseCallToken_gate b token : gate (ReleaseCallToken b token).2 = gate b.
Proof. unfold ReleaseCallToken. repeat split_match; first [done|apply mark_gate]. Qed.
Lemma event_gate b b' next closed :
  event b b' next closed -> gate b' = gate b \/ exists provider required, b' = (ConfigureCallControl b provider required).2.
Proof.
  destruct 1 as [st ac|w|pr rq|conn dev b' fds H| | |b' fds H|V d p props r b' fds H|p b' fds H|sg b' p H
                |b' i H|rd ac b' nx H|tok|h]; try (right; by eexists _, _); left.
  - unfold ConfigureMediaLeases. by_gate.
  - unfold ConfigureNormalReleaseWait. by_gate.
  - pose proof (connected_gate b conn dev) as G. by rewrite H in G.
  - done.
  - done.
  - pose proof (gone_gate b) as G. by rewrite H in G.
  - pose proof (SetConfiguration_gate V b d p props) as G. by rewrite H in G.
  - pose proof (clear_gate b p) as G. by rewrite H in G.
  - pose proof (handleSignal_gate b sg) as G. by rewrite H in G.
  - unfold handleLEBearerDisconnected in H. pose proof (requestActive_gate b) as G. by rewrite H in G.
  - pose proof (handoff_poll_gate b rd ac) as G. by rewrite H in G.
  - apply ReleaseCallToken_gate.
  - unfold HoldAdvertisement. by_gate.
Qed.

(** ** Tokens of the sessions stay *)
Definition token_at (m : gmap nat session) (i : nat) : option Z := sCallToken <$> m !! i.
Lemma token_insert m j s s' i : m !! j = Some s -> sCallToken s' = sCallToken s -> token_at (<[j := s']> m) i = token_at m i.
Proof.
  intros L E. unfold token_at. destruct (decide (j = i)) as [<-|Ne]; [rewrite lookup_insert_eq, L; cbn; by rewrite E|by rewrite lookup_insert_ne].
Qed.
Lemma moves_tokens v v' n : moves v v' n -> forall i, token_at v'.2 i = token_at v.2 i.
Proof.
  induction 1 as [v|v1 v2 v3 n1 n2 M _ IH]; intros i; [done|]. rewrite IH. clear IH.
  destruct M as [j m s s1 L P|j m s L _ _|j m s L _ _|j m s L|j m s L|j m L]; cbn [snd]; try done; eapply token_insert; try done. by destruct P.
Qed.
Definition same_tokens (b b' : Broker) : Prop := forall i, token_at (bSessions b') i = token_at (bSessions b) i.
Lemma same_sessions b b' : bSessions b' = bSessions b -> same_tokens b b'.
Proof. by intros E i; rewrite E. Qed.

Lemma runs_tokens b g o : runs b g o -> match g with GCorrelate _ _ _ _ _ => False | _ => True end -> same_tokens b (oBroker o).
Proof.
  destruct 1 as [p|p links|a c e p conn cfg peer Ho Ty|a c e p peer conn sink source HF|p peer|a c p gen
    |a c i|i s Hs Hdone|i went b' H|i fd op op' b' next H|i fd op H]; intros Ng; try done.
  - apply same_sessions. unfold acquire_reserve. by_gate.
  - apply same_sessions. destruct (acquire_try_kept a c e b p conn cfg peer) as [V _]. by injection V.
  - apply same_sessions. unfold expirePending. destruct (bPending b !! p); [|done]. destruct (_ =? gen); [|done].
    unfold releasePendingTransports. cbn [oBroker]. by rewrite (quiet_sessions _ _ (release_quiet a c _ _)).
  - destruct (releaseActiveSession_moves a c b i) as [M _]. intros j. by apply (moves_tokens _ _ _ M).
  - intros j. by eapply (moves_tokens (view b) (view b')), force_moves.
  - intros j. by eapply (moves_tokens (view b) (view b')), watch_op_moves.
Qed.
Lemma wait_token polls t : waitForCallToken polls = (t, true) -> (t, true) ∈ polls /\ t <> 0.
Proof.
  induction polls as [|[x ok] polls IH]; cbn [waitForCallToken]; [done|]. destruct (ok && negb (x =? 0)) eqn:E.
  - intros [= <-]. bool_prop. subst ok. split; [left|done].
  - intros H. destruct (IH H). split; [by right|done].
Qed.

(** ** The service's steps

    The broker's configuration of [Sessions], the call store with the operations made on it, the
    latest first, and the answers the store gave to the goroutines that wait for a token.  Such a goroutine is known
    by the two descriptors it holds, which nobody else holds. *)
Record service := mkService {
  msMedia : config;
  msStore : GtbsState.Store; msOps : list store_op;
  msPolls : list ((Z * Z) * (Z * bool))
}.
Definition holder (sink source : pendingTransport) : Z * Z := (ptFD sink, ptFD source).
Definition polls_of (k : Z * Z) (l : list ((Z * Z) * (Z * bool))) : list (Z * bool) := (filter (fun x => x.1 = k) l).*2.

(** A goroutine of the control client or server changes the store; a goroutine with a pair asks it; it publishes the pair, or gives up, on the
    answers it got; another goroutine of the broker runs; something happens to the broker.  Nobody changes the call control again. *)
Definition reconfigures (b b' : Broker) : Prop :=
  exists provider required, b' = (ConfigureCallControl b provider required).2 /\ b' <> b.
Inductive service_step : service -> service -> Prop :=
  | ss_store c st ops polls o : op_bytes o -> service_step (mkService c st ops polls) (mkService c (exec st o) (o :: ops) polls)
  | ss_poll b l p peer conn sink source r open rel st ops polls :
      let c := mkConfig b (l ++ GCorrelate p peer conn sink source :: r) open rel in
      (waitForCallToken (polls_of (holder sink source) polls)).2 = false ->
      service_step (mkService c st ops polls) (mkService c st ops (polls ++ [(holder sink source, CurrentCallToken st)]))
  | ss_publish b l p peer conn sink source r open rel st ops polls answer closed e :
      let o := acquire_publish answer closed e b p peer conn sink source in
      bSessions b !! pi_address e = None -> pi_polls e = polls_of (holder sink source) polls -> fresh_fds open (oOpened o) ->
      service_step (mkService (mkConfig b (l ++ GCorrelate p peer conn sink source :: r) open rel) st ops polls)
        (mkService (mkConfig (oBroker o) (l ++ oNext o ++ r) (kernel open (oOpened o) (oClosed o)) (rel ++ releases (oNext o)))
           st ops (filter (fun x => x.1 <> holder sink source) polls))
  | ss_run b l g r open rel st ops polls o :
      runs b g o -> match g with GCorrelate _ _ _ _ _ => False | _ => True end -> fresh_fds open (oOpened o) ->
      service_step (mkService (mkConfig b (l ++ g :: r) open rel) st ops polls)
        (mkService (mkConfig (oBroker o) (l ++ oNext o ++ r) (kernel open (oOpened o) (oClosed o)) (rel ++ releases (oNext o))) st ops polls)
  | ss_event b b' ts open rel st ops polls next closed :
      event b b' next closed -> ~ reconfigures b b' ->
      service_step (mkService (mkConfig b ts open rel) st ops polls)
        (mkService (mkConfig b' (ts ++ next) (kernel open [] closed) (rel ++ releases next)) st ops polls).
(** The broker's part of a run is a run of [Sessions]. *)
Lemma service_step_step s s' : service_step s s' -> msMedia s' = msMedia s \/ step (msMedia s) (msMedia s').
Proof. destruct 1; cbn; [by left|by left|right..]; [apply step_run; [by apply run_correlate|done]|by apply step_run|by apply step_event]. Qed.

#[local] Abbreviation sessions s := (bSessions (cBroker (msMedia s))).
(** A session is never forgotten and keeps its token. *)
Lemma step_sessions s s' :
  service_step s s' -> (forall i, token_at (sessions s') i = token_at (sessions s) i) \/
    exists b l p peer conn sink source r open rel e t,
      msMedia s = mkConfig b (l ++ GCorrelate p peer conn sink source :: r) open rel /\
      bSessions b !! pi_address e = None /\ sessions s' = <[pi_address e := t]> (sessions s) /\
      pi_polls e = polls_of (holder sink source) (msPolls s) /\
      (bRequireToken b = true -> correlate b (pi_polls e) = (sCallToken t, true)).
Proof.
  destruct 1 as [| |b l p peer conn sink source r open rel st ops polls answer closed e o Fr Po Ff|b l g r open rel st ops polls o R Ng Ff
    |b b' ts open rel st ops polls next closed E Nr]; cbn [msMedia cBroker msPolls].
  - by left.
  - by left.
  - destruct (publish_token answer closed e b p peer conn sink source) as [_ [S | (t & S & C)]]; fold o in S; [left; by apply same_sessions|].
    right. exists b, l, p, peer, conn, sink, source, r, open, rel, e, t. by split_and!.
  - left. by apply (runs_tokens b g o).
  - left. apply event_effect in E as [M _ _ _]. intros i. by apply (moves_tokens _ _ _ M).
Qed.
Lemma step_gate s s' : service_step s s' -> gate (cBroker (msMedia s')) = gate (cBroker (msMedia s)).
Proof.
  destruct 1 as [| |b l p peer conn sink source r open rel st ops polls answer closed e o Fr Po Ff|b l g r open rel st ops polls o R Ng Ff
    |b b' ts open rel st ops polls next closed E Nr]; cbn [msMedia cBroker]; [done|done|apply publish_token|by eapply runs_gate|].
  destruct (decide (gate b' = gate b)) as [|Ne]; [done|]. exfalso. apply Nr. destruct (event_gate _ _ _ _ E) as [|(pr & rq & ->)]; [done|].
  exists pr, rq. split; [done|]. intros Eq. by rewrite Eq in Ne.
Qed.
Lemma run_unborn s s' i : rtc service_step s s' -> sessions s' !! i = None -> sessions s !! i = None.
Proof.
  induction 1 as [|a b c St R IH]; [done|]. intros N. apply IH in N. destruct (step_sessions _ _ St) as [T | X].
  - specialize (T i). unfold token_at in T. rewrite N in T. by destruct (sessions a !! i).
  - destruct X as (?&?&?&?&?&?&?&?&?&?&e&t&_&_&E&_). rewrite E in N. by apply lookup_insert_None in N as [N _].
Qed.
Lemma run_ops_grow s s' : rtc service_step s s' -> len (msOps s) <= len (msOps s').
Proof. induction 1 as [|a b c St R IH]; [done|]. etrans; [|exact IH]. destruct St; cbn [msOps]; try done. unfold len. cbn. lia. Qed.

(** ** What the sessions carry *)
Section Run.
Variable started : Z.
Variable s0 : service.
(** The run's store offered the token at an earlier moment. *)
Definition offered_before (s : service) (t : Z) (P : service -> Prop) : Prop :=
  exists s1, rtc service_step s0 s1 /\ rtc service_step s1 s /\ CurrentCallToken (msStore s1) = (t, true) /\ P s1.
Record gated (s : service) : Prop := {
  gd_run : rtc service_step s0 s;
  gd_gate : gate (cBroker (msMedia s)) = (true, true);
  gd_store : GtbsState.reachable started (msOps s) (msStore s);
  gd_polls k t : (k, (t, true)) ∈ msPolls s -> offered_before s t (fun _ => True);
  gd_sessions i x : sessions s !! i = Some x -> sCallToken x <> 0 /\ offered_before s (sCallToken x) (fun s1 => sessions s1 !! i = None)
}.
Lemma offered_later s s' t P : service_step s s' -> offered_before s t P -> offered_before s' t P.
Proof. intros St (s1 & R1 & R2 & C & HP). exists s1. split_and!; [done|by eapply rtc_r|done|done]. Qed.

Lemma gated_kept s s' : service_step s s' -> gated s -> gated s'.
Proof.
  intros St [Ru G Re Po Se]. split.
  - by eapply rtc_r.
  - by rewrite (step_gate _ _ St).
  - destruct St; cbn [msOps msStore] in *; try done. by constructor.
  - intros k t Hk. apply (offered_later _ _ _ _ St).
    destruct St as [|b l p peer conn sink source r open rel st ops polls c Wt|b l p peer conn sink source r open rel st ops polls answer closed e o Fr Pi Ff| |];
      cbn [msPolls] in *; [by eapply Po| |apply list_elem_of_filter in Hk as [_ Hk]; by eapply Po|by eapply Po|by eapply Po].
    apply elem_of_app in Hk as [Hk | Hk]; [by eapply Po|]. apply list_elem_of_singleton in Hk. injection Hk as _ Hk.
    exists (mkService c st ops polls). by split_and!; [|apply rtc_refl|..].
  - intros i x Hx. destruct (step_sessions _ _ St) as [T | X].
    + specialize (T i). unfold token_at in T. rewrite Hx in T. destruct (sessions s !! i) as [y|] eqn:Hy; [|done]. cbn in T. injection T as ->.
      destruct (Se i y Hy) as [Nz Of]. split; [done|by apply (offered_later _ _ _ _ St)].
    + destruct X as (b & l & p & peer & conn & sink & source & r & open & rel & e & t & Em & Fr & E & Pi & C).
      assert (cBroker (msMedia s) = b) as Eb by by rewrite Em. rewrite E in Hx. destruct (decide (pi_address e = i)) as [<-|Ne].
      2: { rewrite lookup_insert_ne in Hx by done. destruct (Se i x Hx) as [Nz Of]. split; [done|by apply (offered_later _ _ _ _ St)]. }
      rewrite lookup_insert_eq in Hx. injection Hx as <-. rewrite Eb in G. injection G as Gp Gr. specialize (C Gr). unfold correlate in C.
      rewrite Gp, Gr, Pi in C. apply wait_token in C as [Hin Nz]. split; [done|]. unfold polls_of in Hin.
      apply list_elem_of_fmap in Hin as ([k pl] & Hpl & Hin). cbn in Hpl. subst pl. apply list_elem_of_filter in Hin as [_ Hin].
      destruct (Po _ _ Hin) as (s1 & R1 & R2 & C1 & _). apply (offered_later _ _ _ _ St). exists s1. split_and!; [done..|].
      apply (run_unborn s1 s _ R2). by rewrite Eb.
Qed.
Lemma gated_run s : gated s0 -> rtc service_step s0 s -> gated s.
Proof. intros G. apply (rtc_ind_r gated s0 G). intros a b _ St Ga. by eapply gated_kept. Qed.
End Run.

(** What [runServe] has when it starts its goroutines. *)
Lemma serve_setup_ok valid o started unixNano client b server :
  serve_setup valid o started unixNano = Ok (client, b, server) ->
  store client = NewStore started /\ gate b = (true, true) /\ bSessions b = ∅ /\
  0 < opMediaStartupLease o /\ 0 < opMediaProgressLease o /\ 0 < opNormalReleaseWait o < remoteASEReleasingWatchdog /\
  bProgressStartLease b = opMediaStartupLease o /\ bProgressLease b = opMediaProgressLease o /\
  bNormalReleaseWait b = opNormalReleaseWait o /\
  exists b0, NewBroker (opAdapter o) (opDevice o) (opMediaSocket o) (opPeerUID o) true = Ok b0.
Proof.
  unfold serve_setup. intros E. destruct (NewClient _ _ _ _ _) as [cl|] eqn:C; [|done]. cbn [result_bind] in E.
  destruct (NewBroker _ _ _ _ _) as [b0|] eqn:B; [|done]. cbn [result_bind] in E.
  unfold ConfigureMediaLeases in E. destruct (_ || _) eqn:L1; [done|]. destruct (Broker.started b0) eqn:S0; [done|]. cbn [result_bind] in E.
  unfold ConfigureNormalReleaseWait in E. destruct (_ || _) eqn:L2 in E; [done|].
  match type of E with context [Broker.started ?x] => change (Broker.started x) with (Broker.started b0) in E end.
  rewrite S0 in E. cbn [result_bind] in E. unfold ConfigureCallControl in E. cbn [negb andb] in E.
  destruct (_ || _) eqn:L3 in E; [done|]. cbn [result_bind] in E. destruct (NewServer _ _ _ _) as [sv|]; [|done].
  injection E as <- <- _. bool_prop. pose proof (NewBroker_initial _ _ _ _ _ _ B) as (_ & V & _). injection V as _ VS.
  split_and!; try done; try lia; [|by exists b0].
  unfold NewClient in C. repeat split_match; by simplify_eq/=.
Qed.

(** The service as [runServe] starts it. *)
Definition service_start (client : Client) (b : Broker) : service := mkService (initial b) (store client) [] [].

(** C4.  Audio only for our calls: in the service as [runServe] builds it, the broker and the call store running together, over every
    interleaving of the broker's goroutines, BlueZ's events, the media peer, the timers, the phone's call-state notifications and
    the commands given here (at most 2^54 operations on the store), every media session that exists was preceded by a moment of that run, before the session existed, in which
    the store had exactly one call, the one whose token the session carries, and this call was ringing,
    originated here, or had been accepted here under that very token.  A call answered on the handset
    never gets a session. *)
Theorem media_only_for_our_calls valid o started unixNano client b server s i x :
  serve_setup valid o started unixNano = Ok (client, b, server) ->
  rtc service_step (service_start client b) s -> len (msOps s) <= 2 ^ 54 -> sessions s !! i = Some x ->
  sCallToken x <> 0 /\
  exists s1 c, rtc service_step (service_start client b) s1 /\ rtc service_step s1 s /\ sessions s1 !! i = None /\
    calls (msStore s1) = {[cIndex c := c]} /\ cToken c = sCallToken x /\
    (has_bits (cFlags c) CallFlagOutgoing = true \/ cState c = StateIncoming \/ DoClaim (cIndex c) (sCallToken x) ∈ msOps s1).
Proof.
  intros Su R L Hs. apply serve_setup_ok in Su as (Es & G & S & _).
  assert (gated started (service_start client b) (service_start client b)) as I.
  { split; cbn; [apply rtc_refl|exact G|rewrite Es; constructor|by intros k t ?%elem_of_nil|by rewrite S; intros j y; rewrite lookup_empty]. }
  pose proof (gated_run _ _ _ I R) as [_ _ _ _ Se]. destruct (Se i x Hs) as [Nz (s1 & R1 & R2 & C & N)]. split; [done|].
  pose proof (gated_run _ _ _ I R1) as [_ _ Re _ _]. pose proof (run_ops_grow _ _ R2).
  destruct (media_gate _ _ _ _ Re ltac:(lia) C) as (c & Hc & Ht & Hd). exists s1, c. by split_and!.
Qed.

(** ** A worked run: a claimed call whose pair is published *)
Lemma not_reconfigured b b' : gate b' = gate b -> ~ reconfigures b b'.
Proof.
  intros G (pr & rq & -> & Ne). unfold ConfigureCallControl in *. destruct (negb pr && rq); [done|]. destruct (_ || _); [done|].
  injection G as -> ->. apply Ne. by destruct b.
Qed.
Lemma gated_event_eq s s' b' next closed :
  event (cBroker (msMedia s)) b' next closed -> gate b' = gate (cBroker (msMedia s)) ->
  s' = mkService (after_event (msMedia s) b' next closed) (msStore s) (msOps s) (msPolls s) -> service_step s s'.
Proof. destruct s as [[b ts open rel] st ops polls]. cbn. intros HE G ->. apply ss_event; [done|by apply not_reconfigured]. Qed.
Lemma gated_run_eq s s' g o :
  cThreads (msMedia s) = [g] -> runs (cBroker (msMedia s)) g o -> match g with GCorrelate _ _ _ _ _ => False | _ => True end ->
  fresh_fds (cOpen (msMedia s)) (oOpened o) -> s' = mkService (after_run (msMedia s) [] [] o) (msStore s) (msOps s) (msPolls s) -> service_step s s'.
Proof. destruct s as [[b ts open rel] st ops polls]. cbn. intros -> HR Ng F ->. apply (ss_run b [] g [] open rel st ops polls o); auto. Qed.

Definition mg_options : options :=
  mkOptions (str "serve") (str "hci0") (str "AA:BB:CC:DD:EE:FF") (str "/run/x") (str "/run/y") 1000 (60 * Second) (5 * Second) Second.
Definition mg_broker : Broker := Eval vm_compute in
  match serve_setup (fun _ => true) mg_options 5 7 with Ok (_, b, _) => b | Error _ => demo_broker end.
Definition mg_c0 : config := initial mg_broker.
Definition mg_c1 : config := Eval vm_compute in
  let '(b, fds) := bluez_connected (cBroker mg_c0) 1 (str "/d") in after_event mg_c0 b [] fds.
Definition mg_c2 : config := Eval vm_compute in
  let '(_, b, fds) := SetConfiguration any_path (cBroker mg_c1) DirectionSink (str "/d/s") run_props in after_event mg_c1 b [] fds.
Definition mg_c3 : config := Eval vm_compute in
  let '(_, b, fds) := SetConfiguration any_path (cBroker mg_c2) DirectionSource (str "/d/t") run_props in after_event mg_c2 b [] fds.
Definition mg_c4 : config := Eval vm_compute in
  let '(b, next) := handoff_poll (cBroker mg_c3) false (Some (5, Some 1000)) in after_event mg_c3 b next [].
Definition mg_c5 : config := Eval vm_compute in
  let '(b, p) := handleSignal (cBroker mg_c4) (Some pending_signal) in
  after_event mg_c4 b (match p with Some p => [GAcquire p] | None => [] end) [].
Definition mg_c6 : config := Eval vm_compute in after_run mg_c5 [] [] (acquire_begin (cBroker mg_c5) (str "/d/s")).
Definition mg_c7 : config := Eval vm_compute in after_run mg_c6 [] [] (acquire_reserve (cBroker mg_c6) (str "/d/s") (Ok [str "/d/t"])).
Definition mg_c8 : config := Eval vm_compute in
  match cThreads mg_c7 with
  | [GTry p conn cfg peer] => after_run mg_c7 [] [] (acquire_try all_ok true run_try_env (cBroker mg_c7) p conn cfg peer)
  | _ => mg_c7
  end.
(** The goroutine with the pair asks while there is no call, then after the operations of [demo_ops]: the call came in and was accepted. *)
Definition mg_store : GtbsState.Store := run_ops 5 demo_ops.
Definition mg_polls : list ((Z * Z) * (Z * bool)) := [((10, 11), (0, false)); ((10, 11), (6, true))].
Definition mg_publish : publish_inputs :=
  mkPublishInputs mg_polls.*2 (Ok (100, 0)) (Ok (100, 1)) (mkPublishEnv (Ok (20, 21)) (Wrote 76) (Wrote 76)) 0 0.
Definition mg_c9 : config := Eval vm_compute in
  match cThreads mg_c8 with
  | [GCorrelate p peer conn sink source] =>
      after_run mg_c8 [] [] (acquire_publish all_ok true mg_publish (cBroker mg_c8) p peer conn sink source)
  | _ => mg_c8
  end.
#[local] Abbreviation quiet_service c := (mkService c (NewStore 5) [] []).
Definition mg_end : service := mkService mg_c9 mg_store demo_ops [].

Lemma mg_prepares : rtc service_step (quiet_service mg_c0) (quiet_service mg_c8).
Proof.
  apply (rtc_l _ _ (quiet_service mg_c1)); [eapply gated_event_eq; [eapply (ev_connected _ 1 (str "/d")); reflexivity|vm_compute; reflexivity..]|].
  apply (rtc_l _ _ (quiet_service mg_c2)); [eapply gated_event_eq;
    [eapply (ev_set_configuration _ any_path DirectionSink (str "/d/s") run_props); vm_compute; reflexivity|vm_compute; reflexivity..]|].
  apply (rtc_l _ _ (quiet_service mg_c3)); [eapply gated_event_eq;
    [eapply (ev_set_configuration _ any_path DirectionSource (str "/d/t") run_props); vm_compute; reflexivity|vm_compute; reflexivity..]|].
  apply (rtc_l _ _ (quiet_service mg_c4)); [eapply gated_event_eq;
    [eapply (ev_handoff _ false (Some (5, Some 1000))); vm_compute; reflexivity|vm_compute; reflexivity..]|].
  apply (rtc_l _ _ (quiet_service mg_c5)); [eapply gated_event_eq;
    [eapply (ev_signal _ (Some pending_signal)); vm_compute; reflexivity|vm_compute; reflexivity..]|].
  apply (rtc_l _ _ (quiet_service mg_c6)); [apply (gated_run_eq _ _ (GAcquire (str "/d/s")) (acquire_begin (cBroker mg_c5) (str "/d/s")));
    [reflexivity|constructor|done|constructor|vm_compute; reflexivity]|].
  apply (rtc_l _ _ (quiet_service mg_c7)); [apply (gated_run_eq _ _ (GLinks (str "/d/s")) (acquire_reserve (cBroker mg_c6) (str "/d/s") (Ok [str "/d/t"])));
    [reflexivity|constructor|done|vm_compute; constructor|vm_compute; reflexivity]|].
  apply (rtc_l _ _ (quiet_service mg_c8)); [|apply rtc_refl].
  destruct (cThreads mg_c7) as [|[| |p conn cfg peer| | | | | |] [|]] eqn:E; try discriminate E.
  apply (gated_run_eq _ _ (GTry p conn cfg peer) (acquire_try all_ok true run_try_env (cBroker mg_c7) p conn cfg peer));
    [done|by constructor|done| |]; injection E as <- <- <- <-; [|vm_compute; reflexivity].
  apply (bool_decide_unpack _). by vm_compute.
Qed.
(** Operations on the store do not touch the broker. *)
Lemma store_runs c polls ops st0 ops0 :
  Forall op_bytes ops -> rtc service_step (mkService c st0 ops0 polls) (mkService c (foldr (fun o s => exec s o) st0 ops) (ops ++ ops0) polls).
Proof. induction 1 as [|o ops Ho F IH]; [apply rtc_refl|]. eapply rtc_r; [exact IH|]. by apply ss_store. Qed.
Lemma mg_run : rtc service_step (quiet_service mg_c0) mg_end.
Proof.
  etrans; [exact mg_prepares|].
  destruct (cThreads mg_c8) as [|[| | |p peer conn sink source| | | | |] [|]] eqn:E; try discriminate E.
  assert (holder sink source = (10, 11)) as Hk by (injection E as <- <- <- <- <-; reflexivity).
  assert (mg_c8 = mkConfig (cBroker mg_c8) ([] ++ GCorrelate p peer conn sink source :: []) (cOpen mg_c8) (cReleased mg_c8)) as E8
    by (cbn [app]; rewrite <- E; reflexivity).
  apply (rtc_l _ _ (mkService mg_c8 (NewStore 5) [] (take 1 mg_polls))).
  { pose proof (ss_poll (cBroker mg_c8) [] p peer conn sink source [] (cOpen mg_c8) (cReleased mg_c8) (NewStore 5) [] []) as X.
    cbv zeta in X. rewrite <- E8, Hk in X. apply X. by vm_compute. }
  etrans; [apply (store_runs _ _ demo_ops), demo_ops_bytes|]. rewrite app_nil_r. fold (run_ops 5 demo_ops) mg_store.
  apply (rtc_l _ _ (mkService mg_c8 mg_store demo_ops mg_polls)).
  { pose proof (ss_poll (cBroker mg_c8) [] p peer conn sink source [] (cOpen mg_c8) (cReleased mg_c8) mg_store demo_ops (take 1 mg_polls)) as X.
    cbv zeta in X. rewrite <- E8, Hk in X. apply X. by vm_compute. }
  apply (rtc_l _ _ mg_end); [|apply rtc_refl].
  pose proof (ss_publish (cBroker mg_c8) [] p peer conn sink source [] (cOpen mg_c8) (cReleased mg_c8) mg_store demo_ops mg_polls all_ok true mg_publish) as X.
  cbv zeta in X. rewrite <- E8, Hk in X.
  replace mg_end with (let o := acquire_publish all_ok true mg_publish (cBroker mg_c8) p peer conn sink source in
    mkService (mkConfig (oBroker o) ([] ++ oNext o ++ []) (kernel (cOpen mg_c8) (oOpened o) (oClosed o)) (cReleased mg_c8 ++ releases (oNext o)))
      mg_store demo_ops (filter (fun x => x.1 <> (10, 11)) mg_polls))
    by (injection E as <- <- <- <- <-; vm_compute; reflexivity).
  apply X; [by vm_compute|by vm_compute|]. injection E as <- <- <- <- <-. apply (bool_decide_unpack _). by vm_compute.
Qed.
Lemma media_only_witness :
  exists x s1, sessions mg_end !! 0%nat = Some x /\ sCallToken x = 6 /\ sCallToken x <> 0 /\
    rtc service_step s1 mg_end /\ sessions s1 !! 0%nat = None.
Proof.
  destruct (sessions mg_end !! 0%nat) as [x|] eqn:E; [|vm_compute in E; discriminate E].
  destruct (serve_setup (fun _ => true) mg_options 5 7) as [[[client b] server]|] eqn:Su; [|vm_compute in Su; discriminate Su].
  destruct (media_only_for_our_calls (fun _ => true) mg_options 5 7 client b server mg_end 0%nat x Su) as (Nz & s1 & c & _ & R & N & _).
  - assert (service_start client b = quiet_service mg_c0) as -> by (vm_compute in Su; injection Su as <- <- _; vm_compute; reflexivity).
    exact mg_run.
  - by vm_compute.
  - exact E.
  - exists x, s1. split; [reflexivity|]. split; [vm_compute in E; injection E as <-; reflexivity|]. split; [exact Nz|]. split; [exact R|exact N].
Defined.

(** The default command line cannot serve: the release wait has to be measured and given. *)
Lemma default_needs_wait valid device started unixNano : is_ok (serve_setup valid (default_options device) started unixNano) = false.
Proof.
  unfold serve_setup, default_options. cbn [opAdapter opDevice opMediaSocket opPeerUID opMediaStartupLease opMediaProgressLease opNormalReleaseWait opControlSocket].
  destruct (NewClient _ _ _ _ _) as [c|]; [|done]. cbn [result_bind]. destruct (NewBroker _ _ _ _ _) as [b|]; [|done]. cbn [result_bind].
  unfold ConfigureMediaLeases. destruct (_ || _); [done|]. by destruct (Broker.started b).
Qed.
