(* ===== verification/SmsStartup.v ===== *)
(** * Starting the SMS bridge

    Models main of src/callbridge-sms-go/cmd/sms-bridge/main.go and [New] and [Run] of
    src/callbridge-sms-go/internal/bridge/service.go: the order in which the components are
    built, which goroutines run, when the MAP loop may begin, and what is closed at the end.
    The answers of the file system and the network are inputs; what is done is a trace. *)

From S2P Require Import Prelude GoStd GoText GoUrl GoNet Handoff Qos Broker SmsStore Message Mns Ami SmsConfig Media SmsService SmsHttp SafeLog.

(** ** [New] *)
Section New.
Context {File : Type} `{StateFile File} `{LegacyJSON}.

Record built := mkBuilt { btStore : Store; btImported : bool; btAmi : Client; btMedia : MediaClient; btStatus : status }.
(** The disk is returned too: opening the state may have written it. *)
Definition NewService (cfg : Config) (f : option fault) (dk : disk File) (now : Z) (paths : legacy) (secret : option secret_file)
  : disk File * result built :=
  let '(s, dk, r) := OpenStore f dk now paths in
  match s, r with
  | Some store, Ok imported =>
      (dk, let! client := NewClient (cfAMIAddress cfg) (cfAMIUser cfg) secret in
           let! media := NewMedia (cfMediaURL cfg) (cfMediaMaxBytes cfg) (cfMediaTimeout cfg) in
           Ok (mkBuilt store imported client media newStatus))
  | _, Error e => (dk, Error (Wrap "open SMS state" e))
  | None, Ok _ => (dk, fail! "open SMS state")
  end.

(** [main]: what the command line and the environment lead to. *)
Inductive startup := Fatal (e : error) | PrintVersion | ConfigOK | Start (cfg : Config) (l : Log) (b : built).
Definition main (arguments : Z) (version check : bool) (getenv : string -> bytes) (secret : option secret_file)
    (fl : faults) (current old : option bytes) (mkdir : bool)
    (f : option fault) (dk : disk File) (now : Z) (paths : legacy) : disk File * startup :=
  if negb (arguments =? 0) then (dk, Fatal (New "unexpected positional argument"))
  else if version then (dk, PrintVersion)
  else match Load getenv with
  | Error e => (dk, Fatal e)
  | Ok cfg =>
      if check then
        (dk, match NewClient (cfAMIAddress cfg) (cfAMIUser cfg) secret with Error e => Fatal e | Ok _ => ConfigOK end)
      else match OpenLog fl (HasPrefix (cfLogFile cfg) (str "/")) mkdir (Z.shiftl 4 20) current old with
           | Error e => (dk, Fatal e)
           | Ok l =>
               match NewService cfg f dk now paths secret with
               | (dk, Error e) => (dk, Fatal e)
               | (dk, Ok b) => (dk, Start cfg l b)
               end
           end
  end.
End New.

(** ** [Run] *)
Inductive step :=
  | BrokerStarted | BrokerDisabled
  | ListenInternal | ListenOutbox | ServeInternal | ServeOutbox
  | NotificationsStarted | MapLoopWaits
  | ServersShutDown | CloseOutbox | CloseInternal | ContextStopped | BrokerAwaited.
#[export] Instance step_eq_dec : EqDecision step.
Proof. solve_decision. Defined.
(** The answers: of the two [Listen] calls, and why [Run] stopped waiting. *)
Record run_env := mkRunEnv { reInternal : result unit; reOutbox : result unit; reServe : option error }.
Definition listening_run (cfg : Config) (e : run_env) : list step * result unit :=
  match reInternal e with
  | Error err => ([], Error (Wrap "listen internal MAP API" err))
  | Ok _ =>
      let '(trace, r) :=
        match reOutbox e with
        | Error err => ([], Error (Wrap "listen outbox API" err))
        | Ok _ =>
            let '(trace, r) :=
              match (if classicProfilesEnabled cfg then
                       match NewServer (cfBluetoothDevice cfg) (cfAdapter cfg) (cfMNSChannel cfg) with
                       | Error err => Error err
                       | Ok _ => Ok [NotificationsStarted; MapLoopWaits]
                       end
                     else Ok []) with
              | Error err => ([], Error err)
              | Ok started =>
                  match reServe e with
                  | Some err => (started, Error err)
                  | None => (started ++ [ServersShutDown], Ok tt)
                  end
              end in
            ([ListenOutbox; ServeInternal; ServeOutbox] ++ trace ++ [CloseOutbox], r)
        end in
      ([ListenInternal] ++ trace ++ [CloseInternal], r)
  end.
Definition Run (cfg : Config) (e : run_env) : list step * result unit :=
  let broker :=
    if cfLEAudioMode cfg =s? str "le-canary" then
      match NewBroker (cfAdapter cfg) (cfBluetoothDevice cfg) (cfLEAudioSocket cfg) (cfLEAudioPeerUID cfg) true with
      | Error _ => [BrokerDisabled]
      | Ok _ => [BrokerStarted]
      end
    else [] in
  let '(trace, r) := listening_run cfg e in
  (broker ++ trace ++ [ContextStopped] ++ (match broker with [BrokerStarted] => [BrokerAwaited] | _ => [] end), r).

(** When the MAP loop begins, in time since the start: with the first registration of the
    notification service or after ten seconds, unless the context ends first. *)
Definition map_loop_start (registered cancelled : option Z) : option Z :=
  let begin := match registered with Some t => Z.min t (10 * second) | None => 10 * second end in
  match cancelled with Some t => if t <=? begin then None else Some begin | None => Some begin end.
(** The [Registered] callback: the status, and whether [mnsReady] is closed, which may happen
    once only.  [None] is the panic of a second close. *)
Definition on_registered (st : option (status * bool)) (once : bool) (value : bool) : option (status * bool) * bool :=
  match st with
  | None => (None, once)
  | Some (st, closed) =>
      let st := setMNSRegistered value st in
      if value && negb once then (if closed then None else Some (st, true), true) else (Some (st, closed), once)
  end.
Fixpoint registrations (st : option (status * bool)) (once : bool) (values : list bool) : option (status * bool) * bool :=
  match values with
  | [] => (st, once)
  | v :: values => let '(st, once) := on_registered st once v in registrations st once values
  end.

(** ** What a loaded configuration guarantees *)
Lemma Load_validated getenv c : Load getenv = Ok c -> Validate c = Ok tt.
Proof.
  unfold Load. intros H.
  repeat match type of H with
    | result_bind (Validate _) _ = _ => fail 1
    | result_bind _ _ = _ => apply result_bind_ok in H as (? & _ & H)
    end.
  cbv zeta in H. apply result_bind_ok in H as ([] & V & <-%Ok_inj). exact V.
Qed.
Lemma Validate_parts c : Validate c = Ok tt ->
  cfBluetoothDevice c <> [] /\ validAdapter (cfAdapter c) = true /\ 1 <= cfMNSChannel c <= 30 /\
  cfMediaURL c = str "https://mmmsg.acrobits.net/" /\ HasPrefix (cfLEAudioSocket c) (str "/") = true /\ HasPrefix (cfLogFile c) (str "/") = true.
Proof.
  unfold Validate. intros V.
  repeat match type of V with (if ?b then _ else _) = _ => let E := fresh "E" in destruct b eqn:E; [discriminate V|] end. clear V.
  unfold str_eqb in *. bool_prop. cbn [existsb] in *.
  repeat match goal with B : _ || _ = false |- _ => apply orb_false_iff in B as [? B] end.
  unfold bad_path in *. repeat match goal with B : _ || _ = false |- _ => apply orb_false_iff in B as [? B] end.
  bool_prop. split_and!; try done; try lia. intros D. rewrite D in *. done.
Qed.

Lemma validAdapter_prefix a : validAdapter a = true -> HasPrefix a (str "hci") = true /\ a <> [].
Proof. unfold validAdapter. destruct (HasPrefix a (str "hci")) eqn:Pf; [|done]. intros _. split; [done|]. intros ->. done. Qed.

(** The constructors of the components accept what [Load] accepts, except that the media
    broker's socket path has a bound of its own. *)
Lemma loaded_accepted getenv c : Load getenv = Ok c -> is_ok (NewMedia (cfMediaURL c) (cfMediaMaxBytes c) (cfMediaTimeout c)) = true.
Proof.
  intros L. pose proof (Load_valid _ _ L) as K. destruct (Validate_parts _ (Load_validated _ _ L)) as (_ & _ & _ & -> & _).
  unfold NewMedia. change (Url.Parse (str "https://mmmsg.acrobits.net/")) with
    (Some (Url.mkURL (str "https") [] None (str "mmmsg.acrobits.net") (str "/") [] false false [] [])).
  destruct K as [_ _ T C _ _ _ _ _ _]. unfold second in T.
  change (Z.shiftl 2 20) with (2048 * 1024).
  rewrite (proj2 (Z.ltb_ge _ 1)), (proj2 (Z.ltb_ge (2048 * 1024) _)), (proj2 (Z.ltb_ge _ (10 * 1000000000))), (proj2 (Z.ltb_ge (120 * 1000000000) _)) by lia.
  done.
Qed.
Lemma loaded_notifications getenv c : Load getenv = Ok c ->
  NewServer (cfBluetoothDevice c) (cfAdapter c) (cfMNSChannel c) = Ok (mkServer (cfBluetoothDevice c) (cfAdapter c) (cfMNSChannel c)).
Proof.
  intros L. destruct (Validate_parts _ (Load_validated _ _ L)) as (D & A & Ch & _). apply validAdapter_prefix in A as [_ A].
  unfold NewServer. assert (forall s : bytes, s <> [] -> (len s =? 0) = false) as Ne by (intros [|]; done).
  rewrite (Ne _ D), (Ne _ A), (proj2 (Z.ltb_ge _ 1)), (proj2 (Z.ltb_ge 30 _)) by lia. done.
Qed.
Lemma loaded_broker getenv c : Load getenv = Ok c ->
  is_ok (NewBroker (cfAdapter c) (cfBluetoothDevice c) (cfLEAudioSocket c) (cfLEAudioPeerUID c) true) = (len (cfLEAudioSocket c) <=? maximumSocketPath).
Proof.
  intros L. pose proof (Load_valid _ _ L) as K. destruct (Validate_parts _ (Load_validated _ _ L)) as (D & A & _ & _ & So & _).
  apply validAdapter_prefix in A as [A _]. assert ((len (cfBluetoothDevice c) =? 0) = false) as Ne by (destruct (cfBluetoothDevice c); done).
  unfold NewBroker, NewHandoffServer. rewrite A, Ne, So. cbn [negb orb]. destruct K as [_ _ _ C _ _ _ _ _ _].
  rewrite (proj2 (Z.ltb_ge (cfLEAudioPeerUID c) 0)) by lia. rewrite orb_false_r, Z.ltb_antisym. by destruct (_ <=? _).
Qed.

(** C37.  A configuration that [Load] accepts runs: [Run] fails only when a port cannot be
    opened or a server stops; the notification server and the MAP loop start exactly in the
    normal profile mode, the media broker exactly in le-canary mode with a socket path of at
    most 100 bytes; each listener that was opened is closed again on every path, and a broker that
    was started is stopped and awaited. *)
Theorem loaded_service_runs getenv c e trace r :
  Load getenv = Ok c -> Run c e = (trace, r) ->
  (is_ok r = true <-> reInternal e = Ok tt /\ reOutbox e = Ok tt /\ reServe e = None) /\
  (NotificationsStarted ∈ trace <-> cfClassicProfileMode c = ClassicProfileNormal /\ reInternal e = Ok tt /\ reOutbox e = Ok tt) /\
  (MapLoopWaits ∈ trace <-> NotificationsStarted ∈ trace) /\
  (BrokerStarted ∈ trace <-> cfLEAudioMode c = str "le-canary" /\ len (cfLEAudioSocket c) <= maximumSocketPath) /\
  (BrokerAwaited ∈ trace <-> BrokerStarted ∈ trace) /\ ContextStopped ∈ trace /\
  (ListenInternal ∈ trace <-> CloseInternal ∈ trace) /\ (ListenOutbox ∈ trace <-> CloseOutbox ∈ trace).
Proof.
  intros L E. pose proof (loaded_notifications _ _ L) as Nt. pose proof (loaded_broker _ _ L) as Br. pose proof (co_mode _ (Load_valid _ _ L)) as Md.
  unfold Run, listening_run in E. rewrite Nt in E. clear L Nt.
  assert (classicProfilesEnabled c = true <-> cfClassicProfileMode c = ClassicProfileNormal) as Cl.
  { unfold classicProfilesEnabled, classicProfileMode, str_eqb. destruct Md as [-> | [-> _]]; by vm_compute. }
  assert (len (cfLEAudioSocket c) <= maximumSocketPath <->
    is_ok (NewBroker (cfAdapter c) (cfBluetoothDevice c) (cfLEAudioSocket c) (cfLEAudioPeerUID c) true) = true) as Bk by (rewrite Br; by rewrite Z.leb_le).
  rewrite Bk, <- Cl. clear Br Bk Md Cl. set (wants := cfLEAudioMode c =s? str "le-canary") in *.
  assert (cfLEAudioMode c = str "le-canary" <-> wants = true) as -> by (subst wants; unfold str_eqb; by rewrite bool_decide_eq_true).
  clearbody wants.
  rewrite <- (bool_decide_eq_true (NotificationsStarted ∈ trace)), <- (bool_decide_eq_true (MapLoopWaits ∈ trace)),
    <- (bool_decide_eq_true (BrokerStarted ∈ trace)), <- (bool_decide_eq_true (BrokerAwaited ∈ trace)), <- (bool_decide_eq_true (ContextStopped ∈ trace)),
    <- (bool_decide_eq_true (ListenInternal ∈ trace)), <- (bool_decide_eq_true (CloseInternal ∈ trace)),
    <- (bool_decide_eq_true (ListenOutbox ∈ trace)), <- (bool_decide_eq_true (CloseOutbox ∈ trace)).
  destruct (reInternal e) as [[]|], (reOutbox e) as [[]|], (reServe e) as [err|], (classicProfilesEnabled c), wants;
    try (destruct (NewBroker _ _ _ _ _)); injection E as <- <-; vm_compute; intuition discriminate.
Qed.

Lemma loaded_service_witness :
  exists c trace, Load minimal_env = Ok c /\ Run c (mkRunEnv (Ok tt) (Ok tt) None) = (trace, Ok tt) /\ NotificationsStarted ∈ trace.
Proof.
  destruct (Load minimal_env) as [c|] eqn:L; [|vm_compute in L; discriminate L].
  destruct (Run c (mkRunEnv (Ok tt) (Ok tt) None)) as [trace r] eqn:R.
  destruct (loaded_service_runs minimal_env c (mkRunEnv (Ok tt) (Ok tt) None) trace r L R) as (Ok1 & Nt & _).
  exists c, trace. split; [reflexivity|]. split.
  - destruct r as [[]|]; [exact R|]. discriminate (proj2 Ok1 (conj eq_refl (conj eq_refl eq_refl))).
  - apply Nt. split; [|split; reflexivity]. vm_compute in L. injection L as <-. reflexivity.
Defined.

(** [mnsReady] is closed at most once however often BlueZ restarts, the MAP loop begins
    within ten seconds, and the status says what was reported last. *)
Lemma registrations_safe values st once closed :
  closed = once ->
  exists st', registrations (Some (st, closed)) once values = (Some (st', once || existsb (fun v => v) values), once || existsb (fun v => v) values) /\
    stRegistered st' = default (stRegistered st) (last values).
Proof.
  intros ->. revert st once. induction values as [|v values IH]; intros st once; cbn [registrations existsb].
  - exists st. by rewrite orb_false_r.
  - cbn [on_registered]. destruct (v && negb once) eqn:E.
    + bool_prop. subst. destruct (IH (setMNSRegistered true st) true) as (st' & -> & S). exists st'. split; [done|].
      rewrite S. destruct values; [done|]. rewrite last_cons_cons. by destruct (last (_ :: _)) eqn:La; [|apply last_None in La].
    + destruct (IH (setMNSRegistered v st) once) as (st' & -> & S). exists st'. split.
      * by destruct v, once.
      * rewrite S. destruct values; [done|]. rewrite last_cons_cons. by destruct (last (_ :: _)) eqn:La; [|apply last_None in La].
Qed.
Lemma map_loop_start_soon registered t : (forall r, registered = Some r -> 0 <= r) ->
  map_loop_start registered None = Some t -> 0 <= t <= 10 * second.
Proof. unfold map_loop_start, second. intros P. destruct registered as [r|]; intros [= <-]; [specialize (P r eq_refl)|]; lia. Qed.
